(** * Vehicle-speed: tracking, speed estimation and line-crossing counting

    A shallow embedding of the stateful core of the repository:

    - [modules/vehicle_tracking.py]    (class [VehicleTracker])
    - [modules/distance_calculation.py] (class [DistanceCalculator])
    - [modules/speed_calculation.py]   (class [SpeedCalculator])
    - [modules/vehicle_counting.py]    (class [VehicleCounter])
    - [modules/data_storage.py]        (class [DataStorage], the records)
    - [main.py]                        (class [VehicleSpeedDetectionSystem])

    Conventions of the embedding.

    - Python [int] is [Z].  Bounding boxes come from [cv2.boundingRect] and
      are 4-tuples of [int].
    - Python [float] is modelled by the exact rationals [Q]: every double is
      a rational, and [+], [-], [*], [/] and the comparisons are the exact
      ones.  Rounding, infinities and NaN are outside the model.
    - A Python [dict] is an association list in insertion order (Python
      dictionaries iterate in insertion order, and the tracker depends on
      it); a Python [set] is a [gset].
    - A Python exception is the [Raise] constructor of [result]; a method
      that mutates [self] maps the old object to [result] of the new one.
      No caller in the repository catches an exception, so the object a
      raising call leaves behind is not modelled.
    - [time.time()] is an explicit argument [now]; [np.sqrt] is a
      parameter [np_sqrt] of the speed calculator. *)

From stdpp Require Import base option list sorting strings gmap sets.
From Stdlib Require Import ZArith QArith Lia.

#[local] Set Warnings "-clear-no-such-hyp".

Open Scope Z_scope.

(** ** Exceptions *)

Inductive exn : Type :=
| ZeroDivisionError
| KeyError
| IndexError
| ValueError.

Inductive result (A : Type) : Type :=
| Ok (a : A)
| Raise (e : exn).
Arguments Ok {A} a.
Arguments Raise {A} e.

Definition bind {A B : Type} (m : result A) (k : A -> result B) : result B :=
  match m with
  | Ok a => k a
  | Raise e => Raise e
  end.

Notation "'let*' x ':=' m 'in' k" := (bind m (fun x => k))
  (at level 10, x name, m at level 100, k at level 200).

(** [for x in xs: body] over a state that the body may abort. *)
Fixpoint for_each {S A : Type} (body : S -> A -> result S) (xs : list A) (s : S)
  : result S :=
  match xs with
  | [] => Ok s
  | x :: rest => let* s' := body s x in for_each body rest s'
  end.

(** [enumerate(xs)]. *)
Fixpoint enumerate_from {A : Type} (i : Z) (xs : list A) : list (Z * A) :=
  match xs with
  | [] => []
  | x :: rest => (i, x) :: enumerate_from (i + 1) rest
  end.

Definition enumerate {A : Type} (xs : list A) : list (Z * A) := enumerate_from 0 xs.

(** [xs[i]] with Python's negative indices. *)
Definition list_getitem {A : Type} (xs : list A) (i : Z) : result A :=
  let n := Z.of_nat (length xs) in
  let k := if i <? 0 then i + n else i in
  if (k <? 0) || (n <=? k) then Raise IndexError
  else match nth_error xs (Z.to_nat k) with
       | Some x => Ok x
       | None => Raise IndexError
       end.

(** ** Dictionaries keyed by integers, in insertion order *)

Abbreviation dict V := (list (Z * V)).

Section Dict.
Context {V : Type}.

Definition dict_keys (d : dict V) : list Z := map fst d.

Fixpoint dict_get (k : Z) (d : dict V) : option V :=
  match d with
  | [] => None
  | (k', v) :: rest => if Z.eqb k k' then Some v else dict_get k rest
  end.

(** [d[k]] as an expression. *)
Definition dict_getitem (k : Z) (d : dict V) : result V :=
  match dict_get k d with
  | Some v => Ok v
  | None => Raise KeyError
  end.

Definition dict_mem (k : Z) (d : dict V) : bool :=
  match dict_get k d with Some _ => true | None => false end.

(** [d[k] = v]: in place when the key is present, at the end otherwise. *)
Fixpoint dict_set (k : Z) (v : V) (d : dict V) : dict V :=
  match d with
  | [] => [(k, v)]
  | (k', v') :: rest =>
      if Z.eqb k k' then (k', v) :: rest else (k', v') :: dict_set k v rest
  end.

(** [del d[k]] for a key that is present. *)
Fixpoint dict_del (k : Z) (d : dict V) : dict V :=
  match d with
  | [] => []
  | (k', v') :: rest =>
      if Z.eqb k k' then rest else (k', v') :: dict_del k rest
  end.
End Dict.

(** ** Rational comparisons as booleans *)

Definition Qltb (x y : Q) : bool := negb (Qle_bool y x).

(** ** [vehicle_tracking.py] *)

Definition Box : Type := Z * Z * Z * Z.

Record FirstSeen : Type := mkFirstSeen {
  fs_bbox : Box;
  fs_crossed_line : bool
}.

(** The value stored under a vehicle id. *)
Record Vehicle : Type := mkVehicle {
  bbox : Box;
  disappeared : Z;
  crossed_line : bool;
  first_seen : FirstSeen
}.

Definition set_bbox (b : Box) (v : Vehicle) : Vehicle :=
  mkVehicle b (disappeared v) (crossed_line v) (first_seen v).
Definition set_disappeared (n : Z) (v : Vehicle) : Vehicle :=
  mkVehicle (bbox v) n (crossed_line v) (first_seen v).
Definition set_crossed_line (c : bool) (v : Vehicle) : Vehicle :=
  mkVehicle (bbox v) (disappeared v) c (first_seen v).

Module VehicleTracker.

(** [VehicleTracker._calculate_overlap]: intersection over union.  The
    areas are integers; the quotient is a float, here an exact rational.
    [intersection_area / float(0)] raises. *)
Definition _calculate_overlap (bbox1 bbox2 : Box) : result Q :=
  let '(x1, y1, w1, h1) := bbox1 in
  let '(x2, y2, w2, h2) := bbox2 in
  let x_left := Z.max x1 x2 in
  let y_top := Z.max y1 y2 in
  let x_right := Z.min (x1 + w1) (x2 + w2) in
  let y_bottom := Z.min (y1 + h1) (y2 + h2) in
  if (x_right <? x_left) || (y_bottom <? y_top) then Ok 0%Q
  else
    let intersection_area := (x_right - x_left) * (y_bottom - y_top) in
    let bbox1_area := w1 * h1 in
    let bbox2_area := w2 * h2 in
    let union_area := bbox1_area + bbox2_area - intersection_area in
    if union_area =? 0 then Raise ZeroDivisionError
    else Ok (inject_Z intersection_area / inject_Z union_area)%Q.

(** The intermediate areas of [_calculate_overlap], for boxes that pass the
    intersection test. *)
Definition intersection_area (bbox1 bbox2 : Box) : Z :=
  let '(x1, y1, w1, h1) := bbox1 in
  let '(x2, y2, w2, h2) := bbox2 in
  (Z.min (x1 + w1) (x2 + w2) - Z.max x1 x2)
  * (Z.min (y1 + h1) (y2 + h2) - Z.max y1 y2).

Definition union_area (bbox1 bbox2 : Box) : Z :=
  let '(x1, y1, w1, h1) := bbox1 in
  let '(x2, y2, w2, h2) := bbox2 in
  w1 * h1 + w2 * h2 - intersection_area bbox1 bbox2.

Record t : Type := mkTracker {
  next_vehicle_id : Z;
  vehicles : dict Vehicle;
  max_disappeared : Z;
  min_overlap_ratio : Q;
  crossed_vehicles : gset Z
}.

Definition set_vehicles (d : dict Vehicle) (self : t) : t :=
  mkTracker (next_vehicle_id self) d (max_disappeared self) (min_overlap_ratio self)
            (crossed_vehicles self).

(** [VehicleTracker.__init__]. *)
Definition __init__ (max_disappeared : Z) (min_overlap_ratio : Q) : t :=
  mkTracker 0 [] max_disappeared min_overlap_ratio ∅.

(** [self.vehicles[vehicle_id][field] = ...]: the stored record is looked up
    (a missing key raises) and replaced in place. *)
Definition modify_vehicle (vehicle_id : Z) (f : Vehicle -> Vehicle) (self : t)
  : result t :=
  let* v := dict_getitem vehicle_id (vehicles self) in
  Ok (set_vehicles (dict_set vehicle_id (f v) (vehicles self)) self).

(** [VehicleTracker._check_line_crossing].  [and] is short-circuit: the
    table is read only when the bottom edge has reached the line. *)
Definition _check_line_crossing (self : t) (vehicle_id : Z) (b : Box)
    (detection_line_y : Z) : result t :=
  let '(x, y, w, h) := b in
  let vehicle_bottom := y + h in
  if vehicle_bottom >=? detection_line_y then
    let* v := dict_getitem vehicle_id (vehicles self) in
    if negb (crossed_line v) then
      let* s1 := modify_vehicle vehicle_id (set_crossed_line true) self in
      Ok (mkTracker (next_vehicle_id s1) (vehicles s1) (max_disappeared s1)
                    (min_overlap_ratio s1) ({[vehicle_id]} ∪ crossed_vehicles s1))
    else Ok self
  else Ok self.

(** [VehicleTracker.register]. *)
Definition register (self : t) (b : Box) (detection_line_y : Z) : result t :=
  let s1 := set_vehicles
              (dict_set (next_vehicle_id self)
                 (mkVehicle b 0 false (mkFirstSeen b false)) (vehicles self)) self in
  let* s2 := _check_line_crossing s1 (next_vehicle_id s1) b detection_line_y in
  Ok (mkTracker (next_vehicle_id s2 + 1) (vehicles s2) (max_disappeared s2)
                (min_overlap_ratio s2) (crossed_vehicles s2)).

(** The body shared by the two ageing loops of [update]:
    [disappeared += 1], then [del] when it exceeds [max_disappeared]. *)
Definition mark_disappeared (self : t) (vehicle_id : Z) : result t :=
  let* s1 := modify_vehicle vehicle_id
               (fun v => set_disappeared (disappeared v + 1) v) self in
  let* v := dict_getitem vehicle_id (vehicles s1) in
  if disappeared v >? max_disappeared s1 then
    let* _ := dict_getitem vehicle_id (vehicles s1) in
    Ok (set_vehicles (dict_del vehicle_id (vehicles s1)) s1)
  else Ok s1.

(** The inner loop of [update]: the scan of the detections for one vehicle,
    carrying [(max_overlap, max_overlap_idx)]. *)
Definition scan_step (min_overlap_ratio : Q) (vehicle_bbox : Box) (used_bboxes : gset Z)
    (acc : Q * Z) (jb : Z * Box) : result (Q * Z) :=
  let '(max_overlap, max_overlap_idx) := acc in
  let '(j, b) := jb in
  if decide (j ∈ used_bboxes) then Ok acc
  else
    let* overlap := _calculate_overlap vehicle_bbox b in
    if Qltb max_overlap overlap && Qltb min_overlap_ratio overlap
    then Ok (overlap, j)
    else Ok acc.

Definition scan_detections (min_overlap_ratio : Q) (vehicle_bbox : Box)
    (bounding_boxes : list Box) (used_bboxes : gset Z) : result (Q * Z) :=
  for_each (scan_step min_overlap_ratio vehicle_bbox used_bboxes)
           (enumerate bounding_boxes) (0%Q, -1).

(** The state of the matching loop. *)
Record MatchState : Type := mkMatch {
  ms_tracker : t;
  used_vehicles : gset Z;
  used_bboxes : gset Z
}.

(** The body of the outer matching loop, for the pair
    [(vehicle_id, vehicle_bboxes[i])]. *)
Definition match_step (bounding_boxes : list Box) (detection_line_y : Z)
    (s : MatchState) (iv : Z * Box) : result MatchState :=
  let '(vehicle_id, vehicle_bbox) := iv in
  let self := ms_tracker s in
  let* best := scan_detections (min_overlap_ratio self) vehicle_bbox
                 bounding_boxes (used_bboxes s) in
  let max_overlap_idx := snd best in
  if negb (max_overlap_idx =? -1) then
    let* b := list_getitem bounding_boxes max_overlap_idx in
    let* s1 := modify_vehicle vehicle_id (set_bbox b) self in
    let* s2 := modify_vehicle vehicle_id (set_disappeared 0) s1 in
    let* b' := list_getitem bounding_boxes max_overlap_idx in
    let* s3 := _check_line_crossing s2 vehicle_id b' detection_line_y in
    Ok (mkMatch s3 ({[vehicle_id]} ∪ used_vehicles s)
                ({[max_overlap_idx]} ∪ used_bboxes s))
  else Ok s.

(** [VehicleTracker.update].  The result is the new tracker together with
    the returned object, which is [self.vehicles] on every path. *)
Definition update (self : t) (bounding_boxes : list Box) (detection_line_y : Z)
  : result (t * dict Vehicle) :=
  if Nat.eqb (length bounding_boxes) 0 then
    let* s' := for_each mark_disappeared (dict_keys (vehicles self)) self in
    Ok (s', vehicles s')
  else if Nat.eqb (length (vehicles self)) 0 then
    let* s' := for_each (fun s0 b => register s0 b detection_line_y)
                 bounding_boxes self in
    Ok (s', vehicles s')
  else
    let vehicle_ids := dict_keys (vehicles self) in
    let* vehicle_bboxes :=
      for_each
        (fun acc vehicle_id =>
           let* v := dict_getitem vehicle_id (vehicles self) in Ok (acc ++ [bbox v]))
        vehicle_ids [] in
    let* s :=
      for_each
        (fun s iv =>
           let* vb := list_getitem vehicle_bboxes (fst iv) in
           match_step bounding_boxes detection_line_y s (snd iv, vb))
        (enumerate vehicle_ids) (mkMatch self ∅ ∅) in
    let* s1 :=
      for_each
        (fun s0 vehicle_id =>
           if decide (vehicle_id ∈ used_vehicles s) then Ok s0
           else mark_disappeared s0 vehicle_id)
        vehicle_ids (ms_tracker s) in
    let* s2 :=
      for_each
        (fun s0 ib =>
           if decide (fst ib ∈ used_bboxes s) then Ok s0
           else register s0 (snd ib) detection_line_y)
        (enumerate bounding_boxes) s1 in
    Ok (s2, vehicles s2).

(** [VehicleTracker.get_crossed_count]. *)
Definition get_crossed_count (self : t) : nat := size (crossed_vehicles self).

(** [VehicleTracker.get_active_vehicles]. *)
Definition get_active_vehicles (self : t) : dict Vehicle :=
  filter (fun kv => disappeared (snd kv) = 0) (vehicles self).

(** The public operations that change a tracker, and a run of them. *)
Inductive op : Type :=
| Update (bounding_boxes : list Box) (detection_line_y : Z)
| Register (b : Box) (detection_line_y : Z).

Definition step (self : t) (o : op) : result t :=
  match o with
  | Update bounding_boxes detection_line_y =>
      let* r := update self bounding_boxes detection_line_y in Ok (fst r)
  | Register b detection_line_y => register self b detection_line_y
  end.

Definition run (ops : list op) (self : t) : result t := for_each step ops self.

End VehicleTracker.

(** ** [distance_calculation.py] *)

Module DistanceCalculator.

Record t : Type := mkCalc {
  reference_width_pixels : option Q;
  reference_width_meters : option Q;
  pixels_per_meter : option Q
}.

(** [DistanceCalculator.__init__]. *)
Definition __init__ (reference_width_pixels reference_width_meters : option Q)
  : result t :=
  match reference_width_pixels, reference_width_meters with
  | Some p, Some m =>
      if Qeq_bool m 0 then Raise ZeroDivisionError
      else Ok (mkCalc (Some p) (Some m) (Some (p / m)%Q))
  | _, _ => Ok (mkCalc reference_width_pixels reference_width_meters None)
  end.

(** [DistanceCalculator.set_reference]. *)
Definition set_reference (self : t) (reference_width_pixels reference_width_meters : Q)
  : result t :=
  if Qeq_bool reference_width_meters 0 then Raise ZeroDivisionError
  else Ok (mkCalc (Some reference_width_pixels) (Some reference_width_meters)
                  (Some (reference_width_pixels / reference_width_meters)%Q)).

(** [DistanceCalculator.pixel_to_meter].  The message of the [ValueError]
    says that the reference measurements are not set.  With a factor equal
    to zero numpy yields an infinity or a NaN, which [Q] does not have. *)
Definition pixel_to_meter (self : t) (pixel_distance : Q) : result Q :=
  match pixels_per_meter self with
  | None => Raise ValueError
  | Some ppm => Ok (pixel_distance / ppm)%Q
  end.

(** [DistanceCalculator.calculate_distance]. *)
Definition calculate_distance (np_sqrt : Z -> Q) (self : t) (point1 point2 : Z * Z)
  : result Q :=
  let pixel_distance :=
    np_sqrt ((fst point2 - fst point1) ^ 2 + (snd point2 - snd point1) ^ 2) in
  pixel_to_meter self pixel_distance.

(** [DistanceCalculator.meter_to_pixel]. *)
Definition meter_to_pixel (self : t) (meter_distance : Q) : result Q :=
  match pixels_per_meter self with
  | None => Raise ValueError
  | Some ppm => Ok (meter_distance * ppm)%Q
  end.

(** [DistanceCalculator.calibrate_from_lane_width]: a lane is taken to be a
    third of the width [frame.shape[1]] of the frame.  The returned flag is
    always [True]. *)
Definition calibrate_from_lane_width (self : t) (frame_shape : Z * Z)
    (lane_width_meters : Q) : result (t * bool) :=
  let frame_width := snd frame_shape in
  let estimated_lane_width_pixels := (inject_Z frame_width / 3)%Q in
  let* s := set_reference self estimated_lane_width_pixels lane_width_meters in
  Ok (s, true).

End DistanceCalculator.

(** ** [speed_calculation.py] *)

(** [np.mean] of a list of floats. *)
Definition np_mean (xs : list Q) : Q :=
  (fold_left Qplus xs 0 / inject_Z (Z.of_nat (length xs)))%Q.

(** [xs[-n:]] for [n >= 0]; [xs[-0:]] is the whole list. *)
Definition slice_last {A : Type} (n : Z) (xs : list A) : list A :=
  if n =? 0 then xs else skipn (length xs - Z.to_nat n) xs.

Module SpeedCalculator.

(** The value of [self.vehicle_data[vehicle_id]]. *)
Record VehicleData : Type := mkData {
  positions : list (Z * Z);
  times : list Q;
  speeds_history : list Q   (* the key ['speeds'] *)
}.

Record t : Type := mkSpeed {
  distance_calculator : DistanceCalculator.t;
  fps : option Q;
  vehicle_data : gmap Z VehicleData;
  last_frame_time : option Q;
  speeds : gmap Z Q
}.

(** [SpeedCalculator.__init__]. *)
Definition __init__ (distance_calculator : DistanceCalculator.t) (fps : option Q) : t :=
  mkSpeed distance_calculator fps ∅ None ∅.

(** [SpeedCalculator.set_fps]. *)
Definition set_fps (self : t) (fps : Q) : t :=
  mkSpeed (distance_calculator self) (Some fps) (vehicle_data self)
          (last_frame_time self) (speeds self).

Definition set_tables (vd : gmap Z VehicleData) (sp : gmap Z Q) (self : t) : t :=
  mkSpeed (distance_calculator self) (fps self) vd (last_frame_time self) sp.

(** The timestamp of the call. *)
Definition frame_time (self : t) (frame_number : option Z) (current_time : option Q)
    (now : Q) : result Q :=
  match fps self, frame_number with
  | Some f, Some n =>
      if Qeq_bool f 0 then Raise ZeroDivisionError else Ok (inject_Z n / f)%Q
  | _, _ => Ok (match current_time with Some c => c | None => now end)
  end.

(** The centre of a box, with Python's floor division. *)
Definition center (b : Box) : Z * Z :=
  let '(x, y, w, h) := b in (x + w / 2, y + h / 2).

Section WithSqrt.
Variable np_sqrt : Z -> Q.

(** The body of the main loop of [update] for one item of
  [vehicles.items()]. *)
Definition vehicle_step (current_frame_time time_delta : Q) (self : t)
  (item : Z * Vehicle) : result t :=
let '(vehicle_id, vehicle) := item in
let current_position := center (bbox vehicle) in
match vehicle_data self !! vehicle_id with
| None =>
    Ok (set_tables
          (<[vehicle_id := mkData [current_position] [current_frame_time] []]>
             (vehicle_data self))
          (speeds self) self)
| Some data =>
    let* prev_position := list_getitem (positions data) (-1) in
    let* distance_meters :=
      DistanceCalculator.calculate_distance np_sqrt (distance_calculator self)
        prev_position current_position in
    let* time_elapsed :=
      if (0 <? Z.of_nat (length (times data))) then
        let* last := list_getitem (times data) (-1) in
        Ok (current_frame_time - last)%Q
      else Ok time_delta in
    let '(history, speeds') :=
      if Qltb 0 time_elapsed then
        let speed_mps := (distance_meters / time_elapsed)%Q in
        let speed_kmh := (speed_mps * (36 # 10))%Q in
        let history := speeds_history data ++ [speed_kmh] in
        let num_measurements := Z.min 5 (Z.of_nat (length history)) in
        let avg_speed := np_mean (slice_last num_measurements history) in
        (history, <[vehicle_id := avg_speed]> (speeds self))
      else (speeds_history data, speeds self) in
    Ok (set_tables
          (<[vehicle_id := mkData (positions data ++ [current_position])
                                  (times data ++ [current_frame_time])
                                  history]>
             (vehicle_data self))
          speeds' self)
end.

(** [SpeedCalculator.update]: the new object and the returned
  [self.speeds]. *)
Definition update (self : t) (vehicles : dict Vehicle) (frame_number : option Z)
  (current_time : option Q) (now : Q) : result (t * gmap Z Q) :=
let* current_frame_time := frame_time self frame_number current_time now in
let last := match last_frame_time self with
            | None => current_frame_time
            | Some l => l
            end in
let time_delta := (current_frame_time - last)%Q in
let s0 := mkSpeed (distance_calculator self) (fps self) (vehicle_data self)
                  (Some current_frame_time) (speeds self) in
let* s1 := for_each (vehicle_step current_frame_time time_delta) vehicles s0 in
let s2 := set_tables
            (filter (fun kv => dict_mem (fst kv) vehicles = true) (vehicle_data s1))
            (speeds s1) s1 in
Ok (s2, speeds s2).

End WithSqrt.

(** [SpeedCalculator.get_average_speed]. *)
Definition get_average_speed (self : t) : Q :=
  if decide (speeds self = ∅) then 0%Q
  else np_mean (map snd (map_to_list (speeds self))).

(** [SpeedCalculator.get_speed_data]. *)
Definition get_speed_data (self : t) : gmap Z Q := speeds self.

End SpeedCalculator.

(** ** [vehicle_counting.py] *)

Module VehicleCounter.

Record t : Type := mkCounter {
  detection_line_position : Q;
  vehicle_count : Z;
  counted_vehicles : gset Z;
  count_history : list (Q * Z);
  last_update_time : Q
}.

(** [VehicleCounter.__init__]. *)
Definition __init__ (detection_line_position : Q) (now : Q) : t :=
  mkCounter detection_line_position 0 ∅ [] now.

(** The body of the loop of [update]. *)
Definition count_step (current_time : Q) (self : t) (item : Z * Vehicle) : t :=
  let '(vehicle_id, vehicle) := item in
  if decide (vehicle_id ∈ counted_vehicles self) then self
  else if crossed_line vehicle then
    let count := vehicle_count self + 1 in
    mkCounter (detection_line_position self) count
              ({[vehicle_id]} ∪ counted_vehicles self)
              (count_history self ++ [(current_time, count)])
              (last_update_time self)
  else self.

(** [VehicleCounter.update]: the new object and the returned count.  The
    local [line_y] is computed from [frame_shape] and never used. *)
Definition update (self : t) (vehicles : dict Vehicle) (frame_shape : Z * Z)
    (current_time : option Q) (now : Q) : t * Z :=
  let current_time := match current_time with Some c => c | None => now end in
  let s1 := fold_left (count_step current_time) vehicles self in
  let s2 := mkCounter (detection_line_position s1) (vehicle_count s1)
                      (counted_vehicles s1) (count_history s1) current_time in
  (s2, vehicle_count s2).

(** [VehicleCounter.get_count]. *)
Definition get_count (self : t) : Z := vehicle_count self.

(** [VehicleCounter.get_count_rate]. *)
Definition get_count_rate (self : t) (time_window : Q) (now : Q) : Q :=
  let current_time := now in
  let recent_counts :=
    filter (fun tc => Qle_bool (current_time - fst tc) time_window = true)
           (count_history self) in
  match recent_counts with
  | [] => 0%Q
  | first :: _ =>
      let fallback :=
        if Qltb 0 time_window
        then (inject_Z (vehicle_count self) / time_window * 60)%Q
        else 0%Q in
      if (2 <=? length recent_counts)%nat then
        let '(start_time, start_count) := first in
        let '(end_time, end_count) := List.last recent_counts first in
        let time_diff := (end_time - start_time)%Q in
        let count_diff := end_count - start_count in
        if Qltb 0 time_diff
        then (inject_Z count_diff / time_diff * 60)%Q
        else fallback
      else fallback
  end.

(** [VehicleCounter.reset]. *)
Definition reset (self : t) (now : Q) : t :=
  mkCounter (detection_line_position self) 0 ∅ [] now.

(** The public operations that change a counter, and a run of them. *)
Inductive op : Type :=
| Update (vehicles : dict Vehicle) (frame_shape : Z * Z) (current_time : option Q) (now : Q)
| Reset (now : Q).

Definition step (self : t) (o : op) : t :=
  match o with
  | Update vehicles frame_shape current_time now =>
      fst (update self vehicles frame_shape current_time now)
  | Reset now => reset self now
  end.

Definition run (ops : list op) (self : t) : t := fold_left step ops self.

End VehicleCounter.

(** ** [data_storage.py] *)

(** [Series.nunique()] of a column of integers. *)
Definition nunique (xs : list Z) : Z := Z.of_nat (size (list_to_set xs : gset Z)).

Module DataStorage.

(** A row of [self.vehicle_data], with the keys ['session_id'],
    ['timestamp'], ['vehicle_id'], ['x'], ['y'], ['width'], ['height'],
    ['speed'] and ['crossed_line']. *)
Record VehicleRecord : Type := mkRecord {
  r_session_id : string;
  r_timestamp : Q;
  r_vehicle_id : Z;
  r_x : Z;
  r_y : Z;
  r_width : Z;
  r_height : Z;
  r_speed : Q;
  r_crossed_line : Z
}.

Record t : Type := mkStorage {
  output_dir : string;
  vehicle_data : list VehicleRecord;
  session_start_time : Q;
  session_id : string
}.

(** [DataStorage.__init__]: [now] is the reading of [datetime.datetime.now()]
    and [stamp] its [strftime]; the creation of the directory is an effect
    on the file system. *)
Definition __init__ (output_dir : string) (now : Q) (stamp : string) : t :=
  mkStorage output_dir [] now stamp.

(** [DataStorage.add_vehicle_record]. *)
Definition add_vehicle_record (self : t) (vehicle_id : Z) (timestamp : Q) (b : Box)
    (speed : option Q) (crossed_line : bool) : t :=
  let '(x, y, w, h) := b in
  let record :=
    mkRecord (session_id self) timestamp vehicle_id x y w h
             (match speed with Some s => s | None => (-1)%Q end)
             (if crossed_line then 1 else 0) in
  mkStorage (output_dir self) (vehicle_data self ++ [record])
            (session_start_time self) (session_id self).

(** The counting fields ['total_vehicles'] and ['crossed_line'] of the row
    that [DataStorage.save_summary] writes, as computed from the records and
    from the argument [vehicle_count]. *)
Definition summary_counts (self : t) (vehicle_count : Z) : Z * Z :=
  match vehicle_data self with
  | [] => (vehicle_count, 0)
  | _ :: _ =>
      let vehicle_count :=
        if vehicle_count =? 0 then nunique (map r_vehicle_id (vehicle_data self))
        else vehicle_count in
      let crossed_count :=
        nunique (map r_vehicle_id
                   (filter (fun r => r_crossed_line r = 1) (vehicle_data self))) in
      (vehicle_count, crossed_count)
  end.

(** [DataStorage.clear_data]. *)
Definition clear_data (self : t) (now : Q) (stamp : string) : t :=
  mkStorage (output_dir self) [] now stamp.

End DataStorage.

(** ** [main.py] *)

Module VehicleSpeedDetectionSystem.

Record Config : Type := mkConfig {
  min_vehicle_area : Z;
  detection_line_position : Q;
  reference_width_meters : Q;
  output_dir : string;
  save_interval : Q;
  display_results : bool
}.

(** The dictionary passed to the constructor: any of the keys. *)
Record ConfigArg : Type := mkConfigArg {
  arg_min_vehicle_area : option Z;
  arg_detection_line_position : option Q;
  arg_reference_width_meters : option Q;
  arg_output_dir : option string;
  arg_save_interval : option Q;
  arg_display_results : option bool
}.

Definition default_config : Config :=
  mkConfig 500 (6 # 10) (35 # 10) "data"%string 10 true.

(** [self.config.update(config)]. *)
Definition config_update (c : Config) (a : ConfigArg) : Config :=
  mkConfig (default (min_vehicle_area c) (arg_min_vehicle_area a))
           (default (detection_line_position c) (arg_detection_line_position a))
           (default (reference_width_meters c) (arg_reference_width_meters a))
           (default (output_dir c) (arg_output_dir a))
           (default (save_interval c) (arg_save_interval a))
           (default (display_results c) (arg_display_results a)).

(** The state of the system.  The distance calculator is one object shared
    with the speed calculator: it is kept in the speed calculator only, and
    [self.distance_calculator] reads it there.  The detector wraps OpenCV's
    background subtractor and is not part of the state. *)
Record t : Type := mkSystem {
  config : Config;
  tracker : VehicleTracker.t;
  speed_calculator : SpeedCalculator.t;
  counter : VehicleCounter.t;
  data_storage : DataStorage.t;
  frame_count : Z;
  fps : Q;
  last_save_time : Q;
  processing_times : list Q
}.

Definition distance_calculator (self : t) : DistanceCalculator.t :=
  SpeedCalculator.distance_calculator (speed_calculator self).

Definition set_speed_calculator (sc : SpeedCalculator.t) (self : t) : t :=
  mkSystem (config self) (tracker self) sc (counter self) (data_storage self)
           (frame_count self) (fps self) (last_save_time self) (processing_times self).

(** A mutation of the shared distance calculator. *)
Definition set_distance_calculator (dc : DistanceCalculator.t) (self : t) : t :=
  set_speed_calculator
    (SpeedCalculator.mkSpeed dc (SpeedCalculator.fps (speed_calculator self))
       (SpeedCalculator.vehicle_data (speed_calculator self))
       (SpeedCalculator.last_frame_time (speed_calculator self))
       (SpeedCalculator.speeds (speed_calculator self))) self.

(** [VehicleSpeedDetectionSystem.__init__]: the readings of the clock by the
    counter, by the storage (with its [strftime]) and by the system itself
    are arguments. *)
Definition __init__ (config : option ConfigArg) (counter_now storage_now : Q)
    (storage_stamp : string) (now : Q) : result t :=
  let cfg := match config with
             | Some a => config_update default_config a
             | None => default_config
             end in
  let tracker := VehicleTracker.__init__ 10 (3 # 10) in
  let* distance_calculator := DistanceCalculator.__init__ None None in
  let speed_calculator := SpeedCalculator.__init__ distance_calculator None in
  let counter := VehicleCounter.__init__ (detection_line_position cfg) counter_now in
  let data_storage := DataStorage.__init__ (output_dir cfg) storage_now storage_stamp in
  Ok (mkSystem cfg tracker speed_calculator counter data_storage 0 0%Q now []).

(** What one call of [process_frame] reads from outside: the height and
    width of the frame, the boxes and the line that
    [self.detector.detect_vehicles(frame)] returns (background subtraction
    and contour detection by OpenCV), and the readings of [time.time()] in
    the order of the calls. *)
Record Frame : Type := mkFrame {
  shape : Z * Z;
  detected_boxes : list Box;
  detected_line_y : Z;
  time_default : Q;
  time_start : Q;
  time_check : Q;
  time_saved : Q;
  time_end : Q
}.

Section WithSqrt.
Variable np_sqrt : Z -> Q.

(** Step 5 of [process_frame]: one record per entry of the tracked table. *)
Definition store_records (frame_time : Q) (speeds : gmap Z Q)
  (tracked_vehicles : dict Vehicle) (storage : DataStorage.t) : DataStorage.t :=
fold_left
  (fun st item =>
     DataStorage.add_vehicle_record st (fst item) frame_time (bbox (snd item))
       (speeds !! fst item) (crossed_line (snd item)))
  tracked_vehicles storage.

(** [VehicleSpeedDetectionSystem.process_frame], as a change of the state:
  detection, tracking, calibration on first use, speeds, counting, storage,
  the clock of the periodic save, the frame-rate statistics and the frame
  counter.  [save_data] writes files from the state and the drawing
  produces the returned image; neither changes the state, and neither is
  modelled. *)
Definition process_frame (self : t) (frame : Frame) (frame_time : option Q)
  : result t :=
let frame_time := match frame_time with
                  | Some ft => ft
                  | None => time_default frame
                  end in
let start_time := time_start frame in
let bounding_boxes := detected_boxes frame in
let detection_line_y := detected_line_y frame in
let* tracked := VehicleTracker.update (tracker self) bounding_boxes detection_line_y in
let tracked_vehicles := snd tracked in
let* s1 :=
  match DistanceCalculator.pixels_per_meter (distance_calculator self) with
  | None =>
      let* c := DistanceCalculator.calibrate_from_lane_width
                  (distance_calculator self) (shape frame)
                  (reference_width_meters (config self)) in
      Ok (set_distance_calculator (fst c) self)
  | Some _ => Ok self
  end in
let* sped := SpeedCalculator.update np_sqrt (speed_calculator s1) tracked_vehicles
               (Some (frame_count self)) (Some frame_time) frame_time in
let speeds := snd sped in
let counted := VehicleCounter.update (counter self) tracked_vehicles (shape frame)
                 (Some frame_time) frame_time in
let storage := store_records frame_time speeds tracked_vehicles (data_storage self) in
let last_save :=
  if Qltb (save_interval (config self)) (time_check frame - last_save_time self)
  then time_saved frame
  else last_save_time self in
let processing_time := (time_end frame - start_time)%Q in
let times1 := processing_times self ++ [processing_time] in
let times2 := if (10 <? length times1)%nat then tail times1 else times1 in
let avg_processing_time :=
  (fold_left Qplus times2 0 / inject_Z (Z.of_nat (length times2)))%Q in
let fps' := if Qltb 0 avg_processing_time then (1 / avg_processing_time)%Q else 0%Q in
Ok (mkSystem (config self) (fst tracked) (fst sped) (fst counted) storage
             (frame_count self + 1) fps' last_save times2).

(** The arguments that [save_data] passes to [save_summary], and the
  counting fields of the summary it writes. *)
Definition save_data_summary_counts (self : t) : Z * Z :=
DataStorage.summary_counts (data_storage self)
  (VehicleCounter.get_count (counter self)).

(** [VehicleSpeedDetectionSystem.process_video]: [opened] is
  [cap.isOpened()] after the capture is created, [fps] the frame rate that
  the capture reports, and [frames] the frames that the loop reads before
  it stops (end of the stream or the quit key).  The final [save_data]
  writes files and leaves the state alone. *)
Definition process_video (self : t) (opened : bool) (fps : Q) (frames : list Frame)
  : result t :=
if opened then
  let s0 := set_speed_calculator
              (SpeedCalculator.set_fps (speed_calculator self) fps) self in
  for_each
    (fun s frame =>
       let frame_time := if Qltb 0 fps
                         then (inject_Z (frame_count s) / fps)%Q
                         else time_default frame in
       process_frame s frame (Some frame_time))
    frames s0
else Ok self.

(** [VehicleSpeedDetectionSystem.process_image]: [frame] is [None] when the
  image cannot be read. *)
Definition process_image (self : t) (frame : option Frame) : result t :=
match frame with
| None => Ok self
| Some f => process_frame self f None
end.

(** [VehicleSpeedDetectionSystem.process_camera]: as [process_video], with
  the clock as the time of every frame. *)
Definition process_camera (self : t) (opened : bool) (fps : Q) (frames : list Frame)
  : result t :=
if opened then
  let s0 := set_speed_calculator
              (SpeedCalculator.set_fps (speed_calculator self) fps) self in
  for_each (fun s frame => process_frame s frame None) frames s0
else Ok self.

(** The public operations that change a system, and a run of them. *)
Inductive op : Type :=
| ProcessFrame (frame : Frame) (frame_time : option Q)
| ProcessVideo (opened : bool) (fps : Q) (frames : list Frame)
| ProcessImage (frame : option Frame)
| ProcessCamera (opened : bool) (fps : Q) (frames : list Frame).

Definition step (self : t) (o : op) : result t :=
match o with
| ProcessFrame frame frame_time => process_frame self frame frame_time
| ProcessVideo opened fps frames => process_video self opened fps frames
| ProcessImage frame => process_image self frame
| ProcessCamera opened fps frames => process_camera self opened fps frames
end.

Definition run (ops : list op) (self : t) : result t := for_each step ops self.

End WithSqrt.

End VehicleSpeedDetectionSystem.

(** * Specification predicates *)

(** A well-formed box has positive width and height. *)
Definition wf_box (b : Box) : Prop :=
  let '(x, y, w, h) := b in 0 < w /\ 0 < h.

(** Two boxes do not overlap when one lies entirely to one side of the
    other (a shared edge is allowed). *)
Definition no_overlap (a b : Box) : Prop :=
  let '(x1, y1, w1, h1) := a in
  let '(x2, y2, w2, h2) := b in
  x1 + w1 <= x2 \/ x2 + w2 <= x1 \/ y1 + h1 <= y2 \/ y2 + h2 <= y1.

(** The ids of the items of a live set whose [crossed_line] flag is set. *)
Definition crossed_ids (vehicles : dict Vehicle) : gset Z :=
  list_to_set (map fst (filter (fun kv => crossed_line (snd kv) = true) vehicles)).

(** The events [(current_time, c0 + 1)], ..., [(current_time, c0 + n)]. *)
Definition crossing_events (current_time : Q) (c0 : Z) (n : nat) : list (Q * Z) :=
  map (fun k => (current_time, c0 + Z.of_nat k)) (seq 1 n).

(** The entries of the event history within [time_window] of [now]. *)
Definition recent_counts (self : VehicleCounter.t) (time_window now : Q) : list (Q * Z) :=
  filter (fun tc => Qle_bool (now - fst tc) time_window = true)
         (VehicleCounter.count_history self).

(** The coarse estimate from the cumulative count. *)
Definition fallback_rate (self : VehicleCounter.t) (time_window : Q) : Q :=
  (inject_Z (VehicleCounter.vehicle_count self) / time_window * 60)%Q.

(** The rate between two entries of the history. *)
Definition delta_rate (first last : Q * Z) : Q :=
  (inject_Z (snd last - snd first) / (fst last - fst first) * 60)%Q.

(** The Euclidean distance in pixels between two centroids. *)
Definition euclidean_pixels (np_sqrt : Z -> Q) (p q : Z * Z) : Q :=
  np_sqrt ((fst q - fst p) ^ 2 + (snd q - snd p) ^ 2).

(** The instantaneous speed in km/h: pixels to meters by the calibration
    factor, meters per second by the elapsed time, times 3.6. *)
Definition instantaneous_kmh (np_sqrt : Z -> Q) (ppm : Q) (prev cur : Z * Z)
    (elapsed : Q) : Q :=
  (euclidean_pixels np_sqrt prev cur / ppm / elapsed * (36 # 10))%Q.

(** The arithmetic mean of the last [min 5 (length history)] values. *)
Definition smoothed (history : list Q) : Q :=
  np_mean (drop (length history - Nat.min 5 (length history)) history).

(** Every identity known to the speed calculator has a recorded sample. *)
Definition speed_inv (self : SpeedCalculator.t) : Prop :=
  map_Forall (fun _ d => SpeedCalculator.positions d <> []
                         /\ SpeedCalculator.times d <> [])
             (SpeedCalculator.vehicle_data self).

(** A stand-in for [np.sqrt] that is exact on perfect squares. *)
Definition sqrt_of_square (n : Z) : Q := inject_Z (Z.sqrt n).

(** The data and the speed entry of an identity after a step on it, given
    its previous sample [(prev, tprev)] and the calibration factor. *)
Definition stepped_data (np_sqrt : Z -> Q) (cft : Q) (v : Vehicle) (ppm : Q)
    (data : SpeedCalculator.VehicleData) (prev : Z * Z) (tprev : Q)
  : SpeedCalculator.VehicleData :=
  SpeedCalculator.mkData
    (SpeedCalculator.positions data ++ [SpeedCalculator.center (bbox v)])
    (SpeedCalculator.times data ++ [cft])
    (if Qltb 0 (cft - tprev)
     then SpeedCalculator.speeds_history data
          ++ [instantaneous_kmh np_sqrt ppm prev (SpeedCalculator.center (bbox v))
                (cft - tprev)]
     else SpeedCalculator.speeds_history data).

Definition stepped_speeds (np_sqrt : Z -> Q) (cft : Q) (v : Vehicle) (ppm : Q)
    (data : SpeedCalculator.VehicleData) (prev : Z * Z) (tprev : Q) (id : Z)
    (sp : gmap Z Q) : gmap Z Q :=
  if Qltb 0 (cft - tprev)
  then <[id := smoothed
                 (SpeedCalculator.speeds_history data
                  ++ [instantaneous_kmh np_sqrt ppm prev
                        (SpeedCalculator.center (bbox v)) (cft - tprev)])]> sp
  else sp.

(** What one call of [update] does to the entries of identity [id], seen
    with box [v], between the calculator before and after. *)
Definition step_effect (np_sqrt : Z -> Q) (cft ppm : Q)
    (sc sc' : SpeedCalculator.t) (id : Z) (v : Vehicle) : Prop :=
  match SpeedCalculator.vehicle_data sc !! id with
  | None =>
      SpeedCalculator.vehicle_data sc' !! id
      = Some (SpeedCalculator.mkData [SpeedCalculator.center (bbox v)] [cft] [])
      /\ SpeedCalculator.speeds sc' !! id = SpeedCalculator.speeds sc !! id
  | Some data =>
      exists prev tprev,
        last (SpeedCalculator.positions data) = Some prev
        /\ last (SpeedCalculator.times data) = Some tprev
        /\ SpeedCalculator.vehicle_data sc' !! id
           = Some (stepped_data np_sqrt cft v ppm data prev tprev)
        /\ SpeedCalculator.speeds sc' !! id
           = stepped_speeds np_sqrt cft v ppm data prev tprev id
               (SpeedCalculator.speeds sc) !! id
  end.

(** ** The tracker *)

(** The bottom edge of a box has reached the detection line. *)
Definition bottom_reached (b : Box) (line : Z) : bool :=
  let '(x, y, w, h) := b in y + h >=? line.

(** The stored record of an object matched with detection [b], of a newly
    registered detection [b], and of an object that was not matched. *)
Definition matched_vehicle (line : Z) (b : Box) (v : Vehicle) : Vehicle :=
  mkVehicle b 0 (crossed_line v || bottom_reached b line) (first_seen v).

Definition new_vehicle (line : Z) (b : Box) : Vehicle :=
  mkVehicle b 0 (bottom_reached b line) (mkFirstSeen b false).

Definition aged_vehicle (v : Vehicle) : Vehicle :=
  set_disappeared (disappeared v + 1) v.

(** Detection [j] with box [b] is not yet claimed. *)
Definition unclaimed (boxes : list Box) (used : gset Z) (j : Z) (b : Box) : Prop :=
  (j, b) ∈ enumerate boxes /\ j ∉ used.

(** The decision taken for a tracked object with stored box [vb]: [Some]
    detection (index and box) or [None].
    - An accepted detection is unclaimed, its overlap ratio strictly exceeds
      the threshold and is maximal among the unclaimed detections, the
      earliest one with that ratio.
    - When no unclaimed detection strictly exceeds the threshold, there is
      no match.
    - Without a match, every unclaimed detection is at most the threshold,
      or has no positive overlap at all. *)
Definition decision_ok (thr : Q) (boxes : list Box) (vb : Box) (used : gset Z)
    (d : option (Z * Box)) : Prop :=
  (forall j b, d = Some (j, b) ->
     unclaimed boxes used j b
     /\ exists r, VehicleTracker._calculate_overlap vb b = Ok r
                  /\ (thr < r)%Q
                  /\ forall j' b' r',
                       unclaimed boxes used j' b' ->
                       VehicleTracker._calculate_overlap vb b' = Ok r' ->
                       (r' <= r)%Q /\ (j' < j -> (r' < r)%Q))
  /\ ((forall j' b' r',
         unclaimed boxes used j' b' ->
         VehicleTracker._calculate_overlap vb b' = Ok r' -> (r' <= thr)%Q) ->
      d = None)
  /\ (d = None ->
      forall j' b' r',
        unclaimed boxes used j' b' ->
        VehicleTracker._calculate_overlap vb b' = Ok r' ->
        (r' <= thr)%Q \/ (r' <= 0)%Q).

(** The claimed detections after a decision. *)
Definition claim (d : option (Z * Box)) (used : gset Z) : gset Z :=
  match d with
  | Some (j, _) => {[j]} ∪ used
  | None => used
  end.

(** The tracked objects in table order, each with its decision: every
    decision is taken among the detections its predecessors left. *)
Fixpoint greedy_ok (thr : Q) (boxes : list Box) (used : gset Z)
    (decided : dict (Vehicle * option (Z * Box))) : Prop :=
  match decided with
  | [] => True
  | (_, (v, d)) :: rest =>
      decision_ok thr boxes (bbox v) used d
      /\ greedy_ok thr boxes (claim d used) rest
  end.

Fixpoint claimed_by (used : gset Z) (decided : dict (Vehicle * option (Z * Box)))
  : gset Z :=
  match decided with
  | [] => used
  | (_, (_, d)) :: rest => claimed_by (claim d used) rest
  end.

(** What becomes of a tracked object: matched, aged, or deleted. *)
Definition resolve (line max_disappeared : Z)
    (e : Z * (Vehicle * option (Z * Box))) : dict Vehicle :=
  match snd (snd e) with
  | Some (_, b) => [(fst e, matched_vehicle line b (fst (snd e)))]
  | None =>
      if disappeared (fst (snd e)) + 1 >? max_disappeared then []
      else [(fst e, aged_vehicle (fst (snd e)))]
  end.

(** The detections left unclaimed, in detection order, and their
    registration under consecutive ids from [next_id]. *)
Definition unclaimed_boxes (boxes : list Box) (used : gset Z) : list Box :=
  map snd (filter (fun jb => fst jb ∉ used) (enumerate boxes)).

Definition registrations (line next_id : Z) (bs : list Box) : dict Vehicle :=
  map (fun kb => (fst kb, new_vehicle line (snd kb))) (enumerate_from next_id bs).

(** The table of a tracker that was built by [__init__], [register] and
    [update]: ids ascending in table order, all below the next id, and
    non-negative disappearance counts. *)
Definition tracker_inv (self : VehicleTracker.t) : Prop :=
  StronglySorted Z.lt (dict_keys (VehicleTracker.vehicles self))
  /\ Forall (fun k => k < VehicleTracker.next_vehicle_id self)
            (dict_keys (VehicleTracker.vehicles self))
  /\ Forall (fun kv => 0 <= disappeared (snd kv)) (VehicleTracker.vehicles self).

Definition stored_wf (self : VehicleTracker.t) : Prop :=
  Forall (fun kv => wf_box (bbox (snd kv))) (VehicleTracker.vehicles self).

Definition op_wf (o : VehicleTracker.op) : Prop :=
  match o with
  | VehicleTracker.Update bounding_boxes _ => Forall wf_box bounding_boxes
  | VehicleTracker.Register b _ => wf_box b
  end.

(** The invariant of the inner loop of [update] after the detections
    [processed], with accumulator [(max_overlap, max_overlap_idx)]. *)
Definition scan_inv (thr : Q) (vb : Box) (used : gset Z) (processed : list (Z * Box))
    (acc : Q * Z) : Prop :=
  (snd acc = -1 ->
     fst acc = 0%Q
     /\ forall j b r, (j, b) ∈ processed -> j ∉ used ->
          VehicleTracker._calculate_overlap vb b = Ok r -> (r <= thr)%Q \/ (r <= 0)%Q)
  /\ (snd acc <> -1 ->
      exists b, (snd acc, b) ∈ processed /\ (snd acc ∉ used)
        /\ VehicleTracker._calculate_overlap vb b = Ok (fst acc)
        /\ (thr < fst acc)%Q /\ (0 < fst acc)%Q
        /\ forall j' b' r', (j', b') ∈ processed -> j' ∉ used ->
             VehicleTracker._calculate_overlap vb b' = Ok r' ->
             (r' <= fst acc)%Q /\ (j' < snd acc -> (r' < fst acc)%Q)).

(** The stored record after the matching loop, the ids it matched, and the
    effect of the ageing loop on one item given the matched ids. *)
Definition after_match (line : Z) (v : Vehicle) (d : option (Z * Box)) : Vehicle :=
  match d with
  | Some (_, b) => matched_vehicle line b v
  | None => v
  end.

Definition matched_ids (decided : dict (Vehicle * option (Z * Box))) : gset Z :=
  list_to_set (map fst (filter (fun e => is_Some (snd (snd e))) decided)).

Definition age_or_keep (matched : gset Z) (max_disappeared : Z) (kv : Z * Vehicle)
  : dict Vehicle :=
  if decide (fst kv ∈ matched) then [kv]
  else if disappeared (snd kv) + 1 >? max_disappeared then []
       else [(fst kv, aged_vehicle (snd kv))].

(** The outcome of [update]: one decision per tracked object in table
    order, each taken greedily; the matched and aged survivors keep their
    place; the unclaimed detections follow in detection order under the
    next ids. *)
Definition update_outcome (self : VehicleTracker.t) (boxes : list Box) (line : Z)
    (self' : VehicleTracker.t) (decided : dict (Vehicle * option (Z * Box))) : Prop :=
  map (fun e => (fst e, fst (snd e))) decided = VehicleTracker.vehicles self
  /\ greedy_ok (VehicleTracker.min_overlap_ratio self) boxes ∅ decided
  /\ VehicleTracker.vehicles self'
     = concat (map (resolve line (VehicleTracker.max_disappeared self)) decided)
       ++ registrations line (VehicleTracker.next_vehicle_id self)
            (unclaimed_boxes boxes (claimed_by ∅ decided))
  /\ VehicleTracker.next_vehicle_id self'
     = VehicleTracker.next_vehicle_id self
       + Z.of_nat (length (unclaimed_boxes boxes (claimed_by ∅ decided)))
  /\ VehicleTracker.max_disappeared self' = VehicleTracker.max_disappeared self
  /\ VehicleTracker.min_overlap_ratio self' = VehicleTracker.min_overlap_ratio self
  /\ VehicleTracker.crossed_vehicles self ⊆ VehicleTracker.crossed_vehicles self'.

(** What a run of operations keeps between a tracker and a later one:
    the invariant, the configuration, a next id that never decreases, ids
    that are never revived, new ids that are not below the earlier next id,
    and one-way crossing flags. *)
Definition evolves (self self' : VehicleTracker.t) : Prop :=
  tracker_inv self'
  /\ VehicleTracker.max_disappeared self' = VehicleTracker.max_disappeared self
  /\ VehicleTracker.min_overlap_ratio self' = VehicleTracker.min_overlap_ratio self
  /\ VehicleTracker.next_vehicle_id self <= VehicleTracker.next_vehicle_id self'
  /\ (forall id, id < VehicleTracker.next_vehicle_id self ->
        id ∉ dict_keys (VehicleTracker.vehicles self) ->
        id ∉ dict_keys (VehicleTracker.vehicles self'))
  /\ (forall id, id ∈ dict_keys (VehicleTracker.vehicles self') ->
        id ∉ dict_keys (VehicleTracker.vehicles self) ->
        VehicleTracker.next_vehicle_id self <= id)
  /\ (forall id v v',
        dict_get id (VehicleTracker.vehicles self) = Some v ->
        dict_get id (VehicleTracker.vehicles self') = Some v' ->
        crossed_line v = true -> crossed_line v' = true)
  /\ VehicleTracker.crossed_vehicles self ⊆ VehicleTracker.crossed_vehicles self'.

(** ** Examples *)

(** Concrete calculators for the examples: factor 100 pixels per meter,
    identity 0 seen once at time 0 with centre [(5, 5)]. *)
Definition example_calibrated : SpeedCalculator.t :=
  SpeedCalculator.mkSpeed
    (DistanceCalculator.mkCalc (Some 100%Q) (Some 1%Q) (Some 100%Q)) None
    {[ 0 := SpeedCalculator.mkData [(5, 5)] [0%Q] [] ]} (Some 0%Q) ∅.

Definition example_uncalibrated : SpeedCalculator.t :=
  SpeedCalculator.mkSpeed
    (DistanceCalculator.mkCalc None None None) None
    {[ 0 := SpeedCalculator.mkData [(5, 5)] [0%Q] [] ]} (Some 0%Q) ∅.

Definition example_vehicle (b : Box) : Vehicle :=
  mkVehicle b 0 false (mkFirstSeen b false).

(** A tracker with [max_disappeared = 1]: two detections are registered
    ([example_tracker1]); then the first object is matched, the second is
    missed and a third appears ([example_tracker_mid]); then the second is
    missed again and deleted ([example_tracker2]). *)
Definition example_ops1 : list VehicleTracker.op :=
  [VehicleTracker.Update [(0, 0, 10, 10); (100, 100, 10, 10)] 50].

Definition example_boxes : list Box := [(1, 1, 10, 10); (300, 300, 5, 5)].

Definition example_ops2 : list VehicleTracker.op :=
  [VehicleTracker.Update example_boxes 50; VehicleTracker.Update [(2, 2, 10, 10)] 50].

Definition example_tracker1 : VehicleTracker.t :=
  VehicleTracker.mkTracker 2
    [(0, mkVehicle (0, 0, 10, 10) 0 false (mkFirstSeen (0, 0, 10, 10) false));
     (1, mkVehicle (100, 100, 10, 10) 0 true (mkFirstSeen (100, 100, 10, 10) false))]
    1 (3 # 10) {[1]}.

Definition example_tracker_mid : VehicleTracker.t :=
  VehicleTracker.mkTracker 3
    [(0, mkVehicle (1, 1, 10, 10) 0 false (mkFirstSeen (0, 0, 10, 10) false));
     (1, mkVehicle (100, 100, 10, 10) 1 true (mkFirstSeen (100, 100, 10, 10) false));
     (2, mkVehicle (300, 300, 5, 5) 0 true (mkFirstSeen (300, 300, 5, 5) false))]
    1 (3 # 10) ({[1]} ∪ {[2]}).

Definition example_tracker2 : VehicleTracker.t :=
  VehicleTracker.mkTracker 3
    [(0, mkVehicle (2, 2, 10, 10) 0 false (mkFirstSeen (0, 0, 10, 10) false));
     (2, mkVehicle (300, 300, 5, 5) 1 true (mkFirstSeen (300, 300, 5, 5) false))]
    1 (3 # 10) ({[1]} ∪ {[2]}).

(** A later call with one detection away from everything: the third
    object is deleted as well and a fourth identity gets id 3. *)
Definition example_tracker3 : VehicleTracker.t :=
  VehicleTracker.mkTracker 4
    [(0, mkVehicle (2, 2, 10, 10) 1 false (mkFirstSeen (0, 0, 10, 10) false));
     (3, mkVehicle (50, 50, 5, 5) 0 true (mkFirstSeen (50, 50, 5, 5) false))]
    1 (3 # 10) ({[1]} ∪ {[2]} ∪ {[3]}).

(** ** Further predicates *)

(** The table after [n] consecutive calls of [update] without a detection:
    every count is raised by [n], and the objects whose count would exceed
    [max_disappeared] are gone. *)
Definition missed (n max_disappeared : Z) (vs : dict Vehicle) : dict Vehicle :=
  map (fun kv => (fst kv, set_disappeared (disappeared (snd kv) + n) (snd kv)))
      (filter (fun kv => disappeared (snd kv) + n <= max_disappeared) vs).

(** Every object whose flag is set is recorded in the set of crossed ids. *)
Definition flags_recorded (self : VehicleTracker.t) : Prop :=
  forall id v, (id, v) ∈ VehicleTracker.vehicles self -> crossed_line v = true ->
               id ∈ VehicleTracker.crossed_vehicles self.

(** Every crossed id was crossed before ([C0]) or belongs to an object
    that [touched] allows, is in the table and has its flag set. *)
Definition crossed_new (C0 : gset Z) (touched : Z -> Prop) (self : VehicleTracker.t)
  : Prop :=
  forall id, id ∈ VehicleTracker.crossed_vehicles self ->
    id ∈ C0
    \/ (touched id
        /\ exists v, dict_get id (VehicleTracker.vehicles self) = Some v
                     /\ crossed_line v = true).

Definition keys_below (self : VehicleTracker.t) : Prop :=
  Forall (fun k => k < VehicleTracker.next_vehicle_id self)
         (dict_keys (VehicleTracker.vehicles self)).

(** The crossed ids of a tracker built by [__init__], [register] and
    [update]: they cover the flags of the table and are ids that were
    assigned. *)
Definition crossed_inv (self : VehicleTracker.t) : Prop :=
  flags_recorded self
  /\ (forall id, id ∈ VehicleTracker.crossed_vehicles self ->
        0 <= id < VehicleTracker.next_vehicle_id self)
  /\ Forall (fun k => 0 <= k) (dict_keys (VehicleTracker.vehicles self))
  /\ 0 <= VehicleTracker.next_vehicle_id self.

(** The event history of a counter built by [__init__], [update] and
    [reset]: one entry per counted crossing, numbered from 1 in order. *)
Definition history_inv (self : VehicleCounter.t) : Prop :=
  map snd (VehicleCounter.count_history self)
  = seqZ 1 (VehicleCounter.vehicle_count self)
  /\ VehicleCounter.vehicle_count self
     = Z.of_nat (size (VehicleCounter.counted_vehicles self)).

(** No stored speed, instantaneous or smoothed, is negative. *)
Definition speeds_nonneg (self : SpeedCalculator.t) : Prop :=
  map_Forall (fun _ s => (0 <= s)%Q) (SpeedCalculator.speeds self)
  /\ map_Forall (fun _ d => Forall (fun s => (0 <= s)%Q)
                                  (SpeedCalculator.speeds_history d))
                (SpeedCalculator.vehicle_data self).

(** The record that [process_frame] stores for an entry of the tracked
    table, given the session, the time of the frame and the speeds. *)
Definition record_of (session : string) (frame_time : Q) (speeds : gmap Z Q)
    (kv : Z * Vehicle) : DataStorage.VehicleRecord :=
  let '(x, y, w, h) := bbox (snd kv) in
  DataStorage.mkRecord session frame_time (fst kv) x y w h
    (default (-1)%Q (speeds !! fst kv))
    (if crossed_line (snd kv) then 1 else 0).

(** The ids of the stored records, and of those with the crossing mark. *)
Definition recorded_ids (storage : DataStorage.t) : gset Z :=
  list_to_set (map DataStorage.r_vehicle_id (DataStorage.vehicle_data storage)).

Definition recorded_crossed_ids (storage : DataStorage.t) : gset Z :=
  list_to_set (map DataStorage.r_vehicle_id
                 (filter (fun r => DataStorage.r_crossed_line r = 1)
                         (DataStorage.vehicle_data storage))).

(** The position history of the speed calculator follows the table of the
    tracker: the same identities, each with the centre of its box as its
    last position. *)
Definition positions_follow (tr : VehicleTracker.t) (sc : SpeedCalculator.t) : Prop :=
  (forall id, is_Some (SpeedCalculator.vehicle_data sc !! id)
              <-> id ∈ dict_keys (VehicleTracker.vehicles tr))
  /\ (forall id v data,
        dict_get id (VehicleTracker.vehicles tr) = Some v ->
        SpeedCalculator.vehicle_data sc !! id = Some data ->
        last (SpeedCalculator.positions data)
        = Some (SpeedCalculator.center (bbox v))).

(** What holds of a system built by [__init__] and its processing
    methods. *)
Definition system_inv (self : VehicleSpeedDetectionSystem.t) : Prop :=
  let tr := VehicleSpeedDetectionSystem.tracker self in
  let sc := VehicleSpeedDetectionSystem.speed_calculator self in
  let co := VehicleSpeedDetectionSystem.counter self in
  let st := VehicleSpeedDetectionSystem.data_storage self in
  tracker_inv tr
  /\ crossed_inv tr
  /\ speed_inv sc
  /\ history_inv co
  /\ VehicleCounter.counted_vehicles co = VehicleTracker.crossed_vehicles tr
  /\ positions_follow tr sc
  /\ 0 <= VehicleSpeedDetectionSystem.frame_count self
  /\ (DistanceCalculator.pixels_per_meter (SpeedCalculator.distance_calculator sc) = None
      <-> VehicleSpeedDetectionSystem.frame_count self = 0)
  /\ recorded_ids st = list_to_set (seqZ 0 (VehicleTracker.next_vehicle_id tr))
  /\ recorded_crossed_ids st = VehicleTracker.crossed_vehicles tr.

(** While a video with frame rate [f] is processed, every recorded time is
    the time of an earlier frame. *)
Definition video_inv (f : Q) (self : VehicleSpeedDetectionSystem.t) : Prop :=
  SpeedCalculator.fps (VehicleSpeedDetectionSystem.speed_calculator self) = Some f
  /\ forall id d,
       SpeedCalculator.vehicle_data (VehicleSpeedDetectionSystem.speed_calculator self)
       !! id = Some d ->
       exists n, n < VehicleSpeedDetectionSystem.frame_count self
                 /\ last (SpeedCalculator.times d) = Some (inject_Z n / f)%Q.

(** The boxes of the accepted detections, in table order. *)
Definition matched_boxes (decided : dict (Vehicle * option (Z * Box))) : list Box :=
  concat (map (fun e => match snd (snd e) with
                        | Some (_, b) => [b]
                        | None => []
                        end) decided).

(** A tracker that holds a box of width and height zero. *)
Definition example_degenerate : VehicleTracker.t :=
  VehicleTracker.mkTracker 1
    [(0, mkVehicle (0, 0, 0, 0) 0 false (mkFirstSeen (0, 0, 0, 0) false))]
    10 (3 # 10) ∅.

(** Two frames of 640 by 480 pixels with the line at 288: two detections,
    the second one beyond the line, then the first one again, moved. *)
Definition example_frame1 : VehicleSpeedDetectionSystem.Frame :=
  VehicleSpeedDetectionSystem.mkFrame (480, 640)
    [(0, 0, 10, 10); (100, 300, 10, 10)] 288 0 0 0 0 0.

Definition example_frame2 : VehicleSpeedDetectionSystem.Frame :=
  VehicleSpeedDetectionSystem.mkFrame (480, 640) [(2, 2, 10, 10)] 288 1 1 1 1 1.

(** * Lemmas *)

Lemma Qltb_lt (x y : Q) : Qltb x y = true <-> (x < y)%Q.
Proof.
  unfold Qltb. rewrite negb_true_iff. split.
  - intros Hb. apply Qnot_le_lt. intros Hle.
    apply Qle_bool_iff in Hle. congruence.
  - intros Hlt. destruct (Qle_bool y x) eqn:E; [|reflexivity].
    apply Qle_bool_iff in E. exfalso. apply (Qlt_not_le _ _ Hlt E).
Qed.

Lemma Qltb_ge (x y : Q) : Qltb x y = false <-> (y <= x)%Q.
Proof.
  unfold Qltb. rewrite negb_false_iff. apply Qle_bool_iff.
Qed.

(** ** Loops and results *)

Ltac bind_inv H :=
  repeat match type of H with
         | bind ?m _ = Ok _ =>
             let E := fresh "E" in
             destruct m eqn:E; cbn [bind] in H; [|discriminate H]
         end.

Lemma bind_ok {A B : Type} (m : result A) (k : A -> result B) (b : B) :
  bind m k = Ok b <-> exists a, m = Ok a /\ k a = Ok b.
Proof.
  destruct m as [a|e]; cbn; split.
  - intros H. now exists a.
  - now intros (a' & [= ->] & H).
  - discriminate.
  - now intros (a' & [=] & _).
Qed.

Lemma for_each_app {S A : Type} (body : S -> A -> result S) (xs ys : list A) (s : S) :
  for_each body (xs ++ ys) s = bind (for_each body xs s) (for_each body ys).
Proof.
  revert s. induction xs as [|x xs IH]; intros s; cbn; [reflexivity|].
  destruct (body s x); cbn; [apply IH|reflexivity].
Qed.

(** A property kept by every iteration that returns is kept by the loop. *)
Lemma for_each_invariant {S A : Type} (P : S -> Prop) (body : S -> A -> result S)
    (xs : list A) (s s' : S) :
  (forall s0 x s1, x ∈ xs -> P s0 -> body s0 x = Ok s1 -> P s1) ->
  P s -> for_each body xs s = Ok s' -> P s'.
Proof.
  revert s. induction xs as [|x xs IH]; intros s Hbody Hs Hloop; cbn in Hloop.
  - now injection Hloop as <-.
  - destruct (body s x) as [s1|] eqn:E; [|discriminate]. cbn in Hloop.
    apply (IH s1); [|apply (Hbody s x s1); [apply list_elem_of_here|done..]|done].
    intros s0 x0 s2 Hin. apply Hbody. now apply list_elem_of_further.
Qed.

(** A loop whose iterations return on the states of an invariant returns. *)
Lemma for_each_total {S A : Type} (I : S -> Prop) (body : S -> A -> result S)
    (xs : list A) (s : S) :
  I s ->
  (forall s0 x, x ∈ xs -> I s0 -> exists s1, body s0 x = Ok s1 /\ I s1) ->
  exists s', for_each body xs s = Ok s' /\ I s'.
Proof.
  revert s. induction xs as [|x xs IH]; intros s Hs Hbody; cbn.
  - now exists s.
  - destruct (Hbody s x (list_elem_of_here _ _) Hs) as (s1 & -> & Hs1). cbn.
    apply IH; [exact Hs1|]. intros s0 x0 Hin. apply Hbody.
    now apply list_elem_of_further.
Qed.

Lemma for_each_ext {S A : Type} (f g : S -> A -> result S) (xs : list A) (s : S) :
  (forall s0 x, x ∈ xs -> f s0 x = g s0 x) ->
  for_each f xs s = for_each g xs s.
Proof.
  revert s. induction xs as [|x xs IH]; intros s Hfg; cbn; [reflexivity|].
  rewrite Hfg by apply list_elem_of_here. destruct (g s x); cbn; [|reflexivity].
  apply IH. intros s0 x0 Hin. apply Hfg. now apply list_elem_of_further.
Qed.

(** ** The overlap ratio *)

Section Overlap.
Import VehicleTracker.

Lemma inject_Z_ratio_bounds (i u : Z) :
  0 <= i <= u -> 0 < u -> (0 <= inject_Z i / inject_Z u <= 1)%Q.
Proof.
  intros [Hi Hiu] Hu.
  assert (Hu' : (0 < inject_Z u)%Q) by (change 0%Q with (inject_Z 0); rewrite <- Zlt_Qlt; exact Hu).
  split.
  - apply Qle_shift_div_l; [exact Hu'|].
    rewrite Qmult_0_l. change 0%Q with (inject_Z 0). rewrite <- Zle_Qle. exact Hi.
  - apply Qle_shift_div_r; [exact Hu'|].
    rewrite Qmult_1_l. rewrite <- Zle_Qle. exact Hiu.
Qed.

(** The quotient returned on the path that passes the intersection test. *)
Lemma calculate_overlap_areas (a b : Box) :
  let '(x1, y1, w1, h1) := a in
  let '(x2, y2, w2, h2) := b in
  Z.max x1 x2 <= Z.min (x1 + w1) (x2 + w2) ->
  Z.max y1 y2 <= Z.min (y1 + h1) (y2 + h2) ->
  union_area a b <> 0 ->
  _calculate_overlap a b
  = Ok (inject_Z (intersection_area a b) / inject_Z (union_area a b))%Q.
Proof.
  destruct a as [[[x1 y1] w1] h1], b as [[[x2 y2] w2] h2].
  intros Hx Hy Hu. unfold _calculate_overlap, union_area, intersection_area in *.
  destruct (Z.ltb_spec (Z.min (x1 + w1) (x2 + w2)) (Z.max x1 x2)); [lia|].
  destruct (Z.ltb_spec (Z.min (y1 + h1) (y2 + h2)) (Z.max y1 y2)); [lia|].
  cbn [orb].
  destruct (Z.eqb_spec
    (w1 * h1 + w2 * h2
     - (Z.min (x1 + w1) (x2 + w2) - Z.max x1 x2)
       * (Z.min (y1 + h1) (y2 + h2) - Z.max y1 y2)) 0); [contradiction|].
  reflexivity.
Qed.

Lemma intersection_bounds (a b : Box) :
  wf_box a -> wf_box b ->
  let '(x1, y1, w1, h1) := a in
  let '(x2, y2, w2, h2) := b in
  Z.max x1 x2 <= Z.min (x1 + w1) (x2 + w2) ->
  Z.max y1 y2 <= Z.min (y1 + h1) (y2 + h2) ->
  0 <= intersection_area a b <= union_area a b /\ 0 < union_area a b.
Proof.
  destruct a as [[[x1 y1] w1] h1], b as [[[x2 y2] w2] h2].
  intros [Hw1 Hh1] [Hw2 Hh2] Hx Hy.
  unfold union_area, intersection_area.
  set (dx := Z.min (x1 + w1) (x2 + w2) - Z.max x1 x2).
  set (dy := Z.min (y1 + h1) (y2 + h2) - Z.max y1 y2).
  assert (Hdx : 0 <= dx /\ dx <= w1 /\ dx <= w2) by (subst dx; lia).
  assert (Hdy : 0 <= dy /\ dy <= h1 /\ dy <= h2) by (subst dy; lia).
  clearbody dx dy.
  assert (dx * dy <= w1 * h1) by nia.
  assert (dx * dy <= w2 * h2) by nia.
  assert (0 < w1 * h1) by nia.
  assert (0 <= dx * dy) by nia.
  lia.
Qed.

(** Well-formed boxes never divide by zero. *)
Lemma calculate_overlap_wf (a b : Box) :
  wf_box a -> wf_box b ->
  exists r, _calculate_overlap a b = Ok r /\ (0 <= r <= 1)%Q.
Proof.
  intros Ha Hb.
  pose proof (intersection_bounds a b Ha Hb) as Hib.
  pose proof (calculate_overlap_areas a b) as Hq.
  destruct a as [[[x1 y1] w1] h1], b as [[[x2 y2] w2] h2].
  destruct (Z_lt_le_dec (Z.min (x1 + w1) (x2 + w2)) (Z.max x1 x2)) as [Hx|Hx].
  { exists 0%Q. split; [|split; apply Qle_refl || discriminate].
    unfold _calculate_overlap.
    destruct (Z.ltb_spec (Z.min (x1 + w1) (x2 + w2)) (Z.max x1 x2)); [reflexivity|lia]. }
  destruct (Z_lt_le_dec (Z.min (y1 + h1) (y2 + h2)) (Z.max y1 y2)) as [Hy|Hy].
  { exists 0%Q. split; [|split; apply Qle_refl || discriminate].
    unfold _calculate_overlap.
    destruct (Z.ltb_spec (Z.min (y1 + h1) (y2 + h2)) (Z.max y1 y2)); [|lia].
    now rewrite orb_true_r. }
  destruct (Hib Hx Hy) as [Hiu Hu].
  eexists. split; [apply Hq; [exact Hx|exact Hy|lia]|].
  now apply inject_Z_ratio_bounds.
Qed.

Lemma calculate_overlap_comm (a b : Box) :
  _calculate_overlap a b = _calculate_overlap b a.
Proof.
  destruct a as [[[x1 y1] w1] h1], b as [[[x2 y2] w2] h2].
  unfold _calculate_overlap.
  rewrite (Z.max_comm x2 x1), (Z.max_comm y2 y1).
  rewrite (Z.min_comm (x2 + w2)), (Z.min_comm (y2 + h2)).
  rewrite (Z.add_comm (w2 * h2) (w1 * h1)).
  reflexivity.
Qed.

Lemma calculate_overlap_self (a : Box) :
  wf_box a -> exists r, _calculate_overlap a a = Ok r /\ (r == 1)%Q.
Proof.
  intros Ha.
  pose proof (calculate_overlap_areas a a) as Hq.
  destruct a as [[[x y] w] h]. destruct Ha as [Hw Hh].
  assert (Hi : intersection_area (x, y, w, h) (x, y, w, h) = w * h).
  { unfold intersection_area. rewrite !Z.min_id, !Z.max_id. f_equal; lia. }
  assert (Hu : union_area (x, y, w, h) (x, y, w, h) = w * h).
  { unfold union_area. rewrite Hi. lia. }
  assert (Hpos : 0 < w * h) by nia.
  eexists. split.
  - apply Hq; [lia|lia|rewrite Hu; lia].
  - rewrite Hi, Hu. apply Qmult_inv_r.
    intros E. unfold Qeq in E. cbn in E. lia.
Qed.

Lemma calculate_overlap_disjoint (a b : Box) :
  wf_box a -> wf_box b -> no_overlap a b ->
  exists r, _calculate_overlap a b = Ok r /\ (r == 0)%Q.
Proof.
  intros Ha Hb Hd.
  pose proof (intersection_bounds a b Ha Hb) as Hib.
  pose proof (calculate_overlap_areas a b) as Hq.
  destruct a as [[[x1 y1] w1] h1], b as [[[x2 y2] w2] h2].
  destruct (Z_lt_le_dec (Z.min (x1 + w1) (x2 + w2)) (Z.max x1 x2)) as [Hx|Hx].
  { exists 0%Q. split; [|reflexivity].
    unfold _calculate_overlap.
    destruct (Z.ltb_spec (Z.min (x1 + w1) (x2 + w2)) (Z.max x1 x2)); [reflexivity|lia]. }
  destruct (Z_lt_le_dec (Z.min (y1 + h1) (y2 + h2)) (Z.max y1 y2)) as [Hy|Hy].
  { exists 0%Q. split; [|reflexivity].
    unfold _calculate_overlap.
    destruct (Z.ltb_spec (Z.min (y1 + h1) (y2 + h2)) (Z.max y1 y2)); [|lia].
    now rewrite orb_true_r. }
  destruct (Hib Hx Hy) as [Hiu Hu].
  eexists. split; [apply Hq; [exact Hx|exact Hy|lia]|].
  assert (Hz : intersection_area (x1, y1, w1, h1) (x2, y2, w2, h2) = 0).
  { unfold intersection_area. cbn in Hd.
    assert (Z.min (x1 + w1) (x2 + w2) - Z.max x1 x2 = 0
            \/ Z.min (y1 + h1) (y2 + h2) - Z.max y1 y2 = 0) as [E|E] by lia;
      rewrite E; lia. }
  rewrite Hz. unfold Qdiv. apply Qmult_0_l.
Qed.

End Overlap.

(** C6.  For well-formed boxes the overlap ratio is defined and lies in
    [[0,1]], it is 1 for a box against itself, 0 for boxes that do not
    overlap, and symmetric; for [(0,0,10,10)] and [(5,5,10,10)] the
    intersection area is 25, the union area 175 and the ratio 25/175. *)
Theorem overlap_ratio_properties (a b : Box) :
  wf_box a -> wf_box b ->
  (exists r, VehicleTracker._calculate_overlap a b = Ok r /\ (0 <= r <= 1)%Q)
  /\ (exists r, VehicleTracker._calculate_overlap a a = Ok r /\ (r == 1)%Q)
  /\ (no_overlap a b ->
      exists r, VehicleTracker._calculate_overlap a b = Ok r /\ (r == 0)%Q)
  /\ VehicleTracker._calculate_overlap a b = VehicleTracker._calculate_overlap b a
  /\ VehicleTracker.intersection_area (0, 0, 10, 10) (5, 5, 10, 10) = 25
  /\ VehicleTracker.union_area (0, 0, 10, 10) (5, 5, 10, 10) = 175
  /\ VehicleTracker._calculate_overlap (0, 0, 10, 10) (5, 5, 10, 10) = Ok (25 # 175).
Proof.
  intros Ha Hb. repeat split.
  - apply calculate_overlap_wf; assumption.
  - apply calculate_overlap_self; assumption.
  - apply calculate_overlap_disjoint; assumption.
  - apply calculate_overlap_comm.
Qed.

Lemma overlap_ratio_properties_witness :
  (exists r, VehicleTracker._calculate_overlap (0, 0, 10, 10) (20, 0, 4, 4) = Ok r
             /\ (r == 0)%Q).
Proof.
  apply (overlap_ratio_properties (0, 0, 10, 10) (20, 0, 4, 4)); cbn; lia.
Defined.

(** ** The crossing counter *)

Section Counter.
Import VehicleCounter.

Lemma crossing_events_S (current_time : Q) (c0 : Z) (n : nat) :
  crossing_events current_time c0 (S n)
  = (current_time, c0 + 1) :: crossing_events current_time (c0 + 1) n.
Proof.
  unfold crossing_events. cbn [seq map]. f_equal.
  rewrite <- seq_shift, map_map. apply map_ext. intros k. f_equal. lia.
Qed.

Lemma crossed_ids_cons (kv : Z * Vehicle) (vs : dict Vehicle) :
  crossed_ids (kv :: vs)
  = if crossed_line (snd kv) then {[fst kv]} ∪ crossed_ids vs else crossed_ids vs.
Proof.
  unfold crossed_ids. rewrite filter_cons.
  destruct (crossed_line (snd kv)) eqn:E.
  - rewrite decide_True by done. reflexivity.
  - rewrite decide_False by done. reflexivity.
Qed.

Lemma difference_new_id (id : Z) (X Y : gset Z) :
  id ∉ Y -> ({[id]} ∪ X) ∖ Y = {[id]} ∪ (X ∖ ({[id]} ∪ Y)).
Proof.
  intros Hnin. apply set_eq. intros x.
  rewrite elem_of_difference, !elem_of_union, elem_of_difference,
    elem_of_union, !elem_of_singleton.
  destruct (decide (x = id)) as [->|Hne]; tauto.
Qed.

Lemma count_step_counted (current_time : Q) (c : t) (id : Z) (v : Vehicle) :
  id ∈ counted_vehicles c -> count_step current_time c (id, v) = c.
Proof. intros Hin. unfold count_step. now rewrite decide_True. Qed.

Lemma count_step_not_crossed (current_time : Q) (c : t) (id : Z) (v : Vehicle) :
  crossed_line v = false -> count_step current_time c (id, v) = c.
Proof.
  intros Hcr. unfold count_step. rewrite Hcr.
  now destruct (decide (id ∈ counted_vehicles c)).
Qed.

Lemma count_step_new (current_time : Q) (c : t) (id : Z) (v : Vehicle) :
  id ∉ counted_vehicles c -> crossed_line v = true ->
  count_step current_time c (id, v)
  = mkCounter (detection_line_position c) (vehicle_count c + 1)
              ({[id]} ∪ counted_vehicles c)
              (count_history c ++ [(current_time, vehicle_count c + 1)])
              (last_update_time c).
Proof.
  intros Hnin Hcr. unfold count_step. rewrite decide_False by assumption.
  now rewrite Hcr.
Qed.

(** What the loop of [update] does to a counter whose count is the size of
    its counted-set. *)
Lemma count_loop_spec (current_time : Q) (vs : dict Vehicle) (c : t) :
  vehicle_count c = Z.of_nat (size (counted_vehicles c)) ->
  let c' := fold_left (count_step current_time) vs c in
  counted_vehicles c' = counted_vehicles c ∪ crossed_ids vs
  /\ vehicle_count c' = Z.of_nat (size (counted_vehicles c'))
  /\ count_history c'
     = count_history c
       ++ crossing_events current_time (vehicle_count c)
            (size (crossed_ids vs ∖ counted_vehicles c))
  /\ detection_line_position c' = detection_line_position c
  /\ last_update_time c' = last_update_time c.
Proof.
  revert c. induction vs as [|[id v] vs IH]; intros c Hc; cbn [fold_left].
  - cbn. unfold crossed_ids. cbn.
    replace (∅ ∖ counted_vehicles c) with (∅ : gset Z) by set_solver.
    rewrite size_empty. cbn. rewrite app_nil_r.
    repeat split; try done. set_solver.
  - rewrite crossed_ids_cons. cbn [fst snd].
    destruct (decide (id ∈ counted_vehicles c)) as [Hin|Hnin].
    + rewrite count_step_counted by assumption.
      destruct (IH c Hc) as (H1 & H2 & H3 & H4 & H5).
      repeat split; try done.
      * rewrite H1. destruct (crossed_line v); set_solver.
      * rewrite H3. do 2 f_equal.
        destruct (crossed_line v); [|done]. f_equal. set_solver.
    + destruct (crossed_line v) eqn:Ecr.
      * rewrite count_step_new by assumption.
        set (c1 := mkCounter _ _ _ _ _).
        assert (Hc1 : vehicle_count c1 = Z.of_nat (size (counted_vehicles c1))).
        { subst c1. cbn. rewrite size_union by set_solver.
          rewrite size_singleton. lia. }
        destruct (IH c1 Hc1) as (H1 & H2 & H3 & H4 & H5).
        repeat split; try done.
        -- rewrite H1. subst c1. cbn. set_solver.
        -- rewrite H3. subst c1. cbn. rewrite <- app_assoc. f_equal.
           rewrite difference_new_id by assumption.
           rewrite (size_union (C:=gset Z) {[id]}) by (clear; set_solver).
           rewrite size_singleton.
           cbn [Nat.add app]. rewrite crossing_events_S. reflexivity.
      * rewrite count_step_not_crossed by assumption.
        destruct (IH c Hc) as (H1 & H2 & H3 & H4 & H5).
        repeat split; done.
Qed.

Lemma update_spec (c : t) (vs : dict Vehicle) (fs : Z * Z) (ct : option Q) (now : Q) :
  vehicle_count c = Z.of_nat (size (counted_vehicles c)) ->
  let c' := fst (update c vs fs ct now) in
  let current_time := match ct with Some x => x | None => now end in
  counted_vehicles c' = counted_vehicles c ∪ crossed_ids vs
  /\ vehicle_count c' = Z.of_nat (size (counted_vehicles c'))
  /\ count_history c'
     = count_history c
       ++ crossing_events current_time (vehicle_count c)
            (size (crossed_ids vs ∖ counted_vehicles c))
  /\ snd (update c vs fs ct now) = vehicle_count c'.
Proof.
  intros Hc. unfold update. cbn [fst snd].
  destruct (count_loop_spec (match ct with Some x => x | None => now end) vs c Hc)
    as (H1 & H2 & H3 & _).
  cbn. repeat split; assumption.
Qed.

Lemma run_count_size (ops : list op) (c : t) :
  vehicle_count c = Z.of_nat (size (counted_vehicles c)) ->
  vehicle_count (run ops c) = Z.of_nat (size (counted_vehicles (run ops c))).
Proof.
  revert c. induction ops as [|o ops IH]; intros c Hc; [exact Hc|].
  unfold run. cbn [fold_left]. apply IH.
  destruct o as [vs fs ct now|now]; cbn [step].
  - apply (update_spec c vs fs ct now Hc).
  - reflexivity.
Qed.

Lemma last_default {A : Type} (l : list A) (x d : A) :
  last l = Some x -> List.last l d = x.
Proof.
  induction l as [|a l IH]; [discriminate|].
  destruct l as [|b l]; cbn in *; [congruence|]. exact IH.
Qed.

(** The code of [get_count_rate], read off its filtered history. *)
Lemma get_count_rate_unfold (c : t) (w now : Q) :
  get_count_rate c w now
  = match recent_counts c w now with
    | [] => 0%Q
    | first :: _ =>
        let fallback := if Qltb 0 w then fallback_rate c w else 0%Q in
        if (2 <=? length (recent_counts c w now))%nat then
          if Qltb 0 (fst (List.last (recent_counts c w now) first) - fst first)
          then delta_rate first (List.last (recent_counts c w now) first)
          else fallback
        else fallback
    end.
Proof.
  unfold get_count_rate, recent_counts, fallback_rate, delta_rate.
  destruct (filter _ (count_history c)) as [|[st sc] rest]; [reflexivity|].
  cbv zeta. destruct (List.last _ _) as [et ec]. reflexivity.
Qed.

End Counter.

(** C5.  After any run of [update] and [reset] calls on a fresh counter the
    cumulative count is the size of the counted-set.  A further [update]
    never decreases the count, adds to the counted-set exactly the ids of
    the live set whose flag is set, raises the count by the number of those
    that were not yet counted, and appends one event per newly counted id,
    numbered consecutively; [reset] clears count, counted-set and history
    together. *)
Theorem counter_count_is_counted_set_size
    (position now0 : Q) (ops : list VehicleCounter.op)
    (vehicles : dict Vehicle) (frame_shape : Z * Z) (current_time : option Q) (now : Q) :
  let c := VehicleCounter.run ops (VehicleCounter.__init__ position now0) in
  let c' := fst (VehicleCounter.update c vehicles frame_shape current_time now) in
  let newly := crossed_ids vehicles ∖ VehicleCounter.counted_vehicles c in
  VehicleCounter.vehicle_count c
    = Z.of_nat (size (VehicleCounter.counted_vehicles c))
  /\ VehicleCounter.vehicle_count c <= VehicleCounter.vehicle_count c'
  /\ VehicleCounter.vehicle_count c'
     = Z.of_nat (size (VehicleCounter.counted_vehicles c'))
  /\ VehicleCounter.counted_vehicles c'
     = VehicleCounter.counted_vehicles c ∪ crossed_ids vehicles
  /\ VehicleCounter.vehicle_count c'
     = VehicleCounter.vehicle_count c + Z.of_nat (size newly)
  /\ VehicleCounter.count_history c'
     = VehicleCounter.count_history c
       ++ crossing_events (match current_time with Some x => x | None => now end)
            (VehicleCounter.vehicle_count c) (size newly)
  /\ (let r := VehicleCounter.reset c now in
      VehicleCounter.vehicle_count r = 0
      /\ VehicleCounter.counted_vehicles r = ∅
      /\ VehicleCounter.count_history r = []).
Proof.
  intros c c' newly.
  assert (Hc : VehicleCounter.vehicle_count c
               = Z.of_nat (size (VehicleCounter.counted_vehicles c))).
  { apply run_count_size. cbn. rewrite size_empty. reflexivity. }
  destruct (update_spec c vehicles frame_shape current_time now Hc)
    as (H1 & H2 & H3 & H4).
  fold c' in H1, H2, H3.
  assert (Hsz : VehicleCounter.vehicle_count c'
                = VehicleCounter.vehicle_count c + Z.of_nat (size newly)).
  { rewrite H2, H1, Hc. rewrite size_union_alt. subst newly. lia. }
  repeat split; try assumption; try reflexivity.
  lia.
Qed.

(** C3, as the code has it.  With no entry of the history within the window
    the rate is 0.  With at least two entries and a positive time between
    the first and the last of them it is [(countDelta / timeDelta) * 60].
    In every other case with an entry in the window (exactly one entry, or
    no time between the first and the last) it is the fallback
    [(cumulativeCount / window) * 60] for a positive window and 0
    otherwise; a window with exactly one event gives the fallback. *)
Theorem count_rate_cases (c : VehicleCounter.t) (w now : Q) :
  let recent := recent_counts c w now in
  let rate := VehicleCounter.get_count_rate c w now in
  (recent = [] -> rate = 0%Q)
  /\ (forall first final,
        (2 <= length recent)%nat -> head recent = Some first ->
        last recent = Some final -> (0 < fst final - fst first)%Q ->
        rate = delta_rate first final)
  /\ (forall first final,
        head recent = Some first -> last recent = Some final ->
        (length recent < 2)%nat \/ (fst final - fst first <= 0)%Q ->
        ((0 < w)%Q -> rate = fallback_rate c w)
        /\ ((w <= 0)%Q -> rate = 0%Q))
  /\ (length recent = 1%nat -> (0 < w)%Q -> rate = fallback_rate c w).
Proof.
  intros recent rate. subst rate. rewrite get_count_rate_unfold. fold recent.
  assert (Hfb : forall x : Q,
    x = (if Qltb 0 w then fallback_rate c w else 0%Q) ->
    ((0 < w)%Q -> x = fallback_rate c w) /\ ((w <= 0)%Q -> x = 0%Q)).
  { intros x ->. split; intros Hw.
    - apply Qltb_lt in Hw. now rewrite Hw.
    - apply Qltb_ge in Hw. now rewrite Hw. }
  split; [intros ->; reflexivity|]. split; [|split].
  - intros first final Hlen Hhead Hlast Hpos.
    destruct recent as [|f rest] eqn:E; [discriminate|].
    cbn in Hhead. injection Hhead as ->.
    rewrite (last_default _ final first Hlast).
    apply Nat.leb_le in Hlen. rewrite Hlen.
    apply Qltb_lt in Hpos. now rewrite Hpos.
  - intros first final Hhead Hlast Hcase.
    destruct recent as [|f rest] eqn:E; [discriminate|].
    cbn in Hhead. injection Hhead as ->.
    rewrite (last_default _ final first Hlast).
    apply Hfb.
    destruct Hcase as [Hlen|Hdiff].
    + apply Nat.leb_gt in Hlen. now rewrite Hlen.
    + apply Qltb_ge in Hdiff. rewrite Hdiff. now destruct (2 <=? _)%nat.
  - intros Hlen Hw.
    destruct recent as [|f [|g rest]] eqn:E; try discriminate.
    cbn. apply Qltb_lt in Hw. now rewrite Hw.
Qed.

Lemma count_rate_cases_witness :
  let c := fst (VehicleCounter.update (VehicleCounter.__init__ (6 # 10) 0)
                  [(0, mkVehicle (0, 0, 10, 10) 0 true (mkFirstSeen (0, 0, 10, 10) false))]
                  (480, 640) (Some 0%Q) 0) in
  length (recent_counts c 60 30) = 1%nat
  /\ (0 < 60)%Q
  /\ VehicleCounter.get_count_rate c 60 30 = fallback_rate c 60.
Proof.
  intros c. split; [reflexivity|]. split; [reflexivity|].
  apply (count_rate_cases c 60 30); reflexivity.
Defined.

(** C3 as stated fails: one event older than the window leaves fewer than
    two entries and the window is positive, yet the rate is 0 and not the
    fallback estimate. *)
Lemma count_rate_claim_counterexample :
  let c := fst (VehicleCounter.update (VehicleCounter.__init__ (6 # 10) 0)
                  [(0, mkVehicle (0, 0, 10, 10) 0 true (mkFirstSeen (0, 0, 10, 10) false))]
                  (480, 640) (Some 0%Q) 0) in
  (length (recent_counts c 60 100) < 2)%nat
  /\ (0 < 60)%Q
  /\ (VehicleCounter.get_count_rate c 60 100 == 0)%Q
  /\ (fallback_rate c 60 == 1)%Q
  /\ ~ (VehicleCounter.get_count_rate c 60 100 == fallback_rate c 60)%Q.
Proof.
  intros c. vm_compute. repeat split; try reflexivity; lia.
Qed.

(** ** The speed calculator *)

Lemma list_getitem_last {A : Type} (l : list A) (x : A) :
  last l = Some x -> list_getitem l (-1) = Ok x.
Proof.
  intros Hl. apply last_Some in Hl as [l' ->].
  unfold list_getitem. rewrite length_app. cbn [length].
  change (-1 <? 0) with true. cbv iota.
  destruct (Z.ltb_spec (-1 + Z.of_nat (length l' + 1)) 0); [lia|].
  destruct (Z.leb_spec (Z.of_nat (length l' + 1)) (-1 + Z.of_nat (length l' + 1))); [lia|].
  cbn [orb].
  replace (Z.to_nat (-1 + Z.of_nat (length l' + 1))) with (length l') by lia.
  rewrite nth_error_app2 by lia. now rewrite Nat.sub_diag.
Qed.

Lemma slice_last_smoothed (history : list Q) :
  history <> [] ->
  np_mean (slice_last (Z.min 5 (Z.of_nat (length history))) history)
  = smoothed history.
Proof.
  intros Hne. unfold slice_last, smoothed.
  destruct history as [|h history]; [contradiction|].
  destruct (Z.eqb_spec (Z.min 5 (Z.of_nat (length (h :: history)))) 0) as [E|_].
  { cbn [length] in E. lia. }
  do 2 f_equal. lia.
Qed.

Section Speed.
Import SpeedCalculator.
Variable np_sqrt : Z -> Q.

Lemma vehicle_step_first (cft td : Q) (sc : t) (id : Z) (v : Vehicle) :
  vehicle_data sc !! id = None ->
  vehicle_step np_sqrt cft td sc (id, v)
  = Ok (set_tables (<[id := mkData [center (bbox v)] [cft] []]> (vehicle_data sc))
                   (speeds sc) sc).
Proof. intros H. unfold vehicle_step. now rewrite H. Qed.

Lemma vehicle_step_uncalibrated (cft td : Q) (sc : t) (id : Z) (v : Vehicle)
    (data : VehicleData) (prev : Z * Z) :
  vehicle_data sc !! id = Some data ->
  last (positions data) = Some prev ->
  DistanceCalculator.pixels_per_meter (distance_calculator sc) = None ->
  vehicle_step np_sqrt cft td sc (id, v) = Raise ValueError.
Proof.
  intros Hd Hp Hc. unfold vehicle_step. rewrite Hd.
  rewrite (list_getitem_last _ _ Hp). cbn [bind].
  unfold DistanceCalculator.calculate_distance, DistanceCalculator.pixel_to_meter.
  now rewrite Hc.
Qed.

Lemma vehicle_step_calibrated (cft td : Q) (sc : t) (id : Z) (v : Vehicle)
    (data : VehicleData) (prev : Z * Z) (tprev ppm : Q) :
  vehicle_data sc !! id = Some data ->
  last (positions data) = Some prev ->
  last (times data) = Some tprev ->
  DistanceCalculator.pixels_per_meter (distance_calculator sc) = Some ppm ->
  vehicle_step np_sqrt cft td sc (id, v)
  = Ok (set_tables
          (<[id := stepped_data np_sqrt cft v ppm data prev tprev]> (vehicle_data sc))
          (stepped_speeds np_sqrt cft v ppm data prev tprev id (speeds sc)) sc).
Proof.
  intros Hd Hp Ht Hc. unfold vehicle_step. rewrite Hd.
  rewrite (list_getitem_last _ _ Hp). cbn [bind].
  unfold DistanceCalculator.calculate_distance, DistanceCalculator.pixel_to_meter.
  rewrite Hc. cbn [bind].
  assert (Hlen : (0 <? Z.of_nat (length (times data))) = true).
  { apply Z.ltb_lt. apply last_Some in Ht as [l' ->]. rewrite length_app. cbn. lia. }
  rewrite Hlen, (list_getitem_last _ _ Ht). cbn [bind].
  unfold stepped_data, stepped_speeds.
  destruct (Qltb 0 (cft - tprev)); [|reflexivity].
  rewrite slice_last_smoothed by (now destruct (speeds_history data)).
  reflexivity.
Qed.

Lemma vehicle_step_fields (cft td : Q) (sc sc' : t) (item : Z * Vehicle) :
  vehicle_step np_sqrt cft td sc item = Ok sc' ->
  distance_calculator sc' = distance_calculator sc
  /\ fps sc' = fps sc
  /\ last_frame_time sc' = last_frame_time sc.
Proof.
  destruct item as [id v]. unfold vehicle_step. intros H.
  destruct (vehicle_data sc !! id) as [data|].
  - bind_inv H. destruct (Qltb 0 _); injection H as <-; now cbn.
  - injection H as <-. now cbn.
Qed.

Lemma kept_lookup (vs : dict Vehicle) (m : gmap Z VehicleData) (id : Z) :
  dict_mem id vs = true ->
  filter (fun kv => dict_mem (fst kv) vs = true) m !! id = m !! id.
Proof.
  intros Hmem. destruct (m !! id) as [x|] eqn:E.
  - now apply map_lookup_filter_Some_2.
  - apply map_lookup_filter_None. now left.
Qed.

(** [speed_inv] holds of a fresh calculator and is kept by every call of
    [update] that returns, calibrated or not. *)
Lemma speed_inv_init (dc : DistanceCalculator.t) (f : option Q) :
  speed_inv (__init__ dc f).
Proof. unfold speed_inv. cbn. apply map_Forall_empty. Qed.

Lemma vehicle_step_inv (cft td : Q) (sc sc' : t) (item : Z * Vehicle) :
  speed_inv sc -> vehicle_step np_sqrt cft td sc item = Ok sc' -> speed_inv sc'.
Proof.
  destruct item as [id v]. unfold vehicle_step. intros Hinv H.
  destruct (vehicle_data sc !! id) as [data|].
  - bind_inv H. destruct (Qltb 0 _); injection H as <-; unfold speed_inv; cbn;
      (apply map_Forall_insert_2; [|exact Hinv]); cbn;
      split; intros E'; now apply app_eq_nil in E' as [_ ?].
  - injection H as <-. unfold speed_inv. cbn.
    apply map_Forall_insert_2; [|exact Hinv]. cbn. split; discriminate.
Qed.

Lemma speed_update_inv (sc : t) (vs : dict Vehicle) (fn : option Z) (ct : option Q)
    (now : Q) (r : t * gmap Z Q) :
  speed_inv sc -> update np_sqrt sc vs fn ct now = Ok r -> speed_inv (fst r).
Proof.
  intros Hinv Hup. unfold update in Hup.
  apply bind_ok in Hup as (cft & _ & Hup).
  apply bind_ok in Hup as (s1 & Hloop & [= <-]). cbn [fst].
  assert (Hinv1 : speed_inv s1).
  { refine (for_each_invariant speed_inv _ _ _ s1 _ _ Hloop); [|exact Hinv].
    intros sa x sb _ Ha Hb. eapply vehicle_step_inv; eassumption. }
  intros i x Hix. cbn in Hix. apply map_lookup_filter_Some in Hix as [Hix _].
  exact (Hinv1 i x Hix).
Qed.

Lemma dict_mem_keys {V : Type} (k : Z) (d : dict V) :
  dict_mem k d = true <-> k ∈ dict_keys d.
Proof.
  unfold dict_mem, dict_keys. induction d as [|[k' v] d IH]; cbn.
  - split; [discriminate|]. intros H. inversion H.
  - destruct (Z.eqb_spec k k') as [->|Hne].
    + split; [intros _; apply list_elem_of_here|reflexivity].
    + rewrite IH. split; [apply list_elem_of_further|].
      intros H. apply elem_of_cons in H as [?|?]; [contradiction|assumption].
Qed.

Lemma speed_inv_last (sc : t) (id : Z) (data : VehicleData) :
  speed_inv sc -> vehicle_data sc !! id = Some data ->
  exists prev tprev,
    last (positions data) = Some prev /\ last (times data) = Some tprev.
Proof.
  intros Hinv Hd. destruct (Hinv id data Hd) as [Hp Ht].
  destruct (last (positions data)) as [prev|] eqn:Ep;
    [|apply last_None in Ep; contradiction].
  destruct (last (times data)) as [tprev|] eqn:Et;
    [|apply last_None in Et; contradiction].
  eauto.
Qed.

(** One step on a calibrated calculator: it returns, keeps the invariant,
    leaves the other identities alone and has [step_effect] on its own. *)
Lemma vehicle_step_effect (cft td ppm : Q) (sc : t) (id : Z) (v : Vehicle) :
  speed_inv sc ->
  DistanceCalculator.pixels_per_meter (distance_calculator sc) = Some ppm ->
  exists sc',
    vehicle_step np_sqrt cft td sc (id, v) = Ok sc'
    /\ speed_inv sc'
    /\ distance_calculator sc' = distance_calculator sc
    /\ (forall id', id' <> id ->
          vehicle_data sc' !! id' = vehicle_data sc !! id'
          /\ speeds sc' !! id' = speeds sc !! id')
    /\ step_effect np_sqrt cft ppm sc sc' id v.
Proof.
  intros Hinv Hc. unfold step_effect.
  destruct (vehicle_data sc !! id) as [data|] eqn:Hd.
  - destruct (speed_inv_last sc id data Hinv Hd) as (prev & tprev & Hp & Ht).
    eexists. split; [apply (vehicle_step_calibrated cft td sc id v data prev tprev ppm);
                      assumption|].
    cbn. split; [|split; [reflexivity|split]].
    + unfold speed_inv. cbn. apply map_Forall_insert_2; [|exact Hinv].
      unfold stepped_data. cbn. split; intros E; now apply app_eq_nil in E as [_ ?].
    + intros id' Hne. rewrite lookup_insert_ne by congruence. split; [reflexivity|].
      unfold stepped_speeds. destruct (Qltb 0 (cft - tprev)); [|reflexivity].
      now rewrite lookup_insert_ne by congruence.
    + exists prev, tprev. rewrite lookup_insert_eq. now repeat split.
  - eexists. split; [apply vehicle_step_first; assumption|].
    cbn. split; [|split; [reflexivity|split]].
    + unfold speed_inv. cbn. apply map_Forall_insert_2; [|exact Hinv].
      cbn. split; discriminate.
    + intros id' Hne. now rewrite lookup_insert_ne by congruence.
    + now rewrite lookup_insert_eq.
Qed.

Lemma step_effect_frame (cft ppm : Q) (sc sc1 sc2 sc' : t) (id : Z) (v : Vehicle) :
  vehicle_data sc1 !! id = vehicle_data sc !! id ->
  speeds sc1 !! id = speeds sc !! id ->
  vehicle_data sc' !! id = vehicle_data sc2 !! id ->
  speeds sc' !! id = speeds sc2 !! id ->
  step_effect np_sqrt cft ppm sc1 sc2 id v ->
  step_effect np_sqrt cft ppm sc sc' id v.
Proof.
  unfold step_effect. intros -> Hs -> ->.
  destruct (vehicle_data sc !! id) as [data|].
  - intros (prev & tprev & Hp & Ht & Hd & Hsp). exists prev, tprev.
    repeat split; try assumption. rewrite Hsp. unfold stepped_speeds.
    destruct (Qltb 0 (cft - tprev)); [|exact Hs].
    now rewrite !lookup_insert_eq.
  - now rewrite Hs.
Qed.

(** The main loop of [update] on a calibrated calculator. *)
Lemma speed_loop_effect (cft td ppm : Q) (vs : dict Vehicle) (sc : t) :
  speed_inv sc ->
  DistanceCalculator.pixels_per_meter (distance_calculator sc) = Some ppm ->
  NoDup (dict_keys vs) ->
  exists sc',
    for_each (vehicle_step np_sqrt cft td) vs sc = Ok sc'
    /\ speed_inv sc'
    /\ distance_calculator sc' = distance_calculator sc
    /\ (forall id, id ∉ dict_keys vs ->
          vehicle_data sc' !! id = vehicle_data sc !! id
          /\ speeds sc' !! id = speeds sc !! id)
    /\ (forall id v, (id, v) ∈ vs -> step_effect np_sqrt cft ppm sc sc' id v).
Proof.
  revert sc. induction vs as [|[id0 v0] vs IH]; intros sc Hinv Hc Hnd.
  - exists sc. cbn [for_each]. split; [reflexivity|]. split; [exact Hinv|].
    split; [reflexivity|]. split; [done|]. intros id v Hin. inversion Hin.
  - cbn in Hnd. apply NoDup_cons in Hnd as [Hnotin Hnd].
    destruct (vehicle_step_effect cft td ppm sc id0 v0 Hinv Hc)
      as (sc1 & Hstep & Hinv1 & Hdc1 & Hframe1 & Heff1).
    assert (Hc1 : DistanceCalculator.pixels_per_meter (distance_calculator sc1)
                  = Some ppm) by (now rewrite Hdc1).
    destruct (IH sc1 Hinv1 Hc1 Hnd) as (sc' & Hloop & Hinv' & Hdc' & Hframe' & Heff').
    exists sc'. cbn [for_each]. rewrite Hstep. cbn [bind].
    split; [exact Hloop|]. split; [exact Hinv'|].
    split; [now rewrite Hdc'|]. split.
    + intros id Hid. cbn in Hid. apply not_elem_of_cons in Hid as [Hne Hid].
      destruct (Hframe' id Hid) as [-> ->]. now apply Hframe1.
    + intros id v Hin. apply elem_of_cons in Hin as [Heq|Hin].
      * injection Heq as -> ->.
        destruct (Hframe' id0 Hnotin) as [Hvd Hsp].
        apply (step_effect_frame cft ppm sc sc sc1 sc' id0 v0); done.
      * assert (Hne : id <> id0).
        { intros ->. apply Hnotin. unfold dict_keys.
          apply list_elem_of_fmap. now exists (id0, v). }
        destruct (Hframe1 id Hne) as [Hvd Hsp].
        apply (step_effect_frame cft ppm sc sc1 sc' sc' id v); try done.
        now apply Heff'.
Qed.

(** [update] on a calibrated calculator, identity by identity. *)
Lemma speed_update_effect (sc : t) (vs : dict Vehicle) (fn : option Z)
    (ct : option Q) (now cft ppm : Q) :
  speed_inv sc ->
  DistanceCalculator.pixels_per_meter (distance_calculator sc) = Some ppm ->
  NoDup (dict_keys vs) ->
  frame_time sc fn ct now = Ok cft ->
  exists sc',
    update np_sqrt sc vs fn ct now = Ok (sc', speeds sc')
    /\ speed_inv sc'
    /\ last_frame_time sc' = Some cft
    /\ (forall id v, (id, v) ∈ vs -> step_effect np_sqrt cft ppm sc sc' id v)
    /\ (forall id, id ∉ dict_keys vs ->
          vehicle_data sc' !! id = None /\ speeds sc' !! id = speeds sc !! id).
Proof.
  intros Hinv Hc Hnd Hft. unfold update. rewrite Hft. cbn [bind].
  set (td := (cft - _)%Q).
  set (s0 := mkSpeed _ _ _ _ _).
  destruct (speed_loop_effect cft td ppm vs s0 Hinv Hc Hnd)
    as (s1 & Hloop & Hinv1 & Hdc1 & Hframe & Heff).
  rewrite Hloop. cbn [bind]. eexists. split; [reflexivity|].
  assert (Hlft : last_frame_time s1 = Some cft).
  { refine (for_each_invariant (fun s => last_frame_time s = Some cft)
              _ _ s0 s1 _ _ Hloop); [|reflexivity].
    intros sa x sb _ Ha Hb. apply vehicle_step_fields in Hb as (_ & _ & ->).
    exact Ha. }
  cbn. split; [|split; [exact Hlft|split]].
  - intros i x Hix. cbn in Hix. apply map_lookup_filter_Some in Hix as [Hix _].
    exact (Hinv1 i x Hix).
  - intros id v Hin.
    assert (Hk : id ∈ dict_keys vs).
    { unfold dict_keys. apply list_elem_of_fmap. now exists (id, v). }
    apply (step_effect_frame cft ppm sc s0 s1 _ id v); try done.
    + cbn. apply kept_lookup. now apply dict_mem_keys.
    + now apply Heff.
  - intros id Hid. destruct (Hframe id Hid) as [_ Hsp]. split; [|exact Hsp].
    cbn. apply map_lookup_filter_None. right. intros x _ Hmem. cbn in Hmem.
    now apply dict_mem_keys in Hmem.
Qed.



Lemma vehicle_step_no_value_error (cft td ppm : Q) (sc : t) (item : Z * Vehicle) :
  DistanceCalculator.pixels_per_meter (distance_calculator sc) = Some ppm ->
  vehicle_step np_sqrt cft td sc item <> Raise ValueError.
Proof.
  intros Hc. destruct item as [id v]. unfold vehicle_step.
  destruct (vehicle_data sc !! id) as [data|]; [|discriminate].
  unfold list_getitem at 1.
  destruct (_ || _); [discriminate|].
  destruct (nth_error (positions data) _); [|discriminate]. cbn [bind].
  unfold DistanceCalculator.calculate_distance, DistanceCalculator.pixel_to_meter.
  rewrite Hc. cbn [bind].
  destruct (0 <? Z.of_nat (length (times data))).
  - unfold list_getitem. destruct (_ || _); [discriminate|].
    destruct (nth_error (times data) _); [|discriminate]. cbn [bind].
    now destruct (Qltb 0 _).
  - cbn [bind]. now destruct (Qltb 0 _).
Qed.

Lemma speed_loop_no_value_error (cft td ppm : Q) (vs : dict Vehicle) (sc : t) :
  DistanceCalculator.pixels_per_meter (distance_calculator sc) = Some ppm ->
  for_each (vehicle_step np_sqrt cft td) vs sc <> Raise ValueError.
Proof.
  revert sc. induction vs as [|item vs IH]; intros sc Hc; cbn; [discriminate|].
  destruct (vehicle_step np_sqrt cft td sc item) as [sc1|e] eqn:E; cbn.
  - apply IH. apply vehicle_step_fields in E as (-> & _). exact Hc.
  - intros [= ->]. now apply (vehicle_step_no_value_error cft td ppm sc item).
Qed.

Lemma speed_update_no_value_error (sc : t) (vs : dict Vehicle) (fn : option Z)
    (ct : option Q) (now ppm : Q) :
  DistanceCalculator.pixels_per_meter (distance_calculator sc) = Some ppm ->
  update np_sqrt sc vs fn ct now <> Raise ValueError.
Proof.
  intros Hc. unfold update.
  destruct (frame_time sc fn ct now) as [cft|e] eqn:Eft; cbn [bind].
  - set (td := (cft - _)%Q). set (s0 := mkSpeed _ _ _ _ _).
    destruct (for_each _ vs s0) as [s1|e] eqn:E; cbn [bind]; [discriminate|].
    intros [= ->]. now apply (speed_loop_no_value_error cft td ppm vs s0).
  - intros [= ->]. unfold frame_time in Eft.
    destruct (fps sc), fn; try discriminate.
    destruct (Qeq_bool _ _); discriminate.
Qed.

Lemma speed_loop_uncalibrated (cft td : Q) (vs : dict Vehicle) (sc : t) :
  speed_inv sc ->
  DistanceCalculator.pixels_per_meter (distance_calculator sc) = None ->
  (exists id, id ∈ dict_keys vs /\ is_Some (vehicle_data sc !! id)) ->
  for_each (vehicle_step np_sqrt cft td) vs sc = Raise ValueError.
Proof.
  revert sc. induction vs as [|[id0 v0] vs IH]; intros sc Hinv Hc (id & Hin & Hsome).
  - inversion Hin.
  - cbn [for_each]. destruct (vehicle_data sc !! id0) as [data|] eqn:Hd.
    + destruct (speed_inv_last sc id0 data Hinv Hd) as (prev & _ & Hp & _).
      now rewrite (vehicle_step_uncalibrated cft td sc id0 v0 data prev).
    + rewrite vehicle_step_first by assumption. cbn [bind]. apply IH.
      * unfold speed_inv. cbn. apply map_Forall_insert_2; [|exact Hinv].
        cbn. split; discriminate.
      * exact Hc.
      * exists id. cbn in Hin. apply elem_of_cons in Hin as [->|Hin].
        { rewrite Hd in Hsome. now destruct Hsome. }
        split; [exact Hin|]. cbn.
        destruct (decide (id = id0)) as [->|Hne].
        -- rewrite lookup_insert_eq. eauto.
        -- now rewrite lookup_insert_ne by congruence.
Qed.

End Speed.

(** C8.  Without a calibration factor every conversion of a pixel distance
    raises [ValueError], and so does the step of [update] for an identity
    that has a recorded sample, hence the whole call as soon as one such
    identity is in the live set; the first observation of an identity
    converts nothing and returns.  With a calibration factor no conversion,
    step or call raises [ValueError]. *)
Theorem missing_calibration_raises (np_sqrt : Z -> Q) (dc : DistanceCalculator.t) :
  (DistanceCalculator.pixels_per_meter dc = None ->
     (forall pd, DistanceCalculator.pixel_to_meter dc pd = Raise ValueError)
     /\ (forall p q, DistanceCalculator.calculate_distance np_sqrt dc p q = Raise ValueError)
     /\ (forall sc id v cft td data prev,
           SpeedCalculator.distance_calculator sc = dc ->
           SpeedCalculator.vehicle_data sc !! id = Some data ->
           last (SpeedCalculator.positions data) = Some prev ->
           SpeedCalculator.vehicle_step np_sqrt cft td sc (id, v) = Raise ValueError)
     /\ (forall sc vs fn ct now cft,
           SpeedCalculator.distance_calculator sc = dc ->
           speed_inv sc ->
           SpeedCalculator.frame_time sc fn ct now = Ok cft ->
           (exists id, id ∈ dict_keys vs
                       /\ is_Some (SpeedCalculator.vehicle_data sc !! id)) ->
           SpeedCalculator.update np_sqrt sc vs fn ct now = Raise ValueError))
  /\ (forall sc id v cft td,
        SpeedCalculator.distance_calculator sc = dc ->
        SpeedCalculator.vehicle_data sc !! id = None ->
        SpeedCalculator.vehicle_step np_sqrt cft td sc (id, v)
        = Ok (SpeedCalculator.set_tables
                (<[id := SpeedCalculator.mkData [SpeedCalculator.center (bbox v)] [cft] []]>
                   (SpeedCalculator.vehicle_data sc))
                (SpeedCalculator.speeds sc) sc))
  /\ (forall ppm,
        DistanceCalculator.pixels_per_meter dc = Some ppm ->
        (forall pd, DistanceCalculator.pixel_to_meter dc pd <> Raise ValueError)
        /\ (~ (ppm == 0)%Q ->
            forall pd, DistanceCalculator.pixel_to_meter dc pd = Ok (pd / ppm)%Q)
        /\ (forall sc item cft td,
              SpeedCalculator.distance_calculator sc = dc ->
              SpeedCalculator.vehicle_step np_sqrt cft td sc item <> Raise ValueError)
        /\ (forall sc vs fn ct now,
              SpeedCalculator.distance_calculator sc = dc ->
              SpeedCalculator.update np_sqrt sc vs fn ct now <> Raise ValueError)).
Proof.
  split; [|split].
  - intros Hnone.
    assert (Hp : forall pd, DistanceCalculator.pixel_to_meter dc pd = Raise ValueError).
    { intros pd. unfold DistanceCalculator.pixel_to_meter. now rewrite Hnone. }
    split; [exact Hp|]. split; [|split].
    + intros p q. apply Hp.
    + intros sc id v cft td data prev <- Hd Hl.
      now apply (vehicle_step_uncalibrated np_sqrt cft td sc id v data prev).
    + intros sc vs fn ct now cft <- Hinv Hft Hex.
      unfold SpeedCalculator.update. rewrite Hft. cbn [bind].
      rewrite speed_loop_uncalibrated; [reflexivity|exact Hinv|exact Hnone|exact Hex].
  - intros sc id v cft td _ Hd. now apply vehicle_step_first.
  - intros ppm Hsome. split; [|split; [|split]].
    + intros pd. unfold DistanceCalculator.pixel_to_meter. now rewrite Hsome.
    + intros _ pd. unfold DistanceCalculator.pixel_to_meter. now rewrite Hsome.
    + intros sc item cft td <-. now apply (vehicle_step_no_value_error np_sqrt cft td ppm).
    + intros sc vs fn ct now <-. now apply (speed_update_no_value_error np_sqrt _ _ _ _ _ ppm).
Qed.

(** The example calculators are what one call of [update] on a fresh
    calculator produces. *)
Lemma example_calibrated_reachable :
  DistanceCalculator.__init__ (Some 100%Q) (Some 1%Q)
  = Ok (SpeedCalculator.distance_calculator example_calibrated)
  /\ SpeedCalculator.update sqrt_of_square
       (SpeedCalculator.__init__ (SpeedCalculator.distance_calculator example_calibrated)
          None)
       [(0, example_vehicle (0, 0, 10, 10))] None (Some 0%Q) 0
     = Ok (example_calibrated, ∅).
Proof. split; vm_compute; reflexivity. Qed.

Lemma example_uncalibrated_reachable :
  DistanceCalculator.__init__ None None
  = Ok (SpeedCalculator.distance_calculator example_uncalibrated)
  /\ SpeedCalculator.update sqrt_of_square
       (SpeedCalculator.__init__ (SpeedCalculator.distance_calculator example_uncalibrated)
          None)
       [(0, example_vehicle (0, 0, 10, 10))] None (Some 0%Q) 0
     = Ok (example_uncalibrated, ∅).
Proof. split; vm_compute; reflexivity. Qed.

Lemma example_calibrated_inv : speed_inv example_calibrated.
Proof.
  unfold speed_inv, example_calibrated. cbn.
  apply map_Forall_singleton. cbn. split; discriminate.
Qed.

(** C9, as the code has it.  On a calibrated calculator, for an identity of
    the live set with a previous sample: when the time elapsed since that
    sample is not strictly positive the call appends the new position and
    time, appends no instantaneous speed and leaves the identity's entry of
    the speed table as it was; and an instantaneous speed is appended only
    when the elapsed time, the divisor, is strictly positive. *)
Theorem elapsed_guard_skips_speed (np_sqrt : Z -> Q) (sc : SpeedCalculator.t)
    (vs : dict Vehicle) (fn : option Z) (ct : option Q) (now cft ppm : Q)
    (id : Z) (v : Vehicle) (data : SpeedCalculator.VehicleData)
    (prev : Z * Z) (tprev : Q) :
  speed_inv sc ->
  DistanceCalculator.pixels_per_meter (SpeedCalculator.distance_calculator sc) = Some ppm ->
  NoDup (dict_keys vs) ->
  SpeedCalculator.frame_time sc fn ct now = Ok cft ->
  (id, v) ∈ vs ->
  SpeedCalculator.vehicle_data sc !! id = Some data ->
  last (SpeedCalculator.positions data) = Some prev ->
  last (SpeedCalculator.times data) = Some tprev ->
  exists sc' data',
    SpeedCalculator.update np_sqrt sc vs fn ct now = Ok (sc', SpeedCalculator.speeds sc')
    /\ SpeedCalculator.vehicle_data sc' !! id = Some data'
    /\ SpeedCalculator.positions data'
       = SpeedCalculator.positions data ++ [SpeedCalculator.center (bbox v)]
    /\ SpeedCalculator.times data' = SpeedCalculator.times data ++ [cft]
    /\ ((cft - tprev <= 0)%Q ->
        SpeedCalculator.speeds_history data' = SpeedCalculator.speeds_history data
        /\ SpeedCalculator.speeds sc' !! id = SpeedCalculator.speeds sc !! id)
    /\ (SpeedCalculator.speeds_history data' <> SpeedCalculator.speeds_history data ->
        (0 < cft - tprev)%Q).
Proof.
  intros Hinv Hc Hnd Hft Hin Hd Hp Ht.
  destruct (speed_update_effect np_sqrt sc vs fn ct now cft ppm Hinv Hc Hnd Hft)
    as (sc' & Hup & _ & _ & Heff & _).
  specialize (Heff id v Hin). unfold step_effect in Heff. rewrite Hd in Heff.
  destruct Heff as (prev' & tprev' & Hp' & Ht' & Hd' & Hsp').
  assert (prev' = prev) as -> by congruence.
  assert (tprev' = tprev) as -> by congruence.
  exists sc', (stepped_data np_sqrt cft v ppm data prev tprev).
  split; [exact Hup|]. split; [exact Hd'|]. split; [reflexivity|].
  split; [reflexivity|]. unfold stepped_data, stepped_speeds in *. cbn.
  destruct (Qltb 0 (cft - tprev)) eqn:E.
  - apply Qltb_lt in E. split.
    + intros Hle. exfalso. apply (Qlt_not_le _ _ E Hle).
    + intros _. exact E.
  - split; [intros _; now split|]. intros Hne. now contradiction Hne.
Qed.

Lemma elapsed_guard_skips_speed_witness :
  exists sc' data',
    SpeedCalculator.update sqrt_of_square example_calibrated
      [(0, example_vehicle (10, 0, 10, 10))] None (Some 0%Q) 0
    = Ok (sc', SpeedCalculator.speeds sc')
    /\ SpeedCalculator.vehicle_data sc' !! 0 = Some data'
    /\ SpeedCalculator.positions data' = [(5, 5)] ++ [(15, 5)]
    /\ SpeedCalculator.times data' = [0%Q] ++ [0%Q]
    /\ ((0 - 0 <= 0)%Q ->
        SpeedCalculator.speeds_history data' = []
        /\ SpeedCalculator.speeds sc' !! 0 = (∅ : gmap Z Q) !! 0)
    /\ (SpeedCalculator.speeds_history data' <> [] -> (0 < 0 - 0)%Q).
Proof.
  apply (elapsed_guard_skips_speed sqrt_of_square example_calibrated
           [(0, example_vehicle (10, 0, 10, 10))] None (Some 0%Q) 0 0 100
           0 (example_vehicle (10, 0, 10, 10))
           (SpeedCalculator.mkData [(5, 5)] [0%Q] []) (5, 5) 0).
  - exact example_calibrated_inv.
  - reflexivity.
  - cbn. apply NoDup_singleton.
  - reflexivity.
  - apply list_elem_of_here.
  - reflexivity.
  - reflexivity.
  - reflexivity.
Defined.

(** C9 as stated fails on a calculator without calibration factor: the
    step raises before the guard and appends no sample. *)
Lemma elapsed_guard_claim_counterexample :
  SpeedCalculator.update sqrt_of_square
    (SpeedCalculator.__init__ (DistanceCalculator.mkCalc None None None) None)
    [(0, example_vehicle (0, 0, 10, 10))] None (Some 0%Q) 0
  = Ok (example_uncalibrated, ∅)
  /\ SpeedCalculator.vehicle_data example_uncalibrated !! 0
     = Some (SpeedCalculator.mkData [(5, 5)] [0%Q] [])
  /\ (0 - 0 <= 0)%Q
  /\ SpeedCalculator.update sqrt_of_square example_uncalibrated
       [(0, example_vehicle (10, 0, 10, 10))] None (Some 0%Q) 0
     = Raise ValueError
  /\ ~ (exists sc' data',
          SpeedCalculator.update sqrt_of_square example_uncalibrated
            [(0, example_vehicle (10, 0, 10, 10))] None (Some 0%Q) 0
          = Ok (sc', SpeedCalculator.speeds sc')
          /\ SpeedCalculator.vehicle_data sc' !! 0 = Some data'
          /\ SpeedCalculator.positions data' = [(5, 5)] ++ [(15, 5)]).
Proof.
  assert (H : SpeedCalculator.update sqrt_of_square example_uncalibrated
                [(0, example_vehicle (10, 0, 10, 10))] None (Some 0%Q) 0
              = Raise ValueError) by (vm_compute; reflexivity).
  split; [apply example_uncalibrated_reachable|].
  split; [reflexivity|]. split; [discriminate|]. split; [exact H|].
  intros (sc' & data' & Hok & _). rewrite H in Hok. discriminate.
Qed.

Lemma np_mean_singleton (x : Q) : (np_mean [x] == x)%Q.
Proof. unfold np_mean. cbn. field. Qed.

(** C2, as the code has it.  On a calibrated calculator, for an identity of
    the live set with a previous sample, [update] returns and appends the
    current centroid and the time of the call to the identity's samples.
    When the time elapsed since the identity's own previous sample is
    strictly positive, it appends to the identity's speed history the
    instantaneous speed: the Euclidean pixel distance between the previous
    and the current centroid, divided by the calibration factor, divided by
    that elapsed time, times 3.6; and the returned table maps the identity
    to the mean of the last [min 5 (length history)] values of the history.
    When the elapsed time is not strictly positive, the speed history is
    left as it was and so is the identity's entry of the speed table.  With
    factor 100, a displacement of 10 pixels and 1/30 s the instantaneous
    speed is 10.8. *)
Theorem speed_update_instantaneous_and_smoothed (np_sqrt : Z -> Q)
    (sc : SpeedCalculator.t) (vs : dict Vehicle) (fn : option Z) (ct : option Q)
    (now cft ppm : Q) (id : Z) (v : Vehicle) (data : SpeedCalculator.VehicleData)
    (prev : Z * Z) (tprev : Q) :
  speed_inv sc ->
  DistanceCalculator.pixels_per_meter (SpeedCalculator.distance_calculator sc) = Some ppm ->
  ~ (ppm == 0)%Q ->
  NoDup (dict_keys vs) ->
  SpeedCalculator.frame_time sc fn ct now = Ok cft ->
  (id, v) ∈ vs ->
  SpeedCalculator.vehicle_data sc !! id = Some data ->
  last (SpeedCalculator.positions data) = Some prev ->
  last (SpeedCalculator.times data) = Some tprev ->
  let speed_kmh :=
    instantaneous_kmh np_sqrt ppm prev (SpeedCalculator.center (bbox v))
      (cft - tprev) in
  let history := SpeedCalculator.speeds_history data ++ [speed_kmh] in
  (exists sc',
     SpeedCalculator.update np_sqrt sc vs fn ct now = Ok (sc', SpeedCalculator.speeds sc')
     /\ ((0 < cft - tprev)%Q ->
         SpeedCalculator.vehicle_data sc' !! id
         = Some (SpeedCalculator.mkData
                   (SpeedCalculator.positions data ++ [SpeedCalculator.center (bbox v)])
                   (SpeedCalculator.times data ++ [cft]) history)
         /\ SpeedCalculator.speeds sc' !! id = Some (smoothed history))
     /\ ((cft - tprev <= 0)%Q ->
         SpeedCalculator.vehicle_data sc' !! id
         = Some (SpeedCalculator.mkData
                   (SpeedCalculator.positions data ++ [SpeedCalculator.center (bbox v)])
                   (SpeedCalculator.times data ++ [cft])
                   (SpeedCalculator.speeds_history data))
         /\ SpeedCalculator.speeds sc' !! id = SpeedCalculator.speeds sc !! id))
  /\ (Qeq (np_sqrt 100) 10%Q ->
      Qeq (instantaneous_kmh np_sqrt 100%Q (0, 0) (10, 0) (1 # 30)%Q) (108 # 10)%Q).
Proof.
  intros Hinv Hc _ Hnd Hft Hin Hd Hp Ht speed_kmh history. split.
  - destruct (speed_update_effect np_sqrt sc vs fn ct now cft ppm Hinv Hc Hnd Hft)
      as (sc' & Hup & _ & _ & Heff & _).
    specialize (Heff id v Hin). unfold step_effect in Heff. rewrite Hd in Heff.
    destruct Heff as (prev' & tprev' & Hp' & Ht' & Hd' & Hsp').
    assert (prev' = prev) as -> by congruence.
    assert (tprev' = tprev) as -> by congruence.
    exists sc'. split; [exact Hup|].
    unfold stepped_data, stepped_speeds in *. split.
    + intros Hpos. apply Qltb_lt in Hpos. rewrite Hpos in Hd', Hsp'.
      split; [exact Hd'|]. rewrite Hsp', lookup_insert_eq. reflexivity.
    + intros Hle. apply Qltb_ge in Hle. rewrite Hle in Hd', Hsp'.
      split; [exact Hd'|exact Hsp'].
  - intros Hs. unfold instantaneous_kmh, euclidean_pixels. cbn [fst snd].
    change ((10 - 0) ^ 2 + (0 - 0) ^ 2) with 100. rewrite Hs. reflexivity.
Qed.

Lemma speed_update_instantaneous_and_smoothed_witness :
  (exists sc',
     SpeedCalculator.update sqrt_of_square example_calibrated
       [(0, example_vehicle (10, 0, 10, 10))] None (Some (1 # 30)) 0
     = Ok (sc', SpeedCalculator.speeds sc')
     /\ SpeedCalculator.vehicle_data sc' !! 0
        = Some (SpeedCalculator.mkData ([(5, 5)] ++ [(15, 5)]) ([0%Q] ++ [1 # 30])
                  ([] ++ [instantaneous_kmh sqrt_of_square 100 (5, 5) (15, 5)
                            ((1 # 30) - 0)]))
     /\ exists s, SpeedCalculator.speeds sc' !! 0 = Some s /\ (s == 108 # 10)%Q)
  /\ (exists sc',
        SpeedCalculator.update sqrt_of_square example_calibrated
          [(0, example_vehicle (10, 0, 10, 10))] None (Some 0%Q) 0
        = Ok (sc', SpeedCalculator.speeds sc')
        /\ SpeedCalculator.vehicle_data sc' !! 0
           = Some (SpeedCalculator.mkData ([(5, 5)] ++ [(15, 5)]) ([0%Q] ++ [0%Q]) [])
        /\ SpeedCalculator.speeds sc' !! 0 = None).
Proof.
  split.
  - destruct (speed_update_instantaneous_and_smoothed sqrt_of_square example_calibrated
                [(0, example_vehicle (10, 0, 10, 10))] None (Some (1 # 30)) 0 (1 # 30) 100
                0 (example_vehicle (10, 0, 10, 10))
                (SpeedCalculator.mkData [(5, 5)] [0%Q] []) (5, 5) 0)
      as [(sc' & Hup & Hpos & _) _].
    + exact example_calibrated_inv.
    + reflexivity.
    + discriminate.
    + cbn. apply NoDup_singleton.
    + reflexivity.
    + apply list_elem_of_here.
    + reflexivity.
    + reflexivity.
    + reflexivity.
    + destruct Hpos as [Hd Hs]; [reflexivity|].
      exists sc'. split; [exact Hup|]. split; [exact Hd|].
      eexists. split; [exact Hs|]. vm_compute. reflexivity.
  - destruct (speed_update_instantaneous_and_smoothed sqrt_of_square example_calibrated
                [(0, example_vehicle (10, 0, 10, 10))] None (Some 0%Q) 0 0 100
                0 (example_vehicle (10, 0, 10, 10))
                (SpeedCalculator.mkData [(5, 5)] [0%Q] []) (5, 5) 0)
      as [(sc' & Hup & _ & Hle) _].
    + exact example_calibrated_inv.
    + reflexivity.
    + discriminate.
    + cbn. apply NoDup_singleton.
    + reflexivity.
    + apply list_elem_of_here.
    + reflexivity.
    + reflexivity.
    + reflexivity.
    + destruct Hle as [Hd Hs]; [discriminate|].
      exists sc'. split; [exact Hup|]. split; [exact Hd|exact Hs].
Defined.

(** C2 as stated fails on a duplicate timestamp: the identity has a
    recorded sample, yet no instantaneous speed is appended and the
    returned table has no entry for it. *)
Lemma speed_update_claim_counterexample :
  SpeedCalculator.update sqrt_of_square
    (SpeedCalculator.__init__
       (DistanceCalculator.mkCalc (Some 100%Q) (Some 1%Q) (Some 100%Q)) None)
    [(0, example_vehicle (0, 0, 10, 10))] None (Some 0%Q) 0
  = Ok (example_calibrated, ∅)
  /\ SpeedCalculator.vehicle_data example_calibrated !! 0
     = Some (SpeedCalculator.mkData [(5, 5)] [0%Q] [])
  /\ exists sc',
       SpeedCalculator.update sqrt_of_square example_calibrated
         [(0, example_vehicle (10, 0, 10, 10))] None (Some 0%Q) 0
       = Ok (sc', SpeedCalculator.speeds sc')
       /\ SpeedCalculator.vehicle_data sc' !! 0
          = Some (SpeedCalculator.mkData [(5, 5); (15, 5)] [0%Q; 0%Q] [])
       /\ SpeedCalculator.speeds sc' !! 0 = None.
Proof.
  split; [apply example_calibrated_reachable|]. split; [reflexivity|].
  destruct (speed_update_effect sqrt_of_square example_calibrated
              [(0, example_vehicle (10, 0, 10, 10))] None (Some 0%Q) 0 0 100)
    as (sc' & Hup & _ & _ & Heff & _).
  - exact example_calibrated_inv.
  - reflexivity.
  - cbn. apply NoDup_singleton.
  - reflexivity.
  - specialize (Heff 0 (example_vehicle (10, 0, 10, 10)) (list_elem_of_here _ _)).
    unfold step_effect in Heff. cbn in Heff.
    destruct Heff as (prev & tprev & [= <-] & [= <-] & Hd & Hs).
    exists sc'. split; [exact Hup|]. split; [exact Hd|exact Hs].
Qed.

(** ** Dictionaries *)

Section DictLemmas.
Context {V : Type}.
Implicit Types (d pre post : dict V) (k : Z) (v : V).

Lemma dict_keys_app pre post :
  dict_keys (pre ++ post) = dict_keys pre ++ dict_keys post.
Proof. unfold dict_keys. apply map_app. Qed.

Lemma dict_get_notin k d : k ∉ dict_keys d -> dict_get k d = None.
Proof.
  induction d as [|[k' v'] d IH]; cbn; [reflexivity|]. intros Hnin.
  apply not_elem_of_cons in Hnin as [Hne Hnin].
  destruct (Z.eqb_spec k k'); [contradiction|]. now apply IH.
Qed.

Lemma dict_get_middle k v pre post :
  k ∉ dict_keys pre -> dict_get k (pre ++ (k, v) :: post) = Some v.
Proof.
  induction pre as [|[k' v'] pre IH]; cbn; intros Hnin.
  - now rewrite Z.eqb_refl.
  - apply not_elem_of_cons in Hnin as [Hne Hnin].
    destruct (Z.eqb_spec k k'); [contradiction|]. now apply IH.
Qed.

Lemma dict_set_middle k v v' pre post :
  k ∉ dict_keys pre ->
  dict_set k v' (pre ++ (k, v) :: post) = pre ++ (k, v') :: post.
Proof.
  induction pre as [|[k0 v0] pre IH]; cbn; intros Hnin.
  - now rewrite Z.eqb_refl.
  - apply not_elem_of_cons in Hnin as [Hne Hnin].
    destruct (Z.eqb_spec k k0); [contradiction|]. now rewrite IH.
Qed.

Lemma dict_del_middle k v pre post :
  k ∉ dict_keys pre -> dict_del k (pre ++ (k, v) :: post) = pre ++ post.
Proof.
  induction pre as [|[k0 v0] pre IH]; cbn; intros Hnin.
  - now rewrite Z.eqb_refl.
  - apply not_elem_of_cons in Hnin as [Hne Hnin].
    destruct (Z.eqb_spec k k0); [contradiction|]. now rewrite IH.
Qed.

Lemma dict_set_notin k v d :
  k ∉ dict_keys d -> dict_set k v d = d ++ [(k, v)].
Proof.
  induction d as [|[k0 v0] d IH]; cbn; intros Hnin; [reflexivity|].
  apply not_elem_of_cons in Hnin as [Hne Hnin].
  destruct (Z.eqb_spec k k0); [contradiction|]. now rewrite IH.
Qed.

Lemma dict_get_elem_of k v d : dict_get k d = Some v -> (k, v) ∈ d.
Proof.
  induction d as [|[k0 v0] d IH]; cbn; [discriminate|].
  destruct (Z.eqb_spec k k0) as [->|Hne].
  - intros [= ->]. apply list_elem_of_here.
  - intros H. apply list_elem_of_further. now apply IH.
Qed.

Lemma elem_of_split_first k v d :
  NoDup (dict_keys d) -> (k, v) ∈ d ->
  exists pre post, d = pre ++ (k, v) :: post /\ k ∉ dict_keys pre.
Proof.
  intros Hnd Hin. apply list_elem_of_split in Hin as (pre & post & ->).
  exists pre, post. split; [reflexivity|].
  rewrite dict_keys_app in Hnd. cbn in Hnd.
  apply NoDup_app in Hnd as (_ & Hdisj & _).
  intros Hk. apply (Hdisj k Hk). apply list_elem_of_here.
Qed.

Lemma dict_get_nodup k v d :
  NoDup (dict_keys d) -> (k, v) ∈ d -> dict_get k d = Some v.
Proof.
  intros Hnd Hin.
  destruct (elem_of_split_first k v d Hnd Hin) as (pre & post & -> & Hk).
  now apply dict_get_middle.
Qed.

Lemma elem_of_dict_keys k v d : (k, v) ∈ d -> k ∈ dict_keys d.
Proof.
  intros Hin. unfold dict_keys. apply list_elem_of_fmap. now exists (k, v).
Qed.
End DictLemmas.

Lemma sorted_keys_nodup (l : list Z) : StronglySorted Z.lt l -> NoDup l.
Proof.
  induction 1 as [|x l Hs IH Hall]; constructor; [|exact IH].
  intros Hin. rewrite Forall_forall in Hall. specialize (Hall x Hin). lia.
Qed.

(** ** [enumerate] *)

Lemma elem_of_enumerate_from {A : Type} (i j : Z) (x : A) (xs : list A) :
  (j, x) ∈ enumerate_from i xs <-> i <= j /\ xs !! Z.to_nat (j - i) = Some x.
Proof.
  revert i. induction xs as [|y xs IH]; intros i; cbn [enumerate_from].
  - rewrite elem_of_nil. split; [contradiction|]. now intros [_ ?].
  - rewrite elem_of_cons, IH. split.
    + intros [[= -> ->]|[Hle Hl]].
      * split; [lia|]. now rewrite Z.sub_diag.
      * split; [lia|]. replace (Z.to_nat (j - i)) with (S (Z.to_nat (j - (i + 1)))) by lia.
        exact Hl.
    + intros [Hle Hl]. destruct (Z.eq_dec i j) as [->|Hne].
      * left. rewrite Z.sub_diag in Hl. change (Z.to_nat 0) with 0%nat in Hl.
        cbn in Hl. now injection Hl as ->.
      * right. split; [lia|].
        replace (Z.to_nat (j - i)) with (S (Z.to_nat (j - (i + 1)))) in Hl by lia.
        exact Hl.
Qed.

Lemma enumerate_from_lower {A : Type} (i j : Z) (x : A) (xs : list A) :
  (j, x) ∈ enumerate_from i xs -> i <= j.
Proof. intros H. now apply elem_of_enumerate_from in H. Qed.

Lemma enumerate_from_app {A : Type} (i : Z) (xs ys : list A) :
  enumerate_from i (xs ++ ys)
  = enumerate_from i xs ++ enumerate_from (i + Z.of_nat (length xs)) ys.
Proof.
  revert i. induction xs as [|x xs IH]; intros i; cbn [enumerate_from app length].
  - now rewrite Z.add_0_r.
  - rewrite IH. do 3 f_equal. lia.
Qed.

Lemma enumerate_from_keys {A B : Type} (i : Z) (xs : list A) (f : A -> B) :
  enumerate_from i (map f xs) = map (fun jx => (fst jx, f (snd jx))) (enumerate_from i xs).
Proof.
  revert i. induction xs as [|x xs IH]; intros i; cbn; [reflexivity|]. now rewrite IH.
Qed.

Lemma nth_error_lookup {A : Type} (xs : list A) (n : nat) :
  nth_error xs n = xs !! n.
Proof.
  revert n. induction xs as [|x xs IH]; intros [|n]; cbn; try reflexivity. apply IH.
Qed.

Lemma list_getitem_enumerate {A : Type} (j : Z) (x : A) (xs : list A) :
  (j, x) ∈ enumerate xs -> list_getitem xs j = Ok x.
Proof.
  intros H. apply elem_of_enumerate_from in H as [Hle Hl].
  rewrite Z.sub_0_r in Hl. unfold list_getitem.
  pose proof (lookup_lt_Some _ _ _ Hl) as Hlt.
  destruct (Z.ltb_spec j 0); [lia|].
  destruct (Z.ltb_spec j 0); [lia|].
  destruct (Z.leb_spec (Z.of_nat (length xs)) j); [lia|]. cbn [orb].
  now rewrite nth_error_lookup, Hl.
Qed.

(** ** The inner loop of [update] *)

Section Scan.
Import VehicleTracker.
Variables (thr : Q) (vb : Box) (used : gset Z).

Lemma scan_step_inv (processed : list (Z * Box)) (acc acc' : Q * Z) (j : Z) (b : Box) :
  scan_inv thr vb used processed acc ->
  (forall j' b', (j', b') ∈ processed -> -1 < j' < j) ->
  -1 < j ->
  scan_step thr vb used acc (j, b) = Ok acc' ->
  scan_inv thr vb used (processed ++ [(j, b)]) acc'.
Proof.
  destruct acc as [m idx]. intros [Hnone Hsome] Hidx Hj Hstep.
  unfold scan_step in Hstep.
  destruct (decide (j ∈ used)) as [Hused|Hfree].
  { injection Hstep as <-. split; cbn [fst snd] in *.
    - intros E. destruct (Hnone E) as [-> Hall]. split; [reflexivity|].
      intros j' b' r' Hin Hfree'. apply elem_of_app in Hin as [Hin|Hin].
      + now apply (Hall j' b').
      + apply list_elem_of_singleton in Hin. injection Hin as -> ->. contradiction.
    - intros E. destruct (Hsome E) as (b0 & Hin0 & Hf0 & Ho0 & Ht0 & Hp0 & Hall).
      exists b0. split; [apply elem_of_app; now left|]. repeat split; try assumption.
      + apply elem_of_app in H as [Hin|Hin]; [now apply (Hall j' b' r')|].
        apply list_elem_of_singleton in Hin. injection Hin as -> ->. contradiction.
      + apply elem_of_app in H as [Hin|Hin]; [now apply (Hall j' b' r')|].
        apply list_elem_of_singleton in Hin. injection Hin as -> ->. contradiction. }
  destruct (_calculate_overlap vb b) as [r|] eqn:Hov; [|discriminate].
  cbn [bind] in Hstep.
  assert (Hm : (0 <= m)%Q).
  { destruct (Z.eq_dec idx (-1)) as [E|E].
    - destruct (Hnone E) as [Hm0 _]. cbn in Hm0. rewrite Hm0. apply Qle_refl.
    - destruct (Hsome E) as (_ & _ & _ & _ & _ & Hp & _). now apply Qlt_le_weak. }
  destruct (Qltb m r) eqn:Hmr; [destruct (Qltb thr r) eqn:Htr|]; cbn [andb] in Hstep;
    injection Hstep as <-; cbn [fst snd] in *.
  - (* the new detection becomes the best one *)
    apply Qltb_lt in Hmr, Htr. split; [intros E; cbn in E; lia|]. intros _.
    cbn [fst snd].
    exists b. split; [apply elem_of_app; right; apply list_elem_of_here|].
    split; [exact Hfree|]. split; [exact Hov|]. split; [exact Htr|].
    split; [eapply Qle_lt_trans; eassumption|].
    intros j' b' r' Hin Hfree' Hov'. apply elem_of_app in Hin as [Hin|Hin].
    + assert (Hlt : (r' < r)%Q).
      { destruct (Z.eq_dec idx (-1)) as [E|E].
        - destruct (Hnone E) as [_ Hall].
          destruct (Hall j' b' r' Hin Hfree' Hov') as [Hle|Hle].
          + eapply Qle_lt_trans; eassumption.
          + eapply Qle_lt_trans; [exact Hle|]. eapply Qle_lt_trans; eassumption.
        - destruct (Hsome E) as (_ & _ & _ & _ & _ & _ & Hall).
          destruct (Hall j' b' r' Hin Hfree' Hov') as [Hle _].
          eapply Qle_lt_trans; eassumption. }
      split; [now apply Qlt_le_weak|]. intros _. exact Hlt.
    + apply list_elem_of_singleton in Hin. injection Hin as -> ->.
      rewrite Hov in Hov'. injection Hov' as <-.
      split; [apply Qle_refl|]. lia.
  - (* above the running maximum, not above the threshold *)
    apply Qltb_lt in Hmr. apply Qltb_ge in Htr.
    split.
    + intros E. destruct (Hnone E) as [Hm0 Hall]. split; [exact Hm0|].
      intros j' b' r' Hin Hfree' Hov'. apply elem_of_app in Hin as [Hin|Hin].
      * now apply (Hall j' b').
      * apply list_elem_of_singleton in Hin. injection Hin as -> ->.
        rewrite Hov in Hov'. injection Hov' as <-. now left.
    + intros E. destruct (Hsome E) as (b0 & Hin0 & Hf0 & Ho0 & Ht0 & Hp0 & Hall).
      exfalso. apply (Qlt_irrefl r).
      eapply Qle_lt_trans; [exact Htr|]. eapply Qlt_trans; eassumption.
  - (* not above the running maximum *)
    apply Qltb_ge in Hmr.
    split.
    + intros E. destruct (Hnone E) as [Hm0 Hall]. split; [exact Hm0|].
      intros j' b' r' Hin Hfree' Hov'. apply elem_of_app in Hin as [Hin|Hin].
      * now apply (Hall j' b').
      * apply list_elem_of_singleton in Hin. injection Hin as -> ->.
        rewrite Hov in Hov'. injection Hov' as <-. right.
        cbn in Hm0. now rewrite <- Hm0.
    + intros E. destruct (Hsome E) as (b0 & Hin0 & Hf0 & Ho0 & Ht0 & Hp0 & Hall).
      exists b0. split; [apply elem_of_app; now left|].
      repeat split; try assumption.
      * apply elem_of_app in H as [Hin|Hin]; [now apply (Hall j' b' r')|].
        apply list_elem_of_singleton in Hin. injection Hin as -> ->.
        rewrite Hov in H1. now injection H1 as <-.
      * apply elem_of_app in H as [Hin|Hin]; [now apply (Hall j' b' r')|].
        apply list_elem_of_singleton in Hin. injection Hin as -> ->.
        specialize (Hidx _ _ Hin0). cbn [fst snd]. lia.
Qed.

Lemma scan_loop_inv (xs : list Box) (i : Z) (processed : list (Z * Box))
    (acc acc' : Q * Z) :
  scan_inv thr vb used processed acc ->
  (forall j' b', (j', b') ∈ processed -> -1 < j' < i) ->
  -1 < i ->
  for_each (scan_step thr vb used) (enumerate_from i xs) acc = Ok acc' ->
  scan_inv thr vb used (processed ++ enumerate_from i xs) acc'.
Proof.
  revert i processed acc. induction xs as [|x xs IH]; intros i processed acc Hinv Hidx Hi Hloop.
  - cbn in *. injection Hloop as <-. now rewrite app_nil_r.
  - cbn [enumerate_from for_each] in *.
    destruct (scan_step thr vb used acc (i, x)) as [acc1|] eqn:Hstep; [|discriminate].
    cbn [bind] in Hloop.
    replace (processed ++ (i, x) :: enumerate_from (i + 1) xs)
      with ((processed ++ [(i, x)]) ++ enumerate_from (i + 1) xs)
      by (now rewrite <- app_assoc).
    apply (IH (i + 1) (processed ++ [(i, x)]) acc1).
    + now apply (scan_step_inv processed acc acc1 i x).
    + intros j' b' Hin. apply elem_of_app in Hin as [Hin|Hin].
      * specialize (Hidx _ _ Hin). lia.
      * apply list_elem_of_singleton in Hin. injection Hin as -> ->. lia.
    + lia.
    + exact Hloop.
Qed.

(** The result of the scan, as a decision. *)
Lemma scan_detections_decision (boxes : list Box) (m : Q) (idx : Z) :
  scan_detections thr vb boxes used = Ok (m, idx) ->
  (idx = -1 -> decision_ok thr boxes vb used None)
  /\ (idx <> -1 ->
      exists b, (idx, b) ∈ enumerate boxes
                /\ decision_ok thr boxes vb used (Some (idx, b))).
Proof.
  intros Hscan. unfold scan_detections, enumerate in Hscan.
  assert (Hinv : scan_inv thr vb used ([] ++ enumerate_from 0 boxes) (m, idx)).
  { apply (scan_loop_inv boxes 0 [] (0%Q, -1)); [| |lia|exact Hscan].
    - split; cbn [fst snd]; [intros _|intros E; now contradiction E].
      split; [reflexivity|]. intros j b r Hin. now apply elem_of_nil in Hin.
    - intros j' b' Hin. now apply elem_of_nil in Hin. }
  cbn [app] in Hinv. destruct Hinv as [Hnone Hsome]. cbn [fst snd] in *.
  split.
  - intros E. destruct (Hnone E) as [_ Hall].
    split; [discriminate|]. split; [reflexivity|].
    intros _ j' b' r' [Hin Hfree]. now apply (Hall j' b' r').
  - intros E. destruct (Hsome E) as (b & Hin & Hfree & Hov & Hthr & _ & Hall).
    exists b. split; [exact Hin|]. split; [|split; [|discriminate]].
    + intros j b0 [= <- <-]. split; [now split|].
      exists m. split; [exact Hov|]. split; [exact Hthr|].
      intros j' b' r' [Hin' Hfree']. now apply (Hall j' b' r').
    + intros Hle. exfalso. apply (Qlt_irrefl m).
      eapply Qle_lt_trans; [|exact Hthr]. apply (Hle idx b m); [now split|exact Hov].
Qed.

(** The scan returns when no overlap computation divides by zero. *)
Lemma scan_detections_total (boxes : list Box) :
  wf_box vb -> Forall wf_box boxes ->
  exists acc, scan_detections thr vb boxes used = Ok acc.
Proof.
  intros Hvb Hboxes. unfold scan_detections.
  destruct (for_each_total (fun _ => True) (scan_step thr vb used)
              (enumerate boxes) (0%Q, -1) I) as (acc & Hacc & _); [|now exists acc].
  intros [m idx] [j b] Hin _. unfold scan_step.
  destruct (decide (j ∈ used)); [now eexists|].
  apply elem_of_enumerate_from in Hin as [_ Hl].
  assert (Hb : wf_box b).
  { rewrite Forall_forall in Hboxes. apply Hboxes.
    apply list_elem_of_lookup. eauto. }
  destruct (calculate_overlap_wf vb b Hvb Hb) as (r & -> & _). cbn [bind].
  destruct (_ && _); now eexists.
Qed.

End Scan.

(** ** The steps of the tracker *)

Section TrackerSteps.
Import VehicleTracker.

Lemma set_crossed_line_same (v : Vehicle) : set_crossed_line (crossed_line v) v = v.
Proof. now destruct v. Qed.

Lemma modify_vehicle_middle (self : t) (id : Z) (f : Vehicle -> Vehicle)
    (v : Vehicle) (pre post : dict Vehicle) :
  vehicles self = pre ++ (id, v) :: post -> id ∉ dict_keys pre ->
  modify_vehicle id f self = Ok (set_vehicles (pre ++ (id, f v) :: post) self).
Proof.
  intros Hv Hk. unfold modify_vehicle, dict_getitem.
  rewrite Hv, dict_get_middle by assumption. cbn [bind].
  now rewrite dict_set_middle.
Qed.

(** The line-crossing check on a stored object: the flag becomes the
    disjunction of its old value and of the test on the bottom edge. *)
Lemma check_line_crossing_middle (self : t) (id : Z) (b : Box) (line : Z)
    (v : Vehicle) (pre post : dict Vehicle) :
  vehicles self = pre ++ (id, v) :: post -> id ∉ dict_keys pre ->
  exists self',
    _check_line_crossing self id b line = Ok self'
    /\ vehicles self'
       = pre ++ (id, set_crossed_line (crossed_line v || bottom_reached b line) v) :: post
    /\ next_vehicle_id self' = next_vehicle_id self
    /\ max_disappeared self' = max_disappeared self
    /\ min_overlap_ratio self' = min_overlap_ratio self
    /\ crossed_vehicles self ⊆ crossed_vehicles self'.
Proof.
  intros Hv Hk. unfold _check_line_crossing, bottom_reached.
  destruct b as [[[x y] w] h].
  destruct (y + h >=? line).
  - unfold dict_getitem. rewrite Hv, dict_get_middle by assumption. cbn [bind].
    destruct (crossed_line v) eqn:Hcr; cbn [negb orb].
    + exists self. rewrite <- Hcr, set_crossed_line_same. now repeat split.
    + rewrite (modify_vehicle_middle self id _ v pre post Hv Hk). cbn [bind].
      eexists. split; [reflexivity|]. cbn. repeat split; try reflexivity.
      apply union_subseteq_r.
  - exists self. rewrite orb_false_r, set_crossed_line_same. now repeat split.
Qed.

(** [register] always returns: the new id is the next id, stored at the end. *)
Lemma register_spec (self : t) (b : Box) (line : Z) :
  next_vehicle_id self ∉ dict_keys (vehicles self) ->
  exists self',
    register self b line = Ok self'
    /\ vehicles self' = vehicles self ++ [(next_vehicle_id self, new_vehicle line b)]
    /\ next_vehicle_id self' = next_vehicle_id self + 1
    /\ max_disappeared self' = max_disappeared self
    /\ min_overlap_ratio self' = min_overlap_ratio self
    /\ crossed_vehicles self ⊆ crossed_vehicles self'.
Proof.
  intros Hfresh. unfold register.
  rewrite dict_set_notin by assumption.
  set (s1 := set_vehicles _ self).
  destruct (check_line_crossing_middle s1 (next_vehicle_id self) b line
              (mkVehicle b 0 false (mkFirstSeen b false)) (vehicles self) [])
    as (s2 & Hs2 & Hv2 & Hn2 & Hmax2 & Hmin2 & Hcv2);
    [reflexivity|exact Hfresh|].
  change (next_vehicle_id s1) with (next_vehicle_id self). rewrite Hs2. cbn [bind].
  eexists. split; [reflexivity|]. cbn.
  rewrite Hv2, Hn2, Hmax2, Hmin2. now repeat split.
Qed.

Lemma mark_disappeared_middle (self : t) (id : Z) (v : Vehicle)
    (pre post : dict Vehicle) :
  vehicles self = pre ++ (id, v) :: post -> id ∉ dict_keys pre ->
  mark_disappeared self id
  = Ok (set_vehicles
          (if disappeared v + 1 >? max_disappeared self then pre ++ post
           else pre ++ (id, aged_vehicle v) :: post) self).
Proof.
  intros Hv Hk. unfold mark_disappeared.
  rewrite (modify_vehicle_middle self id _ v pre post Hv Hk). cbn [bind].
  unfold dict_getitem. cbn [vehicles set_vehicles].
  rewrite dict_get_middle by assumption. cbn [bind].
  change (max_disappeared (set_vehicles _ self)) with (max_disappeared self).
  cbn [disappeared set_disappeared].
  destruct (disappeared v + 1 >? max_disappeared self); [|reflexivity].
  cbn [bind]. now rewrite dict_del_middle.
Qed.

Lemma list_getitem_middle {A : Type} (l1 l2 : list A) (x : A) :
  list_getitem (l1 ++ x :: l2) (Z.of_nat (length l1)) = Ok x.
Proof.
  apply list_getitem_enumerate. apply elem_of_enumerate_from. split; [lia|].
  rewrite Z.sub_0_r, Nat2Z.id. now rewrite list_lookup_middle.
Qed.

(** One iteration of the matching loop, once the scan has returned. *)
Lemma match_step_spec (boxes : list Box) (line : Z) (s : MatchState) (id : Z)
    (vb : Box) (v : Vehicle) (pre post : dict Vehicle) (best : Q * Z) :
  vehicles (ms_tracker s) = pre ++ (id, v) :: post -> id ∉ dict_keys pre ->
  scan_detections (min_overlap_ratio (ms_tracker s)) vb boxes (used_bboxes s)
  = Ok best ->
  exists s' d,
    match_step boxes line s (id, vb) = Ok s'
    /\ decision_ok (min_overlap_ratio (ms_tracker s)) boxes vb (used_bboxes s) d
    /\ vehicles (ms_tracker s') = pre ++ (id, after_match line v d) :: post
    /\ used_bboxes s' = claim d (used_bboxes s)
    /\ used_vehicles s'
       = match d with
         | Some _ => {[id]} ∪ used_vehicles s
         | None => used_vehicles s
         end
    /\ next_vehicle_id (ms_tracker s') = next_vehicle_id (ms_tracker s)
    /\ max_disappeared (ms_tracker s') = max_disappeared (ms_tracker s)
    /\ min_overlap_ratio (ms_tracker s') = min_overlap_ratio (ms_tracker s)
    /\ crossed_vehicles (ms_tracker s) ⊆ crossed_vehicles (ms_tracker s').
Proof.
  intros Hv Hk Hscan. destruct best as [m idx].
  destruct (scan_detections_decision _ _ _ _ _ _ Hscan) as [Hnone Hsome].
  unfold match_step. rewrite Hscan. cbn [bind snd].
  destruct (Z.eqb_spec idx (-1)) as [E|E]; cbn [negb].
  - exists s, None. split; [reflexivity|]. split; [now apply Hnone|].
    now repeat split.
  - destruct (Hsome E) as (b & Hin & Hd).
    rewrite (list_getitem_enumerate idx b boxes Hin). cbn [bind].
    rewrite (modify_vehicle_middle _ id _ v pre post Hv Hk). cbn [bind].
    rewrite (modify_vehicle_middle
               (set_vehicles (pre ++ (id, set_bbox b v) :: post) (ms_tracker s))
               id _ (set_bbox b v) pre post eq_refl Hk).
    cbn [bind].
    destruct (check_line_crossing_middle
                (set_vehicles (pre ++ (id, set_disappeared 0 (set_bbox b v)) :: post)
                   (set_vehicles (pre ++ (id, set_bbox b v) :: post) (ms_tracker s)))
                id b line (set_disappeared 0 (set_bbox b v)) pre post eq_refl Hk)
      as (s3 & Hs3 & Hv3 & Hn3 & Hmax3 & Hmin3 & Hcv3).
    rewrite Hs3. cbn [bind].
    eexists. exists (Some (idx, b)). split; [reflexivity|].
    split; [exact Hd|]. cbn [ms_tracker used_bboxes used_vehicles claim].
    rewrite Hv3, Hn3, Hmax3, Hmin3. now repeat split.
Qed.

(** The snapshot [vehicle_bboxes]. *)
Lemma snapshot_loop (d l : dict Vehicle) (acc : list Box) :
  (forall k v, (k, v) ∈ l -> dict_get k d = Some v) ->
  for_each (fun acc vehicle_id =>
              let* v := dict_getitem vehicle_id d in Ok (acc ++ [bbox v]))
           (dict_keys l) acc
  = Ok (acc ++ map (fun kv => bbox (snd kv)) l).
Proof.
  revert acc. induction l as [|[k v] l IH]; intros acc Hl; cbn.
  - now rewrite app_nil_r.
  - unfold dict_getitem. rewrite (Hl k v) by apply list_elem_of_here. cbn [bind].
    rewrite IH; [now rewrite <- app_assoc|].
    intros k' v' Hin. apply Hl. now apply list_elem_of_further.
Qed.

Lemma matched_ids_cons (id : Z) (v : Vehicle) (d : option (Z * Box))
    (decided : dict (Vehicle * option (Z * Box))) :
  matched_ids ((id, (v, d)) :: decided)
  = match d with
    | Some _ => {[id]} ∪ matched_ids decided
    | None => matched_ids decided
    end.
Proof.
  unfold matched_ids. rewrite filter_cons. cbn [fst snd].
  destruct d as [jb|].
  - rewrite decide_True by eauto. reflexivity.
  - rewrite decide_False; [reflexivity|]. intros [x Hx]. discriminate.
Qed.

(** The matching loop over the items [todo] still to process, the table
    being [done ++ todo]. *)
Lemma match_loop_spec (boxes : list Box) (line : Z) (bbs : list Box) :
  forall (todo done : dict Vehicle) (bbs_done : list Box) (s s' : MatchState),
    vehicles (ms_tracker s) = done ++ todo ->
    NoDup (dict_keys todo) ->
    (forall k, k ∈ dict_keys todo -> k ∉ dict_keys done) ->
    bbs = bbs_done ++ map (fun kv => bbox (snd kv)) todo ->
    length bbs_done = length done ->
    for_each
      (fun s iv =>
         let* vb := list_getitem bbs (fst iv) in
         match_step boxes line s (snd iv, vb))
      (enumerate_from (Z.of_nat (length done)) (dict_keys todo)) s = Ok s' ->
    exists decided,
      map (fun e => (fst e, fst (snd e))) decided = todo
      /\ greedy_ok (min_overlap_ratio (ms_tracker s)) boxes (used_bboxes s) decided
      /\ vehicles (ms_tracker s')
         = done ++ map (fun e => (fst e, after_match line (fst (snd e)) (snd (snd e))))
                       decided
      /\ used_bboxes s' = claimed_by (used_bboxes s) decided
      /\ used_vehicles s' = matched_ids decided ∪ used_vehicles s
      /\ next_vehicle_id (ms_tracker s') = next_vehicle_id (ms_tracker s)
      /\ max_disappeared (ms_tracker s') = max_disappeared (ms_tracker s)
      /\ min_overlap_ratio (ms_tracker s') = min_overlap_ratio (ms_tracker s)
      /\ crossed_vehicles (ms_tracker s) ⊆ crossed_vehicles (ms_tracker s').
Proof.
  induction todo as [|[id v] todo IH]; intros done bbs_done s s' Hv Hnd Hdisj Hbbs Hlen Hloop.
  - cbn in Hloop. injection Hloop as <-. exists []. cbn.
    split; [reflexivity|]. split; [exact I|]. split; [exact Hv|].
    split; [reflexivity|]. split; [|now repeat split].
    unfold matched_ids. cbn. now rewrite (left_id_L ∅ (∪)).
  - cbn [dict_keys map fst enumerate_from for_each] in Hloop.
    apply bind_ok in Hloop as (s1 & Hbody & Hloop). cbn [fst snd] in Hbody.
    cbn [map snd] in Hbbs. rewrite Hbbs, <- Hlen, list_getitem_middle in Hbody.
    cbn [bind] in Hbody.
    assert (Hk : id ∉ dict_keys done) by (apply Hdisj; apply list_elem_of_here).
    cbn in Hnd. apply NoDup_cons in Hnd as [Hid Hnd].
    destruct (scan_detections (min_overlap_ratio (ms_tracker s)) (bbox v) boxes
                (used_bboxes s)) as [best|] eqn:Hscan.
    2:{ unfold match_step in Hbody. rewrite Hscan in Hbody. discriminate. }
    destruct (match_step_spec boxes line s id (bbox v) v done todo best Hv Hk Hscan)
      as (s1' & d0 & Hstep & Hd0 & Hv1 & Hub1 & Huv1 & Hn1 & Hmax1 & Hmin1 & Hcv1).
    rewrite Hstep in Hbody. injection Hbody as ->.
    destruct (IH (done ++ [(id, after_match line v d0)]) (bbs_done ++ [bbox v]) s1 s')
      as (decided & Hmap & Hgreedy & Hv' & Hub' & Huv' & Hn' & Hmax' & Hmin' & Hcv').
    + now rewrite <- app_assoc.
    + exact Hnd.
    + intros k Hkin. rewrite dict_keys_app. apply not_elem_of_app. split.
      * apply Hdisj. now apply list_elem_of_further.
      * cbn. intros Hin. apply list_elem_of_singleton in Hin as ->. contradiction.
    + now rewrite <- app_assoc.
    + rewrite !length_app. cbn. lia.
    + rewrite length_app. cbn [length].
      replace (Z.of_nat (length done + 1)) with (Z.of_nat (length done) + 1) by lia.
      exact Hloop.
    + exists ((id, (v, d0)) :: decided). cbn [map fst snd greedy_ok claimed_by].
      split; [now rewrite Hmap|]. split.
      { split; [exact Hd0|]. now rewrite <- Hub1, <- Hmin1. }
      split; [now rewrite Hv', <- app_assoc|].
      split; [now rewrite Hub', Hub1|].
      split.
      { rewrite Huv', Huv1, matched_ids_cons. destruct d0; set_solver. }
      split; [congruence|]. split; [congruence|]. split; [congruence|].
      etransitivity; eassumption.
Qed.



(** The matching loop returns when all boxes are well formed. *)
Lemma match_loop_total (boxes : list Box) (line : Z) (self : t) :
  NoDup (dict_keys (vehicles self)) ->
  Forall wf_box boxes -> stored_wf self ->
  exists s',
    for_each
      (fun s iv =>
         let* vb := list_getitem (map (fun kv => bbox (snd kv)) (vehicles self))
                      (fst iv) in
         match_step boxes line s (snd iv, vb))
      (enumerate (dict_keys (vehicles self))) (mkMatch self ∅ ∅) = Ok s'.
Proof.
  intros Hnd Hboxes Hstored.
  destruct (for_each_total
              (fun s => dict_keys (vehicles (ms_tracker s)) = dict_keys (vehicles self))
              (fun s iv =>
                 let* vb := list_getitem
                              (map (fun kv => bbox (snd kv)) (vehicles self)) (fst iv) in
                 match_step boxes line s (snd iv, vb))
              (enumerate (dict_keys (vehicles self))) (mkMatch self ∅ ∅) eq_refl)
    as (s' & Hs' & _); [|now exists s'].
  intros s [i id] Hin Hkeys. cbn [fst snd].
  apply elem_of_enumerate_from in Hin as [Hi Hl]. rewrite Z.sub_0_r in Hl.
  unfold dict_keys in Hl. rewrite list_lookup_fmap in Hl.
  destruct (vehicles self !! Z.to_nat i) as [[id0 v0]|] eqn:Hl0; [|discriminate].
  cbn in Hl. injection Hl as ->.
  assert (Hvb : list_getitem (map (fun kv => bbox (snd kv)) (vehicles self)) i
                = Ok (bbox v0)).
  { apply list_getitem_enumerate. apply elem_of_enumerate_from. split; [exact Hi|].
    rewrite Z.sub_0_r, list_lookup_fmap, Hl0. reflexivity. }
  rewrite Hvb. cbn [bind].
  assert (Hwf0 : wf_box (bbox v0)).
  { unfold stored_wf in Hstored. rewrite Forall_forall in Hstored.
    apply (Hstored (id, v0)). apply list_elem_of_lookup. eauto. }
  assert (Hid : id ∈ dict_keys (vehicles (ms_tracker s))).
  { rewrite Hkeys. apply (elem_of_dict_keys id v0). apply list_elem_of_lookup. eauto. }
  unfold dict_keys in Hid. apply list_elem_of_fmap in Hid as ([id' v] & E & Hinv).
  cbn in E. subst id'.
  assert (Hnd' : NoDup (dict_keys (vehicles (ms_tracker s)))) by (now rewrite Hkeys).
  destruct (elem_of_split_first id v _ Hnd' Hinv) as (pre & post & Hv & Hk).
  destruct (scan_detections_total (min_overlap_ratio (ms_tracker s)) (bbox v0)
              (used_bboxes s) boxes Hwf0 Hboxes) as (best & Hscan).
  destruct (match_step_spec boxes line s id (bbox v0) v pre post best Hv Hk Hscan)
    as (s1 & d & Hstep & _ & Hv1 & _).
  exists s1. split; [exact Hstep|].
  rewrite Hv1, <- Hkeys, Hv, !dict_keys_app. reflexivity.
Qed.


(** The ageing loop over the items [todo], the table being [done ++ todo]. *)
Lemma age_loop_spec (matched : gset Z) :
  forall (todo done : dict Vehicle) (self : t),
    vehicles self = done ++ todo ->
    NoDup (dict_keys todo) ->
    (forall k, k ∈ dict_keys todo -> k ∉ dict_keys done) ->
    exists self',
      for_each (fun s0 vehicle_id =>
                  if decide (vehicle_id ∈ matched) then Ok s0
                  else mark_disappeared s0 vehicle_id)
               (dict_keys todo) self = Ok self'
      /\ vehicles self'
         = done ++ concat (map (age_or_keep matched (max_disappeared self)) todo)
      /\ next_vehicle_id self' = next_vehicle_id self
      /\ max_disappeared self' = max_disappeared self
      /\ min_overlap_ratio self' = min_overlap_ratio self
      /\ crossed_vehicles self' = crossed_vehicles self.
Proof.
  induction todo as [|[id v] todo IH]; intros done self Hv Hnd Hdisj.
  - exists self. cbn. rewrite app_nil_r in *. now repeat split.
  - cbn [dict_keys map fst for_each concat].
    assert (Hk : id ∉ dict_keys done) by (apply Hdisj; apply list_elem_of_here).
    cbn in Hnd. apply NoDup_cons in Hnd as [Hid Hnd].
    assert (Hdisj' : forall k, k ∈ dict_keys todo -> k ∉ dict_keys done).
    { intros k Hin. apply Hdisj. now apply list_elem_of_further. }
    unfold age_or_keep at 1. cbn [fst snd].
    destruct (decide (id ∈ matched)) as [Hm|Hm]; cbn [bind].
    + destruct (IH (done ++ [(id, v)]) self) as (self' & Hloop & Hv' & Hrest).
      * now rewrite <- app_assoc.
      * exact Hnd.
      * intros k Hin. rewrite dict_keys_app. apply not_elem_of_app.
        split; [now apply Hdisj'|]. cbn. intros Hin'.
        apply list_elem_of_singleton in Hin' as ->. contradiction.
      * exists self'. split; [exact Hloop|]. split; [|exact Hrest].
        now rewrite Hv', <- app_assoc.
    + rewrite (mark_disappeared_middle self id v done todo Hv Hk). cbn [bind].
      destruct (disappeared v + 1 >? max_disappeared self) eqn:Hgt.
      * destruct (IH done (set_vehicles (done ++ todo) self))
          as (self' & Hloop & Hv' & Hrest); [reflexivity|exact Hnd|exact Hdisj'|].
        exists self'. split; [exact Hloop|]. split; [exact Hv'|exact Hrest].
      * destruct (IH (done ++ [(id, aged_vehicle v)])
                    (set_vehicles (done ++ (id, aged_vehicle v) :: todo) self))
          as (self' & Hloop & Hv' & Hrest).
        -- cbn. now rewrite <- app_assoc.
        -- exact Hnd.
        -- intros k Hin. rewrite dict_keys_app. apply not_elem_of_app.
           split; [now apply Hdisj'|]. cbn. intros Hin'.
           apply list_elem_of_singleton in Hin' as ->. contradiction.
        -- exists self'. split; [exact Hloop|]. split; [|exact Hrest].
           rewrite Hv'. cbn. now rewrite <- app_assoc.
Qed.

(** The registration loop. *)
Lemma register_loop_spec (line : Z) :
  forall (bs : list Box) (self : t),
    Forall (fun k => k < next_vehicle_id self) (dict_keys (vehicles self)) ->
    exists self',
      for_each (fun s0 b => register s0 b line) bs self = Ok self'
      /\ vehicles self' = vehicles self ++ registrations line (next_vehicle_id self) bs
      /\ next_vehicle_id self' = next_vehicle_id self + Z.of_nat (length bs)
      /\ max_disappeared self' = max_disappeared self
      /\ min_overlap_ratio self' = min_overlap_ratio self
      /\ crossed_vehicles self ⊆ crossed_vehicles self'.
Proof.
  induction bs as [|b bs IH]; intros self Hlt.
  - exists self. cbn. rewrite app_nil_r, Z.add_0_r. now repeat split.
  - cbn [for_each].
    destruct (register_spec self b line)
      as (s1 & Hreg & Hv1 & Hn1 & Hmax1 & Hmin1 & Hcv1).
    { intros Hin. rewrite Forall_forall in Hlt. specialize (Hlt _ Hin). lia. }
    rewrite Hreg. cbn [bind].
    destruct (IH s1) as (self' & Hloop & Hv' & Hn' & Hmax' & Hmin' & Hcv').
    { rewrite Hv1, Hn1, dict_keys_app. apply Forall_app. split.
      - eapply Forall_impl; [exact Hlt|]. cbn. intros; lia.
      - cbn. constructor; [lia|constructor]. }
    exists self'. split; [exact Hloop|].
    split.
    { rewrite Hv', Hv1, Hn1, <- app_assoc. reflexivity. }
    split; [rewrite Hn', Hn1; cbn [length]; lia|].
    split; [congruence|]. split; [congruence|]. etransitivity; eassumption.
Qed.

Lemma register_loop_filtered (line : Z) (used : gset Z) (jbs : list (Z * Box)) (self : t) :
  for_each (fun s0 ib =>
              if decide (fst ib ∈ used) then Ok s0
              else register s0 (snd ib) line) jbs self
  = for_each (fun s0 b => register s0 b line)
      (map snd (filter (fun jb => fst jb ∉ used) jbs)) self.
Proof.
  revert self. induction jbs as [|[j b] jbs IH]; intros self; [reflexivity|].
  cbn [for_each fst snd]. rewrite filter_cons. cbn [fst].
  destruct (decide (j ∈ used)) as [Hin|Hnin].
  - rewrite decide_False by (intros Hn; contradiction). cbn [bind]. apply IH.
  - rewrite decide_True by assumption. cbn [map for_each snd].
    destruct (register self b line); cbn [bind]; [apply IH|reflexivity].
Qed.

Lemma elem_of_matched_ids (id : Z) (decided : dict (Vehicle * option (Z * Box))) :
  id ∈ matched_ids decided
  <-> exists v d, (id, (v, d)) ∈ decided /\ is_Some d.
Proof.
  unfold matched_ids. rewrite elem_of_list_to_set, list_elem_of_fmap. split.
  - intros ([id' [v d]] & -> & Hin). apply list_elem_of_filter in Hin as [Hs Hin].
    now exists v, d.
  - intros (v & d & Hin & Hs). exists (id, (v, d)). split; [reflexivity|].
    now apply list_elem_of_filter.
Qed.

(** After the matching loop, ageing the unmatched objects resolves every
    object according to its decision. *)
Lemma age_after_match (line maxd : Z) (decided : dict (Vehicle * option (Z * Box))) :
  NoDup (dict_keys decided) ->
  concat (map (age_or_keep (matched_ids decided ∪ ∅) maxd)
            (map (fun e => (fst e, after_match line (fst (snd e)) (snd (snd e))))
               decided))
  = concat (map (resolve line maxd) decided).
Proof.
  intros Hnd. rewrite map_map. f_equal. apply map_ext_in.
  intros [id [v d]] Hin. apply list_elem_of_In in Hin.
  unfold age_or_keep, resolve. cbn [fst snd].
  destruct d as [[j b]|]; cbn [after_match].
  - rewrite decide_True; [reflexivity|].
    apply elem_of_union. left. apply elem_of_matched_ids. eauto.
  - rewrite decide_False; [reflexivity|].
    intros Hm. apply elem_of_union in Hm as [Hm|Hm]; [|now apply elem_of_empty in Hm].
    apply elem_of_matched_ids in Hm as (v' & d' & Hin' & Hsome).
    pose proof (dict_get_nodup id _ decided Hnd Hin') as E'.
    rewrite (dict_get_nodup id _ decided Hnd Hin) in E'.
    injection E' as _ <-. now destruct Hsome.
Qed.

Lemma keys_of_decided (decided : dict (Vehicle * option (Z * Box))) :
  dict_keys (map (fun e => (fst e, fst (snd e))) decided) = dict_keys decided.
Proof. unfold dict_keys. rewrite map_map. reflexivity. Qed.

Lemma keys_after_match (line : Z) (decided : dict (Vehicle * option (Z * Box))) :
  dict_keys (map (fun e => (fst e, after_match line (fst (snd e)) (snd (snd e))))
               decided)
  = dict_keys decided.
Proof. unfold dict_keys. rewrite map_map. reflexivity. Qed.

(** Every key that survives [resolve] is a key of the table. *)
Lemma keys_resolve_subset (line maxd : Z) (decided : dict (Vehicle * option (Z * Box)))
    (k : Z) :
  k ∈ dict_keys (concat (map (resolve line maxd) decided)) -> k ∈ dict_keys decided.
Proof.
  induction decided as [|[id [v d]] decided IH]; cbn [map concat]; [easy|].
  rewrite dict_keys_app. intros Hin. apply elem_of_app in Hin as [Hin|Hin].
  - cbn. unfold resolve in Hin. cbn [fst snd] in Hin.
    destruct d as [[j b]|]; [|destruct (_ >? _)]; cbn in Hin.
    + apply list_elem_of_singleton in Hin as ->. apply list_elem_of_here.
    + now apply elem_of_nil in Hin.
    + apply list_elem_of_singleton in Hin as ->. apply list_elem_of_here.
  - cbn. apply list_elem_of_further. now apply IH.
Qed.

Lemma sorted_resolve (line maxd : Z) (decided : dict (Vehicle * option (Z * Box))) :
  StronglySorted Z.lt (dict_keys decided) ->
  StronglySorted Z.lt (dict_keys (concat (map (resolve line maxd) decided))).
Proof.
  induction decided as [|[id [v d]] decided IH]; cbn [map concat]; [easy|].
  cbn. intros Hs. apply StronglySorted_inv in Hs as [Hs Hall].
  specialize (IH Hs).
  assert (Hcons : StronglySorted Z.lt
            (id :: dict_keys (concat (map (resolve line maxd) decided)))).
  { constructor; [exact IH|]. apply Forall_forall. intros k Hk.
    apply keys_resolve_subset in Hk. rewrite Forall_forall in Hall. now apply Hall. }
  unfold resolve at 1. cbn [fst snd].
  destruct d as [[j b]|]; [|destruct (_ >? _)]; cbn; assumption.
Qed.

Lemma tracker_inv_nodup (self : t) :
  tracker_inv self -> NoDup (dict_keys (vehicles self)).
Proof. intros (Hs & _). now apply sorted_keys_nodup. Qed.

Lemma keys_below_resolve (line maxd bound : Z)
    (decided : dict (Vehicle * option (Z * Box))) :
  Forall (fun k => k < bound) (dict_keys decided) ->
  Forall (fun k => k < bound) (dict_keys (concat (map (resolve line maxd) decided))).
Proof.
  intros Hall. apply Forall_forall. intros k Hk. apply keys_resolve_subset in Hk.
  rewrite Forall_forall in Hall. exact (Hall k Hk).
Qed.

(** The third branch of [update], from the end of the matching loop on. *)
Lemma update_main_branch (self : t) (boxes : list Box) (line : Z) (s : MatchState) :
  tracker_inv self ->
  Nat.eqb (length boxes) 0 = false ->
  Nat.eqb (length (vehicles self)) 0 = false ->
  for_each
    (fun s iv =>
       let* vb := list_getitem (map (fun kv => bbox (snd kv)) (vehicles self))
                    (fst iv) in
       match_step boxes line s (snd iv, vb))
    (enumerate (dict_keys (vehicles self))) (mkMatch self ∅ ∅) = Ok s ->
  exists self' decided,
    update self boxes line = Ok (self', vehicles self')
    /\ update_outcome self boxes line self' decided.
Proof.
  intros Hinv Hb Hv Hmatch. pose proof (tracker_inv_nodup self Hinv) as Hnd.
  destruct (match_loop_spec boxes line (map (fun kv => bbox (snd kv)) (vehicles self))
              (vehicles self) [] [] (mkMatch self ∅ ∅) s)
    as (decided & Hmap & Hgreedy & Hvs & Hub & Huv & Hn & Hmax & Hmin & Hcv);
    [reflexivity|exact Hnd|intros k _; apply not_elem_of_nil|reflexivity|reflexivity
    |exact Hmatch|].
  cbn [ms_tracker used_bboxes used_vehicles app] in *.
  assert (Hkeys : dict_keys decided = dict_keys (vehicles self)).
  { now rewrite <- Hmap, keys_of_decided. }
  assert (Hndd : NoDup (dict_keys decided)) by (now rewrite Hkeys).
  destruct (age_loop_spec (used_vehicles s)
              (map (fun e => (fst e, after_match line (fst (snd e)) (snd (snd e))))
                 decided) [] (ms_tracker s))
    as (s1 & Hage & Hv1 & Hn1 & Hmax1 & Hmin1 & Hcv1);
    [exact Hvs|now rewrite keys_after_match|intros k _; apply not_elem_of_nil|].
  cbn [app] in Hv1. rewrite keys_after_match, Hkeys in Hage.
  rewrite Huv, Hmax, (age_after_match line _ decided Hndd) in Hv1.
  destruct (register_loop_spec line (unclaimed_boxes boxes (used_bboxes s)) s1)
    as (s2 & Hreg & Hv2 & Hn2 & Hmax2 & Hmin2 & Hcv2).
  { rewrite Hv1, Hn1, Hn. apply keys_below_resolve. rewrite Hkeys.
    now destruct Hinv as (_ & Hbelow & _). }
  exists s2, decided. split.
  - unfold update. rewrite Hb, Hv.
    rewrite (snapshot_loop (vehicles self) (vehicles self) []).
    2:{ intros k v Hin. now apply dict_get_nodup. }
    cbn [bind app]. rewrite Hmatch. cbn [bind]. rewrite Hage. cbn [bind].
    rewrite register_loop_filtered. unfold unclaimed_boxes in Hreg.
    rewrite Hreg. reflexivity.
  - unfold update_outcome. split; [exact Hmap|]. split; [exact Hgreedy|].
    split; [now rewrite Hv2, Hv1, Hn1, Hn, Hub|].
    split; [now rewrite Hn2, Hn1, Hn, Hub|].
    split; [congruence|]. split; [congruence|].
    rewrite Hcv1 in Hcv2. etransitivity; eassumption.
Qed.

Lemma greedy_no_detection (thr : Q) (used : gset Z) (l : dict Vehicle) :
  greedy_ok thr [] used (map (fun kv => (fst kv, (snd kv, None))) l).
Proof.
  induction l as [|[k v] l IH]; cbn; [exact I|]. split; [|exact IH].
  split; [discriminate|]. split; [reflexivity|].
  intros _ j' b' r' [Hin _]. now apply elem_of_nil in Hin.
Qed.

Lemma claimed_no_detection (used : gset Z) (l : dict Vehicle) :
  claimed_by used (map (fun kv => (fst kv, (snd kv, @None (Z * Box)))) l) = used.
Proof. induction l as [|[k v] l IH]; cbn; [reflexivity|exact IH]. Qed.

Lemma map_snd_enumerate_from {A : Type} (i : Z) (xs : list A) :
  map snd (enumerate_from i xs) = xs.
Proof. revert i. induction xs as [|x xs IH]; intros i; cbn; [|rewrite IH]; reflexivity. Qed.

Lemma unclaimed_boxes_empty (boxes : list Box) : unclaimed_boxes boxes ∅ = boxes.
Proof.
  unfold unclaimed_boxes, enumerate. generalize 0.
  induction boxes as [|b boxes IH]; intros i; cbn [enumerate_from]; [reflexivity|].
  rewrite filter_cons, decide_True by apply not_elem_of_empty.
  cbn [map snd]. now rewrite IH.
Qed.

(** The first branch: no detection. *)
Lemma update_no_detection (self : t) (line : Z) :
  tracker_inv self ->
  exists self' decided,
    update self [] line = Ok (self', vehicles self')
    /\ update_outcome self [] line self' decided.
Proof.
  intros Hinv. pose proof (tracker_inv_nodup self Hinv) as Hnd.
  destruct (age_loop_spec ∅ (vehicles self) [] self)
    as (s1 & Hage & Hv1 & Hn1 & Hmax1 & Hmin1 & Hcv1);
    [reflexivity|exact Hnd|intros k _; apply not_elem_of_nil|].
  cbn [app] in Hv1.
  exists s1, (map (fun kv => (fst kv, (snd kv, None))) (vehicles self)). split.
  - assert (Heq : for_each mark_disappeared (dict_keys (vehicles self)) self = Ok s1).
    { rewrite <- Hage. apply for_each_ext. intros s0 x _.
      rewrite decide_False; [reflexivity|apply not_elem_of_empty]. }
    unfold update. cbn [length Nat.eqb]. now rewrite Heq.
  - unfold update_outcome. rewrite claimed_no_detection.
    split.
    { rewrite map_map. cbn. rewrite <- (map_id (vehicles self)) at 2.
      apply map_ext. now intros [k v]. }
    split; [apply greedy_no_detection|].
    unfold unclaimed_boxes, registrations. cbn. rewrite app_nil_r, Z.add_0_r.
    split.
    { rewrite Hv1, map_map. apply (f_equal (@concat _)). apply map_ext. intros [k v].
      unfold age_or_keep, resolve. cbn [fst snd].
      rewrite decide_False; [reflexivity|apply not_elem_of_empty]. }
    split; [exact Hn1|]. split; [exact Hmax1|]. split; [exact Hmin1|].
    now rewrite Hcv1.
Qed.

(** The second branch: detections and an empty table. *)
Lemma update_empty_table (self : t) (boxes : list Box) (line : Z) :
  tracker_inv self ->
  Nat.eqb (length boxes) 0 = false ->
  vehicles self = [] ->
  exists self' decided,
    update self boxes line = Ok (self', vehicles self')
    /\ update_outcome self boxes line self' decided.
Proof.
  intros Hinv Hb Hv.
  destruct (register_loop_spec line boxes self)
    as (s1 & Hreg & Hv1 & Hn1 & Hmax1 & Hmin1 & Hcv1).
  { rewrite Hv. constructor. }
  exists s1, []. split.
  - unfold update. rewrite Hb, Hv. cbn [length Nat.eqb]. now rewrite Hreg.
  - unfold update_outcome. cbn [map concat claimed_by greedy_ok app].
    rewrite unclaimed_boxes_empty. rewrite Hv in Hv1. now repeat split.
Qed.

(** [update] on a tracker that satisfies the invariant. *)
Lemma update_char (self : t) (boxes : list Box) (line : Z) (r : t * dict Vehicle) :
  tracker_inv self ->
  update self boxes line = Ok r ->
  snd r = vehicles (fst r)
  /\ exists decided, update_outcome self boxes line (fst r) decided.
Proof.
  intros Hinv Hup.
  assert (H : exists self' decided,
             update self boxes line = Ok (self', vehicles self')
             /\ update_outcome self boxes line self' decided).
  { destruct boxes as [|b boxes]; [now apply update_no_detection|].
    destruct (vehicles self) as [|kv l] eqn:Hv; [now apply update_empty_table|].
    unfold update in Hup. rewrite Hv in Hup. cbn [length Nat.eqb] in Hup.
    rewrite <- Hv in Hup.
    rewrite (snapshot_loop (vehicles self) (vehicles self) []) in Hup.
    2:{ intros k v Hin. apply dict_get_nodup; [|exact Hin].
        now apply tracker_inv_nodup. }
    cbn [bind app] in Hup. apply bind_ok in Hup as (s & Hmatch & _).
    apply (update_main_branch self (b :: boxes) line s Hinv); [reflexivity| |exact Hmatch].
    now rewrite Hv. }
  destruct H as (self' & decided & Hup' & Hout).
  rewrite Hup' in Hup. injection Hup as <-. split; [reflexivity|]. now exists decided.
Qed.

(** [update] returns when all boxes are well formed. *)
Lemma update_total (self : t) (boxes : list Box) (line : Z) :
  tracker_inv self -> Forall wf_box boxes -> stored_wf self ->
  exists self' decided,
    update self boxes line = Ok (self', vehicles self')
    /\ update_outcome self boxes line self' decided.
Proof.
  intros Hinv Hboxes Hstored.
  destruct boxes as [|b boxes]; [now apply update_no_detection|].
  destruct (vehicles self) as [|kv l] eqn:Hv; [now apply update_empty_table|].
  destruct (match_loop_total (b :: boxes) line self) as (s & Hmatch);
    [now apply tracker_inv_nodup|exact Hboxes|exact Hstored|].
  apply (update_main_branch self (b :: boxes) line s Hinv); [reflexivity| |exact Hmatch].
  now rewrite Hv.
Qed.

Lemma keys_registrations (line next : Z) (bs : list Box) (k : Z) :
  k ∈ dict_keys (registrations line next bs)
  <-> next <= k < next + Z.of_nat (length bs).
Proof.
  unfold registrations, dict_keys. rewrite map_map. cbn [fst].
  revert next. induction bs as [|b bs IH]; intros next; cbn [enumerate_from map length].
  - rewrite elem_of_nil. lia.
  - rewrite elem_of_cons, IH. cbn [fst]. lia.
Qed.

Lemma sorted_registrations (line next : Z) (bs : list Box) :
  StronglySorted Z.lt (dict_keys (registrations line next bs)).
Proof.
  revert next. induction bs as [|b bs IH]; intros next; [constructor|].
  unfold registrations. cbn [enumerate_from map dict_keys fst].
  constructor; [apply IH|]. apply Forall_forall. intros k Hk.
  apply (keys_registrations line (next + 1) bs k) in Hk. lia.
Qed.

Lemma elem_of_resolve (line maxd : Z) (decided : dict (Vehicle * option (Z * Box)))
    (id : Z) (v' : Vehicle) :
  (id, v') ∈ concat (map (resolve line maxd) decided) ->
  exists v d, (id, (v, d)) ∈ decided
              /\ (id, v') ∈ resolve line maxd (id, (v, d)).
Proof.
  induction decided as [|[k [v d]] decided IH]; cbn [map concat].
  - intros H. now apply elem_of_nil in H.
  - intros H. apply elem_of_app in H as [H|H].
    + assert (k = id) as ->.
      { unfold resolve in H. cbn [fst snd] in H.
        destruct d as [[j b]|]; [|destruct (_ >? _)].
        - apply list_elem_of_singleton in H. congruence.
        - now apply elem_of_nil in H.
        - apply list_elem_of_singleton in H. congruence. }
      exists v, d. split; [apply list_elem_of_here|exact H].
    + destruct (IH H) as (v0 & d0 & Hin & Hres). exists v0, d0.
      split; [now apply list_elem_of_further|exact Hres].
Qed.

Lemma elem_of_registrations (line next : Z) (bs : list Box) (id : Z) (v : Vehicle) :
  (id, v) ∈ registrations line next bs ->
  exists b, b ∈ bs /\ v = new_vehicle line b.
Proof.
  unfold registrations. intros H. apply list_elem_of_fmap in H as ([k b] & E & Hin).
  cbn in E. injection E as -> ->. exists b. split; [|reflexivity].
  apply elem_of_enumerate_from in Hin as [_ Hl]. apply list_elem_of_lookup. eauto.
Qed.

Lemma decided_elem_of (decided : dict (Vehicle * option (Z * Box)))
    (l : dict Vehicle) (id : Z) (v : Vehicle) (d : option (Z * Box)) :
  map (fun e => (fst e, fst (snd e))) decided = l ->
  (id, (v, d)) ∈ decided -> (id, v) ∈ l.
Proof.
  intros <- Hin. apply list_elem_of_fmap. now exists (id, (v, d)).
Qed.

(** The invariant and the evolution facts across one [update]. *)
Lemma update_outcome_evolves (self self' : t) (boxes : list Box) (line : Z)
    (decided : dict (Vehicle * option (Z * Box))) :
  tracker_inv self ->
  update_outcome self boxes line self' decided ->
  evolves self self'.
Proof.
  intros (Hsorted & Hbelow & Hdis) (Hmap & Hgreedy & Hv' & Hn' & Hmax' & Hmin' & Hcv').
  assert (Hkeys : dict_keys decided = dict_keys (vehicles self)).
  { now rewrite <- Hmap, keys_of_decided. }
  set (bs := unclaimed_boxes boxes (claimed_by ∅ decided)) in *.
  assert (Hold : forall k, k ∈ dict_keys (concat (map (resolve line (max_disappeared self))
                                                   decided)) ->
                           k ∈ dict_keys (vehicles self) /\ k < next_vehicle_id self).
  { intros k Hk. apply keys_resolve_subset in Hk. rewrite Hkeys in Hk.
    split; [exact Hk|]. rewrite Forall_forall in Hbelow. now apply Hbelow. }
  assert (Hinv' : tracker_inv self').
  { split; [|split].
    - rewrite Hv', dict_keys_app. apply StronglySorted_app_2.
      + intros x1 x2 H1 H2. apply Hold in H1 as [_ H1].
        apply keys_registrations in H2. lia.
      + apply sorted_resolve. now rewrite Hkeys.
      + apply sorted_registrations.
    - rewrite Hv', dict_keys_app, Hn'. apply Forall_app. split.
      + apply Forall_forall. intros k Hk. apply Hold in Hk as [_ Hk]. lia.
      + apply Forall_forall. intros k Hk. apply keys_registrations in Hk. lia.
    - rewrite Hv'. apply Forall_app. split.
      + apply Forall_forall. intros [id v'] Hin.
        apply elem_of_resolve in Hin as (v & d & Hin & Hres).
        unfold resolve in Hres. cbn [fst snd] in Hres.
        destruct d as [[j b]|]; [|destruct (_ >? _)].
        * apply list_elem_of_singleton in Hres. injection Hres as ->. cbn. lia.
        * now apply elem_of_nil in Hres.
        * apply list_elem_of_singleton in Hres. injection Hres as ->. cbn.
          rewrite Forall_forall in Hdis.
          specialize (Hdis (id, v) (decided_elem_of _ _ _ _ _ Hmap Hin)). cbn in Hdis. lia.
      + apply Forall_forall. intros [id v'] Hin.
        apply elem_of_registrations in Hin as (b & _ & ->). cbn. lia. }
  split; [exact Hinv'|]. split; [exact Hmax'|]. split; [exact Hmin'|].
  split; [lia|]. split; [|split; [|split; [|exact Hcv']]].
  - intros id Hlt Hnin Hin. rewrite Hv', dict_keys_app in Hin.
    apply elem_of_app in Hin as [Hin|Hin].
    + apply Hold in Hin as [Hin _]. contradiction.
    + apply keys_registrations in Hin. lia.
  - intros id Hin Hnin. rewrite Hv', dict_keys_app in Hin.
    apply elem_of_app in Hin as [Hin|Hin].
    + apply Hold in Hin as [Hin _]. contradiction.
    + apply keys_registrations in Hin. lia.
  - intros id v v' Hget Hget' Hcr.
    apply dict_get_elem_of in Hget, Hget'. rewrite Hv' in Hget'.
    assert (Hlt : id < next_vehicle_id self).
    { rewrite Forall_forall in Hbelow. apply Hbelow. eapply elem_of_dict_keys; eauto. }
    apply elem_of_app in Hget' as [Hin|Hin].
    + apply elem_of_resolve in Hin as (v0 & d & Hin & Hres).
      pose proof (decided_elem_of _ _ _ _ _ Hmap Hin) as Hin0.
      assert (v0 = v) as ->.
      { pose proof (sorted_keys_nodup _ Hsorted) as Hnd.
        pose proof (dict_get_nodup id v0 _ Hnd Hin0) as E.
        rewrite (dict_get_nodup id v _ Hnd Hget) in E. congruence. }
      unfold resolve in Hres. cbn [fst snd] in Hres.
      destruct d as [[j b]|]; [|destruct (_ >? _)].
      * apply list_elem_of_singleton in Hres. injection Hres as ->. cbn.
        now rewrite Hcr.
      * now apply elem_of_nil in Hres.
      * apply list_elem_of_singleton in Hres. injection Hres as ->. exact Hcr.
    + apply elem_of_dict_keys in Hin. apply keys_registrations in Hin. lia.
Qed.

Lemma dict_get_app_l {V : Type} (k : Z) (v : V) (d d' : dict V) :
  dict_get k d = Some v -> dict_get k (d ++ d') = Some v.
Proof.
  induction d as [|[k0 v0] d IH]; cbn; [discriminate|].
  destruct (Z.eqb_spec k k0); [easy|exact IH].
Qed.

Lemma dict_get_is_some {V : Type} (k : Z) (d : dict V) :
  k ∈ dict_keys d -> exists v, dict_get k d = Some v.
Proof.
  induction d as [|[k0 v0] d IH]; cbn; intros Hin; [now apply elem_of_nil in Hin|].
  destruct (Z.eqb_spec k k0) as [->|Hne]; [eauto|].
  apply elem_of_cons in Hin as [?|Hin]; [contradiction|]. now apply IH.
Qed.

Lemma dict_get_keys {V : Type} (k : Z) (v : V) (d : dict V) :
  dict_get k d = Some v -> k ∈ dict_keys d.
Proof. intros H. apply dict_get_elem_of in H. eapply elem_of_dict_keys; eauto. Qed.

Lemma init_inv (md : Z) (thr : Q) : tracker_inv (__init__ md thr).
Proof. repeat split; constructor. Qed.

Lemma evolves_refl (self : t) : tracker_inv self -> evolves self self.
Proof.
  intros Hinv. split; [exact Hinv|]. split; [reflexivity|]. split; [reflexivity|].
  split; [lia|]. split; [easy|]. split; [easy|]. split; [|reflexivity].
  intros id v v' E E'. rewrite E in E'. now injection E' as <-.
Qed.

Lemma evolves_trans (a b c : t) :
  tracker_inv a -> evolves a b -> evolves b c -> evolves a c.
Proof.
  intros (_ & Hbelow & _) (Hinvb & Hmaxb & Hminb & Hnb & Hgoneb & Hnewb & Hflagb & Hcvb)
         (Hinvc & Hmaxc & Hminc & Hnc & Hgonec & Hnewc & Hflagc & Hcvc).
  split; [exact Hinvc|]. split; [congruence|]. split; [congruence|].
  split; [lia|]. split; [|split; [|split]].
  - intros id Hlt Hnin. apply Hgonec; [lia|]. now apply Hgoneb.
  - intros id Hin Hnin.
    destruct (decide (id ∈ dict_keys (vehicles b))) as [Hb|Hb].
    + now apply Hnewb.
    + specialize (Hnewc id Hin Hb). lia.
  - intros id v v'' Hget Hget'' Hcr.
    assert (Hlt : id < next_vehicle_id a).
    { rewrite Forall_forall in Hbelow. apply Hbelow. eapply dict_get_keys; eauto. }
    destruct (decide (id ∈ dict_keys (vehicles b))) as [Hb|Hb].
    + destruct (dict_get_is_some id _ Hb) as (v' & Hget').
      apply (Hflagc id v' v'' Hget' Hget''). now apply (Hflagb id v v').
    + exfalso. apply (Hgonec id); [lia|exact Hb|]. eapply dict_get_keys; eauto.
  - etransitivity; eassumption.
Qed.

Lemma register_evolves (self self' : t) (b : Box) (line : Z) :
  tracker_inv self -> register self b line = Ok self' -> evolves self self'.
Proof.
  intros Hinv Hreg. pose proof Hinv as (Hsorted & Hbelow & Hdis).
  destruct (register_spec self b line) as (s1 & Hreg1 & Hv1 & Hn1 & Hmax1 & Hmin1 & Hcv1).
  { intros Hin. rewrite Forall_forall in Hbelow. specialize (Hbelow _ Hin). lia. }
  rewrite Hreg1 in Hreg. injection Hreg as <-.
  split; [|split; [exact Hmax1|split; [exact Hmin1|split; [lia|]]]].
  - split; [|split].
    + rewrite Hv1, dict_keys_app. apply StronglySorted_app_2.
      * intros x1 x2 H1 H2. cbn in H2. apply list_elem_of_singleton in H2 as ->.
        rewrite Forall_forall in Hbelow. now apply Hbelow.
      * exact Hsorted.
      * cbn. repeat constructor.
    + rewrite Hv1, dict_keys_app, Hn1. apply Forall_app. split.
      * eapply Forall_impl; [exact Hbelow|]. cbn. intros; lia.
      * cbn. constructor; [lia|constructor].
    + rewrite Hv1. apply Forall_app. split; [exact Hdis|].
      constructor; [cbn; lia|constructor].
  - split; [|split; [|split; [|exact Hcv1]]].
    + intros id Hlt Hnin Hin. rewrite Hv1, dict_keys_app in Hin.
      apply elem_of_app in Hin as [Hin|Hin]; [contradiction|].
      cbn in Hin. apply list_elem_of_singleton in Hin. lia.
    + intros id Hin Hnin. rewrite Hv1, dict_keys_app in Hin.
      apply elem_of_app in Hin as [Hin|Hin]; [contradiction|].
      cbn in Hin. apply list_elem_of_singleton in Hin. lia.
    + intros id v v' Hget Hget' Hcr. rewrite Hv1 in Hget'.
      rewrite (dict_get_app_l id v _ _ Hget) in Hget'. now injection Hget' as <-.
Qed.

Lemma step_evolves (self self' : t) (o : op) :
  tracker_inv self -> step self o = Ok self' -> evolves self self'.
Proof.
  intros Hinv Hstep. destruct o as [boxes line|b line]; cbn [step] in Hstep.
  - apply bind_ok in Hstep as (r & Hup & [= <-]).
    destruct (update_char self boxes line r Hinv Hup) as (_ & decided & Hout).
    now apply (update_outcome_evolves self (fst r) boxes line decided).
  - now apply (register_evolves self self' b line).
Qed.

Lemma run_evolves (ops : list op) (self self' : t) :
  tracker_inv self -> run ops self = Ok self' -> evolves self self'.
Proof.
  revert self. induction ops as [|o ops IH]; intros self Hinv Hrun.
  - cbn in Hrun. injection Hrun as <-. now apply evolves_refl.
  - unfold run in Hrun. cbn [for_each] in Hrun.
    apply bind_ok in Hrun as (s1 & Hstep & Hrun).
    pose proof (step_evolves self s1 o Hinv Hstep) as Hev.
    apply (evolves_trans self s1 self' Hinv Hev).
    apply IH; [now destruct Hev|exact Hrun].
Qed.

Lemma run_app (ops1 ops2 : list op) (self : t) :
  run (ops1 ++ ops2) self = bind (run ops1 self) (run ops2).
Proof. apply for_each_app. Qed.

(** Well-formed stored boxes. *)
Lemma greedy_ok_elem (thr : Q) (boxes : list Box)
    (decided : dict (Vehicle * option (Z * Box))) (used : gset Z)
    (id : Z) (v : Vehicle) (d : option (Z * Box)) :
  greedy_ok thr boxes used decided -> (id, (v, d)) ∈ decided ->
  exists used', decision_ok thr boxes (bbox v) used' d.
Proof.
  revert used. induction decided as [|[k [v0 d0]] decided IH]; intros used Hg Hin.
  - now apply elem_of_nil in Hin.
  - cbn in Hg. destruct Hg as [Hd Hg]. apply elem_of_cons in Hin as [[= -> -> ->]|Hin].
    + now exists used.
    + now apply (IH (claim d0 used)).
Qed.

Lemma elem_of_unclaimed_boxes (boxes : list Box) (used : gset Z) (b : Box) :
  b ∈ unclaimed_boxes boxes used -> b ∈ boxes.
Proof.
  unfold unclaimed_boxes. intros H. apply list_elem_of_fmap in H as ([j b'] & -> & Hin).
  apply list_elem_of_filter in Hin as [_ Hin].
  apply elem_of_enumerate_from in Hin as [_ Hl]. apply list_elem_of_lookup. eauto.
Qed.

Lemma update_outcome_wf (self self' : t) (boxes : list Box) (line : Z)
    (decided : dict (Vehicle * option (Z * Box))) :
  stored_wf self -> Forall wf_box boxes ->
  update_outcome self boxes line self' decided -> stored_wf self'.
Proof.
  intros Hstored Hboxes (Hmap & Hgreedy & Hv' & _).
  unfold stored_wf in *. rewrite Forall_forall in Hstored.
  rewrite Forall_forall in Hboxes.
  rewrite Hv'. apply Forall_app. split; apply Forall_forall; intros [id v'] Hin.
  - apply elem_of_resolve in Hin as (v & d & Hin & Hres).
    pose proof (decided_elem_of _ _ _ _ _ Hmap Hin) as Hin0.
    unfold resolve in Hres. cbn [fst snd] in Hres.
    destruct d as [[j b]|]; [|destruct (_ >? _)].
    + apply list_elem_of_singleton in Hres. injection Hres as ->. cbn.
      destruct (greedy_ok_elem _ _ _ _ _ _ _ Hgreedy Hin) as (used' & Hacc & _).
      destruct (Hacc j b eq_refl) as [[Hjb _] _]. apply Hboxes.
      apply elem_of_enumerate_from in Hjb as [_ Hl]. apply list_elem_of_lookup. eauto.
    + now apply elem_of_nil in Hres.
    + apply list_elem_of_singleton in Hres. injection Hres as ->. cbn.
      apply (Hstored (id, v) Hin0).
  - apply elem_of_registrations in Hin as (b & Hb & ->). cbn.
    apply Hboxes. eapply elem_of_unclaimed_boxes; eauto.
Qed.

Lemma run_wf (ops : list op) (self self' : t) :
  tracker_inv self -> stored_wf self -> Forall op_wf ops ->
  run ops self = Ok self' -> stored_wf self'.
Proof.
  revert self. induction ops as [|o ops IH]; intros self Hinv Hstored Hops Hrun.
  - cbn in Hrun. now injection Hrun as <-.
  - unfold run in Hrun. cbn [for_each] in Hrun.
    apply bind_ok in Hrun as (s1 & Hstep & Hrun).
    apply Forall_cons in Hops as [Ho Hops].
    pose proof (step_evolves self s1 o Hinv Hstep) as (Hinv1 & _).
    apply (IH s1 Hinv1); [|exact Hops|exact Hrun].
    destruct o as [boxes line|b line]; cbn [step op_wf] in *.
    + apply bind_ok in Hstep as (r & Hup & [= <-]).
      destruct (update_char self boxes line r Hinv Hup) as (_ & decided & Hout).
      now apply (update_outcome_wf self (fst r) boxes line decided).
    + destruct (register_spec self b line) as (s1' & Hreg1 & Hv1 & _).
      { destruct Hinv as (_ & Hbelow & _). intros Hin.
        rewrite Forall_forall in Hbelow. specialize (Hbelow _ Hin). lia. }
      rewrite Hreg1 in Hstep. injection Hstep as <-.
      unfold stored_wf. rewrite Hv1. apply Forall_app. split; [exact Hstored|].
      constructor; [exact Ho|constructor].
Qed.

End TrackerSteps.

(** ** Identities and crossing flags across runs *)

Lemma reachable_inv (md : Z) (thr : Q) (ops : list VehicleTracker.op)
    (self : VehicleTracker.t) :
  VehicleTracker.run ops (VehicleTracker.__init__ md thr) = Ok self -> tracker_inv self.
Proof.
  intros Hrun. now destruct (run_evolves ops _ _ (init_inv md thr) Hrun).
Qed.

Lemma reachable_wf (md : Z) (thr : Q) (ops : list VehicleTracker.op)
    (self : VehicleTracker.t) :
  VehicleTracker.run ops (VehicleTracker.__init__ md thr) = Ok self ->
  Forall op_wf ops -> stored_wf self.
Proof.
  intros Hrun Hops.
  apply (run_wf ops _ self (init_inv md thr)); [constructor|exact Hops|exact Hrun].
Qed.

(** C7.  In every tracker reached from a fresh one the ids of the table are
    pairwise distinct, ascending in table order and below the next id.
    Whatever operations follow, the next id never decreases, every id that
    enters the table is at least the next id of the earlier tracker (so
    above every id assigned before), and an id that was assigned earlier and
    is no longer in the table never comes back.  [register] always assigns
    the next id and increments it. *)
Theorem ids_unique_increasing_never_reused (md : Z) (thr : Q)
    (ops1 ops2 : list VehicleTracker.op) (t1 t2 : VehicleTracker.t) :
  VehicleTracker.run ops1 (VehicleTracker.__init__ md thr) = Ok t1 ->
  VehicleTracker.run ops2 t1 = Ok t2 ->
  NoDup (dict_keys (VehicleTracker.vehicles t2))
  /\ StronglySorted Z.lt (dict_keys (VehicleTracker.vehicles t2))
  /\ Forall (fun k => k < VehicleTracker.next_vehicle_id t2)
            (dict_keys (VehicleTracker.vehicles t2))
  /\ VehicleTracker.next_vehicle_id t1 <= VehicleTracker.next_vehicle_id t2
  /\ (forall id, id ∈ dict_keys (VehicleTracker.vehicles t2) ->
        id ∉ dict_keys (VehicleTracker.vehicles t1) ->
        VehicleTracker.next_vehicle_id t1 <= id)
  /\ (forall id, id < VehicleTracker.next_vehicle_id t1 ->
        id ∉ dict_keys (VehicleTracker.vehicles t1) ->
        id ∉ dict_keys (VehicleTracker.vehicles t2))
  /\ (forall b line,
        exists t3,
          VehicleTracker.register t2 b line = Ok t3
          /\ dict_keys (VehicleTracker.vehicles t3)
             = dict_keys (VehicleTracker.vehicles t2) ++ [VehicleTracker.next_vehicle_id t2]
          /\ VehicleTracker.next_vehicle_id t3 = VehicleTracker.next_vehicle_id t2 + 1).
Proof.
  intros Hrun1 Hrun2.
  pose proof (reachable_inv md thr ops1 t1 Hrun1) as Hinv1.
  destruct (run_evolves ops2 t1 t2 Hinv1 Hrun2)
    as (Hinv2 & _ & _ & Hn & Hgone & Hnew & _).
  pose proof Hinv2 as (Hsorted & Hbelow & _).
  split; [now apply sorted_keys_nodup|]. split; [exact Hsorted|].
  split; [exact Hbelow|]. split; [exact Hn|]. split; [exact Hnew|].
  split; [exact Hgone|].
  intros b line.
  destruct (register_spec t2 b line) as (t3 & Hreg & Hv3 & Hn3 & _).
  { intros Hin. rewrite Forall_forall in Hbelow. specialize (Hbelow _ Hin). lia. }
  exists t3. split; [exact Hreg|]. split; [|exact Hn3].
  now rewrite Hv3, dict_keys_app.
Qed.

(** C4.  In every tracker reached from a fresh one, the line-crossing check
    on a stored object returns and leaves its flag equal to the disjunction
    of the old flag and of the test [y + h >= line]: the flag is set exactly
    when the bottom edge has reached the line while the flag was false, and
    a flag that is true stays true.  Whatever operations follow, an identity
    whose flag is true keeps a true flag for as long as it is in the table,
    and the set of crossed ids only grows. *)
Theorem crossed_line_one_way (md : Z) (thr : Q)
    (ops1 ops2 : list VehicleTracker.op) (t1 t2 : VehicleTracker.t) :
  VehicleTracker.run ops1 (VehicleTracker.__init__ md thr) = Ok t1 ->
  VehicleTracker.run ops2 t1 = Ok t2 ->
  (forall id v x y w h line,
     dict_get id (VehicleTracker.vehicles t1) = Some v ->
     exists t',
       VehicleTracker._check_line_crossing t1 id (x, y, w, h) line = Ok t'
       /\ dict_get id (VehicleTracker.vehicles t')
          = Some (set_crossed_line (crossed_line v || (y + h >=? line)) v))
  /\ (forall id v1 v2,
        dict_get id (VehicleTracker.vehicles t1) = Some v1 ->
        dict_get id (VehicleTracker.vehicles t2) = Some v2 ->
        crossed_line v1 = true -> crossed_line v2 = true)
  /\ VehicleTracker.crossed_vehicles t1 ⊆ VehicleTracker.crossed_vehicles t2.
Proof.
  intros Hrun1 Hrun2.
  pose proof (reachable_inv md thr ops1 t1 Hrun1) as Hinv1.
  destruct (run_evolves ops2 t1 t2 Hinv1 Hrun2)
    as (_ & _ & _ & _ & _ & _ & Hflag & Hcv).
  split; [|split; [exact Hflag|exact Hcv]].
  intros id v x y w h line Hget.
  pose proof (tracker_inv_nodup t1 Hinv1) as Hnd.
  destruct (elem_of_split_first id v _ Hnd (dict_get_elem_of _ _ _ Hget))
    as (pre & post & Hv & Hk).
  destruct (check_line_crossing_middle t1 id (x, y, w, h) line v pre post Hv Hk)
    as (t' & Hcheck & Hv' & _).
  exists t'. split; [exact Hcheck|]. rewrite Hv'. now apply dict_get_middle.
Qed.

(** ** One call of [update] *)

(** C1.  On a tracker reached from a fresh one, with a non-empty table and a
    non-empty list of detections, the table is in ascending id order and
    every call of [update] that returns has decided the objects in that
    order, each among the detections its predecessors left unclaimed
    ([greedy_ok], [decision_ok]):
    - an accepted detection has the maximal overlap ratio among the
      unclaimed ones, and that ratio strictly exceeds [min_overlap_ratio];
      when no unclaimed detection strictly exceeds the threshold the object
      is not matched;
    - a matched object takes the box of its detection, count 0 and the
      line-crossing check; an unmatched one has its count incremented and is
      deleted when the count strictly exceeds [max_disappeared] ([resolve]);
    - the detections left unclaimed are registered, in detection order,
      under the next ids ([registrations]).
    The call returns whenever all boxes, stored and detected, are well
    formed. *)
Theorem update_greedy_matching (md : Z) (thr : Q) (ops : list VehicleTracker.op)
    (self : VehicleTracker.t) (boxes : list Box) (line : Z) :
  VehicleTracker.run ops (VehicleTracker.__init__ md thr) = Ok self ->
  VehicleTracker.vehicles self <> [] ->
  boxes <> [] ->
  StronglySorted Z.lt (dict_keys (VehicleTracker.vehicles self))
  /\ (forall self' ret,
        VehicleTracker.update self boxes line = Ok (self', ret) ->
        exists decided,
          ret = VehicleTracker.vehicles self'
          /\ map (fun e => (fst e, fst (snd e))) decided = VehicleTracker.vehicles self
          /\ greedy_ok (VehicleTracker.min_overlap_ratio self) boxes ∅ decided
          /\ VehicleTracker.vehicles self'
             = concat (map (resolve line (VehicleTracker.max_disappeared self)) decided)
               ++ registrations line (VehicleTracker.next_vehicle_id self)
                    (unclaimed_boxes boxes (claimed_by ∅ decided))
          /\ VehicleTracker.next_vehicle_id self'
             = VehicleTracker.next_vehicle_id self
               + Z.of_nat (length (unclaimed_boxes boxes (claimed_by ∅ decided))))
  /\ (Forall op_wf ops -> Forall wf_box boxes ->
      exists self',
        VehicleTracker.update self boxes line = Ok (self', VehicleTracker.vehicles self')).
Proof.
  intros Hrun _ _.
  pose proof (reachable_inv md thr ops self Hrun) as Hinv.
  split; [now destruct Hinv|]. split.
  - intros self' ret Hup.
    destruct (update_char self boxes line (self', ret) Hinv Hup)
      as (Hret & decided & Hmap & Hgreedy & Hv' & Hn' & _).
    exists decided. now repeat split.
  - intros Hops Hboxes.
    pose proof (reachable_wf md thr ops self Hrun Hops) as Hstored.
    destruct (update_total self boxes line Hinv Hboxes Hstored)
      as (self' & _ & Hup & _).
    now exists self'.
Qed.

Lemma nodup_filter_keys (P : Z * Vehicle -> Prop) `{forall x, Decision (P x)}
    (l : dict Vehicle) :
  NoDup (dict_keys l) -> NoDup (dict_keys (filter P l)).
Proof.
  induction l as [|[k v] l IH]; [constructor|]. intros Hnd. cbn in Hnd.
  apply NoDup_cons in Hnd as [Hk Hnd]. rewrite filter_cons.
  destruct (decide (P (k, v))); [|now apply IH].
  cbn. apply NoDup_cons. split; [|now apply IH].
  intros Hin. apply Hk. unfold dict_keys in *.
  apply list_elem_of_fmap in Hin as ([k' v'] & -> & Hin).
  apply list_elem_of_filter in Hin as [_ Hin].
  apply list_elem_of_fmap. now exists (k', v').
Qed.

Lemma dict_get_filter (P : Z * Vehicle -> Prop) `{forall x, Decision (P x)}
    (l : dict Vehicle) (id : Z) (v : Vehicle) :
  NoDup (dict_keys l) ->
  dict_get id (filter P l) = Some v <-> dict_get id l = Some v /\ P (id, v).
Proof.
  intros Hnd. pose proof (nodup_filter_keys P l Hnd) as Hndf. split.
  - intros Hget. apply dict_get_elem_of in Hget.
    apply list_elem_of_filter in Hget as [HP Hin].
    split; [now apply dict_get_nodup|exact HP].
  - intros [Hget HP]. apply dict_get_nodup; [exact Hndf|].
    apply list_elem_of_filter. split; [exact HP|now apply dict_get_elem_of].
Qed.

(** C10.  The object returned by [update] is the table of the tracker.
    Every entry of it has count 0 or is an object of the previous table that
    was not matched: count one more than before, between 1 and
    [max_disappeared], and the box it had before the call.  Every object
    that is left unmatched without exceeding [max_disappeared] is in the
    returned table in that state and is absent from [get_active_vehicles],
    which keeps exactly the entries with count 0. *)
Theorem update_returns_full_table (md : Z) (thr : Q) (ops : list VehicleTracker.op)
    (self self' : VehicleTracker.t) (boxes : list Box) (line : Z)
    (ret : dict Vehicle) :
  VehicleTracker.run ops (VehicleTracker.__init__ md thr) = Ok self ->
  VehicleTracker.update self boxes line = Ok (self', ret) ->
  ret = VehicleTracker.vehicles self'
  /\ (forall id v',
        dict_get id ret = Some v' ->
        disappeared v' = 0
        \/ (1 <= disappeared v' <= VehicleTracker.max_disappeared self
            /\ exists v, dict_get id (VehicleTracker.vehicles self) = Some v
                         /\ bbox v' = bbox v
                         /\ disappeared v' = disappeared v + 1))
  /\ (exists decided,
        map (fun e => (fst e, fst (snd e))) decided = VehicleTracker.vehicles self
        /\ greedy_ok (VehicleTracker.min_overlap_ratio self) boxes ∅ decided
        /\ forall id v,
             (id, (v, None)) ∈ decided ->
             disappeared v + 1 <= VehicleTracker.max_disappeared self ->
             dict_get id ret = Some (aged_vehicle v)
             /\ dict_get id (VehicleTracker.get_active_vehicles self') = None)
  /\ (forall id v',
        dict_get id (VehicleTracker.get_active_vehicles self') = Some v'
        <-> dict_get id ret = Some v' /\ disappeared v' = 0).
Proof.
  intros Hrun Hup.
  pose proof (reachable_inv md thr ops self Hrun) as Hinv.
  destruct (update_char self boxes line (self', ret) Hinv Hup)
    as (Hret & decided & Hout).
  cbn [fst snd] in *. subst ret.
  pose proof (update_outcome_evolves self self' boxes line decided Hinv Hout)
    as (Hinv' & _).
  pose proof (tracker_inv_nodup self Hinv) as Hnd.
  pose proof (tracker_inv_nodup self' Hinv') as Hnd'.
  destruct Hout as (Hmap & Hgreedy & Hv' & _).
  destruct Hinv as (_ & _ & Hdis).
  assert (Hactive : forall id v',
    dict_get id (VehicleTracker.get_active_vehicles self') = Some v'
    <-> dict_get id (VehicleTracker.vehicles self') = Some v' /\ disappeared v' = 0).
  { intros id v'. unfold VehicleTracker.get_active_vehicles.
    now rewrite (dict_get_filter _ _ id v' Hnd'). }
  split; [reflexivity|]. split; [|split; [|exact Hactive]].
  - intros id v' Hget. apply dict_get_elem_of in Hget. rewrite Hv' in Hget.
    apply elem_of_app in Hget as [Hin|Hin].
    + apply elem_of_resolve in Hin as (v & d & Hin & Hres).
      pose proof (decided_elem_of _ _ _ _ _ Hmap Hin) as Hin0.
      unfold resolve in Hres. cbn [fst snd] in Hres.
      destruct d as [[j b]|]; [|destruct (_ >? _) eqn:Hgt].
      * apply list_elem_of_singleton in Hres. injection Hres as ->. now left.
      * now apply elem_of_nil in Hres.
      * apply list_elem_of_singleton in Hres. injection Hres as ->. right.
        rewrite Forall_forall in Hdis. specialize (Hdis (id, v) Hin0).
        cbn in Hdis |- *. split; [lia|]. exists v.
        split; [now apply dict_get_nodup|]. now split.
    + apply elem_of_registrations in Hin as (b & _ & ->). now left.
  - exists decided. split; [exact Hmap|]. split; [exact Hgreedy|].
    intros id v Hin Hle.
    assert (Hget : dict_get id (VehicleTracker.vehicles self') = Some (aged_vehicle v)).
    { apply dict_get_nodup; [exact Hnd'|]. rewrite Hv'. apply elem_of_app. left.
      apply list_elem_of_In. apply in_concat.
      exists (resolve line (VehicleTracker.max_disappeared self) (id, (v, None))).
      split; [apply in_map; now apply list_elem_of_In|].
      unfold resolve. cbn [fst snd].
      destruct (Z.gtb_spec (disappeared v + 1) (VehicleTracker.max_disappeared self));
        [lia|]. now left. }
    split; [exact Hget|].
    destruct (dict_get id (VehicleTracker.get_active_vehicles self')) as [v''|] eqn:E;
      [|reflexivity].
    apply Hactive in E as [E Hz]. rewrite Hget in E. injection E as <-.
    pose proof (decided_elem_of _ _ _ _ _ Hmap Hin) as Hin0.
    rewrite Forall_forall in Hdis. specialize (Hdis (id, v) Hin0).
    cbn in Hdis, Hz. lia.
Qed.

(** ** The example run *)

Lemma example_run1 :
  VehicleTracker.run example_ops1 (VehicleTracker.__init__ 1 (3 # 10))
  = Ok example_tracker1.
Proof. vm_compute. reflexivity. Qed.

Lemma example_run2 : VehicleTracker.run example_ops2 example_tracker1 = Ok example_tracker2.
Proof. vm_compute. reflexivity. Qed.

Lemma example_update_mid :
  VehicleTracker.update example_tracker1 example_boxes 50
  = Ok (example_tracker_mid, VehicleTracker.vehicles example_tracker_mid).
Proof. vm_compute. reflexivity. Qed.

Lemma example_ops1_wf : Forall op_wf example_ops1.
Proof. repeat constructor. Qed.

Lemma example_boxes_wf : Forall wf_box example_boxes.
Proof. repeat constructor. Qed.

Lemma update_greedy_matching_witness :
  (exists decided,
     map (fun e => (fst e, fst (snd e))) decided = VehicleTracker.vehicles example_tracker1
     /\ greedy_ok (3 # 10) example_boxes ∅ decided
     /\ VehicleTracker.vehicles example_tracker_mid
        = concat (map (resolve 50 1) decided)
          ++ registrations 50 2 (unclaimed_boxes example_boxes (claimed_by ∅ decided)))
  /\ exists self',
       VehicleTracker.update example_tracker1 example_boxes 50
       = Ok (self', VehicleTracker.vehicles self').
Proof.
  destruct (update_greedy_matching 1 (3 # 10) example_ops1 example_tracker1
              example_boxes 50 example_run1)
    as (_ & Hchar & Htotal).
  - discriminate.
  - discriminate.
  - split.
    + destruct (Hchar _ _ example_update_mid)
        as (decided & _ & Hmap & Hgreedy & Hv' & _).
      exists decided. split; [exact Hmap|]. split; [exact Hgreedy|exact Hv'].
    + apply Htotal; [exact example_ops1_wf|exact example_boxes_wf].
Defined.

Lemma ids_unique_increasing_never_reused_witness :
  NoDup (dict_keys (VehicleTracker.vehicles example_tracker3))
  /\ (1 ∉ dict_keys (VehicleTracker.vehicles example_tracker3))
  /\ VehicleTracker.next_vehicle_id example_tracker2 <= 3
  /\ exists t4,
       VehicleTracker.register example_tracker3 (5, 5, 5, 5) 50 = Ok t4
       /\ dict_keys (VehicleTracker.vehicles t4) = [0; 3] ++ [4].
Proof.
  destruct (ids_unique_increasing_never_reused 1 (3 # 10)
              (example_ops1 ++ example_ops2)
              [VehicleTracker.Update [(50, 50, 5, 5)] 50]
              example_tracker2 example_tracker3)
    as (Hnd & _ & _ & _ & Hnew & Hgone & Hreg).
  - vm_compute. reflexivity.
  - vm_compute. reflexivity.
  - split; [exact Hnd|]. split; [|split].
    + apply Hgone; [reflexivity|]. cbn. intros Hin.
      apply elem_of_cons in Hin as [?|Hin]; [discriminate|].
      apply list_elem_of_singleton in Hin. discriminate.
    + apply Hnew.
      * cbn. apply list_elem_of_further, list_elem_of_here.
      * cbn. intros Hin. apply elem_of_cons in Hin as [?|Hin]; [discriminate|].
        apply list_elem_of_singleton in Hin. discriminate.
    + destruct (Hreg (5, 5, 5, 5) 50) as (t4 & Hr & Hk & _). now exists t4.
Defined.

Lemma crossed_line_one_way_witness :
  (exists t',
     VehicleTracker._check_line_crossing example_tracker1 0 (0, 45, 10, 10) 50 = Ok t'
     /\ dict_get 0 (VehicleTracker.vehicles t')
        = Some (mkVehicle (0, 0, 10, 10) 0 true (mkFirstSeen (0, 0, 10, 10) false)))
  /\ VehicleTracker.crossed_vehicles example_tracker1
     ⊆ VehicleTracker.crossed_vehicles example_tracker2.
Proof.
  destruct (crossed_line_one_way 1 (3 # 10) example_ops1 example_ops2
              example_tracker1 example_tracker2 example_run1 example_run2)
    as (Hcheck & _ & Hcv).
  split; [|exact Hcv].
  apply (Hcheck 0 (mkVehicle (0, 0, 10, 10) 0 false (mkFirstSeen (0, 0, 10, 10) false))
           0 45 10 10 50).
  reflexivity.
Defined.

Lemma update_returns_full_table_witness :
  dict_get 1 (VehicleTracker.vehicles example_tracker_mid)
    = Some (mkVehicle (100, 100, 10, 10) 1 true (mkFirstSeen (100, 100, 10, 10) false))
  /\ (dict_get 1 (VehicleTracker.get_active_vehicles example_tracker_mid)
      = Some (mkVehicle (100, 100, 10, 10) 1 true (mkFirstSeen (100, 100, 10, 10) false))
      <-> dict_get 1 (VehicleTracker.vehicles example_tracker_mid)
          = Some (mkVehicle (100, 100, 10, 10) 1 true (mkFirstSeen (100, 100, 10, 10) false))
          /\ 1 = 0).
Proof.
  destruct (update_returns_full_table 1 (3 # 10) example_ops1
              example_tracker1 example_tracker_mid example_boxes 50
              (VehicleTracker.vehicles example_tracker_mid)
              example_run1 example_update_mid)
    as (_ & _ & _ & Hactive).
  split; [reflexivity|].
  apply (Hactive 1 (mkVehicle (100, 100, 10, 10) 1 true (mkFirstSeen (100, 100, 10, 10) false))).
Defined.

Lemma missing_calibration_raises_witness :
  SpeedCalculator.update sqrt_of_square example_uncalibrated
    [(0, example_vehicle (10, 0, 10, 10))] None (Some (1 # 30)) 0
  = Raise ValueError.
Proof.
  destruct (missing_calibration_raises sqrt_of_square
              (DistanceCalculator.mkCalc None None None)) as ((_ & _ & _ & Hup) & _).
  - reflexivity.
  - apply (Hup example_uncalibrated [(0, example_vehicle (10, 0, 10, 10))]
             None (Some (1 # 30)) 0%Q (1 # 30)).
    + reflexivity.
    + unfold speed_inv, example_uncalibrated. cbn.
      apply map_Forall_singleton. cbn. split; discriminate.
    + reflexivity.
    + exists 0. split; [apply list_elem_of_here|]. cbn. eauto.
Defined.

(** * Further properties *)

(** ** The tracker without detections, and on an empty table *)

Section TrackerEdges.
Import VehicleTracker.

Lemma age_all_missed (md : Z) (vs : dict Vehicle) :
  concat (map (age_or_keep ∅ md) vs) = missed 1 md vs.
Proof.
  unfold missed. induction vs as [|[k v] vs IH]; [reflexivity|].
  cbn [map concat]. rewrite filter_cons. unfold age_or_keep at 1. cbn [fst snd].
  rewrite decide_False by apply not_elem_of_empty.
  destruct (Z.gtb_spec (disappeared v + 1) md).
  - rewrite decide_False by lia. exact IH.
  - rewrite decide_True by lia. cbn [map app fst snd]. now rewrite IH.
Qed.

(** One call without a detection, on a tracker that satisfies the invariant. *)
Lemma update_no_detection_exact (self : t) (line : Z) :
  tracker_inv self ->
  exists self',
    update self [] line = Ok (self', vehicles self')
    /\ tracker_inv self'
    /\ vehicles self' = missed 1 (max_disappeared self) (vehicles self)
    /\ next_vehicle_id self' = next_vehicle_id self
    /\ max_disappeared self' = max_disappeared self
    /\ min_overlap_ratio self' = min_overlap_ratio self
    /\ crossed_vehicles self' = crossed_vehicles self.
Proof.
  intros Hinv. pose proof (tracker_inv_nodup self Hinv) as Hnd.
  destruct (age_loop_spec ∅ (vehicles self) [] self)
    as (s1 & Hage & Hv1 & Hn1 & Hmax1 & Hmin1 & Hcv1);
    [reflexivity|exact Hnd|intros k _; apply not_elem_of_nil|].
  cbn [app] in Hv1. rewrite age_all_missed in Hv1.
  assert (Heq : for_each mark_disappeared (dict_keys (vehicles self)) self = Ok s1).
  { rewrite <- Hage. apply for_each_ext. intros s0 x _.
    rewrite decide_False; [reflexivity|apply not_elem_of_empty]. }
  assert (Hup : update self [] line = Ok (s1, vehicles s1)).
  { unfold update. cbn [length Nat.eqb]. now rewrite Heq. }
  exists s1. split; [exact Hup|]. split; [|now repeat split].
  destruct (update_char self [] line _ Hinv Hup) as (_ & decided & Hout).
  now destruct (update_outcome_evolves self s1 [] line decided Hinv Hout).
Qed.

Lemma missed_active (n md : Z) (vs : dict Vehicle) :
  0 < n -> Forall (fun kv => 0 <= disappeared (snd kv)) vs ->
  filter (fun kv => disappeared (snd kv) = 0) (missed n md vs) = [].
Proof.
  intros Hn Hall. unfold missed.
  induction Hall as [|[k v] vs Hv Hall IH]; [reflexivity|].
  rewrite filter_cons. cbn [fst snd] in *.
  destruct (decide (disappeared v + n <= md)); [|exact IH].
  cbn [map fst snd]. rewrite filter_cons. cbn [snd disappeared set_disappeared].
  rewrite decide_False by lia. exact IH.
Qed.

Lemma missed_missed (n md : Z) (vs : dict Vehicle) :
  0 <= n -> missed n md (missed 1 md vs) = missed (n + 1) md vs.
Proof.
  intros Hn. unfold missed. induction vs as [|[k v] vs IH]; [reflexivity|].
  rewrite !filter_cons. cbn [fst snd].
  destruct (decide (disappeared v + 1 <= md)) as [H1|H1].
  - cbn [map fst snd]. rewrite filter_cons. cbn [snd disappeared set_disappeared].
    destruct (decide (disappeared v + 1 + n <= md)) as [H2|H2].
    + rewrite decide_True by lia. cbn [map fst snd]. rewrite IH.
      unfold set_disappeared. cbn. do 3 f_equal. lia.
    + rewrite decide_False by lia. exact IH.
  - rewrite decide_False by lia. exact IH.
Qed.

Lemma dict_get_missed (n md : Z) (vs : dict Vehicle) (id : Z) :
  dict_get id (missed n md vs)
  = match dict_get id vs with
    | Some v => if decide (disappeared v + n <= md)
                then Some (set_disappeared (disappeared v + n) v)
                else dict_get id (missed n md (dict_del id vs))
    | None => None
    end.
Proof.
  unfold missed. induction vs as [|[k v] vs IH]; [reflexivity|].
  rewrite filter_cons. cbn [fst snd dict_get dict_del].
  destruct (Z.eqb_spec id k) as [->|Hne].
  - destruct (decide (disappeared v + n <= md)); [|reflexivity].
    cbn [map fst snd dict_get]. now rewrite Z.eqb_refl.
  - destruct (decide (disappeared v + n <= md)).
    + cbn [map fst snd dict_get]. destruct (Z.eqb_spec id k); [contradiction|].
      rewrite IH. destruct (dict_get id vs) as [v0|]; [|reflexivity].
      destruct (decide _); [reflexivity|].
      rewrite filter_cons. cbn [fst snd]. rewrite decide_True by assumption.
      cbn [map fst snd dict_get]. now destruct (Z.eqb_spec id k).
    + rewrite IH. destruct (dict_get id vs) as [v0|]; [|reflexivity].
      destruct (decide _); [reflexivity|].
      rewrite filter_cons. cbn [fst snd]. now rewrite decide_False by assumption.
Qed.

Lemma keys_missed (n md : Z) (vs : dict Vehicle) (id : Z) :
  id ∈ dict_keys (missed n md vs) -> id ∈ dict_keys vs.
Proof.
  unfold missed, dict_keys. rewrite map_map. cbn [fst].
  intros H. apply list_elem_of_fmap in H as (kv & -> & Hin).
  apply list_elem_of_filter in Hin as [_ Hin]. apply list_elem_of_fmap. eauto.
Qed.

Lemma dict_del_keys (vs : dict Vehicle) (id k : Z) :
  k ∈ dict_keys (dict_del id vs) -> k ∈ dict_keys vs.
Proof.
  induction vs as [|[k0 v0] vs IH]; cbn; [easy|].
  destruct (Z.eqb_spec id k0).
  - apply list_elem_of_further.
  - cbn. intros H. apply elem_of_cons in H as [->|H].
    + apply list_elem_of_here.
    + apply list_elem_of_further. now apply IH.
Qed.

Lemma dict_del_nodup_notin (vs : dict Vehicle) (id : Z) :
  NoDup (dict_keys vs) -> id ∉ dict_keys (dict_del id vs).
Proof.
  induction vs as [|[k0 v0] vs IH]; cbn; intros Hnd; [apply not_elem_of_nil|].
  apply NoDup_cons in Hnd as [Hk Hnd].
  destruct (Z.eqb_spec id k0) as [->|Hne]; [exact Hk|].
  cbn. apply not_elem_of_cons. split; [exact Hne|now apply IH].
Qed.

(** A run of calls without a detection. *)
Lemma run_misses (lines : list Z) :
  forall (line : Z) (self : t),
    tracker_inv self ->
    exists self',
      run (map (Update []) (line :: lines)) self = Ok self'
      /\ tracker_inv self'
      /\ vehicles self'
         = missed (Z.of_nat (S (length lines))) (max_disappeared self) (vehicles self)
      /\ next_vehicle_id self' = next_vehicle_id self
      /\ max_disappeared self' = max_disappeared self
      /\ crossed_vehicles self' = crossed_vehicles self.
Proof.
  induction lines as [|l2 lines IH]; intros line self Hinv;
    destruct (update_no_detection_exact self line Hinv)
      as (s1 & Hup & Hinv1 & Hv1 & Hn1 & Hmax1 & _ & Hcv1).
  - exists s1. unfold run. cbn [map for_each step]. rewrite Hup. cbn [bind fst].
    split; [reflexivity|]. split; [exact Hinv1|]. split; [exact Hv1|].
    split; [exact Hn1|]. split; [exact Hmax1|exact Hcv1].
  - destruct (IH l2 s1 Hinv1) as (s2 & Hrun & Hinv2 & Hv2 & Hn2 & Hmax2 & Hcv2).
    exists s2. unfold run in *. cbn [map for_each step] in *. rewrite Hup.
    cbn [bind fst]. split; [exact Hrun|]. split; [exact Hinv2|].
    split.
    { rewrite Hv2, Hmax1, Hv1, missed_missed by lia. f_equal. cbn [length]. lia. }
    split; [congruence|]. split; congruence.
Qed.

End TrackerEdges.

(** X1.  A call of [update] without a detection, on a tracker reached from a
    fresh one, always returns.  Nothing is matched or registered: every
    object keeps its box and its flag, its count is raised by one, and it
    is deleted when the new count exceeds [max_disappeared].  The next id
    and the set of crossed ids are unchanged and no object is active
    afterwards. *)
Theorem update_without_detections (md : Z) (thr : Q) (ops : list VehicleTracker.op)
    (self : VehicleTracker.t) (line : Z) :
  VehicleTracker.run ops (VehicleTracker.__init__ md thr) = Ok self ->
  exists self',
    VehicleTracker.update self [] line = Ok (self', VehicleTracker.vehicles self')
    /\ VehicleTracker.vehicles self'
       = map (fun kv => (fst kv, aged_vehicle (snd kv)))
             (filter (fun kv => disappeared (snd kv) + 1
                                <= VehicleTracker.max_disappeared self)
                     (VehicleTracker.vehicles self))
    /\ VehicleTracker.next_vehicle_id self' = VehicleTracker.next_vehicle_id self
    /\ VehicleTracker.crossed_vehicles self' = VehicleTracker.crossed_vehicles self
    /\ VehicleTracker.get_active_vehicles self' = [].
Proof.
  intros Hrun. pose proof (reachable_inv md thr ops self Hrun) as Hinv.
  destruct (update_no_detection_exact self line Hinv)
    as (s1 & Hup & _ & Hv1 & Hn1 & _ & _ & Hcv1).
  exists s1. split; [exact Hup|]. split; [exact Hv1|]. split; [exact Hn1|].
  split; [exact Hcv1|].
  unfold VehicleTracker.get_active_vehicles. rewrite Hv1.
  apply missed_active; [lia|]. now destruct Hinv as (_ & _ & Hdis).
Qed.

Lemma update_without_detections_witness :
  exists self',
    VehicleTracker.update example_tracker1 [] 50
    = Ok (self', VehicleTracker.vehicles self')
    /\ VehicleTracker.get_active_vehicles self' = [].
Proof.
  destruct (update_without_detections 1 (3 # 10) example_ops1 example_tracker1 50
              example_run1) as (self' & Hup & _ & _ & _ & Hact).
  exists self'. split; [exact Hup|exact Hact].
Defined.

(** X2.  After [n >= 1] consecutive calls of [update] without a detection
    the table holds exactly the objects whose count plus [n] does not
    exceed [max_disappeared], each with its count raised by [n] and nothing
    else changed; the others are gone.  So an object that was just matched
    (count 0) survives [max_disappeared] missed frames and is deleted by
    the next one. *)
Theorem consecutive_misses (md : Z) (thr : Q) (ops : list VehicleTracker.op)
    (self : VehicleTracker.t) (line : Z) (lines : list Z) :
  VehicleTracker.run ops (VehicleTracker.__init__ md thr) = Ok self ->
  let n := Z.of_nat (S (length lines)) in
  exists self',
    VehicleTracker.run (map (VehicleTracker.Update []) (line :: lines)) self = Ok self'
    /\ VehicleTracker.vehicles self'
       = missed n (VehicleTracker.max_disappeared self) (VehicleTracker.vehicles self)
    /\ VehicleTracker.next_vehicle_id self' = VehicleTracker.next_vehicle_id self
    /\ VehicleTracker.crossed_vehicles self' = VehicleTracker.crossed_vehicles self
    /\ (forall id v,
          dict_get id (VehicleTracker.vehicles self) = Some v ->
          if decide (disappeared v + n <= VehicleTracker.max_disappeared self)
          then dict_get id (VehicleTracker.vehicles self')
               = Some (set_disappeared (disappeared v + n) v)
          else dict_get id (VehicleTracker.vehicles self') = None).
Proof.
  intros Hrun n. pose proof (reachable_inv md thr ops self Hrun) as Hinv.
  destruct (run_misses lines line self Hinv) as (s' & Hrun' & _ & Hv' & Hn' & _ & Hcv').
  exists s'. split; [exact Hrun'|]. split; [exact Hv'|]. split; [exact Hn'|].
  split; [exact Hcv'|].
  intros id v Hget. rewrite Hv', dict_get_missed, Hget. fold n.
  destruct (decide _); [reflexivity|].
  apply dict_get_notin. intros Hin. apply keys_missed in Hin.
  revert Hin. apply dict_del_nodup_notin. now apply tracker_inv_nodup.
Qed.

Lemma consecutive_misses_witness :
  exists self',
    VehicleTracker.run (map (VehicleTracker.Update []) [50; 50]) example_tracker1
    = Ok self'
    /\ VehicleTracker.vehicles self' = [].
Proof.
  destruct (consecutive_misses 1 (3 # 10) example_ops1 example_tracker1 50 [50]
              example_run1) as (self' & Hrun & Hv & _).
  exists self'. split; [exact Hrun|]. rewrite Hv. reflexivity.
Defined.

(** ** The active objects after a call of [update] *)

Section TrackerActive.
Import VehicleTracker.

Lemma registrations_active (line next : Z) (bs : list Box) :
  filter (fun kv => disappeared (snd kv) = 0) (registrations line next bs)
  = registrations line next bs.
Proof.
  unfold registrations. revert next.
  induction bs as [|b bs IH]; intros next; cbn [enumerate_from map]; [reflexivity|].
  rewrite filter_cons. cbn [fst snd]. rewrite decide_True by reflexivity.
  now rewrite IH.
Qed.

Lemma registrations_boxes (line next : Z) (bs : list Box) :
  map (fun kv => bbox (snd kv)) (registrations line next bs) = bs.
Proof.
  unfold registrations. revert next.
  induction bs as [|b bs IH]; intros next; cbn [enumerate_from map]; [reflexivity|].
  cbn [fst snd]. now rewrite IH.
Qed.

Lemma enumerate_from_nodup {A : Type} (i : Z) (xs : list A) :
  NoDup (map fst (enumerate_from i xs)).
Proof.
  revert i. induction xs as [|x xs IH]; intros i; cbn [enumerate_from map fst].
  - constructor.
  - apply NoDup_cons. split; [|apply IH].
    intros Hin. apply list_elem_of_fmap in Hin as ([j y] & E & Hin). cbn in E. subst j.
    apply enumerate_from_lower in Hin. lia.
Qed.

Lemma filter_unused_fresh (l : list (Z * Box)) (j : Z) (used : gset Z) :
  j ∉ map fst l ->
  filter (fun jb => fst jb ∉ ({[j]} ∪ used : gset Z)) l
  = filter (fun jb => fst jb ∉ used) l.
Proof.
  induction l as [|[j0 b0] l IH]; intros Hj; [reflexivity|].
  cbn in Hj. apply not_elem_of_cons in Hj as [Hne Hj].
  rewrite !filter_cons. cbn [fst]. rewrite (IH Hj).
  destruct (decide (j0 ∉ used)) as [Hu|Hu].
  - rewrite decide_True; [reflexivity|].
    intros Hin. apply elem_of_union in Hin as [Hin|Hin]; [|contradiction].
    apply elem_of_singleton in Hin. congruence.
  - rewrite decide_False; [reflexivity|].
    intros Hn. apply Hu. intros Hin. apply Hn. apply elem_of_union. now right.
Qed.

(** Claiming an unclaimed detection takes its box out of the unclaimed
    ones. *)
Lemma unclaimed_take (l : list (Z * Box)) (j : Z) (b : Box) (used : gset Z) :
  NoDup (map fst l) -> (j, b) ∈ l -> j ∉ used ->
  map snd (filter (fun jb => fst jb ∉ used) l)
  ≡ₚ b :: map snd (filter (fun jb => fst jb ∉ ({[j]} ∪ used : gset Z)) l).
Proof.
  induction l as [|[j0 b0] l IH]; intros Hnd Hin Hj.
  - now apply elem_of_nil in Hin.
  - cbn in Hnd. apply NoDup_cons in Hnd as [Hj0 Hnd].
    rewrite !filter_cons. cbn [fst].
    apply elem_of_cons in Hin as [[= -> ->]|Hin].
    + rewrite decide_True by assumption.
      rewrite decide_False.
      2:{ intros Hn. apply Hn. apply elem_of_union. left. now apply elem_of_singleton. }
      cbn [map snd]. now rewrite filter_unused_fresh.
    + assert (Hne : j0 <> j).
      { intros ->. apply Hj0. apply list_elem_of_fmap. now exists (j, b). }
      specialize (IH Hnd Hin Hj).
      destruct (decide (j0 ∉ used)) as [Hu|Hu].
      * rewrite decide_True.
        2:{ intros Hi. apply elem_of_union in Hi as [Hi|Hi]; [|contradiction].
            apply elem_of_singleton in Hi. contradiction. }
        cbn [map snd]. rewrite IH. apply Permutation_swap.
      * rewrite decide_False; [exact IH|].
        intros Hn. apply Hu. intros Hi. apply Hn. apply elem_of_union. now right.
Qed.

(** The accepted detections and the detections left unclaimed are, together,
    the detections that were unclaimed before. *)
Lemma greedy_claims_perm (thr : Q) (boxes : list Box)
    (decided : dict (Vehicle * option (Z * Box))) :
  forall used : gset Z,
    greedy_ok thr boxes used decided ->
    matched_boxes decided ++ unclaimed_boxes boxes (claimed_by used decided)
    ≡ₚ unclaimed_boxes boxes used.
Proof.
  induction decided as [|[id [v d]] decided IH]; intros used Hg.
  - reflexivity.
  - cbn [greedy_ok] in Hg. destruct Hg as [Hd Hg]. specialize (IH _ Hg).
    unfold matched_boxes in *. cbn [map concat snd claimed_by].
    destruct d as [[j b]|]; cbn [claim] in *.
    + destruct Hd as (Hsome & _). destruct (Hsome j b eq_refl) as [[Hin Hj] _].
      cbn [app]. rewrite IH. symmetry. unfold unclaimed_boxes.
      apply unclaimed_take; [apply enumerate_from_nodup|exact Hin|exact Hj].
    + exact IH.
Qed.

Lemma resolve_active (line md : Z) (decided : dict (Vehicle * option (Z * Box))) :
  Forall (fun e => 0 <= disappeared (fst (snd e))) decided ->
  map (fun kv => bbox (snd kv))
      (filter (fun kv => disappeared (snd kv) = 0)
              (concat (map (resolve line md) decided)))
  = matched_boxes decided.
Proof.
  unfold matched_boxes.
  induction 1 as [|[id [v d]] decided Hv Hall IH]; [reflexivity|].
  cbn [map concat]. rewrite filter_app, map_app, IH. f_equal.
  unfold resolve. cbn [fst snd] in *.
  destruct d as [[j b]|]; [|destruct (_ >? _)].
  - rewrite filter_cons. cbn. rewrite decide_True by reflexivity. reflexivity.
  - reflexivity.
  - rewrite filter_cons. cbn. rewrite decide_False by lia. reflexivity.
Qed.

Lemma decided_counts (decided : dict (Vehicle * option (Z * Box))) (l : dict Vehicle) :
  map (fun e => (fst e, fst (snd e))) decided = l ->
  Forall (fun kv => 0 <= disappeared (snd kv)) l ->
  Forall (fun e => 0 <= disappeared (fst (snd e))) decided.
Proof.
  intros <- Hall. rewrite Forall_fmap in Hall. exact Hall.
Qed.

(** The boxes of the active objects after a call, for any outcome. *)
Lemma outcome_active (self self' : t) (boxes : list Box) (line : Z)
    (decided : dict (Vehicle * option (Z * Box))) :
  tracker_inv self ->
  update_outcome self boxes line self' decided ->
  map (fun kv => bbox (snd kv)) (get_active_vehicles self') ≡ₚ boxes.
Proof.
  intros (_ & _ & Hdis) (Hmap & Hgreedy & Hv' & _).
  unfold get_active_vehicles. rewrite Hv', filter_app, map_app.
  rewrite resolve_active by (now apply (decided_counts decided (vehicles self))).
  rewrite registrations_active, registrations_boxes.
  rewrite (greedy_claims_perm _ _ _ _ Hgreedy). now rewrite unclaimed_boxes_empty.
Qed.

End TrackerActive.

(** X3.  A call of [update] on a tracker with an empty table always
    returns, whatever the boxes are: every detection is registered, in
    detection order, under the consecutive ids from the next id on, with
    count 0 and its flag set exactly when its bottom edge has reached the
    line; all of them are active. *)
Theorem update_on_empty_table (md : Z) (thr : Q) (ops : list VehicleTracker.op)
    (self : VehicleTracker.t) (boxes : list Box) (line : Z) :
  VehicleTracker.run ops (VehicleTracker.__init__ md thr) = Ok self ->
  VehicleTracker.vehicles self = [] ->
  exists self',
    VehicleTracker.update self boxes line = Ok (self', VehicleTracker.vehicles self')
    /\ VehicleTracker.vehicles self'
       = registrations line (VehicleTracker.next_vehicle_id self) boxes
    /\ VehicleTracker.next_vehicle_id self'
       = VehicleTracker.next_vehicle_id self + Z.of_nat (length boxes)
    /\ VehicleTracker.get_active_vehicles self' = VehicleTracker.vehicles self'.
Proof.
  intros Hrun Hempty. pose proof (reachable_inv md thr ops self Hrun) as Hinv.
  assert (H : exists self' decided,
             VehicleTracker.update self boxes line
             = Ok (self', VehicleTracker.vehicles self')
             /\ update_outcome self boxes line self' decided).
  { destruct boxes as [|b boxes]; [now apply update_no_detection|].
    now apply update_empty_table. }
  destruct H as (self' & decided & Hup & Hmap & _ & Hv' & Hn' & _).
  rewrite Hempty in Hmap. apply map_eq_nil in Hmap. subst decided.
  cbn [map concat claimed_by app] in Hv', Hn'. rewrite unclaimed_boxes_empty in Hv', Hn'.
  exists self'. split; [exact Hup|]. split; [exact Hv'|]. split; [exact Hn'|].
  unfold VehicleTracker.get_active_vehicles. rewrite Hv'. apply registrations_active.
Qed.

Lemma update_on_empty_table_witness :
  exists self',
    VehicleTracker.update (VehicleTracker.__init__ 10 (3 # 10)) [(0, 0, 0, 0)] 50
    = Ok (self', VehicleTracker.vehicles self')
    /\ VehicleTracker.vehicles self' = registrations 50 0 [(0, 0, 0, 0)].
Proof.
  destruct (update_on_empty_table 10 (3 # 10) [] (VehicleTracker.__init__ 10 (3 # 10))
              [(0, 0, 0, 0)] 50 eq_refl eq_refl) as (self' & Hup & Hv & _).
  exists self'. split; [exact Hup|exact Hv].
Defined.

(** X4.  After every call of [update] that returns, on a tracker reached
    from a fresh one, the active objects (count 0) carry exactly the
    detections of the call: their boxes are a permutation of
    [bounding_boxes], so every detection belongs to exactly one active
    object and there are as many active objects as detections. *)
Theorem active_vehicles_are_detections (md : Z) (thr : Q)
    (ops : list VehicleTracker.op) (self self' : VehicleTracker.t)
    (boxes : list Box) (line : Z) (ret : dict Vehicle) :
  VehicleTracker.run ops (VehicleTracker.__init__ md thr) = Ok self ->
  VehicleTracker.update self boxes line = Ok (self', ret) ->
  map (fun kv => bbox (snd kv)) (VehicleTracker.get_active_vehicles self') ≡ₚ boxes
  /\ length (VehicleTracker.get_active_vehicles self') = length boxes.
Proof.
  intros Hrun Hup. pose proof (reachable_inv md thr ops self Hrun) as Hinv.
  destruct (update_char self boxes line (self', ret) Hinv Hup) as (_ & decided & Hout).
  cbn [fst] in Hout.
  pose proof (outcome_active self self' boxes line decided Hinv Hout) as Hperm.
  split; [exact Hperm|].
  apply Permutation_length in Hperm. now rewrite length_map in Hperm.
Qed.

Lemma active_vehicles_are_detections_witness :
  map (fun kv => bbox (snd kv)) (VehicleTracker.get_active_vehicles example_tracker_mid)
  ≡ₚ example_boxes.
Proof.
  apply (active_vehicles_are_detections 1 (3 # 10) example_ops1 example_tracker1
           example_tracker_mid example_boxes 50 _ example_run1 example_update_mid).
Defined.

(** ** The set of crossed ids *)

Section DictAccess.
Context {V : Type}.
Implicit Types (d : dict V) (k : Z) (v : V).

Lemma dict_get_set_eq k v d : dict_get k (dict_set k v d) = Some v.
Proof.
  induction d as [|[k0 v0] d IH]; cbn.
  - now rewrite Z.eqb_refl.
  - destruct (Z.eqb_spec k k0) as [->|Hne]; cbn.
    + now rewrite Z.eqb_refl.
    + destruct (Z.eqb_spec k k0); [contradiction|exact IH].
Qed.

Lemma dict_get_set_ne k k' v d :
  k' <> k -> dict_get k' (dict_set k v d) = dict_get k' d.
Proof.
  intros Hne. induction d as [|[k0 v0] d IH]; cbn.
  - now destruct (Z.eqb_spec k' k).
  - destruct (Z.eqb_spec k k0) as [->|Hne0]; cbn.
    + now destruct (Z.eqb_spec k' k0).
    + destruct (Z.eqb_spec k' k0); [reflexivity|exact IH].
Qed.

Lemma dict_get_del_ne k k' d :
  k' <> k -> dict_get k' (dict_del k d) = dict_get k' d.
Proof.
  intros Hne. induction d as [|[k0 v0] d IH]; cbn; [reflexivity|].
  destruct (Z.eqb_spec k k0) as [->|Hne0]; cbn.
  - now destruct (Z.eqb_spec k' k0).
  - destruct (Z.eqb_spec k' k0); [reflexivity|exact IH].
Qed.

Lemma elem_of_dict_set k v d (x : Z * V) :
  x ∈ dict_set k v d -> x ∈ d \/ x = (k, v).
Proof.
  induction d as [|[k0 v0] d IH]; cbn.
  - intros H. apply list_elem_of_singleton in H. now right.
  - destruct (Z.eqb_spec k k0) as [->|Hne]; intros H;
      apply elem_of_cons in H as [->|H].
    + now right.
    + left. now apply list_elem_of_further.
    + left. apply list_elem_of_here.
    + destruct (IH H) as [H'|H']; [left; now apply list_elem_of_further|now right].
Qed.

Lemma elem_of_dict_del k d (x : Z * V) : x ∈ dict_del k d -> x ∈ d.
Proof.
  induction d as [|[k0 v0] d IH]; cbn; [easy|].
  destruct (Z.eqb_spec k k0) as [->|Hne]; intros H.
  - now apply list_elem_of_further.
  - apply elem_of_cons in H as [->|H]; [apply list_elem_of_here|].
    apply list_elem_of_further. now apply IH.
Qed.

Lemma dict_keys_set_subset k v d k' :
  k' ∈ dict_keys (dict_set k v d) -> k' ∈ dict_keys d \/ k' = k.
Proof.
  unfold dict_keys. intros H. apply list_elem_of_fmap in H as ([k1 v1] & -> & H).
  apply elem_of_dict_set in H as [H|[= -> ->]]; [left|now right].
  apply list_elem_of_fmap. now exists (k1, v1).
Qed.

Lemma dict_keys_del_subset k d k' :
  k' ∈ dict_keys (dict_del k d) -> k' ∈ dict_keys d.
Proof.
  unfold dict_keys. intros H. apply list_elem_of_fmap in H as (x & -> & H).
  apply elem_of_dict_del in H. apply list_elem_of_fmap. now exists x.
Qed.

Lemma dict_get_some_key k v d : dict_get k d = Some v -> k ∈ dict_keys d.
Proof. intros H. apply (elem_of_dict_keys k v). now apply dict_get_elem_of. Qed.

End DictAccess.

Lemma elem_of_crossed_ids (vs : dict Vehicle) (id : Z) :
  id ∈ crossed_ids vs <-> exists v, (id, v) ∈ vs /\ crossed_line v = true.
Proof.
  unfold crossed_ids. rewrite elem_of_list_to_set, list_elem_of_fmap. split.
  - intros ([k v] & -> & H). apply list_elem_of_filter in H as [Hc H]. now exists v.
  - intros (v & H & Hc). exists (id, v). split; [reflexivity|].
    now apply list_elem_of_filter.
Qed.

Section Crossed.
Import VehicleTracker.

(** What the steps of the tracker do to the table and to the crossed ids. *)
Lemma modify_vehicle_ok (self self' : t) (id : Z) (f : Vehicle -> Vehicle) :
  modify_vehicle id f self = Ok self' ->
  exists v, dict_get id (vehicles self) = Some v
            /\ self' = set_vehicles (dict_set id (f v) (vehicles self)) self.
Proof.
  unfold modify_vehicle, dict_getitem. intros H.
  destruct (dict_get id (vehicles self)) as [v|]; [|discriminate].
  cbn [bind] in H. injection H as <-. now exists v.
Qed.

Lemma check_line_crossing_ok (self self' : t) (id : Z) (b : Box) (line : Z) :
  _check_line_crossing self id b line = Ok self' ->
  self' = self
  \/ exists v, dict_get id (vehicles self) = Some v
               /\ crossed_line v = false
               /\ self' = mkTracker (next_vehicle_id self)
                            (dict_set id (set_crossed_line true v) (vehicles self))
                            (max_disappeared self) (min_overlap_ratio self)
                            ({[id]} ∪ crossed_vehicles self).
Proof.
  unfold _check_line_crossing. destruct b as [[[x y] w] h].
  destruct (y + h >=? line); [|intros [= <-]; now left].
  unfold dict_getitem at 1.
  destruct (dict_get id (vehicles self)) as [v|] eqn:Hget; [|discriminate].
  cbn [bind]. destruct (crossed_line v) eqn:Hc; cbn [negb]; [intros [= <-]; now left|].
  intros H. apply bind_ok in H as (s1 & Hmod & [= <-]).
  apply modify_vehicle_ok in Hmod as (v' & Hget' & ->).
  rewrite Hget in Hget'. injection Hget' as <-.
  right. exists v. now repeat split.
Qed.

(** The invariants of a step that rewrites the record of [id] with a
    function that keeps the flag. *)
Lemma modify_flags_recorded (self self' : t) (id : Z) (f : Vehicle -> Vehicle) :
  (forall v, crossed_line (f v) = crossed_line v) ->
  modify_vehicle id f self = Ok self' ->
  flags_recorded self -> flags_recorded self'.
Proof.
  intros Hf Hmod Hrec. apply modify_vehicle_ok in Hmod as (v & Hget & ->).
  intros k x Hin Hc. cbn in Hin |- *.
  apply elem_of_dict_set in Hin as [Hin|[= -> ->]]; [now apply (Hrec k x)|].
  rewrite Hf in Hc. apply (Hrec id v); [now apply dict_get_elem_of|exact Hc].
Qed.

Lemma check_flags_recorded (self self' : t) (id : Z) (b : Box) (line : Z) :
  _check_line_crossing self id b line = Ok self' ->
  flags_recorded self -> flags_recorded self'.
Proof.
  intros Hc Hrec. apply check_line_crossing_ok in Hc as [->|(v & Hget & Hf & ->)];
    [exact Hrec|].
  intros k x Hin Hx. cbn in Hin |- *. apply elem_of_union.
  apply elem_of_dict_set in Hin as [Hin|[= -> ->]].
  - right. now apply (Hrec k x).
  - left. now apply elem_of_singleton.
Qed.

Lemma register_flags_recorded (self self' : t) (b : Box) (line : Z) :
  register self b line = Ok self' -> flags_recorded self -> flags_recorded self'.
Proof.
  unfold register. intros H Hrec. apply bind_ok in H as (s2 & Hc & [= <-]).
  apply check_flags_recorded in Hc.
  - intros k x Hin Hx. now apply (Hc k x).
  - intros k x Hin Hx. cbn in Hin |- *.
    apply elem_of_dict_set in Hin as [Hin|[= -> ->]]; [now apply (Hrec k x)|].
    discriminate.
Qed.

Lemma mark_disappeared_ok (self self' : t) (id : Z) :
  mark_disappeared self id = Ok self' ->
  exists v, dict_get id (vehicles self) = Some v
            /\ (self' = set_vehicles (dict_set id (aged_vehicle v) (vehicles self)) self
                \/ self' = set_vehicles
                             (dict_del id (dict_set id (aged_vehicle v) (vehicles self)))
                             self).
Proof.
  unfold mark_disappeared. intros H. apply bind_ok in H as (s1 & Hmod & H).
  apply modify_vehicle_ok in Hmod as (v & Hget & ->). exists v. split; [exact Hget|].
  apply bind_ok in H as (v1 & _ & H).
  destruct (_ >? _).
  - apply bind_ok in H as (_ & _ & [= <-]). now right.
  - injection H as <-. now left.
Qed.

Lemma mark_flags_recorded (self self' : t) (id : Z) :
  mark_disappeared self id = Ok self' -> flags_recorded self -> flags_recorded self'.
Proof.
  intros H Hrec. apply mark_disappeared_ok in H as (v & Hget & [->| ->]);
    intros k x Hin Hx; cbn in Hin |- *.
  - apply elem_of_dict_set in Hin as [Hin|[= -> ->]]; [now apply (Hrec k x)|].
    apply (Hrec id v); [now apply dict_get_elem_of|exact Hx].
  - apply elem_of_dict_del in Hin.
    apply elem_of_dict_set in Hin as [Hin|[= -> ->]]; [now apply (Hrec k x)|].
    apply (Hrec id v); [now apply dict_get_elem_of|exact Hx].
Qed.

Lemma crossed_new_weaken (C0 : gset Z) (U U' : Z -> Prop) (self : t) :
  (forall id, U id -> U' id) -> crossed_new C0 U self -> crossed_new C0 U' self.
Proof.
  intros HU H id Hin. destruct (H id Hin) as [?|(Hu & Hv)]; [now left|right].
  split; [now apply HU|exact Hv].
Qed.

Lemma modify_crossed_new (C0 : gset Z) (U : Z -> Prop) (self self' : t) (id : Z)
    (f : Vehicle -> Vehicle) :
  (forall v, crossed_line (f v) = crossed_line v) ->
  modify_vehicle id f self = Ok self' ->
  crossed_new C0 U self -> crossed_new C0 U self'.
Proof.
  intros Hf Hmod H. apply modify_vehicle_ok in Hmod as (v & Hget & ->).
  intros k Hin. cbn in Hin |- *.
  destruct (H k Hin) as [?|(Hu & x & Hx & Hc)]; [now left|right].
  split; [exact Hu|]. destruct (Z.eq_dec k id) as [->|Hne].
  - rewrite dict_get_set_eq. exists (f v). split; [reflexivity|].
    rewrite Hf. congruence.
  - rewrite dict_get_set_ne by assumption. now exists x.
Qed.

Lemma check_crossed_new (C0 : gset Z) (U : Z -> Prop) (self self' : t) (id : Z)
    (b : Box) (line : Z) :
  _check_line_crossing self id b line = Ok self' ->
  U id -> crossed_new C0 U self -> crossed_new C0 U self'.
Proof.
  intros Hc Hu H. apply check_line_crossing_ok in Hc as [->|(v & Hget & Hf & ->)];
    [exact H|].
  intros k Hin. cbn in Hin |- *.
  destruct (Z.eq_dec k id) as [->|Hne].
  - right. split; [exact Hu|]. rewrite dict_get_set_eq. now eexists.
  - apply elem_of_union in Hin as [Hin|Hin].
    { apply elem_of_singleton in Hin. contradiction. }
    destruct (H k Hin) as [?|(Hu' & x & Hx & Hcx)]; [now left|right].
    split; [exact Hu'|]. rewrite dict_get_set_ne by assumption. now exists x.
Qed.

Lemma mark_crossed_new (C0 : gset Z) (U : Z -> Prop) (self self' : t) (id : Z) :
  mark_disappeared self id = Ok self' ->
  ~ U id -> crossed_new C0 U self -> crossed_new C0 U self'.
Proof.
  intros Hm Hu H. apply mark_disappeared_ok in Hm as (v & Hget & Hs').
  intros k Hin.
  assert (Hin0 : k ∈ crossed_vehicles self) by (destruct Hs' as [->| ->]; exact Hin).
  destruct (H k Hin0) as [?|(Hu' & x & Hx & Hcx)]; [now left|right].
  split; [exact Hu'|]. exists x. split; [|exact Hcx].
  assert (Hne : k <> id) by (intros ->; contradiction).
  destruct Hs' as [->| ->]; cbn.
  - now rewrite dict_get_set_ne.
  - now rewrite dict_get_del_ne, dict_get_set_ne.
Qed.

Lemma register_crossed_new (C0 : gset Z) (self self' : t) (b : Box) (line : Z) :
  register self b line = Ok self' ->
  keys_below self ->
  crossed_new C0 (fun _ => True) self ->
  crossed_new C0 (fun _ => True) self' /\ keys_below self'.
Proof.
  unfold register. intros H Hbelow Hnew. apply bind_ok in H as (s2 & Hc & [= <-]).
  set (s1 := set_vehicles _ self) in Hc.
  assert (Hfresh : next_vehicle_id self ∉ dict_keys (vehicles self)).
  { intros Hin. unfold keys_below in Hbelow. rewrite Forall_forall in Hbelow.
    specialize (Hbelow _ Hin). lia. }
  assert (Hnew1 : crossed_new C0 (fun _ => True) s1).
  { intros k Hin. destruct (Hnew k Hin) as [?|(_ & x & Hx & Hcx)]; [now left|right].
    split; [exact I|]. exists x. split; [|exact Hcx]. subst s1. cbn.
    rewrite dict_get_set_ne; [exact Hx|].
    intros ->. apply Hfresh. now apply (dict_get_some_key _ x). }
  assert (Hbelow1 : Forall (fun k => k < next_vehicle_id self + 1)
                           (dict_keys (vehicles s1))).
  { apply Forall_forall. intros k Hin. subst s1. cbn in Hin.
    apply dict_keys_set_subset in Hin as [Hin| ->]; [|lia].
    unfold keys_below in Hbelow. rewrite Forall_forall in Hbelow.
    specialize (Hbelow _ Hin). lia. }
  split.
  - pose proof (check_crossed_new C0 _ s1 s2 _ b line Hc I Hnew1) as Hnew2.
    intros k Hin. exact (Hnew2 k Hin).
  - unfold keys_below. cbn [next_vehicle_id vehicles].
    apply check_line_crossing_ok in Hc as [->|(v & Hget & Hf & ->)].
    + exact Hbelow1.
    + cbn [next_vehicle_id vehicles]. apply Forall_forall. intros k Hin.
      apply dict_keys_set_subset in Hin as [Hin| ->].
      * rewrite Forall_forall in Hbelow1. now apply Hbelow1.
      * apply dict_get_some_key in Hget. rewrite Forall_forall in Hbelow1.
        now apply Hbelow1.
Qed.

Lemma modify_keys_below (self self' : t) (id : Z) (f : Vehicle -> Vehicle) :
  modify_vehicle id f self = Ok self' -> keys_below self -> keys_below self'.
Proof.
  intros Hmod Hb. apply modify_vehicle_ok in Hmod as (v & Hget & ->).
  unfold keys_below in *. cbn. apply Forall_forall. intros k Hin.
  rewrite Forall_forall in Hb.
  apply dict_keys_set_subset in Hin as [Hin| ->]; [now apply Hb|].
  apply Hb. now apply (dict_get_some_key _ v).
Qed.

Lemma check_keys_below (self self' : t) (id : Z) (b : Box) (line : Z) :
  _check_line_crossing self id b line = Ok self' -> keys_below self -> keys_below self'.
Proof.
  intros Hc Hb. apply check_line_crossing_ok in Hc as [->|(v & Hget & Hf & ->)];
    [exact Hb|].
  unfold keys_below in *. cbn. apply Forall_forall. intros k Hin.
  rewrite Forall_forall in Hb.
  apply dict_keys_set_subset in Hin as [Hin| ->]; [now apply Hb|].
  apply Hb. now apply (dict_get_some_key _ v).
Qed.

Lemma mark_keys_below (self self' : t) (id : Z) :
  mark_disappeared self id = Ok self' -> keys_below self -> keys_below self'.
Proof.
  intros Hm Hb. apply mark_disappeared_ok in Hm as (v & Hget & Hs').
  unfold keys_below in *. rewrite Forall_forall in Hb. apply Forall_forall.
  intros k Hin.
  assert (Hk : k ∈ dict_keys (dict_set id (aged_vehicle v) (vehicles self))).
  { destruct Hs' as [->| ->]; cbn in Hin; [exact Hin|].
    now apply dict_keys_del_subset in Hin. }
  assert (Hn : next_vehicle_id self' = next_vehicle_id self)
    by (destruct Hs' as [->| ->]; reflexivity).
  rewrite Hn. apply dict_keys_set_subset in Hk as [Hk| ->]; [now apply Hb|].
  apply Hb. now apply (dict_get_some_key _ v).
Qed.

(** One iteration of the matching loop, step by step. *)
Lemma match_step_ok (boxes : list Box) (line : Z) (s s' : MatchState) (id : Z)
    (vb : Box) :
  match_step boxes line s (id, vb) = Ok s' ->
  s' = s
  \/ exists j b s1 s2 s3,
       modify_vehicle id (set_bbox b) (ms_tracker s) = Ok s1
       /\ modify_vehicle id (set_disappeared 0) s1 = Ok s2
       /\ _check_line_crossing s2 id b line = Ok s3
       /\ s' = mkMatch s3 ({[id]} ∪ used_vehicles s) ({[j]} ∪ used_bboxes s).
Proof.
  unfold match_step. intros H. apply bind_ok in H as (best & _ & H).
  destruct (negb (snd best =? -1)); [|injection H as <-; now left].
  apply bind_ok in H as (b & Hb & H). apply bind_ok in H as (s1 & H1 & H).
  apply bind_ok in H as (s2 & H2 & H). apply bind_ok in H as (b' & Hb' & H).
  apply bind_ok in H as (s3 & H3 & [= <-]).
  rewrite Hb in Hb'. injection Hb' as <-.
  right. exists (snd best), b, s1, s2, s3. now repeat split.
Qed.

Lemma match_step_invariants (C0 : gset Z) (boxes : list Box) (line : Z)
    (s s' : MatchState) (id : Z) (vb : Box) :
  match_step boxes line s (id, vb) = Ok s' ->
  flags_recorded (ms_tracker s)
  /\ crossed_new C0 (fun k => k ∈ used_vehicles s) (ms_tracker s)
  /\ keys_below (ms_tracker s) ->
  flags_recorded (ms_tracker s')
  /\ crossed_new C0 (fun k => k ∈ used_vehicles s') (ms_tracker s')
  /\ keys_below (ms_tracker s').
Proof.
  intros H (Hrec & Hnew & Hbelow).
  apply match_step_ok in H as [->|(j & b & s1 & s2 & s3 & H1 & H2 & H3 & ->)];
    [now repeat split|].
  cbn [ms_tracker used_vehicles]. split; [|split].
  - eapply check_flags_recorded; [exact H3|].
    eapply modify_flags_recorded; [|exact H2|]; [reflexivity|].
    eapply modify_flags_recorded; [|exact H1|]; [reflexivity|exact Hrec].
  - eapply check_crossed_new; [exact H3| |].
    { apply elem_of_union. left. now apply elem_of_singleton. }
    eapply modify_crossed_new; [|exact H2|]; [reflexivity|].
    eapply modify_crossed_new; [|exact H1|]; [reflexivity|].
    eapply crossed_new_weaken; [|exact Hnew].
    intros k Hk. apply elem_of_union. now right.
  - eapply check_keys_below; [exact H3|].
    eapply modify_keys_below; [exact H2|].
    eapply modify_keys_below; [exact H1|exact Hbelow].
Qed.

(** One call of [update]: the flags stay recorded, and every id that
    enters the set of crossed ids is in the new table with its flag set. *)
Lemma update_crossed (self : t) (boxes : list Box) (line : Z) (r : t * dict Vehicle) :
  keys_below self -> flags_recorded self ->
  update self boxes line = Ok r ->
  flags_recorded (fst r)
  /\ crossed_new (crossed_vehicles self) (fun _ => True) (fst r).
Proof.
  intros Hbelow Hrec Hup.
  assert (Hnew0 : forall U, crossed_new (crossed_vehicles self) U self)
    by (intros U k Hin; now left).
  assert (Hreg : forall (A : Type) (g : A -> option Box) (xs : list A) (s0 s' : t),
             for_each (fun s x => match g x with
                                  | Some b => register s b line
                                  | None => Ok s
                                  end) xs s0 = Ok s' ->
             flags_recorded s0
             /\ crossed_new (crossed_vehicles self) (fun _ => True) s0
             /\ keys_below s0 ->
             flags_recorded s'
             /\ crossed_new (crossed_vehicles self) (fun _ => True) s'
             /\ keys_below s').
  { intros A g xs s0 s' Hloop H0.
    refine (for_each_invariant
              (fun s => flags_recorded s
                        /\ crossed_new (crossed_vehicles self) (fun _ => True) s
                        /\ keys_below s)
              _ _ s0 s' _ H0 Hloop).
    intros sa x sb _ (Hra & Hna & Hba) Hbody. destruct (g x) as [b|].
    - split; [now apply (register_flags_recorded sa sb b line)|].
      now apply (register_crossed_new _ sa sb b line).
    - injection Hbody as <-. now repeat split. }
  unfold update in Hup. destruct (Nat.eqb (length boxes) 0).
  { apply bind_ok in Hup as (s' & Hloop & [= <-]). cbn [fst].
    assert (H : flags_recorded s' /\ crossed_vehicles s' = crossed_vehicles self).
    { refine (for_each_invariant
                (fun s => flags_recorded s
                          /\ crossed_vehicles s = crossed_vehicles self)
                _ _ self s' _ _ Hloop); [|now split].
      intros s0 id s1 _ [Hr0 Hc0] Hbody.
      split; [now apply (mark_flags_recorded s0 s1 id)|].
      apply mark_disappeared_ok in Hbody as (v & Hget & [->| ->]); exact Hc0. }
    destruct H as [Hr' Hc']. split; [exact Hr'|].
    intros k Hin. left. now rewrite <- Hc'. }
  destruct (Nat.eqb (length (vehicles self)) 0).
  { apply bind_ok in Hup as (s' & Hloop & [= <-]). cbn [fst].
    destruct (Hreg Box Some boxes self s') as (Hr' & Hn' & _);
      [exact Hloop|now repeat split|]. now split. }
  apply bind_ok in Hup as (bbs & _ & Hup).
  apply bind_ok in Hup as (ms & Hmatch & Hup).
  apply bind_ok in Hup as (s1 & Hage & Hup).
  apply bind_ok in Hup as (s2 & Hregs & [= <-]). cbn [fst].
  assert (Hms : flags_recorded (ms_tracker ms)
                /\ crossed_new (crossed_vehicles self)
                     (fun k => k ∈ used_vehicles ms) (ms_tracker ms)
                /\ keys_below (ms_tracker ms)).
  { refine (for_each_invariant
              (fun s => flags_recorded (ms_tracker s)
                        /\ crossed_new (crossed_vehicles self)
                             (fun k => k ∈ used_vehicles s) (ms_tracker s)
                        /\ keys_below (ms_tracker s))
              _ _ _ ms _ _ Hmatch); [|split; [exact Hrec|split; [apply Hnew0|exact Hbelow]]].
    intros sa iv sb _ Ha Hbody. apply bind_ok in Hbody as (vb & _ & Hstep).
    now apply (match_step_invariants _ boxes line sa sb (snd iv) vb). }
  assert (Hs1 : flags_recorded s1
                /\ crossed_new (crossed_vehicles self)
                     (fun k => k ∈ used_vehicles ms) s1
                /\ keys_below s1).
  { refine (for_each_invariant
              (fun s => flags_recorded s
                        /\ crossed_new (crossed_vehicles self)
                             (fun k => k ∈ used_vehicles ms) s
                        /\ keys_below s)
              _ _ _ s1 _ Hms Hage).
    intros sa id sb _ (Hra & Hna & Hba) Hbody.
    destruct (decide (id ∈ used_vehicles ms)) as [Hu|Hu].
    - injection Hbody as <-. now repeat split.
    - split; [now apply (mark_flags_recorded sa sb id)|].
      split; [now apply (mark_crossed_new _ _ sa sb id)|].
      now apply (mark_keys_below sa sb id). }
  destruct (Hreg (Z * Box)%type
              (fun ib => if decide (fst ib ∈ used_bboxes ms)
                         then @None Box else Some (snd ib))
              (enumerate boxes) s1 s2) as (Hr' & Hn' & _).
  - rewrite <- Hregs. apply for_each_ext. intros s0 x _.
    now destruct (decide (fst x ∈ used_bboxes ms)).
  - destruct Hs1 as (Hr1 & Hn1 & Hb1). split; [exact Hr1|]. split; [|exact Hb1].
    eapply crossed_new_weaken; [|exact Hn1]. easy.
  - now split.
Qed.

End Crossed.

Section CrossedRuns.
Import VehicleTracker.

Lemma tracker_inv_below (self : t) : tracker_inv self -> keys_below self.
Proof. now intros (_ & Hb & _). Qed.

Lemma crossed_new_exact (self self' : t) :
  crossed_vehicles self ⊆ crossed_vehicles self' ->
  flags_recorded self' ->
  crossed_new (crossed_vehicles self) (fun _ => True) self' ->
  crossed_vehicles self' = crossed_vehicles self ∪ crossed_ids (vehicles self').
Proof.
  intros Hsub Hrec Hnew. apply set_eq. intros id. rewrite elem_of_union. split.
  - intros Hin. destruct (Hnew id Hin) as [?|(_ & v & Hget & Hc)]; [now left|right].
    apply elem_of_crossed_ids. exists v. split; [|exact Hc]. now apply dict_get_elem_of.
  - intros [Hin|Hin]; [now apply Hsub|].
    apply elem_of_crossed_ids in Hin as (v & Hin & Hc). now apply (Hrec id v).
Qed.

Lemma step_crossed (self self' : t) (o : op) :
  tracker_inv self -> flags_recorded self -> step self o = Ok self' ->
  flags_recorded self'
  /\ crossed_new (crossed_vehicles self) (fun _ => True) self'.
Proof.
  intros Hinv Hrec Hstep. destruct o as [boxes line|b line]; cbn [step] in Hstep.
  - apply bind_ok in Hstep as (r & Hup & [= <-]).
    now apply (update_crossed self boxes line r (tracker_inv_below self Hinv)).
  - split; [now apply (register_flags_recorded self self' b line)|].
    apply (register_crossed_new _ self self' b line Hstep (tracker_inv_below self Hinv)).
    intros k Hin. now left.
Qed.

Lemma crossed_inv_step (self self' : t) (o : op) :
  tracker_inv self -> crossed_inv self -> step self o = Ok self' -> crossed_inv self'.
Proof.
  intros Hinv (Hrec & Hbound & Hkeys & Hnext) Hstep.
  destruct (step_crossed self self' o Hinv Hrec Hstep) as [Hrec' Hnew'].
  destruct (step_evolves self self' o Hinv Hstep)
    as ((_ & Hbelow' & _) & _ & _ & Hn & _ & Hfresh & _).
  assert (Hkeys' : Forall (fun k => 0 <= k) (dict_keys (vehicles self'))).
  { apply Forall_forall. intros k Hin.
    destruct (decide (k ∈ dict_keys (vehicles self))) as [Hold|Hnew].
    - rewrite Forall_forall in Hkeys. now apply Hkeys.
    - specialize (Hfresh k Hin Hnew). lia. }
  split; [exact Hrec'|]. split; [|split; [exact Hkeys'|lia]].
  intros id Hin. destruct (Hnew' id Hin) as [Hold|(_ & v & Hget & _)].
  - specialize (Hbound id Hold). lia.
  - apply dict_get_some_key in Hget.
    rewrite Forall_forall in Hkeys', Hbelow'.
    specialize (Hkeys' id Hget). specialize (Hbelow' id Hget). lia.
Qed.

Lemma run_crossed_inv (ops : list op) (self self' : t) :
  tracker_inv self -> crossed_inv self -> run ops self = Ok self' -> crossed_inv self'.
Proof.
  revert self. induction ops as [|o ops IH]; intros self Hinv Hc Hrun.
  - cbn in Hrun. now injection Hrun as <-.
  - unfold run in Hrun. cbn [for_each] in Hrun.
    apply bind_ok in Hrun as (s1 & Hstep & Hrun).
    apply (IH s1); [|now apply (crossed_inv_step self s1 o)|exact Hrun].
    now destruct (step_evolves self s1 o Hinv Hstep).
Qed.

Lemma reachable_crossed_inv (md : Z) (thr : Q) (ops : list op) (self : t) :
  run ops (__init__ md thr) = Ok self -> crossed_inv self.
Proof.
  intros Hrun. apply (run_crossed_inv ops _ self (init_inv md thr)); [|exact Hrun].
  split; [|split; [|split]]; cbn.
  - intros id v Hin. now apply elem_of_nil in Hin.
  - intros id Hin. now apply elem_of_empty in Hin.
  - constructor.
  - lia.
Qed.

Lemma size_bounded (X : gset Z) (n : Z) :
  0 <= n -> (forall id, id ∈ X -> 0 <= id < n) -> Z.of_nat (size X) <= n.
Proof.
  intros Hn HX.
  assert (Hsub : X ⊆ list_to_set (seqZ 0 n)).
  { intros id Hin. apply elem_of_list_to_set, elem_of_seqZ. specialize (HX id Hin). lia. }
  apply subseteq_size in Hsub.
  rewrite size_list_to_set in Hsub by apply NoDup_seqZ.
  rewrite length_seqZ in Hsub. lia.
Qed.

End CrossedRuns.

(** X5.  In every tracker reached from a fresh one, the set of crossed ids
    holds the id of every object of the table whose flag is set, holds only
    ids that were assigned, and so [get_crossed_count] never exceeds the
    number of ids assigned.  A call of [update] adds to the set exactly the
    ids of the objects of the new table whose flag is set: an object enters
    the set in the call that sets its flag and stays in it after the object
    is deleted. *)
Theorem crossed_set_records_every_flag (md : Z) (thr : Q)
    (ops : list VehicleTracker.op) (self : VehicleTracker.t) :
  VehicleTracker.run ops (VehicleTracker.__init__ md thr) = Ok self ->
  crossed_ids (VehicleTracker.vehicles self) ⊆ VehicleTracker.crossed_vehicles self
  /\ (forall id, id ∈ VehicleTracker.crossed_vehicles self ->
        0 <= id < VehicleTracker.next_vehicle_id self)
  /\ Z.of_nat (VehicleTracker.get_crossed_count self)
     <= VehicleTracker.next_vehicle_id self
  /\ (forall boxes line self' ret,
        VehicleTracker.update self boxes line = Ok (self', ret) ->
        VehicleTracker.crossed_vehicles self'
        = VehicleTracker.crossed_vehicles self
          ∪ crossed_ids (VehicleTracker.vehicles self')).
Proof.
  intros Hrun. pose proof (reachable_inv md thr ops self Hrun) as Hinv.
  destruct (reachable_crossed_inv md thr ops self Hrun) as (Hrec & Hbound & _ & Hnext).
  split; [|split; [exact Hbound|split]].
  - intros id Hin. apply elem_of_crossed_ids in Hin as (v & Hin & Hc).
    now apply (Hrec id v).
  - now apply size_bounded.
  - intros boxes line self' ret Hup.
    destruct (update_crossed self boxes line _ (tracker_inv_below self Hinv) Hrec Hup)
      as [Hrec' Hnew'].
    destruct (update_char self boxes line _ Hinv Hup) as (_ & decided & Hout).
    cbn [fst] in *. apply crossed_new_exact; [|exact Hrec'|exact Hnew'].
    now destruct Hout as (_ & _ & _ & _ & _ & _ & Hsub).
Qed.

Lemma crossed_set_records_every_flag_witness :
  VehicleTracker.crossed_vehicles example_tracker_mid
  = VehicleTracker.crossed_vehicles example_tracker1
    ∪ crossed_ids (VehicleTracker.vehicles example_tracker_mid).
Proof.
  destruct (crossed_set_records_every_flag 1 (3 # 10) example_ops1 example_tracker1
              example_run1) as (_ & _ & _ & Hup).
  exact (Hup example_boxes 50 example_tracker_mid _ example_update_mid).
Defined.

(** ** The exceptions of [update] *)

(** A loop that raises has an iteration that raises, on a state of the
    invariant. *)
Lemma for_each_raise {S A : Type} (I : S -> Prop) (body : S -> A -> result S)
    (xs : list A) (s : S) (e : exn) :
  I s ->
  (forall s0 x s1, x ∈ xs -> I s0 -> body s0 x = Ok s1 -> I s1) ->
  for_each body xs s = Raise e ->
  exists s0 x, x ∈ xs /\ I s0 /\ body s0 x = Raise e.
Proof.
  revert s. induction xs as [|x xs IH]; intros s Hs Hbody Hloop; cbn in Hloop.
  - discriminate.
  - destruct (body s x) as [s1|e1] eqn:E; cbn in Hloop.
    + destruct (IH s1) as (s0 & y & Hin & Hs0 & Hy).
      * apply (Hbody s x s1); [apply list_elem_of_here|exact Hs|exact E].
      * intros sa y sb Hin. apply Hbody. now apply list_elem_of_further.
      * exact Hloop.
      * exists s0, y. split; [now apply list_elem_of_further|now split].
    + injection Hloop as ->. exists s, x. split; [apply list_elem_of_here|now split].
Qed.

Section TrackerExceptions.
Import VehicleTracker.

Lemma calculate_overlap_raise (a b : Box) (e : exn) :
  _calculate_overlap a b = Raise e -> e = ZeroDivisionError.
Proof.
  destruct a as [[[x1 y1] w1] h1], b as [[[x2 y2] w2] h2]. unfold _calculate_overlap.
  destruct (_ || _); [discriminate|]. destruct (_ =? 0); [|discriminate].
  now intros [= <-].
Qed.

Lemma scan_detections_raise (thr : Q) (vb : Box) (boxes : list Box) (used : gset Z)
    (e : exn) :
  scan_detections thr vb boxes used = Raise e ->
  e = ZeroDivisionError /\ exists b, b ∈ boxes /\ _calculate_overlap vb b = Raise e.
Proof.
  unfold scan_detections. intros H.
  apply (for_each_raise (fun _ => True)) in H as ([m idx] & [j b] & Hin & _ & Hstep);
    [|exact I|easy].
  unfold scan_step in Hstep. destruct (decide (j ∈ used)); [discriminate|].
  destruct (_calculate_overlap vb b) as [r|e0] eqn:E; cbn [bind] in Hstep.
  { destruct (_ && _); discriminate. }
  injection Hstep as ->. split; [now apply (calculate_overlap_raise vb b)|].
  exists b. split; [|exact E].
  apply elem_of_enumerate_from in Hin as [_ Hl]. apply list_elem_of_lookup. eauto.
Qed.

(** One iteration of the matching loop on a table with the keys of the
    table at the start of the call: it returns and keeps the keys, or the
    scan for the snapshot box of the object raises. *)
Lemma match_body_cases (boxes : list Box) (line : Z) (self : t) (s : MatchState)
    (i id : Z) :
  NoDup (dict_keys (vehicles self)) ->
  (i, id) ∈ enumerate (dict_keys (vehicles self)) ->
  dict_keys (vehicles (ms_tracker s)) = dict_keys (vehicles self) ->
  exists v0,
    (id, v0) ∈ vehicles self
    /\ ((exists s1,
           (let* vb := list_getitem (map (fun kv => bbox (snd kv)) (vehicles self)) i in
            match_step boxes line s (id, vb)) = Ok s1
           /\ dict_keys (vehicles (ms_tracker s1)) = dict_keys (vehicles self))
        \/ (exists e,
              (let* vb := list_getitem (map (fun kv => bbox (snd kv)) (vehicles self)) i in
               match_step boxes line s (id, vb)) = Raise e
              /\ scan_detections (min_overlap_ratio (ms_tracker s)) (bbox v0) boxes
                   (used_bboxes s) = Raise e)).
Proof.
  intros Hnd Hin Hkeys.
  apply elem_of_enumerate_from in Hin as [Hi Hl]. rewrite Z.sub_0_r in Hl.
  unfold dict_keys in Hl. rewrite list_lookup_fmap in Hl.
  destruct (vehicles self !! Z.to_nat i) as [[id0 v0]|] eqn:Hl0; [|discriminate].
  cbn in Hl. injection Hl as ->.
  assert (Hin0 : (id, v0) ∈ vehicles self) by (apply list_elem_of_lookup; eauto).
  exists v0. split; [exact Hin0|].
  assert (Hvb : list_getitem (map (fun kv => bbox (snd kv)) (vehicles self)) i
                = Ok (bbox v0)).
  { apply list_getitem_enumerate. apply elem_of_enumerate_from. split; [exact Hi|].
    rewrite Z.sub_0_r, list_lookup_fmap, Hl0. reflexivity. }
  rewrite Hvb. cbn [bind].
  assert (Hid : id ∈ dict_keys (vehicles (ms_tracker s))).
  { rewrite Hkeys. now apply (elem_of_dict_keys id v0). }
  unfold dict_keys in Hid. apply list_elem_of_fmap in Hid as ([id' v] & E & Hinv).
  cbn in E. subst id'.
  assert (Hnd' : NoDup (dict_keys (vehicles (ms_tracker s)))) by (now rewrite Hkeys).
  destruct (elem_of_split_first id v _ Hnd' Hinv) as (pre & post & Hv & Hk).
  destruct (scan_detections (min_overlap_ratio (ms_tracker s)) (bbox v0) boxes
              (used_bboxes s)) as [best|e] eqn:Hscan.
  - left.
    destruct (match_step_spec boxes line s id (bbox v0) v pre post best Hv Hk Hscan)
      as (s1 & d & Hstep & _ & Hv1 & _).
    exists s1. split; [exact Hstep|].
    rewrite Hv1, <- Hkeys, Hv, !dict_keys_app. reflexivity.
  - right. exists e. split; [|reflexivity].
    unfold match_step. now rewrite Hscan.
Qed.

Lemma update_raise (self : t) (boxes : list Box) (line : Z) (e : exn) :
  tracker_inv self ->
  update self boxes line = Raise e ->
  e = ZeroDivisionError
  /\ exists id v b,
       (id, v) ∈ vehicles self /\ b ∈ boxes
       /\ _calculate_overlap (bbox v) b = Raise ZeroDivisionError.
Proof.
  intros Hinv Hup. pose proof (tracker_inv_nodup self Hinv) as Hnd.
  destruct (Nat.eqb (length boxes) 0) eqn:Hb.
  { destruct boxes; [|discriminate].
    destruct (update_no_detection self line Hinv) as (s' & d & H & _). congruence. }
  destruct (Nat.eqb (length (vehicles self)) 0) eqn:Hv.
  { destruct (update_empty_table self boxes line Hinv Hb) as (s' & d & H & _);
      [|congruence]. now destruct (vehicles self). }
  destruct (for_each
              (fun s iv =>
                 let* vb := list_getitem (map (fun kv => bbox (snd kv)) (vehicles self))
                              (fst iv) in
                 match_step boxes line s (snd iv, vb))
              (enumerate (dict_keys (vehicles self))) (mkMatch self ∅ ∅))
    as [s|e0] eqn:Hmatch.
  { destruct (update_main_branch self boxes line s Hinv Hb Hv Hmatch)
      as (s' & d & H & _). congruence. }
  assert (e0 = e) as ->.
  { unfold update in Hup. rewrite Hb, Hv in Hup.
    rewrite (snapshot_loop (vehicles self) (vehicles self) []) in Hup.
    2:{ intros k v Hin. now apply dict_get_nodup. }
    cbn [bind app] in Hup. rewrite Hmatch in Hup. cbn [bind] in Hup. congruence. }
  apply (for_each_raise
           (fun s => dict_keys (vehicles (ms_tracker s)) = dict_keys (vehicles self)))
    in Hmatch as (s0 & [i id] & Hin & Hkeys & Hbody); [|reflexivity|].
  - cbn [fst snd] in Hbody.
    destruct (match_body_cases boxes line self s0 i id Hnd Hin Hkeys)
      as (v0 & Hin0 & [(s1 & Hok & _)|(e1 & Hraise & Hscan)]); [congruence|].
    rewrite Hraise in Hbody. injection Hbody as ->.
    apply scan_detections_raise in Hscan as (-> & b & Hb' & Hov).
    split; [reflexivity|]. exists id, v0, b. now repeat split.
  - intros sa [i id] sb Hin Hkeys Hbody. cbn [fst snd] in Hbody.
    destruct (match_body_cases boxes line self sa i id Hnd Hin Hkeys)
      as (v0 & _ & [(s1 & Hok & Hk1)|(e1 & Hraise & _)]); [|congruence].
    rewrite Hok in Hbody. now injection Hbody as <-.
Qed.

End TrackerExceptions.

(** X6.  On a tracker reached from a fresh one, a call of [update] raises
    no exception but [ZeroDivisionError]: no key is ever missing from the
    table and no index is out of range.  When it raises, the overlap ratio
    of the box of some object of the table with some detection divides by
    a union area of zero, so one of the two boxes is not well formed. *)
Theorem update_raises_only_zero_division (md : Z) (thr : Q)
    (ops : list VehicleTracker.op) (self : VehicleTracker.t)
    (boxes : list Box) (line : Z) (e : exn) :
  VehicleTracker.run ops (VehicleTracker.__init__ md thr) = Ok self ->
  VehicleTracker.update self boxes line = Raise e ->
  e = ZeroDivisionError
  /\ exists id v b,
       (id, v) ∈ VehicleTracker.vehicles self /\ b ∈ boxes
       /\ VehicleTracker._calculate_overlap (bbox v) b = Raise ZeroDivisionError
       /\ ~ (wf_box (bbox v) /\ wf_box b).
Proof.
  intros Hrun Hup. pose proof (reachable_inv md thr ops self Hrun) as Hinv.
  destruct (update_raise self boxes line e Hinv Hup) as (-> & id & v & b & Hin & Hb & Hov).
  split; [reflexivity|]. exists id, v, b. repeat split; try assumption.
  intros [Hwv Hwb]. destruct (calculate_overlap_wf (bbox v) b Hwv Hwb) as (r & Hr & _).
  congruence.
Qed.

Lemma update_raises_only_zero_division_witness :
  VehicleTracker.run [VehicleTracker.Update [(0, 0, 0, 0)] 50]
    (VehicleTracker.__init__ 10 (3 # 10)) = Ok example_degenerate
  /\ VehicleTracker.update example_degenerate [(0, 0, 0, 0)] 50 = Raise ZeroDivisionError
  /\ exists id v b,
       (id, v) ∈ VehicleTracker.vehicles example_degenerate /\ b ∈ [(0, 0, 0, 0)]
       /\ VehicleTracker._calculate_overlap (bbox v) b = Raise ZeroDivisionError
       /\ ~ (wf_box (bbox v) /\ wf_box b).
Proof.
  split; [vm_compute; reflexivity|]. split; [vm_compute; reflexivity|].
  apply (update_raises_only_zero_division 10 (3 # 10)
           [VehicleTracker.Update [(0, 0, 0, 0)] 50] example_degenerate
           [(0, 0, 0, 0)] 50 ZeroDivisionError); vm_compute; reflexivity.
Defined.

(** ** The event history of the counter *)

Lemma seqZ_sorted (m n : Z) : StronglySorted Z.lt (seqZ m n).
Proof.
  remember (Z.to_nat n) as k eqn:Hk. revert m n Hk.
  induction k as [|k IH]; intros m n Hk.
  - rewrite seqZ_nil by lia. constructor.
  - rewrite seqZ_cons by lia. constructor.
    + apply IH. lia.
    + apply Forall_seqZ. intros; lia.
Qed.

Lemma sorted_of_fmap {A B : Type} (f : A -> B) (R : relation B) (l : list A) :
  StronglySorted R (map f l) -> StronglySorted (fun a b => R (f a) (f b)) l.
Proof.
  induction l as [|a l IH]; cbn; intros H; [constructor|].
  apply StronglySorted_inv in H as [Hs Hall]. constructor; [now apply IH|].
  now rewrite Forall_fmap in Hall.
Qed.

Lemma sorted_filter {A : Type} (R : relation A) (P : A -> Prop)
    `{forall x, Decision (P x)} (l : list A) :
  StronglySorted R l -> StronglySorted R (filter P l).
Proof.
  induction 1 as [|a l Hs IH Hall]; [constructor|].
  rewrite filter_cons. destruct (decide (P a)); [|exact IH].
  constructor; [exact IH|]. apply Forall_forall. intros x Hx.
  apply list_elem_of_filter in Hx as [_ Hx]. rewrite Forall_forall in Hall.
  now apply Hall.
Qed.

Lemma last_of_cons {A : Type} (l : list A) (x : A) :
  List.last (x :: l) x = x \/ List.last (x :: l) x ∈ l.
Proof.
  revert x. induction l as [|y l IH]; intros x; [now left|].
  right. change (List.last (x :: y :: l) x) with (List.last (y :: l) x).
  destruct l as [|z l]; [apply list_elem_of_here|].
  destruct (IH y) as [E|E].
  - assert (List.last (y :: z :: l) x = List.last (y :: z :: l) y) as ->.
    { clear. generalize (z :: l). intros l'. revert z.
      induction l' as [|a l' IH]; intros; [reflexivity|].
      destruct l'; [reflexivity|]. cbn in *. apply (IH a). }
    rewrite E. apply list_elem_of_here.
  - apply list_elem_of_further.
    assert (List.last (y :: z :: l) x = List.last (y :: z :: l) y) as ->; [|exact E].
    clear. generalize (z :: l). intros l'.
    induction l' as [|a l' IH]; [reflexivity|].
    destruct l'; [reflexivity|]. cbn in *. exact IH.
Qed.

Section CounterHistory.
Import VehicleCounter.

Lemma crossing_events_counts (current_time : Q) (c0 : Z) (n : nat) :
  map snd (crossing_events current_time c0 n) = seqZ (c0 + 1) (Z.of_nat n).
Proof.
  unfold crossing_events, seqZ. rewrite map_map, Nat2Z.id. cbn [snd].
  rewrite <- (fmap_S_seq 0), <- list_fmap_compose.
  apply map_ext. intros k. cbn. lia.
Qed.

Lemma update_history_inv (c : t) (vs : dict Vehicle) (fs : Z * Z) (ct : option Q)
    (now : Q) :
  history_inv c -> history_inv (fst (update c vs fs ct now)).
Proof.
  intros [Hh Hc].
  destruct (update_spec c vs fs ct now Hc) as (H1 & H2 & H3 & _).
  split; [|exact H2].
  rewrite H3, map_app, Hh, crossing_events_counts.
  assert (Hsz : vehicle_count (fst (update c vs fs ct now))
                = vehicle_count c
                  + Z.of_nat (size (crossed_ids vs ∖ counted_vehicles c))).
  { rewrite H2, H1, Hc, size_union_alt. lia. }
  rewrite Hsz, seqZ_app by lia. f_equal. f_equal. lia.
Qed.

Lemma run_history_inv (ops : list op) (c : t) :
  history_inv c -> history_inv (run ops c).
Proof.
  revert c. induction ops as [|o ops IH]; intros c Hc; [exact Hc|].
  unfold run. cbn [fold_left]. apply IH.
  destruct o as [vs fs ct now|now]; cbn [step].
  - now apply update_history_inv.
  - split; cbn; [reflexivity|]. now rewrite size_empty.
Qed.

Lemma init_history_inv (position now0 : Q) : history_inv (__init__ position now0).
Proof. split; cbn; [reflexivity|]. now rewrite size_empty. Qed.

Lemma history_sorted (c : t) :
  history_inv c ->
  StronglySorted (fun a b => snd a < snd b) (count_history c).
Proof.
  intros [Hh _]. apply (sorted_of_fmap snd Z.lt). rewrite Hh. apply seqZ_sorted.
Qed.

Lemma inject_Z_nonneg (z : Z) : 0 <= z -> (0 <= inject_Z z)%Q.
Proof. intros Hz. change 0%Q with (inject_Z 0). now rewrite <- Zle_Qle. Qed.

Lemma rate_nonneg (n : Z) (d : Q) : 0 <= n -> (0 < d)%Q -> (0 <= inject_Z n / d * 60)%Q.
Proof.
  intros Hn Hd. apply Qmult_le_0_compat; [|discriminate].
  unfold Qdiv. apply Qmult_le_0_compat; [now apply inject_Z_nonneg|].
  apply Qinv_le_0_compat. now apply Qlt_le_weak.
Qed.

Lemma count_rate_nonneg (c : t) (w now : Q) :
  history_inv c -> (0 <= get_count_rate c w now)%Q.
Proof.
  intros Hc. pose proof (history_sorted c Hc) as Hs. destruct Hc as [_ Hc].
  rewrite get_count_rate_unfold. unfold recent_counts.
  apply (sorted_filter _ (fun tc => Qle_bool (now - fst tc) w = true)) in Hs.
  destruct (filter _ (count_history c)) as [|first rest] eqn:E; [apply Qle_refl|].
  cbv zeta.
  assert (Hfb : (0 <= (if Qltb 0 w then fallback_rate c w else 0))%Q).
  { destruct (Qltb 0 w) eqn:Hw; [|apply Qle_refl]. apply Qltb_lt in Hw.
    unfold fallback_rate. apply rate_nonneg; [lia|exact Hw]. }
  set (fb := if Qltb 0 w then fallback_rate c w else 0%Q) in *. clearbody fb.
  destruct (2 <=? _)%nat; [|exact Hfb].
  destruct (Qltb 0 _) eqn:Ht; [|exact Hfb]. apply Qltb_lt in Ht.
  unfold delta_rate. apply rate_nonneg; [|exact Ht].
  apply StronglySorted_inv in Hs as [_ Hall]. rewrite Forall_forall in Hall.
  destruct (last_of_cons rest first) as [->|Hin]; [lia|].
  specialize (Hall _ Hin). lia.
Qed.

Lemma count_loop_noop (current_time : Q) (vs : dict Vehicle) (c : t) :
  crossed_ids vs ⊆ counted_vehicles c ->
  fold_left (count_step current_time) vs c = c.
Proof.
  induction vs as [|[id v] vs IH]; intros Hsub; [reflexivity|].
  cbn [fold_left]. rewrite crossed_ids_cons in Hsub. cbn [fst snd] in Hsub.
  destruct (crossed_line v) eqn:Hcr.
  - rewrite count_step_counted; [apply IH|]; set_solver.
  - rewrite count_step_not_crossed by assumption. now apply IH.
Qed.

Lemma count_loop_counted (current_time : Q) (vs : dict Vehicle) (c : t) :
  counted_vehicles (fold_left (count_step current_time) vs c)
  = counted_vehicles c ∪ crossed_ids vs.
Proof.
  revert c. induction vs as [|[id v] vs IH]; intros c; cbn [fold_left].
  - unfold crossed_ids. cbn. set_solver.
  - rewrite IH, crossed_ids_cons. cbn [fst snd].
    destruct (decide (id ∈ counted_vehicles c)) as [Hin|Hnin].
    + rewrite count_step_counted by assumption. destruct (crossed_line v); set_solver.
    + destruct (crossed_line v) eqn:Hcr.
      * rewrite count_step_new by assumption. cbn. set_solver.
      * now rewrite count_step_not_crossed by assumption.
Qed.

End CounterHistory.

(** X7.  After any run of [update] and [reset] calls on a fresh counter,
    the event history has exactly one entry per counted crossing and the
    counts of its entries are 1, 2, ..., [vehicle_count] in order; [reset]
    starts the numbering again. *)
Theorem history_numbers_crossings (position now0 : Q) (ops : list VehicleCounter.op) :
  let c := VehicleCounter.run ops (VehicleCounter.__init__ position now0) in
  map snd (VehicleCounter.count_history c) = seqZ 1 (VehicleCounter.vehicle_count c)
  /\ Z.of_nat (length (VehicleCounter.count_history c)) = VehicleCounter.get_count c
  /\ (forall tc, tc ∈ VehicleCounter.count_history c ->
        1 <= snd tc <= VehicleCounter.get_count c)
  /\ (forall now, VehicleCounter.count_history (VehicleCounter.reset c now) = []).
Proof.
  intros c.
  destruct (run_history_inv ops _ (init_history_inv position now0)) as [Hh Hc].
  fold c in Hh, Hc. split; [exact Hh|].
  assert (Hlen : Z.of_nat (length (VehicleCounter.count_history c))
                 = VehicleCounter.vehicle_count c).
  { rewrite <- (length_map snd), Hh, length_seqZ. lia. }
  split; [exact Hlen|]. split; [|reflexivity].
  intros tc Hin. unfold VehicleCounter.get_count.
  assert (Hs : snd tc ∈ seqZ 1 (VehicleCounter.vehicle_count c)).
  { rewrite <- Hh. apply list_elem_of_fmap. now exists tc. }
  apply elem_of_seqZ in Hs. lia.
Qed.

(** X8.  After any run of [update] and [reset] calls on a fresh counter,
    [get_count_rate] is never negative, whatever the window and the
    clock. *)
Theorem count_rate_nonnegative (position now0 : Q) (ops : list VehicleCounter.op)
    (time_window now : Q) :
  (0 <= VehicleCounter.get_count_rate
          (VehicleCounter.run ops (VehicleCounter.__init__ position now0))
          time_window now)%Q.
Proof.
  apply count_rate_nonneg. apply run_history_inv. apply init_history_inv.
Qed.

(** X9.  A second call of [update] with the same table of vehicles counts
    nothing: count, counted-set and history are those of the first call,
    only [last_update_time] is set again, and the same count is
    returned. *)
Theorem update_twice_counts_once (c : VehicleCounter.t) (vehicles : dict Vehicle)
    (fs fs' : Z * Z) (ct ct' : option Q) (now now' : Q) :
  let c1 := fst (VehicleCounter.update c vehicles fs ct now) in
  VehicleCounter.update c1 vehicles fs' ct' now'
  = (VehicleCounter.mkCounter
       (VehicleCounter.detection_line_position c1) (VehicleCounter.vehicle_count c1)
       (VehicleCounter.counted_vehicles c1) (VehicleCounter.count_history c1)
       (match ct' with Some x => x | None => now' end),
     VehicleCounter.vehicle_count c1).
Proof.
  intros c1. unfold VehicleCounter.update at 1.
  rewrite count_loop_noop; [reflexivity|].
  subst c1. unfold VehicleCounter.update. cbn [fst VehicleCounter.counted_vehicles].
  rewrite count_loop_counted. set_solver.
Qed.

(** ** The tables of the speed calculator *)

Section SpeedTables.
Import SpeedCalculator.
Variable np_sqrt : Z -> Q.

Lemma vehicle_step_shape (cft td : Q) (sc sc' : t) (id : Z) (v : Vehicle) :
  vehicle_step np_sqrt cft td sc (id, v) = Ok sc' ->
  exists d,
    vehicle_data sc' = <[id := d]> (vehicle_data sc)
    /\ (speeds sc' = speeds sc \/ exists s, speeds sc' = <[id := s]> (speeds sc)).
Proof.
  unfold vehicle_step. intros H.
  destruct (vehicle_data sc !! id) as [data|].
  - bind_inv H. destruct (Qltb 0 _); injection H as <-; cbn; eexists;
      (split; [reflexivity|]); [right; now eexists|now left].
  - injection H as <-. cbn. eexists. split; [reflexivity|now left].
Qed.

Lemma speed_loop_shape (cft td : Q) (vs : dict Vehicle) :
  forall s0 s1 : t,
    for_each (vehicle_step np_sqrt cft td) vs s0 = Ok s1 ->
    (forall id, is_Some (vehicle_data s1 !! id)
                <-> is_Some (vehicle_data s0 !! id) \/ id ∈ dict_keys vs)
    /\ (forall id, id ∉ dict_keys vs -> speeds s1 !! id = speeds s0 !! id)
    /\ (forall id, is_Some (speeds s0 !! id) -> is_Some (speeds s1 !! id)).
Proof.
  induction vs as [|[id0 v0] vs IH]; intros s0 s1 Hloop; cbn [for_each] in Hloop.
  - injection Hloop as <-. split; [|now split]. intros id. split; [now left|].
    intros [H|H]; [exact H|]. now apply elem_of_nil in H.
  - apply bind_ok in Hloop as (sa & Hstep & Hloop).
    apply vehicle_step_shape in Hstep as (d & Hvd & Hsp).
    destruct (IH sa s1 Hloop) as (Hdom & Hframe & Hmono).
    split; [|split].
    + intros id. rewrite Hdom, Hvd. cbn [dict_keys map fst]. rewrite elem_of_cons.
      destruct (decide (id = id0)) as [->|Hne].
      * rewrite lookup_insert_eq. split; [intros _; right; now left|eauto].
      * rewrite lookup_insert_ne by congruence. tauto.
    + intros id Hid. cbn [dict_keys map fst] in Hid.
      apply not_elem_of_cons in Hid as [Hne Hid]. rewrite (Hframe id Hid).
      destruct Hsp as [->|[s ->]]; [reflexivity|].
      now rewrite lookup_insert_ne by congruence.
    + intros id Hsome. apply Hmono.
      destruct Hsp as [->|[s ->]]; [exact Hsome|].
      destruct (decide (id = id0)) as [->|Hne].
      * rewrite lookup_insert_eq. eauto.
      * now rewrite lookup_insert_ne by congruence.
Qed.

Lemma speed_loop_fields (cft td : Q) (vs : dict Vehicle) (s0 s1 : t) :
  for_each (vehicle_step np_sqrt cft td) vs s0 = Ok s1 ->
  distance_calculator s1 = distance_calculator s0
  /\ fps s1 = fps s0
  /\ last_frame_time s1 = last_frame_time s0.
Proof.
  intros Hloop.
  refine (for_each_invariant
            (fun s => distance_calculator s = distance_calculator s0
                      /\ fps s = fps s0
                      /\ last_frame_time s = last_frame_time s0)
            _ _ s0 s1 _ _ Hloop); [|now repeat split].
  intros sa x sb _ (Ha & Hb & Hc) Hstep.
  apply vehicle_step_fields in Hstep as (-> & -> & ->). now repeat split.
Qed.

Lemma speed_update_shape (sc sc' : t) (vs : dict Vehicle) (fn : option Z)
    (ct : option Q) (now : Q) (ret : gmap Z Q) :
  update np_sqrt sc vs fn ct now = Ok (sc', ret) ->
  ret = speeds sc'
  /\ (forall id, is_Some (vehicle_data sc' !! id) <-> id ∈ dict_keys vs)
  /\ (forall id, id ∉ dict_keys vs -> speeds sc' !! id = speeds sc !! id)
  /\ (forall id, is_Some (speeds sc !! id) -> is_Some (speeds sc' !! id))
  /\ (exists cft, frame_time sc fn ct now = Ok cft /\ last_frame_time sc' = Some cft)
  /\ distance_calculator sc' = distance_calculator sc
  /\ fps sc' = fps sc.
Proof.
  unfold update. intros H. apply bind_ok in H as (cft & Hft & H).
  apply bind_ok in H as (s1 & Hloop & [= <- <-]).
  destruct (speed_loop_shape _ _ vs _ s1 Hloop) as (Hdom & Hframe & Hmono).
  destruct (speed_loop_fields _ _ vs _ s1 Hloop) as (Hdc & Hfps & Hlft).
  cbn in *. split; [reflexivity|]. split; [|split; [exact Hframe|split; [exact Hmono|]]].
  - intros id. split.
    + intros [d Hd]. apply map_lookup_filter_Some in Hd as [_ Hmem]. cbn in Hmem.
      now apply dict_mem_keys.
    + intros Hin. assert (Hs : is_Some (vehicle_data s1 !! id)) by (apply Hdom; now right).
      destruct Hs as [d Hd]. exists d. apply map_lookup_filter_Some. split; [exact Hd|].
      cbn. now apply dict_mem_keys.
  - split; [exists cft; now split|now split].
Qed.

End SpeedTables.

(** X10.  Every call of [SpeedCalculator.update] that returns leaves a
    position history for exactly the identities of the table it was given:
    the history of an identity that is no longer in the table is dropped.
    The table of speeds only grows: the speed of an identity that is not in
    the table is kept as it was, and no identity ever loses its speed.  The
    call returns [self.speeds], records the time of the call as the last
    frame time and changes neither the calibration nor the frame rate. *)
Theorem speed_update_keeps_speeds_drops_positions (np_sqrt : Z -> Q)
    (sc sc' : SpeedCalculator.t) (vehicles : dict Vehicle) (frame_number : option Z)
    (current_time : option Q) (now : Q) (ret : gmap Z Q) :
  SpeedCalculator.update np_sqrt sc vehicles frame_number current_time now
  = Ok (sc', ret) ->
  ret = SpeedCalculator.speeds sc'
  /\ dom (SpeedCalculator.vehicle_data sc') = list_to_set (dict_keys vehicles)
  /\ dom (SpeedCalculator.speeds sc) ⊆ dom (SpeedCalculator.speeds sc')
  /\ (forall id, id ∉ dict_keys vehicles ->
        SpeedCalculator.speeds sc' !! id = SpeedCalculator.speeds sc !! id)
  /\ (exists cft,
        SpeedCalculator.frame_time sc frame_number current_time now = Ok cft
        /\ SpeedCalculator.last_frame_time sc' = Some cft)
  /\ SpeedCalculator.distance_calculator sc' = SpeedCalculator.distance_calculator sc
  /\ SpeedCalculator.fps sc' = SpeedCalculator.fps sc.
Proof.
  intros Hup.
  apply speed_update_shape in Hup as (Hret & Hdom & Hframe & Hmono & Hft & Hdc & Hfps).
  split; [exact Hret|]. split; [|split].
  - apply set_eq. intros id. rewrite elem_of_dom, elem_of_list_to_set. apply Hdom.
  - intros id Hin. apply elem_of_dom. apply Hmono. now apply elem_of_dom.
  - now repeat split.
Qed.

Lemma speed_update_keeps_speeds_drops_positions_witness :
  SpeedCalculator.last_frame_time example_calibrated = Some 0%Q
  /\ dom (SpeedCalculator.vehicle_data example_calibrated)
     = list_to_set (dict_keys [(0, example_vehicle (0, 0, 10, 10))]).
Proof.
  destruct (speed_update_keeps_speeds_drops_positions sqrt_of_square
              (SpeedCalculator.__init__
                 (DistanceCalculator.mkCalc (Some 100%Q) (Some 1%Q) (Some 100%Q)) None)
              example_calibrated [(0, example_vehicle (0, 0, 10, 10))] None (Some 0%Q) 0 ∅)
    as (_ & Hdom & _).
  - vm_compute. reflexivity.
  - split; [reflexivity|exact Hdom].
Defined.

(** ** The sign of the speeds *)

Lemma sum_nonneg (xs : list Q) (a : Q) :
  (0 <= a)%Q -> Forall (fun s => (0 <= s)%Q) xs -> (0 <= fold_left Qplus xs a)%Q.
Proof.
  intros Ha Hall. revert a Ha. induction Hall as [|x xs Hx Hall IH]; intros a Ha.
  - exact Ha.
  - cbn. apply IH. change 0%Q with (0 + 0)%Q. now apply Qplus_le_compat.
Qed.

Lemma np_mean_nonneg (xs : list Q) :
  Forall (fun s => (0 <= s)%Q) xs -> (0 <= np_mean xs)%Q.
Proof.
  intros Hall. unfold np_mean, Qdiv. apply Qmult_le_0_compat.
  - apply sum_nonneg; [apply Qle_refl|exact Hall].
  - apply Qinv_le_0_compat. apply inject_Z_nonneg. lia.
Qed.

Lemma slice_last_forall {A : Type} (P : A -> Prop) (n : Z) (xs : list A) :
  Forall P xs -> Forall P (slice_last n xs).
Proof.
  intros H. unfold slice_last. destruct (n =? 0); [exact H|]. now apply Forall_drop.
Qed.

Section SpeedSign.
Import SpeedCalculator.
Variable np_sqrt : Z -> Q.
Hypothesis np_sqrt_nonneg : forall n, (0 <= np_sqrt n)%Q.

Lemma vehicle_step_nonneg (cft td : Q) (sc sc' : t) (item : Z * Vehicle) :
  (forall ppm, DistanceCalculator.pixels_per_meter (distance_calculator sc) = Some ppm ->
               (0 < ppm)%Q) ->
  speeds_nonneg sc ->
  vehicle_step np_sqrt cft td sc item = Ok sc' ->
  speeds_nonneg sc'.
Proof.
  intros Hppm [Hsp Hvd] H. destruct item as [id v]. unfold vehicle_step in H.
  destruct (vehicle_data sc !! id) as [data|] eqn:Hd.
  2:{ injection H as <-. split; cbn; [exact Hsp|].
      apply map_Forall_insert_2; [constructor|exact Hvd]. }
  apply bind_ok in H as (prev & _ & H).
  apply bind_ok in H as (dm & Hdm & H).
  apply bind_ok in H as (te & _ & H).
  assert (Hdm0 : (0 <= dm)%Q).
  { unfold DistanceCalculator.calculate_distance, DistanceCalculator.pixel_to_meter in Hdm.
    destruct (DistanceCalculator.pixels_per_meter (distance_calculator sc)) as [ppm|]
      eqn:Hc; [|discriminate].
    injection Hdm as <-. unfold Qdiv. apply Qmult_le_0_compat; [apply np_sqrt_nonneg|].
    apply Qinv_le_0_compat. apply Qlt_le_weak. now apply Hppm. }
  pose proof (Hvd id data Hd) as Hhist. cbn in Hhist.
  destruct (Qltb 0 te) eqn:Hte; injection H as <-; split; cbn.
  - apply Qltb_lt in Hte. apply map_Forall_insert_2; [|exact Hsp].
    apply np_mean_nonneg. apply slice_last_forall. apply Forall_app. split; [exact Hhist|].
    constructor; [|constructor]. apply Qmult_le_0_compat; [|discriminate].
    unfold Qdiv. apply Qmult_le_0_compat; [exact Hdm0|].
    apply Qinv_le_0_compat. now apply Qlt_le_weak.
  - apply Qltb_lt in Hte. apply map_Forall_insert_2; [|exact Hvd]. cbn.
    apply Forall_app. split; [exact Hhist|].
    constructor; [|constructor]. apply Qmult_le_0_compat; [|discriminate].
    unfold Qdiv. apply Qmult_le_0_compat; [exact Hdm0|].
    apply Qinv_le_0_compat. now apply Qlt_le_weak.
  - exact Hsp.
  - apply map_Forall_insert_2; [exact Hhist|exact Hvd].
Qed.

Lemma speed_update_nonneg (sc sc' : t) (vs : dict Vehicle) (fn : option Z)
    (ct : option Q) (now : Q) (ret : gmap Z Q) :
  (forall ppm, DistanceCalculator.pixels_per_meter (distance_calculator sc) = Some ppm ->
               (0 < ppm)%Q) ->
  speeds_nonneg sc ->
  update np_sqrt sc vs fn ct now = Ok (sc', ret) ->
  speeds_nonneg sc'.
Proof.
  intros Hppm Hnn H. unfold update in H. apply bind_ok in H as (cft & _ & H).
  apply bind_ok in H as (s1 & Hloop & [= <- <-]).
  assert (H1 : speeds_nonneg s1
               /\ distance_calculator s1 = distance_calculator sc).
  { refine (for_each_invariant
              (fun s => speeds_nonneg s /\ distance_calculator s = distance_calculator sc)
              _ _ _ s1 _ _ Hloop); [|now split].
    intros sa x sb _ [Ha Hdc] Hstep. split.
    - eapply vehicle_step_nonneg; [|exact Ha|exact Hstep]. now rewrite Hdc.
    - apply vehicle_step_fields in Hstep as (-> & _). exact Hdc. }
  destruct H1 as [[Hsp Hvd] _]. split; cbn; [exact Hsp|].
  intros i x Hix. apply map_lookup_filter_Some in Hix as [Hix _]. exact (Hvd i x Hix).
Qed.

End SpeedSign.

Lemma average_speed_nonneg (sc : SpeedCalculator.t) :
  speeds_nonneg sc -> (0 <= SpeedCalculator.get_average_speed sc)%Q.
Proof.
  intros [Hsp _]. unfold SpeedCalculator.get_average_speed.
  destruct (decide (SpeedCalculator.speeds sc = ∅)); [apply Qle_refl|].
  apply np_mean_nonneg. apply Forall_fmap. apply map_Forall_to_list in Hsp.
  eapply Forall_impl; [exact Hsp|]. now intros [k x].
Qed.

(** X11.  When [np.sqrt] returns no negative number and the calibration
    factor, if any, is positive, no speed is ever negative: a fresh
    calculator has no speed, and a call of [update] that returns keeps
    every instantaneous speed, every smoothed speed, the returned table
    and [get_average_speed] at or above zero.  The value -1 that the
    storage writes for a missing speed is therefore never a speed. *)
Theorem speeds_never_negative (np_sqrt : Z -> Q) (sc sc' : SpeedCalculator.t)
    (vehicles : dict Vehicle) (frame_number : option Z) (current_time : option Q)
    (now : Q) (ret : gmap Z Q) :
  (forall n, (0 <= np_sqrt n)%Q) ->
  (forall ppm,
     DistanceCalculator.pixels_per_meter (SpeedCalculator.distance_calculator sc)
     = Some ppm -> (0 < ppm)%Q) ->
  speeds_nonneg sc ->
  SpeedCalculator.update np_sqrt sc vehicles frame_number current_time now
  = Ok (sc', ret) ->
  speeds_nonneg sc'
  /\ (forall id s, ret !! id = Some s -> (0 <= s)%Q)
  /\ (0 <= SpeedCalculator.get_average_speed sc')%Q
  /\ (forall dc f, speeds_nonneg (SpeedCalculator.__init__ dc f)).
Proof.
  intros Hsqrt Hppm Hnn Hup.
  pose proof (speed_update_nonneg np_sqrt Hsqrt sc sc' vehicles frame_number
                current_time now ret Hppm Hnn Hup) as Hnn'.
  split; [exact Hnn'|]. split; [|split].
  - apply (speed_update_shape np_sqrt) in Hup as (-> & _). now destruct Hnn' as [Hsp _].
  - now apply average_speed_nonneg.
  - intros dc f. split; cbn; apply map_Forall_empty.
Qed.

Lemma speeds_never_negative_witness :
  exists sc' ret s,
    SpeedCalculator.update sqrt_of_square example_calibrated
      [(0, example_vehicle (10, 0, 10, 10))] None (Some (1 # 30)) 0 = Ok (sc', ret)
    /\ ret !! 0 = Some s
    /\ (s == 108 # 10)%Q
    /\ (0 <= s)%Q
    /\ speeds_nonneg sc'
    /\ (0 <= SpeedCalculator.get_average_speed sc')%Q.
Proof.
  destruct (SpeedCalculator.update sqrt_of_square example_calibrated
              [(0, example_vehicle (10, 0, 10, 10))] None (Some (1 # 30)) 0)
    as [[sc' ret]|e] eqn:E; [|exfalso; vm_compute in E; discriminate E].
  destruct (ret !! 0) as [s|] eqn:Es;
    [|exfalso; vm_compute in E; injection E as <- <-; vm_compute in Es; discriminate Es].
  destruct (speeds_never_negative sqrt_of_square example_calibrated sc'
              [(0, example_vehicle (10, 0, 10, 10))] None (Some (1 # 30)) 0 ret)
    as (Hnn & Hret & Havg & _).
  - intros n. apply inject_Z_nonneg, Z.sqrt_nonneg.
  - intros ppm [= <-]. reflexivity.
  - split; [apply map_Forall_empty|]. apply map_Forall_singleton. constructor.
  - exact E.
  - exists sc', ret, s. split; [reflexivity|]. split; [exact Es|].
    split; [|split; [exact (Hret 0 s Es)|split; [exact Hnn|exact Havg]]].
    vm_compute in E. injection E as <- <-. vm_compute in Es. injection Es as <-.
    reflexivity.
Defined.

(** ** The outcomes of [SpeedCalculator.update] *)

Section SpeedOutcomes.
Import SpeedCalculator.
Variable np_sqrt : Z -> Q.

Lemma frame_time_cases (sc : t) (fn : option Z) (ct : option Q) (now : Q) :
  (exists f n, fps sc = Some f /\ fn = Some n /\ (f == 0)%Q
               /\ frame_time sc fn ct now = Raise ZeroDivisionError)
  \/ ((~ exists f n, fps sc = Some f /\ fn = Some n /\ (f == 0)%Q)
      /\ exists cft, frame_time sc fn ct now = Ok cft).
Proof.
  unfold frame_time. destruct (fps sc) as [f|]; [destruct fn as [n|]|].
  - destruct (Qeq_bool f 0) eqn:E.
    + left. exists f, n. apply Qeq_bool_iff in E. now repeat split.
    + right. split; [|now eexists]. intros (f' & n' & [= <-] & _ & Hz).
      apply Qeq_bool_iff in Hz. congruence.
  - right. split; [|now eexists]. now intros (f' & n' & _ & [=] & _).
  - right. split; [|now eexists]. now intros (f' & n' & [=] & _).
Qed.

Lemma speed_loop_first_sightings (cft td : Q) (vs : dict Vehicle) :
  forall sc : t,
    NoDup (dict_keys vs) ->
    (forall id, id ∈ dict_keys vs -> vehicle_data sc !! id = None) ->
    exists sc', for_each (vehicle_step np_sqrt cft td) vs sc = Ok sc'.
Proof.
  induction vs as [|[id0 v0] vs IH]; intros sc Hnd Hnew; [now eexists|].
  cbn in Hnd. apply NoDup_cons in Hnd as [Hid Hnd].
  cbn [for_each]. rewrite vehicle_step_first by (apply Hnew; apply list_elem_of_here).
  cbn [bind]. apply IH; [exact Hnd|].
  intros id Hin. cbn. rewrite lookup_insert_ne by (intros ->; contradiction).
  apply Hnew. now apply list_elem_of_further.
Qed.

End SpeedOutcomes.

(** X12.  On a calculator in which every known identity has a recorded
    sample (as in every calculator built by [__init__] and [update]), and
    for a table without repeated ids, [SpeedCalculator.update] has exactly
    three outcomes: [ZeroDivisionError] when a frame number is given while
    the frame rate is set to zero; otherwise [ValueError] when the
    calibration factor is missing and the table holds an identity that is
    already known; otherwise it returns [self.speeds].  It never raises
    [IndexError] or [KeyError]. *)
Theorem speed_update_outcomes (np_sqrt : Z -> Q) (sc : SpeedCalculator.t)
    (vehicles : dict Vehicle) (frame_number : option Z) (current_time : option Q)
    (now : Q) :
  speed_inv sc -> NoDup (dict_keys vehicles) ->
  let known :=
    exists id, id ∈ dict_keys vehicles
               /\ is_Some (SpeedCalculator.vehicle_data sc !! id) in
  let zero_rate :=
    exists f n, SpeedCalculator.fps sc = Some f /\ frame_number = Some n /\ (f == 0)%Q in
  let uncalibrated :=
    DistanceCalculator.pixels_per_meter (SpeedCalculator.distance_calculator sc)
    = None in
  (zero_rate ->
   SpeedCalculator.update np_sqrt sc vehicles frame_number current_time now
   = Raise ZeroDivisionError)
  /\ (~ zero_rate -> uncalibrated -> known ->
      SpeedCalculator.update np_sqrt sc vehicles frame_number current_time now
      = Raise ValueError)
  /\ (~ zero_rate -> ~ (uncalibrated /\ known) ->
      exists sc',
        SpeedCalculator.update np_sqrt sc vehicles frame_number current_time now
        = Ok (sc', SpeedCalculator.speeds sc')).
Proof.
  intros Hinv Hnd known zero_rate uncalibrated. subst known zero_rate uncalibrated.
  destruct (frame_time_cases sc frame_number current_time now)
    as [(f & n & Hf & Hn & Hz & Hft)|(Hnz & cft & Hft)].
  - split; [|split].
    + intros _. unfold SpeedCalculator.update. now rewrite Hft.
    + intros Hnz. exfalso. apply Hnz. now exists f, n.
    + intros Hnz. exfalso. apply Hnz. now exists f, n.
  - split; [intros Hz; contradiction|]. split.
    + intros _ Hunc Hknown. unfold SpeedCalculator.update. rewrite Hft. cbn [bind].
      rewrite speed_loop_uncalibrated; [reflexivity|exact Hinv|exact Hunc|exact Hknown].
    + intros _ Hok.
      destruct (DistanceCalculator.pixels_per_meter
                  (SpeedCalculator.distance_calculator sc)) as [ppm|] eqn:Hc.
      * destruct (speed_update_effect np_sqrt sc vehicles frame_number current_time
                    now cft ppm Hinv Hc Hnd Hft) as (sc' & Hup & _). now exists sc'.
      * assert (Hnew : forall id, id ∈ dict_keys vehicles ->
                                  SpeedCalculator.vehicle_data sc !! id = None).
        { intros id Hin.
          destruct (SpeedCalculator.vehicle_data sc !! id) as [d|] eqn:Hd; [|reflexivity].
          exfalso. apply Hok. split; [reflexivity|]. exists id. split; [exact Hin|].
          rewrite Hd. eauto. }
        unfold SpeedCalculator.update. rewrite Hft. cbn [bind].
        set (td := (cft - _)%Q). set (s0 := SpeedCalculator.mkSpeed _ _ _ _ _).
        destruct (speed_loop_first_sightings np_sqrt cft td vehicles s0 Hnd Hnew)
          as (s1 & Hloop).
        rewrite Hloop. cbn [bind]. now eexists.
Qed.

Lemma speed_update_outcomes_witness :
  exists sc',
    SpeedCalculator.update sqrt_of_square example_uncalibrated
      [(7, example_vehicle (0, 0, 10, 10))] None (Some 1%Q) 0
    = Ok (sc', SpeedCalculator.speeds sc').
Proof.
  apply (speed_update_outcomes sqrt_of_square example_uncalibrated
           [(7, example_vehicle (0, 0, 10, 10))] None (Some 1%Q) 0).
  - unfold speed_inv, example_uncalibrated. cbn.
    apply map_Forall_singleton. cbn. split; discriminate.
  - cbn. apply NoDup_singleton.
  - intros (f & n & Hf & _). discriminate Hf.
  - intros (_ & id & Hin & Hsome). cbn in Hin.
    apply list_elem_of_singleton in Hin as ->.
    vm_compute in Hsome. now destruct Hsome.
Defined.

(** ** Calibration of the distance calculator *)

Section Calibration.
Import DistanceCalculator.

Lemma set_reference_cases (self : t) (p m : Q) :
  ((m == 0)%Q /\ set_reference self p m = Raise ZeroDivisionError)
  \/ (~ (m == 0)%Q
      /\ set_reference self p m = Ok (mkCalc (Some p) (Some m) (Some (p / m)%Q))).
Proof.
  unfold set_reference. destruct (Qeq_bool m 0) eqn:E.
  - left. apply Qeq_bool_iff in E. now split.
  - right. split; [|reflexivity]. intros Hz. apply Qeq_bool_iff in Hz. congruence.
Qed.

Lemma calibrate_cases (self : t) (frame_shape : Z * Z) (lane : Q) :
  ((lane == 0)%Q
   /\ calibrate_from_lane_width self frame_shape lane = Raise ZeroDivisionError)
  \/ (~ (lane == 0)%Q
      /\ calibrate_from_lane_width self frame_shape lane
         = Ok (mkCalc (Some (inject_Z (snd frame_shape) / 3)%Q) (Some lane)
                      (Some (inject_Z (snd frame_shape) / 3 / lane)%Q), true)).
Proof.
  unfold calibrate_from_lane_width.
  destruct (set_reference_cases self (inject_Z (snd frame_shape) / 3)%Q lane)
    as [[Hz ->]|[Hnz ->]]; [now left|now right].
Qed.

End Calibration.

(** X13.  Both conversions of the distance calculator raise [ValueError] as
    long as no calibration factor is set, which is the case after
    [__init__] without both reference widths.  [calibrate_from_lane_width]
    raises [ZeroDivisionError] when the lane width is zero; otherwise it
    returns [True] and leaves, whatever the calculator was, the factor
    [(frame width / 3) / lane width], the same calculator that
    [set_reference] and [__init__] build from these two widths; after it
    no conversion raises [ValueError]. *)
Theorem calibration_enables_conversions (self : DistanceCalculator.t)
    (frame_shape : Z * Z) (lane d : Q) (p m : option Q) :
  (DistanceCalculator.pixels_per_meter self = None ->
   DistanceCalculator.pixel_to_meter self d = Raise ValueError
   /\ DistanceCalculator.meter_to_pixel self d = Raise ValueError)
  /\ (p = None \/ m = None ->
      exists s, DistanceCalculator.__init__ p m = Ok s
                /\ DistanceCalculator.pixels_per_meter s = None)
  /\ ((lane == 0)%Q ->
      DistanceCalculator.calibrate_from_lane_width self frame_shape lane
      = Raise ZeroDivisionError)
  /\ (~ (lane == 0)%Q ->
      let width := (inject_Z (snd frame_shape) / 3)%Q in
      exists s,
        DistanceCalculator.calibrate_from_lane_width self frame_shape lane = Ok (s, true)
        /\ DistanceCalculator.set_reference self width lane = Ok s
        /\ DistanceCalculator.__init__ (Some width) (Some lane) = Ok s
        /\ DistanceCalculator.pixels_per_meter s = Some (width / lane)%Q
        /\ DistanceCalculator.meter_to_pixel s d = Ok (d * (width / lane))%Q
        /\ DistanceCalculator.pixel_to_meter s d <> Raise ValueError
        /\ (snd frame_shape <> 0 ->
            DistanceCalculator.pixel_to_meter s d = Ok (d / (width / lane))%Q)).
Proof.
  split; [|split; [|split]].
  - intros Hc. unfold DistanceCalculator.pixel_to_meter, DistanceCalculator.meter_to_pixel.
    now rewrite Hc.
  - intros [-> | ->]; [|destruct p]; eexists; split; reflexivity.
  - intros Hz. destruct (calibrate_cases self frame_shape lane) as [[_ H]|[Hnz _]];
      [exact H|contradiction].
  - intros Hnz width.
    destruct (calibrate_cases self frame_shape lane) as [[Hz _]|[_ H]]; [contradiction|].
    destruct (set_reference_cases self width lane) as [[Hz _]|[_ Hs]]; [contradiction|].
    eexists. split; [exact H|]. split; [exact Hs|]. split.
    { unfold DistanceCalculator.__init__. destruct (Qeq_bool lane 0) eqn:E; [|reflexivity].
      apply Qeq_bool_iff in E. contradiction. }
    split; [reflexivity|]. split; [reflexivity|]. split; [discriminate|reflexivity].
Qed.

(** ** The frames of the system *)

Section TrackerFacts.
Import VehicleTracker.

(** All that a call of [update] gives on a tracker built by [__init__],
    [register] and [update]. *)
Lemma update_facts (tr tr' : t) (boxes : list Box) (line : Z) (tracked : dict Vehicle) :
  tracker_inv tr -> crossed_inv tr ->
  update tr boxes line = Ok (tr', tracked) ->
  tracked = vehicles tr'
  /\ tracker_inv tr'
  /\ crossed_inv tr'
  /\ evolves tr tr'
  /\ crossed_vehicles tr' = crossed_vehicles tr ∪ crossed_ids (vehicles tr')
  /\ (forall k, next_vehicle_id tr <= k < next_vehicle_id tr' ->
        k ∈ dict_keys (vehicles tr')).
Proof.
  intros Hinv Hcinv Hup.
  destruct (update_char tr boxes line _ Hinv Hup) as (Hret & decided & Hout).
  cbn [fst snd] in Hret, Hout.
  pose proof (update_outcome_evolves tr tr' boxes line decided Hinv Hout) as Hev.
  assert (Hstep : step tr (Update boxes line) = Ok tr').
  { cbn [step]. now rewrite Hup. }
  pose proof (crossed_inv_step tr tr' _ Hinv Hcinv Hstep) as Hcinv'.
  destruct (update_crossed tr boxes line _ (tracker_inv_below tr Hinv)
              (proj1 Hcinv) Hup) as [Hrec' Hnew']. cbn [fst] in Hrec', Hnew'.
  split; [exact Hret|]. split; [now destruct Hev|]. split; [exact Hcinv'|].
  split; [exact Hev|]. split.
  - apply crossed_new_exact; [|exact Hrec'|exact Hnew'].
    now destruct Hout as (_ & _ & _ & _ & _ & _ & Hsub).
  - intros k Hk. destruct Hout as (_ & _ & Hv' & Hn' & _).
    rewrite Hv', dict_keys_app. apply elem_of_app. right.
    apply keys_registrations. lia.
Qed.

End TrackerFacts.

Section Storage.
Import DataStorage.

Lemma add_vehicle_record_spec (st : t) (ft : Q) (speeds : gmap Z Q) (kv : Z * Vehicle) :
  add_vehicle_record st (fst kv) ft (bbox (snd kv)) (speeds !! fst kv)
    (crossed_line (snd kv))
  = mkStorage (output_dir st)
      (vehicle_data st ++ [record_of (session_id st) ft speeds kv])
      (session_start_time st) (session_id st).
Proof.
  unfold add_vehicle_record, record_of. destruct (bbox (snd kv)) as [[[x y] w] h].
  now destruct (speeds !! fst kv).
Qed.

Lemma store_records_spec (ft : Q) (speeds : gmap Z Q) (tracked : dict Vehicle) :
  forall st : t,
    VehicleSpeedDetectionSystem.store_records ft speeds tracked st
    = mkStorage (output_dir st)
        (vehicle_data st ++ map (record_of (session_id st) ft speeds) tracked)
        (session_start_time st) (session_id st).
Proof.
  unfold VehicleSpeedDetectionSystem.store_records.
  induction tracked as [|kv tracked IH]; intros st; cbn [fold_left map].
  - rewrite app_nil_r. now destruct st.
  - rewrite add_vehicle_record_spec, IH. cbn. now rewrite <- app_assoc.
Qed.

Lemma record_of_id (session : string) (ft : Q) (speeds : gmap Z Q) (kv : Z * Vehicle) :
  r_vehicle_id (record_of session ft speeds kv) = fst kv.
Proof. unfold record_of. now destruct (bbox (snd kv)) as [[[x y] w] h]. Qed.

Lemma record_of_crossed (session : string) (ft : Q) (speeds : gmap Z Q)
    (kv : Z * Vehicle) :
  r_crossed_line (record_of session ft speeds kv) = 1 <-> crossed_line (snd kv) = true.
Proof.
  unfold record_of. destruct (bbox (snd kv)) as [[[x y] w] h]. cbn.
  now destruct (crossed_line (snd kv)).
Qed.

Lemma recorded_ids_store (ft : Q) (speeds : gmap Z Q) (tracked : dict Vehicle) (st : t) :
  recorded_ids (VehicleSpeedDetectionSystem.store_records ft speeds tracked st)
  = recorded_ids st ∪ list_to_set (dict_keys tracked).
Proof.
  rewrite store_records_spec. unfold recorded_ids. cbn [vehicle_data].
  rewrite map_app, list_to_set_app_L. f_equal. rewrite map_map. f_equal.
  apply map_ext. intros kv. apply record_of_id.
Qed.

Lemma recorded_crossed_ids_store (ft : Q) (speeds : gmap Z Q) (tracked : dict Vehicle)
    (st : t) :
  recorded_crossed_ids (VehicleSpeedDetectionSystem.store_records ft speeds tracked st)
  = recorded_crossed_ids st ∪ crossed_ids tracked.
Proof.
  rewrite store_records_spec. unfold recorded_crossed_ids. cbn [vehicle_data].
  rewrite filter_app, map_app, list_to_set_app_L. f_equal.
  unfold crossed_ids. f_equal.
  induction tracked as [|kv tracked IH]; [reflexivity|].
  cbn [map]. rewrite !filter_cons.
  destruct (decide (crossed_line (snd kv) = true)) as [Hc|Hc].
  - rewrite decide_True by (now apply record_of_crossed).
    cbn [map]. now rewrite record_of_id, IH.
  - rewrite decide_False by (now rewrite record_of_crossed). exact IH.
Qed.

End Storage.

Section SystemFrames.
Import VehicleSpeedDetectionSystem.
Variable np_sqrt : Z -> Q.

(** The steps of a call of [process_frame] that returns. *)
Lemma process_frame_ok (sys sys' : t) (frame : Frame) (frame_time : option Q) (ft : Q) :
  ft = match frame_time with Some x => x | None => time_default frame end ->
  process_frame np_sqrt sys frame frame_time = Ok sys' ->
  exists tr' tracked s1 sc' speeds,
    VehicleTracker.update (tracker sys) (detected_boxes frame) (detected_line_y frame)
    = Ok (tr', tracked)
    /\ match DistanceCalculator.pixels_per_meter (distance_calculator sys) with
       | None =>
           exists c,
             DistanceCalculator.calibrate_from_lane_width (distance_calculator sys)
               (shape frame) (reference_width_meters (config sys)) = Ok c
             /\ s1 = set_distance_calculator (fst c) sys
       | Some _ => s1 = sys
       end
    /\ SpeedCalculator.update np_sqrt (speed_calculator s1) tracked
         (Some (frame_count sys)) (Some ft) ft = Ok (sc', speeds)
    /\ tracker sys' = tr'
    /\ speed_calculator sys' = sc'
    /\ counter sys'
       = fst (VehicleCounter.update (counter sys) tracked (shape frame) (Some ft) ft)
    /\ data_storage sys' = store_records ft speeds tracked (data_storage sys)
    /\ frame_count sys' = frame_count sys + 1
    /\ config sys' = config sys.
Proof.
  unfold process_frame. intros -> H.
  apply bind_ok in H as ([tr' tracked] & Hup & H).
  apply bind_ok in H as (s1 & Hcal & H).
  apply bind_ok in H as ([sc' speeds] & Hsp & [= <-]).
  exists tr', tracked, s1, sc', speeds. cbn [fst snd] in *.
  split; [exact Hup|]. split; [|now repeat split].
  destruct (DistanceCalculator.pixels_per_meter (distance_calculator sys)) as [ppm|].
  - now injection Hcal as <-.
  - apply bind_ok in Hcal as (c & Hc & [= <-]). now exists c.
Qed.

(** After the calibration step the shared calculator has a factor, and the
    tables of the speed calculator are untouched. *)
Lemma calibration_step (sys s1 : t) (frame : Frame) :
  match DistanceCalculator.pixels_per_meter (distance_calculator sys) with
  | None =>
      exists c,
        DistanceCalculator.calibrate_from_lane_width (distance_calculator sys)
          (shape frame) (reference_width_meters (config sys)) = Ok c
        /\ s1 = set_distance_calculator (fst c) sys
  | Some _ => s1 = sys
  end ->
  (exists ppm,
     DistanceCalculator.pixels_per_meter (distance_calculator s1) = Some ppm
     /\ ppm = match DistanceCalculator.pixels_per_meter (distance_calculator sys) with
              | Some p => p
              | None => (inject_Z (snd (shape frame)) / 3
                         / reference_width_meters (config sys))%Q
              end)
  /\ SpeedCalculator.vehicle_data (speed_calculator s1)
     = SpeedCalculator.vehicle_data (speed_calculator sys)
  /\ SpeedCalculator.speeds (speed_calculator s1)
     = SpeedCalculator.speeds (speed_calculator sys)
  /\ SpeedCalculator.fps (speed_calculator s1) = SpeedCalculator.fps (speed_calculator sys)
  /\ SpeedCalculator.last_frame_time (speed_calculator s1)
     = SpeedCalculator.last_frame_time (speed_calculator sys).
Proof.
  destruct (DistanceCalculator.pixels_per_meter (distance_calculator sys)) as [ppm|] eqn:E.
  - intros ->. split; [|now repeat split]. now exists ppm.
  - intros (c & Hc & ->).
    destruct (calibrate_cases (distance_calculator sys) (shape frame)
                (reference_width_meters (config sys))) as [[_ H]|[_ H]];
      rewrite H in Hc; [discriminate|]. injection Hc as <-.
    split; [|now repeat split]. eexists. split; reflexivity.
Qed.

Lemma positions_follow_update (tr' : VehicleTracker.t) (sc sc' : SpeedCalculator.t)
    (fn : option Z) (ct : option Q) (now ppm : Q) (ret : gmap Z Q) :
  tracker_inv tr' -> speed_inv sc ->
  DistanceCalculator.pixels_per_meter (SpeedCalculator.distance_calculator sc) = Some ppm ->
  SpeedCalculator.update np_sqrt sc (VehicleTracker.vehicles tr') fn ct now = Ok (sc', ret) ->
  positions_follow tr' sc'.
Proof.
  intros Hinv Hsinv Hc Hup. pose proof (tracker_inv_nodup tr' Hinv) as Hnd.
  pose proof Hup as Hshape.
  apply speed_update_shape in Hshape as (_ & Hdom & _ & _ & (cft & Hft & _) & _).
  destruct (speed_update_effect np_sqrt sc _ fn ct now cft ppm Hsinv Hc Hnd Hft)
    as (sc2 & Hup2 & _ & _ & Heff & _).
  rewrite Hup in Hup2. injection Hup2 as <- _.
  split; [exact Hdom|].
  intros id v data Hget Hd. apply dict_get_elem_of in Hget.
  specialize (Heff id v Hget). unfold step_effect in Heff.
  destruct (SpeedCalculator.vehicle_data sc !! id) as [d0|].
  - destruct Heff as (prev & tprev & _ & _ & Hd' & _). rewrite Hd in Hd'.
    injection Hd' as ->. unfold stepped_data. cbn. apply last_snoc.
  - destruct Heff as [Hd' _]. rewrite Hd in Hd'. now injection Hd' as ->.
Qed.

(** Every frame that returns keeps the invariant of the system. *)
Lemma process_frame_inv (sys sys' : t) (frame : Frame) (frame_time : option Q) :
  system_inv sys -> process_frame np_sqrt sys frame frame_time = Ok sys' ->
  system_inv sys'.
Proof.
  intros (Htr & Hcr & Hsp & Hhi & Hcc & Hpf & Hfc & Hcal & Hrid & Hrcr) Hframe.
  destruct (process_frame_ok sys sys' frame frame_time _ eq_refl Hframe)
    as (tr' & tracked & s1 & sc' & speeds & Hup & Hs1 & Hsup & Ht' & Hsc' & Hco' & Hst'
        & Hfc' & _).
  set (ft := match frame_time with Some x => x | None => time_default frame end) in *.
  destruct (update_facts _ tr' _ _ tracked Htr Hcr Hup)
    as (-> & Htr' & Hcr' & Hev & Hcross & Hnewkeys).
  destruct (calibration_step sys s1 frame Hs1)
    as ((ppm & Hppm & _) & Hvd1 & _).
  assert (Hsp1 : speed_inv (speed_calculator s1)).
  { unfold speed_inv. now rewrite Hvd1. }
  pose proof (speed_update_inv np_sqrt _ _ _ _ _ _ Hsp1 Hsup) as Hsp'. cbn [fst] in Hsp'.
  pose proof (positions_follow_update tr' _ sc' _ _ _ ppm speeds Htr' Hsp1 Hppm Hsup)
    as Hpf'.
  apply speed_update_shape in Hsup as (_ & _ & _ & _ & _ & Hdc' & _).
  unfold system_inv. rewrite Ht', Hsc', Hco', Hst', Hfc'.
  split; [exact Htr'|]. split; [exact Hcr'|]. split; [exact Hsp'|].
  split; [now apply update_history_inv|]. split.
  { unfold VehicleCounter.update. cbn [fst VehicleCounter.counted_vehicles].
    now rewrite count_loop_counted, Hcc, Hcross. }
  split; [exact Hpf'|]. split; [lia|]. split.
  { rewrite Hdc'. unfold distance_calculator in Hppm. rewrite Hppm.
    split; [discriminate|lia]. }
  destruct Htr' as (_ & Hbelow' & _). destruct Hcr' as (_ & _ & Hnonneg' & _).
  destruct Hev as (_ & _ & _ & Hnext & _).
  rewrite Forall_forall in Hbelow', Hnonneg'.
  split.
  - rewrite recorded_ids_store, Hrid. apply set_eq. intros k.
    rewrite elem_of_union, !elem_of_list_to_set, !elem_of_seqZ. split.
    + intros [Hk|Hk]; [lia|]. specialize (Hbelow' k Hk). specialize (Hnonneg' k Hk). lia.
    + intros Hk. destruct (Z.lt_ge_cases k (VehicleTracker.next_vehicle_id (tracker sys)));
        [left; lia|right; apply Hnewkeys; lia].
  - now rewrite recorded_crossed_ids_store, Hrcr, Hcross.
Qed.

Lemma set_fps_inv (sys : t) (f : Q) :
  system_inv sys ->
  system_inv (set_speed_calculator
                (SpeedCalculator.set_fps (speed_calculator sys) f) sys).
Proof. intros H. exact H. Qed.

Lemma step_inv (sys sys' : t) (o : op) :
  system_inv sys -> step np_sqrt sys o = Ok sys' -> system_inv sys'.
Proof.
  intros Hinv Hstep.
  destruct o as [frame ft|opened f frames|[frame|]|opened f frames]; cbn [step] in Hstep.
  - now apply (process_frame_inv sys sys' frame ft).
  - unfold process_video in Hstep. destruct opened; [|now injection Hstep as <-].
    refine (for_each_invariant system_inv _ _ _ sys' _ (set_fps_inv sys f Hinv) Hstep).
    intros sa frame sb _ Ha Hb. now apply (process_frame_inv sa sb frame _ Ha Hb).
  - now apply (process_frame_inv sys sys' frame None).
  - now injection Hstep as <-.
  - unfold process_camera in Hstep. destruct opened; [|now injection Hstep as <-].
    refine (for_each_invariant system_inv _ _ _ sys' _ (set_fps_inv sys f Hinv) Hstep).
    intros sa frame sb _ Ha Hb. now apply (process_frame_inv sa sb frame _ Ha Hb).
Qed.

Lemma run_inv (ops : list op) (sys sys' : t) :
  system_inv sys -> run np_sqrt ops sys = Ok sys' -> system_inv sys'.
Proof.
  intros Hinv Hrun.
  refine (for_each_invariant system_inv _ _ sys sys' _ Hinv Hrun).
  intros sa o sb _. apply step_inv.
Qed.

Lemma init_system_inv (config : option ConfigArg) (counter_now storage_now : Q)
    (stamp : string) (now : Q) (sys : t) :
  __init__ config counter_now storage_now stamp now = Ok sys -> system_inv sys.
Proof.
  unfold __init__. cbn. intros [= <-]. unfold system_inv. cbn.
  split; [apply init_inv|]. split; [apply (reachable_crossed_inv 10 (3 # 10) []); reflexivity|].
  split; [apply speed_inv_init|]. split; [apply init_history_inv|].
  split; [reflexivity|]. split.
  { split.
    - intros id. unfold SpeedCalculator.__init__, VehicleTracker.__init__.
      cbn [SpeedCalculator.vehicle_data VehicleTracker.vehicles dict_keys map].
      rewrite lookup_empty. split; [now intros [x Hx]|].
      intros Hin. now apply elem_of_nil in Hin.
    - intros id v data Hget. discriminate Hget. }
  split; [lia|]. split; [easy|]. split; reflexivity.
Qed.

Lemma reachable_system_inv (config : option ConfigArg) (counter_now storage_now : Q)
    (stamp : string) (now : Q) (ops : list op) (sys0 sys : t) :
  __init__ config counter_now storage_now stamp now = Ok sys0 ->
  run np_sqrt ops sys0 = Ok sys ->
  system_inv sys.
Proof.
  intros Hinit Hrun. apply (run_inv ops sys0 sys); [|exact Hrun].
  now apply (init_system_inv config counter_now storage_now stamp now).
Qed.

End SystemFrames.

Section SystemErrors.
Import VehicleSpeedDetectionSystem.
Variable np_sqrt : Z -> Q.

Lemma speed_update_calibrated (sc : SpeedCalculator.t) (vs : dict Vehicle)
    (fn : option Z) (ct : option Q) (now ppm : Q) :
  speed_inv sc -> NoDup (dict_keys vs) ->
  DistanceCalculator.pixels_per_meter (SpeedCalculator.distance_calculator sc) = Some ppm ->
  (exists f n, SpeedCalculator.fps sc = Some f /\ fn = Some n /\ (f == 0)%Q
               /\ SpeedCalculator.update np_sqrt sc vs fn ct now = Raise ZeroDivisionError)
  \/ (exists sc', SpeedCalculator.update np_sqrt sc vs fn ct now
                  = Ok (sc', SpeedCalculator.speeds sc')).
Proof.
  intros Hinv Hnd Hc.
  destruct (frame_time_cases sc fn ct now)
    as [(f & n & Hf & Hn & Hz & Hft)|(_ & cft & Hft)].
  - left. exists f, n. repeat split; try assumption.
    unfold SpeedCalculator.update. now rewrite Hft.
  - right. destruct (speed_update_effect np_sqrt sc vs fn ct now cft ppm Hinv Hc Hnd Hft)
      as (sc' & Hup & _). now exists sc'.
Qed.

(** A frame on a system that satisfies the invariant returns, or raises
    [ZeroDivisionError] in the tracker, in the calibration or in the speed
    calculator. *)
Lemma process_frame_cases (sys : t) (frame : Frame) (frame_time : option Q) :
  system_inv sys ->
  (exists sys', process_frame np_sqrt sys frame frame_time = Ok sys')
  \/ (process_frame np_sqrt sys frame frame_time = Raise ZeroDivisionError
      /\ (VehicleTracker.update (tracker sys) (detected_boxes frame)
            (detected_line_y frame) = Raise ZeroDivisionError
          \/ (DistanceCalculator.pixels_per_meter (distance_calculator sys) = None
              /\ (reference_width_meters (config sys) == 0)%Q)
          \/ (exists f, SpeedCalculator.fps (speed_calculator sys) = Some f
                        /\ (f == 0)%Q))).
Proof.
  intros (Htr & Hcr & Hsp & _). unfold process_frame.
  destruct (VehicleTracker.update (tracker sys) (detected_boxes frame)
              (detected_line_y frame)) as [[tr' tracked]|e] eqn:Hup; cbn [bind].
  2:{ right. apply update_raise in Hup as [-> _]; [|exact Htr].
      split; [reflexivity|now left]. }
  destruct (update_facts _ tr' _ _ tracked Htr Hcr Hup) as (-> & Htr' & _).
  pose proof (tracker_inv_nodup tr' Htr') as Hnd. cbn [snd fst].
  set (ft := match frame_time with Some x => x | None => time_default frame end).
  assert (Hspeed : forall s1 : t,
            SpeedCalculator.vehicle_data (speed_calculator s1)
            = SpeedCalculator.vehicle_data (speed_calculator sys) ->
            SpeedCalculator.fps (speed_calculator s1)
            = SpeedCalculator.fps (speed_calculator sys) ->
            (exists ppm, DistanceCalculator.pixels_per_meter (distance_calculator s1)
                         = Some ppm) ->
            (exists f, SpeedCalculator.fps (speed_calculator sys) = Some f /\ (f == 0)%Q
                       /\ SpeedCalculator.update np_sqrt (speed_calculator s1)
                            (VehicleTracker.vehicles tr') (Some (frame_count sys))
                            (Some ft) ft = Raise ZeroDivisionError)
            \/ (exists r, SpeedCalculator.update np_sqrt (speed_calculator s1)
                            (VehicleTracker.vehicles tr') (Some (frame_count sys))
                            (Some ft) ft = Ok r)).
  { intros s1 Hvd Hfps (ppm & Hppm).
    assert (Hsp1 : speed_inv (speed_calculator s1)).
    { unfold speed_inv. now rewrite Hvd. }
    destruct (speed_update_calibrated (speed_calculator s1) (VehicleTracker.vehicles tr')
                (Some (frame_count sys)) (Some ft) ft ppm Hsp1 Hnd Hppm)
      as [(f & n & Hf & _ & Hz & H)|(sc' & H)].
    - left. exists f. rewrite <- Hfps. split; [exact Hf|]. split; [exact Hz|exact H].
    - right. eexists. exact H. }
  destruct (DistanceCalculator.pixels_per_meter (distance_calculator sys)) as [ppm|] eqn:Hc.
  - cbn [bind].
    destruct (Hspeed sys eq_refl eq_refl) as [(f & Hf & Hz & ->)|(r & ->)]; cbn [bind].
    + now exists ppm.
    + right. split; [reflexivity|]. right. right. now exists f.
    + left. now eexists.
  - destruct (calibrate_cases (distance_calculator sys) (shape frame)
                (reference_width_meters (config sys))) as [[Hz ->]|[_ ->]]; cbn [bind].
    + right. split; [reflexivity|]. right. now left.
    + cbn [fst].
      destruct (Hspeed (set_distance_calculator
                          (DistanceCalculator.mkCalc
                             (Some (inject_Z (snd (shape frame)) / 3)%Q)
                             (Some (reference_width_meters (config sys)))
                             (Some (inject_Z (snd (shape frame)) / 3
                                    / reference_width_meters (config sys))%Q)) sys)
                  eq_refl eq_refl) as [(f & Hf & Hz & ->)|(r & ->)]; cbn [bind].
      * now eexists.
      * right. split; [reflexivity|]. right. right. now exists f.
      * left. now eexists.
Qed.

Lemma process_frame_zero_fps (sys : t) (frame : Frame) (frame_time : option Q) (f : Q) :
  system_inv sys ->
  SpeedCalculator.fps (speed_calculator sys) = Some f -> (f == 0)%Q ->
  process_frame np_sqrt sys frame frame_time = Raise ZeroDivisionError.
Proof.
  intros Hinv Hf Hz.
  destruct (process_frame_cases sys frame frame_time Hinv) as [(sys' & Hok)|[H _]];
    [|exact H].
  exfalso.
  destruct (process_frame_ok np_sqrt sys sys' frame frame_time _ eq_refl Hok)
    as (tr' & tracked & s1 & sc' & speeds & _ & Hs1 & Hsup & _).
  destruct (calibration_step sys s1 frame Hs1) as (_ & _ & _ & Hfps & _).
  unfold SpeedCalculator.update, SpeedCalculator.frame_time in Hsup.
  rewrite Hfps, Hf in Hsup. apply Qeq_bool_iff in Hz. rewrite Hz in Hsup.
  discriminate Hsup.
Qed.

End SystemErrors.

(** X14.  In every system built by [__init__] and driven by its processing
    methods, the counter and the tracker agree after every call: the ids
    counted by the counter are the crossed ids of the tracker, so
    [counter.get_count()] equals [tracker.get_crossed_count()], and every
    object of the table whose flag is set has been counted. *)
Theorem counter_agrees_with_tracker (np_sqrt : Z -> Q)
    (config : option VehicleSpeedDetectionSystem.ConfigArg)
    (counter_now storage_now : Q) (stamp : string) (now : Q)
    (ops : list VehicleSpeedDetectionSystem.op)
    (sys0 sys : VehicleSpeedDetectionSystem.t) :
  VehicleSpeedDetectionSystem.__init__ config counter_now storage_now stamp now = Ok sys0 ->
  VehicleSpeedDetectionSystem.run np_sqrt ops sys0 = Ok sys ->
  VehicleCounter.counted_vehicles (VehicleSpeedDetectionSystem.counter sys)
  = VehicleTracker.crossed_vehicles (VehicleSpeedDetectionSystem.tracker sys)
  /\ VehicleCounter.get_count (VehicleSpeedDetectionSystem.counter sys)
     = Z.of_nat (VehicleTracker.get_crossed_count (VehicleSpeedDetectionSystem.tracker sys))
  /\ crossed_ids (VehicleTracker.vehicles (VehicleSpeedDetectionSystem.tracker sys))
     ⊆ VehicleCounter.counted_vehicles (VehicleSpeedDetectionSystem.counter sys).
Proof.
  intros Hinit Hrun.
  destruct (reachable_system_inv np_sqrt _ _ _ _ _ ops sys0 sys Hinit Hrun)
    as (_ & (Hrec & _) & _ & (_ & Hcount) & Hcc & _).
  split; [exact Hcc|]. split.
  - unfold VehicleCounter.get_count, VehicleTracker.get_crossed_count.
    now rewrite Hcount, Hcc.
  - rewrite Hcc. intros id Hin. apply elem_of_crossed_ids in Hin as (v & Hin & Hc).
    now apply (Hrec id v).
Qed.

Lemma counter_agrees_with_tracker_witness :
  exists sys0 sys,
    VehicleSpeedDetectionSystem.__init__ None 0 0 "s" 0 = Ok sys0
    /\ VehicleSpeedDetectionSystem.run sqrt_of_square
         [VehicleSpeedDetectionSystem.ProcessVideo true 30 [example_frame1; example_frame2]]
         sys0 = Ok sys
    /\ VehicleCounter.get_count (VehicleSpeedDetectionSystem.counter sys)
       = Z.of_nat (VehicleTracker.get_crossed_count
                     (VehicleSpeedDetectionSystem.tracker sys)).
Proof.
  destruct (VehicleSpeedDetectionSystem.__init__ None 0 0 "s" 0) as [sys0|e] eqn:E0;
    [|discriminate E0].
  destruct (VehicleSpeedDetectionSystem.run sqrt_of_square
              [VehicleSpeedDetectionSystem.ProcessVideo true 30
                 [example_frame1; example_frame2]] sys0) as [sys|e] eqn:E.
  - exists sys0, sys. split; [reflexivity|]. split; [exact E|].
    apply (counter_agrees_with_tracker sqrt_of_square None 0 0 "s" 0 _ sys0 sys E0 E).
  - exfalso. injection E0 as <-. vm_compute in E. discriminate E.
Defined.

(** X15.  The system calibrates once, on its first frame.  In every system
    built by [__init__] and driven by its processing methods the distance
    calculator has no factor exactly as long as no frame was processed.  A
    call of [process_frame] that returns raises the frame counter by one; on
    the first frame it sets the factor
    [(frame width / 3) / reference_width_meters], and on every later frame
    it keeps the factor, whatever the width of that frame is. *)
Theorem frames_calibrate_once (np_sqrt : Z -> Q)
    (config : option VehicleSpeedDetectionSystem.ConfigArg)
    (counter_now storage_now : Q) (stamp : string) (now : Q)
    (ops : list VehicleSpeedDetectionSystem.op)
    (sys0 sys : VehicleSpeedDetectionSystem.t) :
  VehicleSpeedDetectionSystem.__init__ config counter_now storage_now stamp now = Ok sys0 ->
  VehicleSpeedDetectionSystem.run np_sqrt ops sys0 = Ok sys ->
  (DistanceCalculator.pixels_per_meter
     (VehicleSpeedDetectionSystem.distance_calculator sys) = None
   <-> VehicleSpeedDetectionSystem.frame_count sys = 0)
  /\ (forall frame frame_time sys',
        VehicleSpeedDetectionSystem.process_frame np_sqrt sys frame frame_time = Ok sys' ->
        VehicleSpeedDetectionSystem.frame_count sys'
        = VehicleSpeedDetectionSystem.frame_count sys + 1
        /\ DistanceCalculator.pixels_per_meter
             (VehicleSpeedDetectionSystem.distance_calculator sys')
           = Some
               match DistanceCalculator.pixels_per_meter
                       (VehicleSpeedDetectionSystem.distance_calculator sys) with
               | Some ppm => ppm
               | None =>
                   (inject_Z (snd (VehicleSpeedDetectionSystem.shape frame)) / 3
                    / VehicleSpeedDetectionSystem.reference_width_meters
                        (VehicleSpeedDetectionSystem.config sys))%Q
               end).
Proof.
  intros Hinit Hrun.
  pose proof (reachable_system_inv np_sqrt _ _ _ _ _ ops sys0 sys Hinit Hrun) as Hinv.
  split; [now destruct Hinv as (_ & _ & _ & _ & _ & _ & _ & Hcal & _)|].
  intros frame frame_time sys' Hframe.
  destruct (process_frame_ok np_sqrt sys sys' frame frame_time _ eq_refl Hframe)
    as (tr' & tracked & s1 & sc' & speeds & _ & Hs1 & Hsup & _ & Hsc' & _ & _ & Hfc' & _).
  split; [exact Hfc'|].
  destruct (calibration_step sys s1 frame Hs1) as ((ppm & Hppm & ->) & _).
  apply speed_update_shape in Hsup as (_ & _ & _ & _ & _ & Hdc' & _).
  unfold VehicleSpeedDetectionSystem.distance_calculator in *.
  now rewrite Hsc', Hdc'.
Qed.

Lemma frames_calibrate_once_witness :
  exists sys0 sys1 sys2,
    VehicleSpeedDetectionSystem.__init__ None 0 0 "s" 0 = Ok sys0
    /\ VehicleSpeedDetectionSystem.process_frame sqrt_of_square sys0 example_frame1 None
       = Ok sys1
    /\ VehicleSpeedDetectionSystem.process_frame sqrt_of_square sys1
         (VehicleSpeedDetectionSystem.mkFrame (240, 320) [(2, 2, 10, 10)] 144 1 1 1 1 1)
         None = Ok sys2
    /\ DistanceCalculator.pixels_per_meter
         (VehicleSpeedDetectionSystem.distance_calculator sys0) = None
    /\ VehicleSpeedDetectionSystem.frame_count sys0 = 0
    /\ VehicleSpeedDetectionSystem.frame_count sys1 = 0 + 1
    /\ DistanceCalculator.pixels_per_meter
         (VehicleSpeedDetectionSystem.distance_calculator sys1)
       = Some (inject_Z 640 / 3 / (35 # 10))%Q
    /\ VehicleSpeedDetectionSystem.frame_count sys2 = 0 + 1 + 1
    /\ DistanceCalculator.pixels_per_meter
         (VehicleSpeedDetectionSystem.distance_calculator sys2)
       = Some (inject_Z 640 / 3 / (35 # 10))%Q.
Proof.
  destruct (VehicleSpeedDetectionSystem.__init__ None 0 0 "s" 0) as [sys0|e] eqn:E0;
    [|discriminate E0].
  destruct (VehicleSpeedDetectionSystem.process_frame sqrt_of_square sys0 example_frame1
              None) as [sys1|e] eqn:E1;
    [|exfalso; injection E0 as <-; vm_compute in E1; discriminate E1].
  destruct (VehicleSpeedDetectionSystem.process_frame sqrt_of_square sys1
              (VehicleSpeedDetectionSystem.mkFrame (240, 320) [(2, 2, 10, 10)] 144
                 1 1 1 1 1) None) as [sys2|e] eqn:E2;
    [|exfalso; injection E0 as <-; vm_compute in E1; injection E1 as <-;
      vm_compute in E2; discriminate E2].
  destruct (frames_calibrate_once sqrt_of_square None 0 0 "s" 0 [] sys0 sys0 E0 eq_refl)
    as [Hfresh Hfirst].
  destruct (Hfirst _ _ _ E1) as [Hfc1 Hppm1].
  assert (Hrun : VehicleSpeedDetectionSystem.run sqrt_of_square
                   [VehicleSpeedDetectionSystem.ProcessFrame example_frame1 None] sys0
                 = Ok sys1).
  { unfold VehicleSpeedDetectionSystem.run. cbn [for_each VehicleSpeedDetectionSystem.step].
    now rewrite E1. }
  destruct (frames_calibrate_once sqrt_of_square None 0 0 "s" 0 _ sys0 sys1 E0 Hrun)
    as [_ Hlater].
  destruct (Hlater _ _ _ E2) as [Hfc2 Hppm2].
  assert (Hnone : DistanceCalculator.pixels_per_meter
                    (VehicleSpeedDetectionSystem.distance_calculator sys0) = None).
  { injection E0 as <-. reflexivity. }
  assert (Hzero : VehicleSpeedDetectionSystem.frame_count sys0 = 0)
    by (now apply Hfresh).
  rewrite Hnone in Hppm1. rewrite Hppm1 in Hppm2. rewrite Hzero in Hfc1.
  rewrite Hfc1 in Hfc2.
  assert (Hcfg : VehicleSpeedDetectionSystem.reference_width_meters
                   (VehicleSpeedDetectionSystem.config sys0) = 35 # 10).
  { injection E0 as <-. reflexivity. }
  rewrite Hcfg in Hppm1, Hppm2.
  exists sys0, sys1, sys2. now repeat split.
Defined.

(** X16.  In a system built by [__init__] and driven by its processing
    methods, the steps of [process_frame] from the tracker to the storage
    raise no exception but [ZeroDivisionError], and only for one of three
    reasons: the tracker divides by a zero union area, the first frame
    calibrates with a reference width of zero, or the frame rate of the
    speed calculator is set to zero.  The [ValueError] of a missing
    calibration cannot occur, since the frame calibrates before it computes
    speeds; no key or index is ever missing. *)
Theorem process_frame_raises_only_zero_division (np_sqrt : Z -> Q)
    (config : option VehicleSpeedDetectionSystem.ConfigArg)
    (counter_now storage_now : Q) (stamp : string) (now : Q)
    (ops : list VehicleSpeedDetectionSystem.op)
    (sys0 sys : VehicleSpeedDetectionSystem.t)
    (frame : VehicleSpeedDetectionSystem.Frame) (frame_time : option Q) (e : exn) :
  VehicleSpeedDetectionSystem.__init__ config counter_now storage_now stamp now = Ok sys0 ->
  VehicleSpeedDetectionSystem.run np_sqrt ops sys0 = Ok sys ->
  VehicleSpeedDetectionSystem.process_frame np_sqrt sys frame frame_time = Raise e ->
  e = ZeroDivisionError
  /\ (VehicleTracker.update (VehicleSpeedDetectionSystem.tracker sys)
        (VehicleSpeedDetectionSystem.detected_boxes frame)
        (VehicleSpeedDetectionSystem.detected_line_y frame) = Raise ZeroDivisionError
      \/ (DistanceCalculator.pixels_per_meter
            (VehicleSpeedDetectionSystem.distance_calculator sys) = None
          /\ (VehicleSpeedDetectionSystem.reference_width_meters
                (VehicleSpeedDetectionSystem.config sys) == 0)%Q)
      \/ (exists f,
            SpeedCalculator.fps (VehicleSpeedDetectionSystem.speed_calculator sys) = Some f
            /\ (f == 0)%Q)).
Proof.
  intros Hinit Hrun Hraise.
  pose proof (reachable_system_inv np_sqrt _ _ _ _ _ ops sys0 sys Hinit Hrun) as Hinv.
  destruct (process_frame_cases np_sqrt sys frame frame_time Hinv)
    as [(sys' & Hok)|[H Hwhy]]; [congruence|].
  rewrite H in Hraise. injection Hraise as <-. now split.
Qed.

Lemma process_frame_raises_only_zero_division_witness :
  exists sys0 e,
    VehicleSpeedDetectionSystem.__init__
      (Some (VehicleSpeedDetectionSystem.mkConfigArg None None (Some 0%Q) None None None))
      0 0 "s" 0 = Ok sys0
    /\ VehicleSpeedDetectionSystem.process_frame sqrt_of_square sys0 example_frame1 None
       = Raise e
    /\ e = ZeroDivisionError.
Proof.
  destruct (VehicleSpeedDetectionSystem.__init__
              (Some (VehicleSpeedDetectionSystem.mkConfigArg None None (Some 0%Q)
                       None None None)) 0 0 "s" 0) as [sys0|e0] eqn:E0;
    [|discriminate E0].
  destruct (VehicleSpeedDetectionSystem.process_frame sqrt_of_square sys0 example_frame1
              None) as [sys'|e] eqn:E.
  - exfalso. injection E0 as <-. vm_compute in E. discriminate E.
  - exists sys0, e. split; [reflexivity|]. split; [exact E|].
    apply (process_frame_raises_only_zero_division sqrt_of_square _ 0 0 "s" 0 [] sys0 sys0
             example_frame1 None e E0 eq_refl E).
Defined.

(** X17.  [process_video] and [process_camera] on a capture that reports a
    frame rate of zero raise [ZeroDivisionError] on the first frame they
    read: the rate is handed to the speed calculator, which divides the
    frame number by it, although [process_video] itself falls back to the
    clock for the time of the frame.  A capture that cannot be opened
    leaves the system as it is. *)
Theorem zero_frame_rate_raises (np_sqrt : Z -> Q)
    (config : option VehicleSpeedDetectionSystem.ConfigArg)
    (counter_now storage_now : Q) (stamp : string) (now : Q)
    (ops : list VehicleSpeedDetectionSystem.op)
    (sys0 sys : VehicleSpeedDetectionSystem.t) (fps : Q)
    (frame : VehicleSpeedDetectionSystem.Frame)
    (frames : list VehicleSpeedDetectionSystem.Frame) :
  VehicleSpeedDetectionSystem.__init__ config counter_now storage_now stamp now = Ok sys0 ->
  VehicleSpeedDetectionSystem.run np_sqrt ops sys0 = Ok sys ->
  (fps == 0)%Q ->
  VehicleSpeedDetectionSystem.process_video np_sqrt sys true fps (frame :: frames)
  = Raise ZeroDivisionError
  /\ VehicleSpeedDetectionSystem.process_camera np_sqrt sys true fps (frame :: frames)
     = Raise ZeroDivisionError
  /\ VehicleSpeedDetectionSystem.process_video np_sqrt sys false fps (frame :: frames)
     = Ok sys
  /\ VehicleSpeedDetectionSystem.process_camera np_sqrt sys false fps (frame :: frames)
     = Ok sys.
Proof.
  intros Hinit Hrun Hz.
  pose proof (reachable_system_inv np_sqrt _ _ _ _ _ ops sys0 sys Hinit Hrun) as Hinv.
  pose proof (set_fps_inv sys fps Hinv) as Hinv1.
  unfold VehicleSpeedDetectionSystem.process_video,
    VehicleSpeedDetectionSystem.process_camera.
  cbn [for_each].
  rewrite !(process_frame_zero_fps np_sqrt _ frame _ fps Hinv1 eq_refl Hz).
  now repeat split.
Qed.

Lemma zero_frame_rate_raises_witness :
  exists sys0,
    VehicleSpeedDetectionSystem.__init__ None 0 0 "s" 0 = Ok sys0
    /\ VehicleSpeedDetectionSystem.process_video sqrt_of_square sys0 true 0
         [example_frame1; example_frame2] = Raise ZeroDivisionError.
Proof.
  destruct (VehicleSpeedDetectionSystem.__init__ None 0 0 "s" 0) as [sys0|e] eqn:E0;
    [|discriminate E0].
  exists sys0. split; [reflexivity|].
  apply (zero_frame_rate_raises sqrt_of_square None 0 0 "s" 0 [] sys0 sys0 0
           example_frame1 [example_frame2] E0 eq_refl). reflexivity.
Defined.

(** ** The records and the summary *)

Lemma size_ids_below (n : Z) :
  0 <= n -> Z.of_nat (size (list_to_set (seqZ 0 n) : gset Z)) = n.
Proof.
  intros Hn. rewrite size_list_to_set by apply NoDup_seqZ.
  rewrite length_seqZ. lia.
Qed.

(** X18.  In every system built by [__init__] and driven by its processing
    methods, the stored records cover every vehicle that was ever
    registered: the vehicle ids of the records are exactly the ids from 0
    up to the next id of the tracker, and the ids of the records that carry
    the crossing mark are exactly the vehicles that the counter has
    counted.  A call of [process_frame] that returns appends one record per
    entry of the tracker's table, in table order, also for the entries that
    were not detected in this frame, with the speeds of the speed
    calculator after the frame and the speed -1 for an id without one. *)
Theorem records_cover_every_vehicle (np_sqrt : Z -> Q)
    (config : option VehicleSpeedDetectionSystem.ConfigArg)
    (counter_now storage_now : Q) (stamp : string) (now : Q)
    (ops : list VehicleSpeedDetectionSystem.op)
    (sys0 sys : VehicleSpeedDetectionSystem.t) :
  VehicleSpeedDetectionSystem.__init__ config counter_now storage_now stamp now = Ok sys0 ->
  VehicleSpeedDetectionSystem.run np_sqrt ops sys0 = Ok sys ->
  recorded_ids (VehicleSpeedDetectionSystem.data_storage sys)
  = list_to_set
      (seqZ 0 (VehicleTracker.next_vehicle_id (VehicleSpeedDetectionSystem.tracker sys)))
  /\ recorded_crossed_ids (VehicleSpeedDetectionSystem.data_storage sys)
     = VehicleCounter.counted_vehicles (VehicleSpeedDetectionSystem.counter sys)
  /\ (forall frame frame_time sys',
        VehicleSpeedDetectionSystem.process_frame np_sqrt sys frame frame_time = Ok sys' ->
        DataStorage.vehicle_data (VehicleSpeedDetectionSystem.data_storage sys')
        = DataStorage.vehicle_data (VehicleSpeedDetectionSystem.data_storage sys)
          ++ map (record_of
                    (DataStorage.session_id (VehicleSpeedDetectionSystem.data_storage sys))
                    (match frame_time with
                     | Some t => t
                     | None => VehicleSpeedDetectionSystem.time_default frame
                     end)
                    (SpeedCalculator.speeds
                       (VehicleSpeedDetectionSystem.speed_calculator sys')))
                 (VehicleTracker.vehicles (VehicleSpeedDetectionSystem.tracker sys'))).
Proof.
  intros Hinit Hrun.
  destruct (reachable_system_inv np_sqrt _ _ _ _ _ ops sys0 sys Hinit Hrun)
    as (Htr & Hcr & _ & _ & Hcc & _ & _ & _ & Hrid & Hrcr).
  split; [exact Hrid|]. split; [now rewrite Hcc|].
  intros frame frame_time sys' Hframe.
  destruct (process_frame_ok np_sqrt sys sys' frame frame_time _ eq_refl Hframe)
    as (tr' & tracked & s1 & sc' & speeds & Hup & _ & Hsup & Ht' & Hsc' & _ & Hst' & _).
  destruct (update_facts _ tr' _ _ tracked Htr Hcr Hup) as (-> & _).
  apply speed_update_shape in Hsup as (-> & _).
  rewrite Hst', store_records_spec, Ht', Hsc'. reflexivity.
Qed.

Lemma records_cover_every_vehicle_witness :
  exists sys0 sys,
    VehicleSpeedDetectionSystem.__init__ None 0 0 "s" 0 = Ok sys0
    /\ VehicleSpeedDetectionSystem.run sqrt_of_square
         [VehicleSpeedDetectionSystem.ProcessVideo true 30 [example_frame1; example_frame2]]
         sys0 = Ok sys
    /\ recorded_ids (VehicleSpeedDetectionSystem.data_storage sys)
       = list_to_set
           (seqZ 0 (VehicleTracker.next_vehicle_id
                      (VehicleSpeedDetectionSystem.tracker sys))).
Proof.
  destruct (VehicleSpeedDetectionSystem.__init__ None 0 0 "s" 0) as [sys0|e] eqn:E0;
    [|discriminate E0].
  destruct (VehicleSpeedDetectionSystem.run sqrt_of_square
              [VehicleSpeedDetectionSystem.ProcessVideo true 30
                 [example_frame1; example_frame2]] sys0) as [sys|e] eqn:E.
  - exists sys0, sys. split; [reflexivity|]. split; [exact E|].
    apply (records_cover_every_vehicle sqrt_of_square None 0 0 "s" 0 _ sys0 sys E0 E).
  - exfalso. injection E0 as <-. vm_compute in E. discriminate E.
Defined.

(** X19.  The counting fields of the summary that [save_data] writes, in
    every system built by [__init__] and driven by its processing methods:
    the field ['crossed_line'] is the count of the counter, and so is the
    field ['total_vehicles'] as soon as one vehicle has crossed the line;
    only while no vehicle has crossed it is ['total_vehicles'] the number of
    vehicles that were ever registered. *)
Theorem summary_counts_crossings (np_sqrt : Z -> Q)
    (config : option VehicleSpeedDetectionSystem.ConfigArg)
    (counter_now storage_now : Q) (stamp : string) (now : Q)
    (ops : list VehicleSpeedDetectionSystem.op)
    (sys0 sys : VehicleSpeedDetectionSystem.t) :
  VehicleSpeedDetectionSystem.__init__ config counter_now storage_now stamp now = Ok sys0 ->
  VehicleSpeedDetectionSystem.run np_sqrt ops sys0 = Ok sys ->
  VehicleSpeedDetectionSystem.save_data_summary_counts sys
  = (if VehicleCounter.get_count (VehicleSpeedDetectionSystem.counter sys) =? 0
     then VehicleTracker.next_vehicle_id (VehicleSpeedDetectionSystem.tracker sys)
     else VehicleCounter.get_count (VehicleSpeedDetectionSystem.counter sys),
     VehicleCounter.get_count (VehicleSpeedDetectionSystem.counter sys)).
Proof.
  intros Hinit Hrun.
  destruct (reachable_system_inv np_sqrt _ _ _ _ _ ops sys0 sys Hinit Hrun)
    as (_ & (_ & _ & _ & Hnext) & _ & (_ & Hcount) & Hcc & _ & _ & _ & Hrid & Hrcr).
  unfold VehicleSpeedDetectionSystem.save_data_summary_counts, DataStorage.summary_counts,
    VehicleCounter.get_count.
  unfold recorded_ids in Hrid. unfold recorded_crossed_ids in Hrcr.
  assert (Hcrossed : Z.of_nat (size (VehicleTracker.crossed_vehicles
                                       (VehicleSpeedDetectionSystem.tracker sys)))
                     = VehicleCounter.vehicle_count
                         (VehicleSpeedDetectionSystem.counter sys)).
  { now rewrite Hcount, Hcc. }
  destruct (DataStorage.vehicle_data (VehicleSpeedDetectionSystem.data_storage sys))
    as [|r rs] eqn:Hdata.
  - cbn in Hrid, Hrcr. rewrite <- Hrcr, size_empty in Hcrossed. rewrite <- Hcrossed. cbn.
    f_equal. rewrite <- (size_ids_below _ Hnext), <- Hrid. now rewrite size_empty.
  - unfold nunique. rewrite Hrid, Hrcr, Hcrossed, (size_ids_below _ Hnext). reflexivity.
Qed.

Lemma summary_counts_crossings_witness :
  exists sys0 sys,
    VehicleSpeedDetectionSystem.__init__ None 0 0 "s" 0 = Ok sys0
    /\ VehicleSpeedDetectionSystem.run sqrt_of_square
         [VehicleSpeedDetectionSystem.ProcessVideo true 30 [example_frame1; example_frame2]]
         sys0 = Ok sys
    /\ VehicleTracker.next_vehicle_id (VehicleSpeedDetectionSystem.tracker sys) = 2
    /\ VehicleSpeedDetectionSystem.save_data_summary_counts sys = (1, 1).
Proof.
  destruct (VehicleSpeedDetectionSystem.__init__ None 0 0 "s" 0) as [sys0|e] eqn:E0;
    [|discriminate E0].
  destruct (VehicleSpeedDetectionSystem.run sqrt_of_square
              [VehicleSpeedDetectionSystem.ProcessVideo true 30
                 [example_frame1; example_frame2]] sys0) as [sys|e] eqn:E.
  - exists sys0, sys. split; [reflexivity|]. split; [exact E|].
    rewrite (summary_counts_crossings sqrt_of_square None 0 0 "s" 0 _ sys0 sys E0 E).
    injection E0 as <-. vm_compute in E. injection E as <-. split; reflexivity.
  - exfalso. injection E0 as <-. vm_compute in E. discriminate E.
Defined.

(** ** The speeds of a video *)

Lemma frame_times_increase (f : Q) (n m : Z) :
  (0 < f)%Q -> n < m -> Qltb 0 (inject_Z m / f - inject_Z n / f) = true.
Proof.
  intros Hf Hnm. apply Qltb_lt. unfold Qminus. rewrite <- Qlt_minus_iff.
  unfold Qdiv. apply Qmult_lt_compat_r; [now apply Qinv_lt_0_compat|].
  now rewrite <- Zlt_Qlt.
Qed.

Lemma positive_not_zero (f : Q) : (0 < f)%Q -> Qeq_bool f 0 = false.
Proof.
  intros Hf. destruct (Qeq_bool f 0) eqn:E; [|reflexivity].
  apply Qeq_bool_iff in E. rewrite E in Hf. now apply Qlt_irrefl in Hf.
Qed.

Section VideoSpeeds.
Import VehicleSpeedDetectionSystem.
Variable np_sqrt : Z -> Q.

(** The effect of a frame on the entries of the speed calculator. *)
Lemma process_frame_effect (sys sys' : t) (frame : Frame) (frame_time : option Q) :
  system_inv sys -> process_frame np_sqrt sys frame frame_time = Ok sys' ->
  exists cft ppm,
    SpeedCalculator.frame_time (speed_calculator sys) (Some (frame_count sys))
      (Some (match frame_time with Some x => x | None => time_default frame end))
      (match frame_time with Some x => x | None => time_default frame end) = Ok cft
    /\ DistanceCalculator.pixels_per_meter (distance_calculator sys') = Some ppm
    /\ SpeedCalculator.fps (speed_calculator sys')
       = SpeedCalculator.fps (speed_calculator sys)
    /\ frame_count sys' = frame_count sys + 1
    /\ forall id v,
         (id, v) ∈ VehicleTracker.vehicles (tracker sys') ->
         step_effect np_sqrt cft ppm (speed_calculator sys) (speed_calculator sys') id v.
Proof.
  intros (Htr & Hcr & Hsp & _) Hframe.
  destruct (process_frame_ok np_sqrt sys sys' frame frame_time _ eq_refl Hframe)
    as (tr' & tracked & s1 & sc' & speeds & Hup & Hs1 & Hsup & Ht' & Hsc' & _ & _
        & Hfc' & _).
  destruct (update_facts _ tr' _ _ tracked Htr Hcr Hup) as (-> & Htr' & _).
  destruct (calibration_step sys s1 frame Hs1)
    as ((ppm & Hppm & _) & Hvd1 & Hsp1 & Hfps1 & _).
  assert (Hinv1 : speed_inv (speed_calculator s1)).
  { unfold speed_inv. now rewrite Hvd1. }
  pose proof Hsup as Hshape.
  apply speed_update_shape in Hshape as (_ & _ & _ & _ & (cft & Hft & _) & Hdc' & Hfps').
  destruct (speed_update_effect np_sqrt _ _ _ _ _ cft ppm Hinv1 Hppm
              (tracker_inv_nodup tr' Htr') Hft) as (sc2 & Hup2 & _ & _ & Heff & _).
  rewrite Hsup in Hup2. injection Hup2 as <- _.
  exists cft, ppm. split.
  { unfold SpeedCalculator.frame_time in *. now rewrite <- Hfps1. }
  split; [unfold distance_calculator; now rewrite Hsc', Hdc'|].
  split; [now rewrite Hsc', Hfps', Hfps1|]. split; [exact Hfc'|].
  intros id v Hin. rewrite Ht' in Hin. specialize (Heff id v Hin).
  unfold step_effect in *. rewrite Hsc'. now rewrite Hvd1, Hsp1 in Heff.
Qed.

(** A frame of a video keeps [video_inv], and gives a speed to every
    identity that is in the table before and after it. *)
Lemma video_frame (f : Q) (sys sys' : t) (frame : Frame) (frame_time : option Q) :
  (0 < f)%Q -> system_inv sys -> video_inv f sys ->
  process_frame np_sqrt sys frame frame_time = Ok sys' ->
  video_inv f sys'
  /\ forall id,
       id ∈ dict_keys (VehicleTracker.vehicles (tracker sys)) ->
       id ∈ dict_keys (VehicleTracker.vehicles (tracker sys')) ->
       is_Some (SpeedCalculator.speeds (speed_calculator sys') !! id).
Proof.
  intros Hf Hinv [Hfps Htimes] Hframe.
  pose proof (process_frame_inv np_sqrt sys sys' frame frame_time Hinv Hframe) as Hinv'.
  destruct (process_frame_effect sys sys' frame frame_time Hinv Hframe)
    as (cft & ppm & Hft & _ & Hfps' & Hfc' & Heff).
  unfold SpeedCalculator.frame_time in Hft.
  rewrite Hfps, (positive_not_zero f Hf) in Hft. injection Hft as <-.
  destruct Hinv as (_ & _ & _ & _ & _ & [Hdom _] & _).
  destruct Hinv' as (_ & _ & _ & _ & _ & [Hdom' _] & _).
  split; [split|].
  - now rewrite Hfps'.
  - intros id d' Hd'. assert (Hin : id ∈ dict_keys (VehicleTracker.vehicles (tracker sys')))
      by (apply Hdom'; now exists d').
    apply dict_get_is_some in Hin as (v & Hget). apply dict_get_elem_of in Hget.
    specialize (Heff id v Hget). unfold step_effect in Heff.
    exists (frame_count sys). split; [lia|].
    destruct (SpeedCalculator.vehicle_data (speed_calculator sys) !! id) as [d|].
    + destruct Heff as (prev & tprev & _ & _ & Hd2 & _). rewrite Hd' in Hd2.
      injection Hd2 as ->. unfold stepped_data. cbn. apply last_snoc.
    + destruct Heff as [Hd2 _]. rewrite Hd' in Hd2. now injection Hd2 as ->.
  - intros id Hin Hin'. apply Hdom in Hin as [d Hd].
    apply dict_get_is_some in Hin' as (v & Hget). apply dict_get_elem_of in Hget.
    specialize (Heff id v Hget). unfold step_effect in Heff. rewrite Hd in Heff.
    destruct Heff as (prev & tprev & _ & Htp & _ & Hsp').
    destruct (Htimes id d Hd) as (n & Hn & Hlast). rewrite Hlast in Htp.
    injection Htp as <-. rewrite Hsp'. unfold stepped_speeds.
    rewrite (frame_times_increase f n (frame_count sys) Hf Hn).
    rewrite lookup_insert_eq. now eexists.
Qed.

Lemma video_loop_inv (f : Q) (frames : list Frame) (s0 s : t) :
  (0 < f)%Q -> system_inv s0 -> video_inv f s0 ->
  for_each
    (fun s frame =>
       let frame_time := if Qltb 0 f
                         then (inject_Z (frame_count s) / f)%Q
                         else time_default frame in
       process_frame np_sqrt s frame (Some frame_time))
    frames s0 = Ok s ->
  system_inv s /\ video_inv f s.
Proof.
  intros Hf Hinv Hv Hloop.
  refine (for_each_invariant (fun s => system_inv s /\ video_inv f s) _ _ s0 s _ _ Hloop);
    [|now split].
  intros sa frame sb _ [Ha Hva] Hb. cbv zeta in Hb. split.
  - now apply (process_frame_inv np_sqrt sa sb frame _ Ha Hb).
  - now apply (video_frame f sa sb frame _ Hf Ha Hva Hb).
Qed.

End VideoSpeeds.

(** X20.  While [process_video] runs on a new system over a video whose
    frame rate is positive, every vehicle that is in the tracker's table on
    two successive frames has a speed after the second one: the frames are
    timed by their number, so the time between two frames is positive.
    Only the vehicles registered by the last frame have no speed. *)
Theorem video_gives_every_tracked_vehicle_a_speed (np_sqrt : Z -> Q)
    (config : option VehicleSpeedDetectionSystem.ConfigArg)
    (counter_now storage_now : Q) (stamp : string) (now : Q)
    (sys0 s1 s2 : VehicleSpeedDetectionSystem.t) (fps : Q)
    (frames : list VehicleSpeedDetectionSystem.Frame)
    (frame : VehicleSpeedDetectionSystem.Frame) (id : Z) :
  VehicleSpeedDetectionSystem.__init__ config counter_now storage_now stamp now = Ok sys0 ->
  (0 < fps)%Q ->
  VehicleSpeedDetectionSystem.process_video np_sqrt sys0 true fps frames = Ok s1 ->
  VehicleSpeedDetectionSystem.process_video np_sqrt sys0 true fps (frames ++ [frame])
  = Ok s2 ->
  id ∈ dict_keys (VehicleTracker.vehicles (VehicleSpeedDetectionSystem.tracker s1)) ->
  id ∈ dict_keys (VehicleTracker.vehicles (VehicleSpeedDetectionSystem.tracker s2)) ->
  is_Some (SpeedCalculator.speeds (VehicleSpeedDetectionSystem.speed_calculator s2) !! id).
Proof.
  intros Hinit Hf H1 H2 Hin1 Hin2.
  pose proof (init_system_inv _ _ _ _ _ sys0 Hinit) as Hinv0.
  unfold VehicleSpeedDetectionSystem.process_video in H1, H2.
  rewrite for_each_app, H1 in H2. cbn [bind for_each] in H2.
  destruct (VehicleSpeedDetectionSystem.process_frame np_sqrt s1 frame _)
    as [s|] eqn:Hframe; [|discriminate H2]. cbn [bind] in H2. injection H2 as ->.
  destruct (video_loop_inv np_sqrt fps frames _ s1 Hf
              (set_fps_inv sys0 fps Hinv0)) as [Hinv1 Hv1]; [|exact H1|].
  { split; [reflexivity|]. intros k d Hd. exfalso.
    unfold VehicleSpeedDetectionSystem.__init__ in Hinit. cbn in Hinit.
    injection Hinit as <-. cbn in Hd. now rewrite lookup_empty in Hd. }
  destruct (video_frame np_sqrt fps s1 s2 frame _ Hf Hinv1 Hv1 Hframe) as [_ Hsp].
  now apply Hsp.
Qed.

Lemma video_gives_every_tracked_vehicle_a_speed_witness :
  exists sys0 s1 s2,
    VehicleSpeedDetectionSystem.__init__ None 0 0 "s" 0 = Ok sys0
    /\ VehicleSpeedDetectionSystem.process_video sqrt_of_square sys0 true 30
         [example_frame1] = Ok s1
    /\ VehicleSpeedDetectionSystem.process_video sqrt_of_square sys0 true 30
         ([example_frame1] ++ [example_frame2]) = Ok s2
    /\ is_Some (SpeedCalculator.speeds (VehicleSpeedDetectionSystem.speed_calculator s2)
                !! 0).
Proof.
  destruct (VehicleSpeedDetectionSystem.__init__ None 0 0 "s" 0) as [sys0|e] eqn:E0;
    [|discriminate E0].
  destruct (VehicleSpeedDetectionSystem.process_video sqrt_of_square sys0 true 30
              [example_frame1]) as [s1|e] eqn:E1.
  - destruct (VehicleSpeedDetectionSystem.process_video sqrt_of_square sys0 true 30
                ([example_frame1] ++ [example_frame2])) as [s2|e] eqn:E2.
    + exists sys0, s1, s2. split; [reflexivity|]. split; [exact E1|]. split; [exact E2|].
      apply (video_gives_every_tracked_vehicle_a_speed sqrt_of_square None 0 0 "s" 0
               sys0 s1 s2 30 [example_frame1] example_frame2 0 E0); [reflexivity|exact E1
               |exact E2| |].
      * injection E0 as <-. vm_compute in E1. injection E1 as <-. vm_compute.
        apply list_elem_of_here.
      * injection E0 as <-. vm_compute in E2. injection E2 as <-. vm_compute.
        apply list_elem_of_here.
    + exfalso. injection E0 as <-. vm_compute in E2. discriminate E2.
  - exfalso. injection E0 as <-. vm_compute in E1. discriminate E1.
Defined.

(** ** The vehicles that a frame misses *)

Section MissedVehicles.
Import VehicleTracker.

(** An object that stays in the table across a call of [update] was matched
    with a detection, or keeps its box and is one call older. *)
Lemma update_kept_object (tr tr' : t) (boxes : list Box) (line : Z)
    (tracked : dict Vehicle) (id : Z) (v v' : Vehicle) :
  tracker_inv tr ->
  update tr boxes line = Ok (tr', tracked) ->
  dict_get id (vehicles tr) = Some v ->
  dict_get id (vehicles tr') = Some v' ->
  (disappeared v' = 0 /\ bbox v' ∈ boxes)
  \/ (disappeared v' = disappeared v + 1 /\ bbox v' = bbox v
      /\ 0 < disappeared v').
Proof.
  intros Hinv Hup Hget Hget'.
  destruct (update_char tr boxes line _ Hinv Hup) as (_ & decided & Hout).
  cbn [fst] in Hout. destruct Hout as (Hdec & Hgreedy & Hv' & _).
  pose proof (tracker_inv_nodup tr Hinv) as Hnd.
  destruct Hinv as (_ & Hbelow & Hage).
  rewrite Forall_forall in Hbelow. rewrite Forall_forall in Hage.
  apply dict_get_elem_of in Hget'. rewrite Hv' in Hget'.
  apply elem_of_app in Hget' as [Hin|Hin].
  - apply elem_of_resolve in Hin as (v0 & d & Hin & Hres).
    pose proof (decided_elem_of decided _ id v0 d Hdec Hin) as Hin0.
    apply (dict_get_nodup _ _ _ Hnd) in Hin0. rewrite Hget in Hin0. injection Hin0 as <-.
    unfold resolve in Hres. cbn [fst snd] in Hres. destruct d as [[j b]|].
    + apply list_elem_of_singleton in Hres. injection Hres as ->. left.
      split; [reflexivity|]. cbn.
      destruct (greedy_ok_elem _ _ _ _ _ _ _ Hgreedy Hin) as (used & Hd).
      destruct Hd as (Hd & _). destruct (Hd j b eq_refl) as ((Hjb & _) & _).
      unfold enumerate in Hjb. apply elem_of_enumerate_from in Hjb as [_ Hjb].
      apply list_elem_of_lookup. eauto.
    + destruct (_ >? _); [now apply elem_of_nil in Hres|].
      apply list_elem_of_singleton in Hres. injection Hres as ->. right.
      cbn. split; [reflexivity|]. split; [reflexivity|].
      apply dict_get_elem_of in Hget. specialize (Hage _ Hget). cbn in Hage. lia.
  - exfalso. apply elem_of_dict_keys in Hin. apply keys_registrations in Hin.
    apply dict_get_keys in Hget. specialize (Hbelow id Hget). lia.
Qed.

End MissedVehicles.

Lemma instantaneous_kmh_still (np_sqrt : Z -> Q) (ppm elapsed : Q) (p : Z * Z) :
  (np_sqrt 0%Z == 0)%Q -> (instantaneous_kmh np_sqrt ppm p p elapsed == 0)%Q.
Proof.
  intros H0. unfold instantaneous_kmh, euclidean_pixels. rewrite !Z.sub_diag.
  change (0 ^ 2 + 0 ^ 2) with 0. rewrite H0. unfold Qdiv. now rewrite !Qmult_0_l.
Qed.

(** X21.  A vehicle that the tracker keeps without matching it in a frame
    (its count of missed frames after the frame is not zero) keeps its box
    and is one frame older, and the frame stores the same position for it
    once more.  The speed that the frame measures for it, if the time since
    its last sample is positive, is therefore zero, given that
    [np.sqrt(0)] is zero and the calibration factor is not: the frames in
    which a vehicle is not detected enter its speed history as zeros. *)
Theorem missed_vehicle_measures_zero_speed (np_sqrt : Z -> Q)
    (config : option VehicleSpeedDetectionSystem.ConfigArg)
    (counter_now storage_now : Q) (stamp : string) (now : Q)
    (ops : list VehicleSpeedDetectionSystem.op)
    (sys0 sys sys' : VehicleSpeedDetectionSystem.t)
    (frame : VehicleSpeedDetectionSystem.Frame) (frame_time : option Q)
    (id : Z) (v v' : Vehicle) :
  (np_sqrt 0%Z == 0)%Q ->
  VehicleSpeedDetectionSystem.__init__ config counter_now storage_now stamp now = Ok sys0 ->
  VehicleSpeedDetectionSystem.run np_sqrt ops sys0 = Ok sys ->
  VehicleSpeedDetectionSystem.process_frame np_sqrt sys frame frame_time = Ok sys' ->
  (forall ppm,
     DistanceCalculator.pixels_per_meter
       (VehicleSpeedDetectionSystem.distance_calculator sys') = Some ppm ->
     ~ (ppm == 0)%Q) ->
  dict_get id (VehicleTracker.vehicles (VehicleSpeedDetectionSystem.tracker sys)) = Some v ->
  dict_get id (VehicleTracker.vehicles (VehicleSpeedDetectionSystem.tracker sys'))
  = Some v' ->
  disappeared v' <> 0 ->
  bbox v' = bbox v
  /\ disappeared v' = disappeared v + 1
  /\ exists d d',
       SpeedCalculator.vehicle_data (VehicleSpeedDetectionSystem.speed_calculator sys)
       !! id = Some d
       /\ SpeedCalculator.vehicle_data (VehicleSpeedDetectionSystem.speed_calculator sys')
          !! id = Some d'
       /\ SpeedCalculator.positions d'
          = SpeedCalculator.positions d ++ [SpeedCalculator.center (bbox v)]
       /\ last (SpeedCalculator.positions d) = Some (SpeedCalculator.center (bbox v))
       /\ (SpeedCalculator.speeds_history d' = SpeedCalculator.speeds_history d
           \/ exists s,
                SpeedCalculator.speeds_history d'
                = SpeedCalculator.speeds_history d ++ [s]
                /\ (s == 0)%Q).
Proof.
  intros H0 Hinit Hrun Hframe _ Hget Hget' Hmissed.
  pose proof (reachable_system_inv np_sqrt _ _ _ _ _ ops sys0 sys Hinit Hrun) as Hinv.
  destruct (process_frame_ok np_sqrt sys sys' frame frame_time _ eq_refl Hframe)
    as (tr' & tracked & _ & _ & _ & Hup & _ & _ & Ht' & _).
  destruct (process_frame_effect np_sqrt sys sys' frame frame_time Hinv Hframe)
    as (cft & ppm & _ & _ & _ & _ & Heff).
  destruct Hinv as (Htr & _ & _ & _ & _ & [Hdom Hlast] & _).
  rewrite Ht' in Hget'.
  destruct (update_kept_object _ tr' _ _ tracked id v v' Htr Hup Hget Hget')
    as [[Hz _]|(Hage & Hbox & _)]; [contradiction|].
  split; [exact Hbox|]. split; [exact Hage|].
  destruct (proj2 (Hdom id) (dict_get_keys _ _ _ Hget)) as [d Hd].
  pose proof (Hlast id v d Hget Hd) as Hprev.
  rewrite <- Ht' in Hget'. apply dict_get_elem_of in Hget'.
  specialize (Heff id v' Hget'). unfold step_effect in Heff. rewrite Hd in Heff.
  destruct Heff as (prev & tprev & Hprev' & _ & Hd' & _).
  rewrite Hprev in Hprev'. injection Hprev' as <-.
  exists d, (stepped_data np_sqrt cft v' ppm d (SpeedCalculator.center (bbox v)) tprev).
  split; [exact Hd|]. split; [exact Hd'|]. unfold stepped_data. cbn. rewrite Hbox.
  split; [reflexivity|]. split; [exact Hprev|].
  destruct (Qltb 0 (cft - tprev)); [right|now left].
  eexists. split; [reflexivity|]. now apply instantaneous_kmh_still.
Qed.

Lemma missed_vehicle_measures_zero_speed_witness :
  exists sys0 sys sys' v v',
    VehicleSpeedDetectionSystem.__init__ None 0 0 "s" 0 = Ok sys0
    /\ VehicleSpeedDetectionSystem.run sqrt_of_square
         [VehicleSpeedDetectionSystem.ProcessVideo true 30 [example_frame1]] sys0 = Ok sys
    /\ VehicleSpeedDetectionSystem.process_frame sqrt_of_square sys example_frame2
         (Some (1 # 30)) = Ok sys'
    /\ dict_get 1 (VehicleTracker.vehicles (VehicleSpeedDetectionSystem.tracker sys))
       = Some v
    /\ dict_get 1 (VehicleTracker.vehicles (VehicleSpeedDetectionSystem.tracker sys'))
       = Some v'
    /\ disappeared v' <> 0
    /\ bbox v' = bbox v.
Proof.
  destruct (VehicleSpeedDetectionSystem.__init__ None 0 0 "s" 0) as [sys0|e] eqn:E0;
    [|discriminate E0].
  destruct (VehicleSpeedDetectionSystem.run sqrt_of_square
              [VehicleSpeedDetectionSystem.ProcessVideo true 30 [example_frame1]] sys0)
    as [sys|e] eqn:E1;
    [|exfalso; injection E0 as <-; vm_compute in E1; discriminate E1].
  destruct (VehicleSpeedDetectionSystem.process_frame sqrt_of_square sys example_frame2
              (Some (1 # 30))) as [sys'|e] eqn:E2;
    [|exfalso; injection E0 as <-; vm_compute in E1; injection E1 as <-;
      vm_compute in E2; discriminate E2].
  destruct (dict_get 1 (VehicleTracker.vehicles (VehicleSpeedDetectionSystem.tracker sys)))
    as [v|] eqn:Ev;
    [|exfalso; injection E0 as <-; vm_compute in E1; injection E1 as <-;
      vm_compute in Ev; discriminate Ev].
  destruct (dict_get 1 (VehicleTracker.vehicles (VehicleSpeedDetectionSystem.tracker sys')))
    as [v'|] eqn:Ev';
    [|exfalso; injection E0 as <-; vm_compute in E1; injection E1 as <-;
      vm_compute in E2; injection E2 as <-; vm_compute in Ev'; discriminate Ev'].
  assert (Hmissed : disappeared v' <> 0).
  { injection E0 as <-. vm_compute in E1. injection E1 as <-.
    vm_compute in E2. injection E2 as <-. vm_compute in Ev'. injection Ev' as <-.
    discriminate. }
  exists sys0, sys, sys', v, v'.
  split; [reflexivity|]. split; [exact E1|]. split; [exact E2|]. split; [exact Ev|].
  split; [exact Ev'|]. split; [exact Hmissed|].
  apply (missed_vehicle_measures_zero_speed sqrt_of_square None 0 0 "s" 0
           [VehicleSpeedDetectionSystem.ProcessVideo true 30 [example_frame1]]
           sys0 sys sys' example_frame2 (Some (1 # 30)) 1 v v');
    try assumption; [reflexivity|].
  intros ppm Hppm. injection E0 as <-. vm_compute in E1. injection E1 as <-.
  vm_compute in E2. injection E2 as <-. vm_compute in Hppm. injection Hppm as <-.
  discriminate.
Defined.

(** ** The frame-rate statistics *)

Section FrameRate.
Import VehicleSpeedDetectionSystem.
Variable np_sqrt : Z -> Q.

Lemma process_frame_stats (sys sys' : t) (frame : Frame) (frame_time : option Q) :
  process_frame np_sqrt sys frame frame_time = Ok sys' ->
  exists times2,
    times2 = (let times1 := processing_times sys ++ [(time_end frame - time_start frame)%Q] in
              if (10 <? length times1)%nat then tail times1 else times1)
    /\ processing_times sys' = times2
    /\ fps sys'
       = (if Qltb 0 (fold_left Qplus times2 0 / inject_Z (Z.of_nat (length times2)))
          then 1 / (fold_left Qplus times2 0 / inject_Z (Z.of_nat (length times2)))
          else 0)%Q.
Proof.
  unfold process_frame. intros H.
  apply bind_ok in H as (tracked & _ & H).
  apply bind_ok in H as (s1 & _ & H).
  apply bind_ok in H as (sped & _ & [= <-]).
  eexists. split; [reflexivity|]. split; reflexivity.
Qed.

Lemma stats_step (P : t -> Prop) (sys sys' : t) (o : op) :
  (forall s f, P s -> P (set_speed_calculator (SpeedCalculator.set_fps (speed_calculator s) f) s)) ->
  (forall s s' frame ft, P s -> process_frame np_sqrt s frame ft = Ok s' -> P s') ->
  P sys -> step np_sqrt sys o = Ok sys' -> P sys'.
Proof.
  intros Hset Hframe Hs Hstep.
  destruct o as [frame ft|opened f frames|[frame|]|opened f frames]; cbn [step] in Hstep.
  - now apply (Hframe sys sys' frame ft).
  - unfold process_video in Hstep. destruct opened; [|now injection Hstep as <-].
    refine (for_each_invariant P _ _ _ sys' _ (Hset sys f Hs) Hstep).
    intros sa frame sb _ Ha Hb. now apply (Hframe sa sb frame _ Ha Hb).
  - now apply (Hframe sys sys' frame None).
  - now injection Hstep as <-.
  - unfold process_camera in Hstep. destruct opened; [|now injection Hstep as <-].
    refine (for_each_invariant P _ _ _ sys' _ (Hset sys f Hs) Hstep).
    intros sa frame sb _ Ha Hb. now apply (Hframe sa sb frame _ Ha Hb).
Qed.

Lemma stats_frame (sys sys' : t) (frame : Frame) (frame_time : option Q) :
  (length (processing_times sys) <= 10)%nat ->
  process_frame np_sqrt sys frame frame_time = Ok sys' ->
  (1 <= length (processing_times sys') <= 10)%nat
  /\ (0 <= fps sys')%Q
  /\ processing_times sys'
     = drop (length (processing_times sys) + 1 - 10)
            (processing_times sys ++ [(time_end frame - time_start frame)%Q]).
Proof.
  intros Hlen Hframe.
  destruct (process_frame_stats sys sys' frame frame_time Hframe)
    as (times2 & Htimes & -> & ->). cbv zeta in Htimes.
  assert (Hdrop : times2
                  = drop (length (processing_times sys) + 1 - 10)
                         (processing_times sys
                          ++ [(time_end frame - time_start frame)%Q])).
  { rewrite Htimes, length_app. cbn [length].
    destruct (Nat.ltb_spec 10 (length (processing_times sys) + 1)) as [Hgt|Hle].
    - replace (length (processing_times sys) + 1 - 10)%nat with 1%nat by lia.
      now destruct (processing_times sys ++ _).
    - now replace (length (processing_times sys) + 1 - 10)%nat with 0%nat by lia. }
  split; [|split; [|exact Hdrop]].
  - rewrite Hdrop, length_drop, length_app. cbn [length]. lia.
  - destruct (Qltb 0 _) eqn:E; [|apply Qle_refl].
    apply Qltb_lt in E. unfold Qdiv at 1. rewrite Qmult_1_l.
    apply Qinv_le_0_compat. now apply Qlt_le_weak.
Qed.

End FrameRate.

(** X22.  The frame rate that the system reports is never negative, and it
    is computed from the processing times of at most ten frames: in every
    system built by [__init__] and driven by its processing methods the
    list of processing times has at most ten entries, and a call of
    [process_frame] that returns leaves the last ten entries of the list
    extended by its own processing time, which are at least one. *)
Theorem frame_rate_window (np_sqrt : Z -> Q)
    (config : option VehicleSpeedDetectionSystem.ConfigArg)
    (counter_now storage_now : Q) (stamp : string) (now : Q)
    (ops : list VehicleSpeedDetectionSystem.op)
    (sys0 sys : VehicleSpeedDetectionSystem.t) :
  VehicleSpeedDetectionSystem.__init__ config counter_now storage_now stamp now = Ok sys0 ->
  VehicleSpeedDetectionSystem.run np_sqrt ops sys0 = Ok sys ->
  (length (VehicleSpeedDetectionSystem.processing_times sys) <= 10)%nat
  /\ (0 <= VehicleSpeedDetectionSystem.fps sys)%Q
  /\ (forall frame frame_time sys',
        VehicleSpeedDetectionSystem.process_frame np_sqrt sys frame frame_time = Ok sys' ->
        (1 <= length (VehicleSpeedDetectionSystem.processing_times sys') <= 10)%nat
        /\ VehicleSpeedDetectionSystem.processing_times sys'
           = drop (length (VehicleSpeedDetectionSystem.processing_times sys) + 1 - 10)
               (VehicleSpeedDetectionSystem.processing_times sys
                ++ [(VehicleSpeedDetectionSystem.time_end frame
                     - VehicleSpeedDetectionSystem.time_start frame)%Q])).
Proof.
  intros Hinit Hrun.
  assert (Hinv : (length (VehicleSpeedDetectionSystem.processing_times sys) <= 10)%nat
                 /\ (0 <= VehicleSpeedDetectionSystem.fps sys)%Q).
  { refine (for_each_invariant
              (fun s => (length (VehicleSpeedDetectionSystem.processing_times s) <= 10)%nat
                        /\ (0 <= VehicleSpeedDetectionSystem.fps s)%Q)
              _ _ sys0 sys _ _ Hrun).
    - intros sa o sb _ Ha Hb.
      refine (stats_step np_sqrt
                (fun s =>
                   (length (VehicleSpeedDetectionSystem.processing_times s) <= 10)%nat
                   /\ (0 <= VehicleSpeedDetectionSystem.fps s)%Q) sa sb o _ _ Ha Hb).
      + intros s f Hs. exact Hs.
      + intros s s' frame ft [Hlen _] Hframe.
        destruct (stats_frame np_sqrt s s' frame ft Hlen Hframe) as ([_ Hle] & Hfps & _).
        now split.
    - unfold VehicleSpeedDetectionSystem.__init__ in Hinit. cbn in Hinit.
      injection Hinit as <-. cbn. split; [lia|apply Qle_refl]. }
  destruct Hinv as [Hlen Hfps]. split; [exact Hlen|]. split; [exact Hfps|].
  intros frame frame_time sys' Hframe.
  destruct (stats_frame np_sqrt sys sys' frame frame_time Hlen Hframe) as (H1 & _ & H2).
  now split.
Qed.

Lemma frame_rate_window_witness :
  exists sys0 sys,
    VehicleSpeedDetectionSystem.__init__ None 0 0 "s" 0 = Ok sys0
    /\ VehicleSpeedDetectionSystem.run sqrt_of_square
         [VehicleSpeedDetectionSystem.ProcessVideo true 30 [example_frame1; example_frame2]]
         sys0 = Ok sys
    /\ (length (VehicleSpeedDetectionSystem.processing_times sys) <= 10)%nat
    /\ (0 <= VehicleSpeedDetectionSystem.fps sys)%Q.
Proof.
  destruct (VehicleSpeedDetectionSystem.__init__ None 0 0 "s" 0) as [sys0|e] eqn:E0;
    [|discriminate E0].
  destruct (VehicleSpeedDetectionSystem.run sqrt_of_square
              [VehicleSpeedDetectionSystem.ProcessVideo true 30
                 [example_frame1; example_frame2]] sys0) as [sys|e] eqn:E.
  - exists sys0, sys. split; [reflexivity|]. split; [exact E|].
    destruct (frame_rate_window sqrt_of_square None 0 0 "s" 0 _ sys0 sys E0 E)
      as (H1 & H2 & _). now split.
  - exfalso. injection E0 as <-. vm_compute in E. discriminate E.
Defined.
